(* ===== verification/_CoqProject ===== *)
-Q . S2P
Prelude.v
Qt.v
World.v
Crypto.v
Reference.v
CryptoTheorems.v
ReplayGuard.v
ReplayTheorems.v
Server.v
Scenario.v
ServerLemmas.v
ServerFrame.v
ServerStream.v
ServerInvariant.v
ServerPairing.v
ServerLifecycle.v
ServerAuth.v
ServerHistory.v
ServerSession.v
ServerProgress.v
ServerReplies.v
Protocol.v
ServerRefinement.v
ServerPromises.v
Pam.v
PamTheorems.v
Credential.v
MainWindow.v
PairingDialog.v
Desktop.v
Program.v
Com.v
ComTheorems.v
Daemon.v
DaemonTheorems.v
DaemonRuns.v
DaemonPairing.v
Login.v
DaemonScenario.v
CrossService.v
DaemonMain.v
WindowsLogin.v
Mobile.v
MobileTheorems.v
MobileSession.v
MobileScenario.v
MobileAsync.v
MobileTasks.v
Proximity.v
