(* ===== verification/Prelude.v ===== *)
(** * OpenBioUnlock: a verification development

    OpenBioUnlock unlocks a workstation with a phone.  The C and C++ parts of
    the repository are the desktop controller (src/core, src/ui, main.cpp under
    src/src), the Windows credential provider (src/windows-cp) and the Linux PAM
    module (src/linux-pam); a Rust daemon (src/daemon) answers the latter two,
    and a Dart app (src/mobile) is the phone.  This library models all five as
    executable definitions, translated function by function, and proves what they
    guarantee.

    ** How the parts interact

    The phone connects to [Server] over TCP, pairs with the one-time code that
    [PairingDialog] shows as a QR code, and from then on exchanges AES-256-GCM
    envelopes under the X25519 secret agreed while pairing: it asks for a
    challenge and answers with an Ed25519 signature.  [Server] calls the functions
    of crypto.cpp, keeps the replay guard, and emits signals that [MainWindow]
    shows.  [MainWindow] also shows what [BleDiscovery] scans.  [main] ties server
    and window together.  The PAM module and the credential provider are loaded
    into the login process and write to the socket or the pipe of the daemon.
    The daemon shows the phone a challenge for each waiting login and answers
    the login once a paired key has signed it; it has its own key list and its
    own idea of pairing.

    ** The files

    - [Prelude]: bytes, machine integers, the state monad [M] in which undefined
      behaviour is the missing result, [wlp] and [wp], the step tactics, list
      lemmas.
    - [Qt]: the data of Qt the program manipulates, the interface [QtCore] of
      what Qt computes and the laws [QtLaws] the program relies on.
    - [World]: the interface [OpenSSL] with [OpenSSLSizes], the heap of EVP
      objects, clock, random numbers, and the trace of events and signals.
    - [Crypto] (src/src/core/crypto.cpp): [generateX25519KeyPair],
      [x25519SharedSecret], [encryptAes256Gcm], [decryptAes256Gcm],
      [verifyEd25519], [isFreshTimestamp], statement by statement over the EVP
      heap; the [_run] lemmas reduce each to a composition of OpenSSL calls.
      [CryptoTheorems] has their properties.
    - [Reference]: concrete instances of the interfaces, for the witnesses only.
    - [ReplayGuard] (crypto.cpp, [ReplayGuard::accept]): the test before the mutex
      and the critical section are separate, so that [ReplayTheorems] can
      interleave concurrent callers ([accept_step]).
    - [Server] (src/src/core/server.cpp): the members as a record, every member
      function as a computation.  [ServerLemmas]: the stepping rules and the frame
      property.  [ServerFrame]: which members the slots leave alone ([slot],
      [service]).  [ServerStream]: the line protocol over TCP chunks.
      [ServerInvariant]: [server_step] (one constructor per slot and operation)
      and [server_ok].  [ServerPairing], [ServerLifecycle], [ServerAuth],
      [ServerSession], [ServerProgress]: pairing; start, stop, QR payload and
      discovery; authorization; envelopes and complete sessions; progress.
      [ServerReplies]: the type of every line the server writes.  [ServerHistory]:
      the history of a run, line by line and operation by operation ([served]),
      with what each did to the outside ([deed]), computed from the request.
      [Scenario]: the concrete server the witnesses run.
    - [Protocol]: the abstract specification of the workstation: a code, the keys
      and the spent messages, the events that may happen when ([pstep], [prun]), and
      what every run of it guarantees.  It models no code.  [ServerRefinement]: a
      forward simulation ([represents], [operates], [answers]) through every
      operation of [Server]; runs of the server are runs of the protocol, event by
      item of their history ([recorded]).  [ServerPromises]: what that says of the
      requests the server received.
    - [Credential] (src/src/core/credential.cpp, credential.hpp): the class as the
      interface [CredentialStore] with its contract [CredentialContract], its
      three bodies as instances, over the interfaces [WindowsVault] and
      [SecretVault], and the choice of the preprocessor ([Build]).
    - [MainWindow] (src/src/ui/main_window.cpp, src/src/core/ble_discovery.cpp):
      the lists, the thresholds, the scanner; [window_event], [window_step] and
      [window_ok].
    - [PairingDialog] (src/src/ui/pairing_dialog.cpp): the dialog, the raster of
      the QR code, the copy button.
    - [Desktop] (src/src/main.cpp): [main], and the running program as one system:
      server, window, scanner, dialog and clipboard under the events of the
      network, the user and the tray menu ([event], [desktop_step]).  [Program]
      carries the theorems about the server over to it and adds the log on the
      screen.
    - [Pam], [PamTheorems] (src/linux-pam/pam_openbiounlock.c): the module over an
      arbitrary kernel ([Kernel]).
    - [Com], [ComTheorems] (src/windows-cp): the COM objects with their reference
      counts, the factory, the DLL entry points, the pipe.
    - [Daemon] (src/daemon/src: server.rs, store.rs, crypto.rs): every connection
      is a [Task], cut into [Action]s where another connection can run: at every
      await and between the read and the write of the vault; [daemon_step] runs
      any action.  The crates are the interface [Crates].  [DaemonTheorems]:
      [transition] (what an action can do), the history invariant [daemon_ok].
      [DaemonRuns]: answers and notifications along runs.  [DaemonPairing]: the
      key list.  [DaemonScenario]: concrete crates and the witnesses.
    - [Login]: the daemon's answers as the PAM module reads them; [SerdeText] says
      what serde_json writes.  [CrossService]: one signature at both services.
      [WindowsLogin]: what the credential provider asks of the daemon.
      [DaemonMain] (src/daemon/src/main.rs, the listeners of server.rs): the
      process from its start to its exit ([process_act]), on either platform.
    - [Mobile] (src/mobile/lib): the keys and envelopes of crypto_service.dart, the
      pairing flow of main.dart over one socket, the scanner page, the proximity
      filter of ble_service.dart, as computations that may throw.  [MobileTheorems]:
      keys, signatures, proximity, how far a pairing gets.  [MobileAsync]: the calls
      of crypto_service.dart cut at their awaits, and calls that overlap ([Async],
      [app_step]); alone, each is the sequence of [Mobile].  [MobileTasks]: what
      holds under every interleaving, and what does not.  [Proximity]: the
      proximity switch of main.dart and ble_service.dart, cut at its awaits
      ([switch_step]), and the GATT connection.  [MobileSession]: phone and
      workstation together, over [Interop]; [MobileScenario]: the witnesses.

    ** What the theorems show

    - Cryptography: no leak on any path, undefined behaviour exactly for nonces of
      one to ten bytes, the round trip of AES-256-GCM, the exact domain of [isFreshTimestamp].
    - Replay guard: the exact decision; between two cleanups a token is accepted
      at most once under every interleaving; after a cleanup it is accepted again.
    - Server: the invariant in every reachable state; chunking does not matter;
      one reply per line; who is registered by a [pair] request; who is
      authorized; no effect without an authentic envelope; both directions of the
      envelope; the type of every reply; an honest session succeeds.  The server
      refines the abstract protocol, with three consequences for the requests in its
      history: a logged authorization goes back to a request with a fresh signature
      valid under the key its device presented when it was paired last, a
      pairing with a code presents the last code, unused and in its window, and on a
      clock that does not go back a signed message is honoured at most three times,
      twice if the clock does not jump during a request.
      Deviations from the documentation
      are theorems too: pairing with the empty code, authorization without a
      challenge, the nonce a rejected signature uses up, short nonces.
    - Daemon: under every interleaving it answers a login with true only after it
      verified a fresh signature over its own challenge under a stored key, and
      approves a challenge once; every login can be answered within 30 seconds.
      Its deviations: anyone who can connect pairs, an early approval is lost,
      concurrent pairings lose a key, an unreadable vault is overwritten, and its
      approvals are valid at the desktop server too.  The process that main.rs starts
      reaches exactly the states of the daemon, and one failed accept ends it.
    - Phone: it signs only after the biometric approval, also when calls overlap;
      every call is answered; its keys survive a
      restart, but a half-failed initialization sticks, and two calls that overlap
      on a new phone make two keys; the proximity filter is a
      hysteresis; the page listens exactly while its switch is on, the phone scans
      exactly then if taps do not overlap, and may scan on if they do; the
      workstation registers a phone that then reports a failure,
      because it listens to its socket a second time.
    - Login: on the daemon's answers the textual test of the PAM module is exact,
      and a granted login rests on a verified signature.
    - PAM: a login is granted only after the whole request was sent and a matching
      line was read; the socket is always closed; the call returns; the user name
      is not escaped.
    - Credential provider: clients are safe, counters are exact, the credential
      of a provider leaks, a logon is never completed, and the daemon is never asked
      to have it approved.
    - Credential store: which builds keep the contract of the class: the Secret
      Service does; on Windows nothing can be read back.
    - Window: the device list is a set, the log is bounded, the thresholds stay
      in order; the QR image is exact.
    - Desktop: the whole program keeps the invariants of its parts from a
      successful start on; its server refines the protocol, and what its log shows
      of authorizations is true; a device that scans the displayed code pairs and is
      shown; quitting ends the program and closing the window does not.

    ** Bounds and fuel

    [processBuffer] takes one unit of fuel more than the buffer has bytes: every
    round removes at least the newline ([readClient_lines] shows it is enough).
    The random fills take the number of words their arrays have room for.  The
    loops of the PAM module take their fuel as arguments; [authenticate_returns]
    gives an amount that is enough.  [trimLog] takes the length of the list and
    [proximityChanged] needs two nested calls ([proximity_settles]).  The daemon
    needs no fuel: its loops are the repeated steps of a connection; the phone's
    loop runs over the chunks its socket delivers.

    ** What is not modelled

    Of the Dart app the widgets are left out, and two pairings that have a socket
    open at the same time.  The protocol buffer file is not used by any code, and
    the build and installation scripts have no behaviour at run time.  Qt, OpenSSL,
    qrcodegen, DPAPI, libsecret, COM itself, the kernel, the Rust crates and the Dart
    packages are interfaces.  The functions of OpenSSL are functions: what a call
    does depends on its arguments and objects, so that an allocation fails always or
    never within a run; the theorems hold for every choice.  The layout of
    the widgets and the scaling of the pixmap have no behaviour of the program's
    own.  server.cpp line 50 lacks a closing brace in the initializer of [packet];
    [broadcastDiscovery] models the object its members spell. *)
From stdpp Require Import base gmap sets list strings.
From Stdlib Require Import ZArith Lia.

(** ** Bytes *)

Abbreviation byte := Init.Byte.byte.

#[export] Instance byte_eq_dec : EqDecision byte := Byte.byte_eq_dec.

#[export] Program Instance byte_countable : Countable byte :=
  inj_countable Byte.to_N Byte.of_N _.
Next Obligation. intros b. apply Byte.of_to_N. Qed.

(** The byte a C++ conversion [char(z)] or [unsigned char(z)] stores: [z] modulo 256. *)
Definition byte_of_Z (z : Z) : byte :=
  default Init.Byte.x00 (Byte.of_N (Z.to_N (z mod 256))).

Definition Z_of_byte (b : byte) : Z := Z.of_N (Byte.to_N b).

Lemma Z_of_byte_range b : (0 <= Z_of_byte b < 256)%Z.
Proof. unfold Z_of_byte. pose proof (Byte.to_N_bounded b). lia. Qed.

Lemma Z_of_byte_of_Z z : Z_of_byte (byte_of_Z z) = (z mod 256)%Z.
Proof.
  unfold byte_of_Z, Z_of_byte.
  pose proof (Z.mod_pos_bound z 256 ltac:(lia)) as Hz.
  destruct (Byte.of_N (Z.to_N (z mod 256))) as [b|] eqn:Hb; simpl.
  - apply Byte.to_of_N in Hb. rewrite Hb. lia.
  - apply Byte.of_N_None_iff in Hb. lia.
Qed.

Lemma Z_of_byte_inj b1 b2 : Z_of_byte b1 = Z_of_byte b2 → b1 = b2.
Proof.
  unfold Z_of_byte. intros H%N2Z.inj.
  pose proof (Byte.of_to_N b1) as H1. rewrite H, Byte.of_to_N in H1. congruence.
Qed.

(** The characters of a C string literal. *)
Definition bytes (s : string) : list byte := String.list_byte_of_string s.

Definition newline : byte := Init.Byte.x0a.
Definition nul : byte := Init.Byte.x00.

(** ** Machine integers *)

(** Two's-complement reading of [z] on [w] bits: what an implementation-defined
    narrowing conversion to a [w]-bit signed type yields. *)
Definition swrap (w z : Z) : Z := ((z + 2 ^ (w - 1)) mod 2 ^ w - 2 ^ (w - 1))%Z.

Definition in_range (w z : Z) : Prop := (- 2 ^ (w - 1) <= z < 2 ^ (w - 1))%Z.

#[export] Instance in_range_dec w z : Decision (in_range w z).
Proof. unfold in_range. apply _. Defined.

Lemma swrap_id w z : (0 < w)%Z → in_range w z → swrap w z = z.
Proof.
  unfold in_range, swrap. intros Hw Hz.
  assert (2 ^ w = 2 * 2 ^ (w - 1))%Z as E.
  { rewrite <- Z.pow_succ_r by lia. f_equal. lia. }
  rewrite Z.mod_small; lia.
Qed.

(** Signed arithmetic whose overflow is undefined behaviour: [None] when the
    mathematical result does not fit. *)
Definition checked (w z : Z) : option Z := if decide (in_range w z) then Some z else None.

Lemma checked_Some w z r : checked w z = Some r ↔ r = z ∧ in_range w z.
Proof. unfold checked. case_decide; naive_solver. Qed.

Lemma checked_in w z : in_range w z → checked w z = Some z.
Proof. intros. apply checked_Some. done. Qed.

(** ** A state monad in which undefined behaviour is the missing result

    [M S A] is a computation that reads and changes a state [S] and returns an
    [A]; [None] means that the C++ abstract machine gives the execution no
    meaning (signed overflow, out-of-bounds access, use after free). *)

Definition M (S A : Type) : Type := S → option (A * S).

#[export] Instance M_ret {S} : MRet (M S) := λ A a s, Some (a, s).
#[export] Instance M_bind {S} : MBind (M S) :=
  λ A B f m s, match m s with Some (a, s') => f a s' | None => None end.

Definition undefined {S A} : M S A := λ _, None.
Definition get {S} : M S S := λ s, Some (s, s).
Definition gets {S A} (f : S → A) : M S A := λ s, Some (f s, s).
Definition modify {S} (f : S → S) : M S unit := λ s, Some (tt, f s).
Definition defined {S A} (o : option A) : M S A :=
  λ s, match o with Some a => Some (a, s) | None => None end.

(** Run a computation on a part of the state. *)
Definition zoom {S T A} (get_part : S → T) (set_part : T → S → S) (m : M T A) : M S A :=
  λ s, match m (get_part s) with
       | Some (a, t) => Some (a, set_part t s)
       | None => None
       end.

(** [for (x : l) body(x)]. *)
Fixpoint for_each {S A} (l : list A) (body : A → M S unit) : M S unit :=
  match l with
  | [] => mret tt
  | x :: l => body x ;; for_each l body
  end.

Section Monad.
Context {S A B C : Type}.
Implicit Types (m : M S A) (s : S).

Lemma M_bind_Some m (f : A → M S B) s b s'' :
  (m ≫= f) s = Some (b, s'') ↔ ∃ a s', m s = Some (a, s') ∧ f a s' = Some (b, s'').
Proof.
  unfold mbind, M_bind. destruct (m s) as [[a s']|]; split; naive_solver.
Qed.

Lemma bind_run m (f : A → M S B) s a s' : m s = Some (a, s') → (m ≫= f) s = f a s'.
Proof. unfold mbind, M_bind. by intros ->. Qed.

Lemma bind_stuck m (f : A → M S B) s : m s = None → (m ≫= f) s = None.
Proof. unfold mbind, M_bind. by intros ->. Qed.
End Monad.

(** ** Partial and total correctness of monadic code *)

(** [wlp m Q s]: if [m] started in [s] is defined, its result satisfies [Q]. *)
Definition wlp {S A} (m : M S A) (Q : A → S → Prop) (s : S) : Prop :=
  ∀ a s', m s = Some (a, s') → Q a s'.

(** [wp m Q s]: [m] started in [s] is defined and its result satisfies [Q]. *)
Definition wp {S A} (m : M S A) (Q : A → S → Prop) (s : S) : Prop :=
  ∃ a s', m s = Some (a, s') ∧ Q a s'.

Section Triples.
Context {S A B : Type}.
Implicit Types (m : M S A) (s : S).

Lemma wlp_ret (a : A) (Q : A → S → Prop) s : Q a s → wlp (mret a) Q s.
Proof. unfold wlp, mret, M_ret. naive_solver. Qed.

Lemma wlp_bind m (f : A → M S B) Q s : wlp m (λ a, wlp (f a) Q) s → wlp (m ≫= f) Q s.
Proof. intros H b s'' (a & s' & Hm & Hf)%M_bind_Some. by eapply H. Qed.

Lemma wlp_mono m (P Q : A → S → Prop) s : (∀ a s', P a s' → Q a s') → wlp m P s → wlp m Q s.
Proof. unfold wlp. naive_solver. Qed.

Lemma wlp_and m (P Q : A → S → Prop) s :
  wlp m P s → wlp m Q s → wlp m (λ a s', P a s' ∧ Q a s') s.
Proof. unfold wlp. naive_solver. Qed.

Lemma wlp_gets (f : S → A) (Q : A → S → Prop) s : Q (f s) s → wlp (gets f) Q s.
Proof. unfold wlp, gets. naive_solver. Qed.

Lemma wlp_modify (f : S → S) (Q : unit → S → Prop) s : Q tt (f s) → wlp (modify f) Q s.
Proof. unfold wlp, modify. naive_solver. Qed.

Lemma wlp_defined (o : option A) (Q : A → S → Prop) s :
  (∀ a, o = Some a → Q a s) → wlp (defined o) Q s.
Proof. unfold wlp, defined. destruct o; naive_solver. Qed.

Lemma wp_ret (a : A) (Q : A → S → Prop) s : Q a s → wp (mret a) Q s.
Proof. intros. by exists a, s. Qed.

Lemma wp_bind m (f : A → M S B) Q s : wp m (λ a, wp (f a) Q) s → wp (m ≫= f) Q s.
Proof. intros (a & s' & Hm & b & s'' & Hf & HQ). exists b, s''. by rewrite (bind_run _ _ _ _ _ Hm). Qed.

Lemma wp_mono m (P Q : A → S → Prop) s : (∀ a s', P a s' → Q a s') → wp m P s → wp m Q s.
Proof. intros H (a & s' & Hm & HP). exists a, s'. auto. Qed.

Lemma wp_gets (f : S → A) (Q : A → S → Prop) s : Q (f s) s → wp (gets f) Q s.
Proof. intros. by exists (f s), s. Qed.

Lemma wp_modify (f : S → S) (Q : unit → S → Prop) s : Q tt (f s) → wp (modify f) Q s.
Proof. intros. by exists tt, (f s). Qed.

Lemma wlp_if (b : bool) (m1 m2 : M S A) Q s :
  (b = true → wlp m1 Q s) → (b = false → wlp m2 Q s) → wlp (if b then m1 else m2) Q s.
Proof. destruct b; auto. Qed.
End Triples.

Lemma wlp_for_each {S B} (l : list B) (body : B → M S unit) (I : S → Prop) (s : S) :
  (∀ x (s : S), x ∈ l → I s → wlp (body x) (λ _, I) s) → I s → wlp (for_each l body) (λ _, I) s.
Proof.
  induction l as [|x l IH] in s |- *; simpl; intros Hbody HI.
  - by apply wlp_ret.
  - apply wlp_bind. eapply wlp_mono; [|apply Hbody; [set_solver|done]].
    intros [] s' HI'. apply IH; [|done]. intros. apply Hbody; [set_solver|done].
Qed.

Lemma for_each_total {S B} (l : list B) (body : B → M S unit) (I : S → Prop) (s : S) :
  (∀ x (s : S), I s → ∃ s', body x s = Some (tt, s') ∧ I s') → I s →
  ∃ s', for_each l body s = Some (tt, s') ∧ I s'.
Proof.
  intros Hbody. induction l as [|x l IH] in s |- *; simpl; intros HI; [by exists s|].
  destruct (Hbody x s HI) as (s1 & Hx & H1). rewrite (bind_run _ _ _ _ _ Hx). by apply IH.
Qed.

(** The step tactic of the development: open one monadic operation of a [wlp] goal. *)
Create HintDb wlp discriminated.

Ltac wlp_step :=
  lazymatch goal with
  | |- wlp (_ ≫= _) _ _ => apply wlp_bind
  | |- wlp (mret _) _ _ => apply wlp_ret
  | |- wlp (gets _) _ _ => apply wlp_gets
  | |- wlp (modify _) _ _ => apply wlp_modify
  | |- wlp (defined _) _ _ => apply wlp_defined; intros
  | |- wlp (if ?b then _ else _) _ _ => apply wlp_if; intros
  end.
Ltac wlp_steps := repeat (wlp_step; simpl).

(** Close an equation between closed terms by letting the kernel's virtual machine compare
    the two sides (the types in them are not normalised). *)
Ltac vm_eq := lazymatch goal with |- _ = ?b => vm_cast_no_check (eq_refl b) end.

(** ** Lists *)

Section Lists.
Context {A : Type}.
Implicit Types (l k : list A).

(** Overwrite [l] from [off] with [k]; [None] when [k] does not fit. *)
Definition buf_write l (off : nat) k : option (list A) :=
  if decide (off + length k ≤ length l)
  then Some (take off l ++ k ++ drop (off + length k) l) else None.

Lemma buf_write_length l off k l' : buf_write l off k = Some l' → length l' = length l.
Proof.
  unfold buf_write. case_decide; [|done]. intros [= <-].
  rewrite !length_app, length_take, length_drop. lia.
Qed.

Lemma buf_write_fits l off k : off + length k ≤ length l → is_Some (buf_write l off k).
Proof. intros. unfold buf_write. case_decide; [by eexists|lia]. Qed.

Lemma buf_write_all l k : length k = length l → buf_write l 0 k = Some k.
Proof.
  intros E. unfold buf_write. case_decide; [|lia]. simpl.
  rewrite drop_ge by lia. by rewrite app_nil_r.
Qed.

Lemma buf_write_take l k : length k ≤ length l →
  ∃ l', buf_write l 0 k = Some l' ∧ take (length k) l' = k ∧ length l' = length l.
Proof.
  intros E. destruct (buf_write_fits l 0 k) as [l' Hl']; [lia|].
  exists l'. split; [done|]. split; [|by eapply buf_write_length].
  revert Hl'. unfold buf_write. case_decide; [|done]. intros [= <-]. simpl.
  by rewrite take_app_length.
Qed.

Lemma buf_write_nil l off : off ≤ length l → buf_write l off [] = Some l.
Proof.
  intros E. unfold buf_write. simpl. case_decide; [|lia].
  by rewrite Nat.add_0_r, take_drop.
Qed.
End Lists.

Lemma filter_all {A} (P : A → Prop) `{!∀ x, Decision (P x)} (l : list A) :
  (∀ x, x ∈ l → P x) → filter P l = l.
Proof.
  induction l as [|x l IH]; intros Hl; [done|].
  rewrite filter_cons_True by (apply Hl; left). f_equal. apply IH. intros y Hy. apply Hl. by right.
Qed.

(** The index of the first [b] in [l], as [QByteArray::indexOf] and [strchr] find it. *)
Fixpoint index_of (b : byte) (l : list byte) : option nat :=
  match l with
  | [] => None
  | x :: l => if decide (x = b) then Some 0 else S <$> index_of b l
  end.

Lemma index_of_Some b l i :
  index_of b l = Some i ↔ ∃ l1 l2, l = l1 ++ b :: l2 ∧ b ∉ l1 ∧ length l1 = i.
Proof.
  induction l as [|x l IH] in i |- *; simpl.
  - split; [done|]. intros ([|??] & ? & ? & _); done.
  - case_decide as Hx.
    + subst. split.
      * intros [= <-]. exists [], l. set_solver.
      * intros ([|y l1] & l2 & Heq & Hni & <-); [done|]. simplify_eq/=. set_solver.
    + rewrite fmap_Some. split.
      * intros (j & (l1 & l2 & -> & Hni & <-)%IH & ->). exists (x :: l1), l2. set_solver.
      * intros ([|y l1] & l2 & Heq & Hni & <-); simplify_eq/=.
        exists (length l1). split; [|done]. apply IH. exists l1, l2. set_solver.
Qed.

Lemma index_of_None b l : index_of b l = None ↔ b ∉ l.
Proof.
  induction l as [|x l IH]; simpl; [set_solver|].
  case_decide; [set_solver|]. rewrite fmap_None, IH. set_solver.
Qed.

Lemma index_of_lt b l i : index_of b l = Some i → i < length l.
Proof. intros (l1 & l2 & -> & _ & <-)%index_of_Some. rewrite length_app. simpl. lia. Qed.

Lemma index_of_app_l b l k i : index_of b l = Some i → index_of b (l ++ k) = Some i.
Proof.
  intros (l1 & l2 & -> & Hni & <-)%index_of_Some. apply index_of_Some.
  exists l1, (l2 ++ k). by rewrite <- app_assoc.
Qed.

(** What a C function sees of a byte string passed as [const char *]: the part before the
    first NUL. *)
Definition c_str (l : list byte) : list byte :=
  match index_of nul l with Some i => take i l | None => l end.

Lemma c_str_id l : nul ∉ l → c_str l = l.
Proof. intros H. unfold c_str. apply index_of_None in H as ->. done. Qed.
