(* ===== verification/Qt.v ===== *)
(** * Qt data and the operations of Qt the program calls

    Qt is a third-party library.  The representations the program manipulates
    directly (byte arrays, UTF-16 strings, JSON values and objects) are data
    types here; what Qt computes with them (JSON text, hexadecimal, number
    formatting, text codecs) is the interface [QtCore], and what the program
    relies on is the interface [QtLaws], stated from Qt's documentation. *)
From stdpp Require Import base gmap sets list strings.
From Stdlib Require Import ZArith Lia.
From S2P Require Import Prelude.

(** ** Byte arrays and strings *)

Abbreviation QByteArray := (list byte).

(** UTF-16 code units. *)
Abbreviation QString := (list N).

Definition QStringLiteral (s : string) : QString :=
  Ascii.N_of_ascii <$> String.list_ascii_of_string s.

Definition QLatin1Char (c : Ascii.ascii) : N := Ascii.N_of_ascii c.

(** [QByteArray::isEmpty] and [QString::isEmpty]. *)
Definition isEmpty {A} (l : list A) : bool := bool_decide (l = []).

Lemma isEmpty_true {A} (l : list A) : isEmpty l = true ↔ l = [].
Proof. unfold isEmpty. destruct l; naive_solver. Qed.

Lemma isEmpty_false {A} (l : list A) : isEmpty l = false ↔ l ≠ [].
Proof. unfold isEmpty. destruct l; naive_solver. Qed.

(** ** JSON *)

(** [QJsonValue]: integers that fit [qint64] are kept apart from doubles, whose
    IEEE-754 bits are [bits]. *)
Inductive QJsonValue : Type :=
  | JUndefined
  | JNull
  | JBool (b : bool)
  | JInteger (z : Z)
  | JDouble (bits : Z)
  | JString (s : QString)
  | JArray (l : list QJsonValue)
  | JObject (kv : list (QString * QJsonValue)).

Abbreviation QJsonObject := (gmap QString QJsonValue).

Inductive QJsonDocument : Type :=
  | DocNull
  | DocArray (l : list QJsonValue)
  | DocObject (o : QJsonObject).

(** [QJsonObject::value]: the undefined value for a missing key. *)
Definition value (o : QJsonObject) (key : QString) : QJsonValue :=
  default JUndefined (o !! key).

(** [QJsonValue::toString]: the empty string for anything but a string. *)
Definition toString (v : QJsonValue) : QString :=
  match v with JString s => s | _ => [] end.

Definition isObject (d : QJsonDocument) : bool :=
  match d with DocObject _ => true | _ => false end.

(** [QJsonDocument::object]: the empty object for any other document. *)
Definition object (d : QJsonDocument) : QJsonObject :=
  match d with DocObject o => o | _ => ∅ end.

(** The initializer-list constructor of [QJsonObject]: insertion from left to right. *)
Definition json (kv : list (string * QJsonValue)) : QJsonObject :=
  foldl (λ o p, <[QStringLiteral (fst p) := snd p]> o) ∅ kv.

(** Values whose text form reads back unchanged: booleans, 64-bit integers and
    strings of code units below the surrogates. *)
Definition plain_string (s : QString) : Prop := Forall (λ c, (c < 0xD800)%N) s.

Definition plain_value (v : QJsonValue) : Prop :=
  match v with
  | JBool _ => True
  | JInteger z => in_range 64 z
  | JString s => plain_string s
  | _ => False
  end.

Definition plain_object (o : QJsonObject) : Prop :=
  map_Forall (λ k v, plain_string k ∧ plain_value v) o.

#[export] Instance plain_string_dec s : Decision (plain_string s).
Proof. unfold plain_string. apply _. Defined.

#[export] Instance plain_value_dec v : Decision (plain_value v).
Proof. destruct v; simpl; apply _. Defined.

#[export] Instance plain_object_dec o : Decision (plain_object o).
Proof. unfold plain_object. apply _. Defined.

(** ** The interface *)

Class QtCore : Type := {
  (** [QJsonDocument::fromJson]: [None] when the parse error is not [NoError]. *)
  fromJson : QByteArray → option QJsonDocument;
  (** [QJsonDocument(o).toJson(QJsonDocument::Compact)] *)
  toJson : QJsonObject → QByteArray;
  toHex : QByteArray → QByteArray;
  fromHex : QByteArray → QByteArray;
  toLatin1 : QString → QByteArray;
  fromLatin1 : QByteArray → QString;
  toUtf8 : QString → QByteArray;
  fromUtf8 : QByteArray → QString;
  toBase64 : QByteArray → QByteArray;
  fromBase64 : QByteArray → QByteArray;
  (** [QByteArray::number(n)], [QByteArray::number(n, 16)], [QString::number(n, 16)] *)
  number : Z → QByteArray;
  number16 : Z → QByteArray;
  QString_number16 : Z → QString;
  rightJustified : QString → nat → N → QString;
  trimmed : QByteArray → QByteArray;
  (** [QJsonValue::toVariant().toLongLong()] *)
  toLongLong : QJsonValue → Z;
  (** [QString::arg] with a string and with an integer argument *)
  arg : QString → QString → QString;
  argInt : QString → Z → QString;
  (** [QString::arg] with two strings, which are substituted at once *)
  arg2 : QString → QString → QString → QString;
  (** the bytes of [QByteArray(n, Qt::Uninitialized)] *)
  Uninitialized : nat → QByteArray;
}.

(** The alphabet of Base64. *)
Definition is_base64_char (b : byte) : bool :=
  let n := Byte.to_N b in
  ((65 <=? n) && (n <=? 90) || (97 <=? n) && (n <=? 122) || (48 <=? n) && (n <=? 57)
   || (n =? 43) || (n =? 47) || (n =? 61))%N.

(** The place markers of [QString::arg] are a percent sign and up to two digits. *)
Definition PERCENT : N := 37.
Definition head_is_digit (s : QString) : bool :=
  match s with c :: _ => ((48 <=? c) && (c <=? 57))%N | [] => false end.

Class QtLaws (Q : QtCore) : Prop := {
  fromHex_toHex b : fromHex (toLatin1 (fromLatin1 (toHex b))) = b;
  fromLatin1_plain b : plain_string (fromLatin1 b);
  fromJson_toJson o : plain_object o → fromJson (toJson o) = Some (DocObject o);
  toJson_nonempty o : toJson o ≠ [];
  toJson_one_line o : newline ∉ toJson o;
  trimmed_toJson o : trimmed (toJson o) = toJson o;
  (** JSON text is UTF-8 and escapes control characters *)
  toUtf8_toJson o : toUtf8 (fromUtf8 (toJson o)) = toJson o;
  toJson_no_nul o : nul ∉ toJson o;
  toLongLong_integer z : in_range 64 z → toLongLong (JInteger z) = z;
  toLongLong_range v : in_range 64 (toLongLong v);
  number_inj z1 z2 : number z1 = number z2 → z1 = z2;
  number_decimal a d :
    (1 <= a)%Z → (0 <= d < 10)%Z → number (10 * a + d) = number a ++ number d;
  number_digit d : (0 <= d < 10)%Z → length (number d) = 1;
  QString_number16_length z : (0 <= z < 2 ^ 64)%Z → length (QString_number16 z) <= 16;
  QString_number16_plain z : plain_string (QString_number16 z);
  rightJustified_length s w c : length (rightJustified s w c) = w `max` length s;
  rightJustified_plain s w c :
    plain_string s → (c < 0xD800)%N → plain_string (rightJustified s w c);
  fromBase64_toBase64 b : fromBase64 (toBase64 b) = b;
  toBase64_text b : Forall (λ c, is_base64_char c = true) (toBase64 b);
  Uninitialized_length n : length (Uninitialized n) = n;
  (** the only place marker of a text is replaced by the argument *)
  arg_marker pre post x :
    PERCENT ∉ pre → PERCENT ∉ post → head_is_digit post = false →
    arg (pre ++ QStringLiteral "%1" ++ post) x = pre ++ x ++ post;
  (** text in front of the first place marker stays *)
  argInt_prefix pre s z : PERCENT ∉ pre → ∃ rest, argInt (pre ++ s) z = pre ++ rest;
  arg2_markers pre mid post x y :
    PERCENT ∉ pre → PERCENT ∉ mid → PERCENT ∉ post → head_is_digit mid = false → head_is_digit post = false →
    arg2 (pre ++ QStringLiteral "%1" ++ mid ++ QStringLiteral "%2" ++ post) x y = pre ++ x ++ mid ++ y ++ post;
  arg2_prefix pre s x y : PERCENT ∉ pre → ∃ rest, arg2 (pre ++ s) x y = pre ++ rest;
}.

(** ** Lemmas on JSON objects *)

Lemma json_snoc kv k v : json (kv ++ [(k, v)]) = <[QStringLiteral k := v]> (json kv).
Proof. unfold json. by rewrite foldl_app. Qed.

Lemma plain_QStringLiteral s : plain_string (QStringLiteral s).
Proof.
  unfold plain_string, QStringLiteral. apply Forall_fmap, Forall_forall. intros c _. simpl.
  pose proof (Ascii.N_ascii_bounded c). lia.
Qed.

Lemma plain_json kv : Forall (λ p, plain_value (snd p)) kv → plain_object (json kv).
Proof.
  induction kv as [|[k v] kv IH] using rev_ind; intros H.
  - apply map_Forall_empty.
  - apply Forall_app in H as [Hkv Hv]. apply Forall_cons in Hv as [Hv _]. rewrite json_snoc.
    apply map_Forall_insert_2; [|by apply IH]. split; [apply plain_QStringLiteral|exact Hv].
Qed.

(** A number with [n + 1] decimal digits is written with [n + 1] characters. *)
Lemma number_length {Q : QtCore} {QL : QtLaws Q} (n : nat) z :
  (10 ^ Z.of_nat n <= z < 10 ^ Z.of_nat (S n))%Z → length (number z) = S n.
Proof.
  induction n as [|n IH] in z |- *; intros Hz.
  - apply number_digit. change (10 ^ Z.of_nat 0)%Z with 1%Z in Hz.
    change (10 ^ Z.of_nat 1)%Z with 10%Z in Hz. lia.
  - rewrite !Nat2Z.inj_succ, !Z.pow_succ_r in Hz by lia.
    assert (1 <= 10 ^ Z.of_nat n)%Z by (apply (Z.pow_le_mono_r 10 0); lia).
    assert (E : z = (10 * (z / 10) + z mod 10)%Z) by (apply Z.div_mod; lia).
    assert (B : (0 <= z mod 10 < 10)%Z) by (apply Z.mod_pos_bound; lia).
    rewrite E, number_decimal by lia. rewrite length_app, (number_digit (z mod 10)) by lia.
    rewrite IH; [lia|rewrite Nat2Z.inj_succ, Z.pow_succ_r; lia].
Qed.

Create HintDb qt discriminated.
#[export] Hint Constants Opaque : qt.
#[export] Hint Resolve plain_QStringLiteral fromLatin1_plain QString_number16_plain : qt.
