(* ===== verification/World.v ===== *)
(** * The world the desktop controller runs in

    The OpenSSL library and its heap of EVP objects, the clock, the random
    generator, and the trace of what the program does outside itself (socket
    writes, datagrams, emitted signals).  OpenSSL is a third-party library:
    its functions are the interface [OpenSSL], their documented sizes and
    correctness are [OpenSSLSizes]. *)
From stdpp Require Import base gmap sets list strings.
From Stdlib Require Import ZArith Lia.
From S2P Require Import Prelude Qt.

(** ** OpenSSL's EVP interface

    A call that OpenSSL documents to return 1 on success is a function to
    [option]: [Some] of its outputs stands for the return value 1. *)

Inductive pkey_type := EVP_PKEY_X25519 | EVP_PKEY_ED25519.

Class OpenSSL : Type := {
  PKEY : Type;
  PKEY_CTX : Type;
  CIPHER_CTX : Type;
  MD_CTX : Type;
  evp_pkey_ctx_new_id : pkey_type → option PKEY_CTX;
  evp_pkey_keygen_init : PKEY_CTX → option PKEY_CTX;
  evp_pkey_keygen : PKEY_CTX → option (PKEY_CTX * PKEY);
  evp_pkey_get_raw_private_key : PKEY → option (list byte);
  evp_pkey_get_raw_public_key : PKEY → option (list byte);
  evp_pkey_new_raw_private_key : pkey_type → list byte → option PKEY;
  evp_pkey_new_raw_public_key : pkey_type → list byte → option PKEY;
  evp_pkey_ctx_new : PKEY → option PKEY_CTX;
  evp_pkey_derive_init : PKEY_CTX → option PKEY_CTX;
  evp_pkey_derive_set_peer : PKEY_CTX → PKEY → option PKEY_CTX;
  evp_pkey_derive : PKEY_CTX → option (PKEY_CTX * list byte);
  evp_cipher_ctx_new : option CIPHER_CTX;
  (** the first [Init] call, with the cipher and without key and IV *)
  evp_encrypt_init_cipher : CIPHER_CTX → option CIPHER_CTX;
  evp_decrypt_init_cipher : CIPHER_CTX → option CIPHER_CTX;
  (** the second [Init] call, with the key and the IV *)
  evp_encrypt_init_key : CIPHER_CTX → list byte → list byte → option CIPHER_CTX;
  evp_decrypt_init_key : CIPHER_CTX → list byte → list byte → option CIPHER_CTX;
  (** [Update] with a null output pointer: associated data *)
  evp_encrypt_update_aad : CIPHER_CTX → list byte → option CIPHER_CTX;
  evp_decrypt_update_aad : CIPHER_CTX → list byte → option CIPHER_CTX;
  evp_encrypt_update : CIPHER_CTX → list byte → option (CIPHER_CTX * list byte);
  evp_decrypt_update : CIPHER_CTX → list byte → option (CIPHER_CTX * list byte);
  evp_encrypt_final : CIPHER_CTX → option (CIPHER_CTX * list byte);
  evp_decrypt_final : CIPHER_CTX → option (CIPHER_CTX * list byte);
  evp_ctrl_get_tag : CIPHER_CTX → option (CIPHER_CTX * list byte);
  evp_ctrl_set_tag : CIPHER_CTX → list byte → option CIPHER_CTX;
  evp_md_ctx_new : option MD_CTX;
  evp_digest_verify_init : MD_CTX → PKEY → option MD_CTX;
  (** [EVP_DigestVerify(ctx, sig, msg)] *)
  evp_digest_verify : MD_CTX → list byte → list byte → option MD_CTX;
}.

(** The bytes [EVP_*Init_ex] reads through its key and IV pointers for AES-256-GCM: the
    key length is 32, and the IV length stays at its default of 12 because the program
    never sets [EVP_CTRL_GCM_SET_IVLEN]. *)
Definition aes256_key_length : nat := 32.
Definition gcm_default_iv_length : nat := 12.

(** Documented output sizes: raw 25519 keys and X25519 secrets have 32 bytes, a GCM tag
    has the 16 bytes asked for, and GCM, a stream mode, outputs one byte per input byte
    and nothing at the end. *)
Class OpenSSLSizes (O : OpenSSL) : Prop := {
  raw_private_key_length k b : evp_pkey_get_raw_private_key k = Some b → length b = 32;
  raw_public_key_length k b : evp_pkey_get_raw_public_key k = Some b → length b = 32;
  derive_length c c' b : evp_pkey_derive c = Some (c', b) → length b = 32;
  encrypt_update_length c p c' b :
    evp_encrypt_update c p = Some (c', b) → length b = length p;
  decrypt_update_length c p c' b :
    evp_decrypt_update c p = Some (c', b) → length b = length p;
  encrypt_final_nil c c' b : evp_encrypt_final c = Some (c', b) → b = [];
  decrypt_final_nil c c' b : evp_decrypt_final c = Some (c', b) → b = [];
  get_tag_length c c' t : evp_ctrl_get_tag c = Some (c', t) → length t = 16;
}.

(** ** The trace *)

(** [QTcpSocket *]; the null pointer is [None] of [option QTcpSocket]. *)
Abbreviation QTcpSocket := positive.

Inductive Signal : Type :=
  | logMessage (message : QString)
  | statusChanged (status : QString)
  | deviceChanged (deviceId : QString) (connected : bool).

Inductive Event : Type :=
  | Emit (s : Signal)
  | SocketWrite (socket : QTcpSocket) (data : QByteArray)
  | SocketDisconnectFromHost (socket : QTcpSocket)
  | SocketDeleteLater (socket : QTcpSocket)
  | WriteDatagram (data : QByteArray) (port : Z)
  | TcpListen (port : Z)
  | TcpClose
  | UdpBind (port : Z)
  | UdpClose
  | TimerStart (milliseconds : Z)
  | TimerStop.

(** ** The world *)

Section World.
Context `{O : OpenSSL}.

(** The objects OpenSSL allocates. *)
Inductive Object : Type :=
  | OPKEY (k : PKEY)
  | OPKEY_CTX (c : PKEY_CTX)
  | OCIPHER_CTX (c : CIPHER_CTX)
  | OMD_CTX (c : MD_CTX).

Record World : Type := mkWorld {
  clock : nat → Z;           (* the n-th reading of the clock, in seconds *)
  clock_reads : nat;
  entropy : nat → Z;         (* the n-th random number *)
  draws : nat;
  heap : gmap positive Object;
  trace : list Event;
}.

Definition set_clock_reads (f : nat → nat) (w : World) : World :=
  mkWorld (clock w) (f (clock_reads w)) (entropy w) (draws w) (heap w) (trace w).
Definition set_draws (f : nat → nat) (w : World) : World :=
  mkWorld (clock w) (clock_reads w) (entropy w) (f (draws w)) (heap w) (trace w).
Definition set_heap (f : gmap positive Object → gmap positive Object) (w : World) : World :=
  mkWorld (clock w) (clock_reads w) (entropy w) (draws w) (f (heap w)) (trace w).
Definition set_trace (f : list Event → list Event) (w : World) : World :=
  mkWorld (clock w) (clock_reads w) (entropy w) (draws w) (heap w) (f (trace w)).

(** [QDateTime::currentSecsSinceEpoch()] *)
Definition currentSecsSinceEpoch : M World Z :=
  t ← gets (λ w, clock w (clock_reads w));
  modify (set_clock_reads S) ;;
  mret t.

(** [QRandomGenerator::global()->generate64()] *)
Definition generate64 : M World Z :=
  r ← gets (λ w, entropy w (draws w) mod 2 ^ 64)%Z;
  modify (set_draws S) ;;
  mret r.

Definition perform (e : Event) : M World unit := modify (set_trace (λ t, t ++ [e])).
Definition emit (s : Signal) : M World unit := perform (Emit s).

(** *** The heap of EVP objects *)

Definition alloc (o : Object) : M World positive := λ w,
  let p := fresh (dom (heap w)) in Some (p, set_heap <[p := o]> w).

(** [EVP_*_free]: nothing for a null pointer, undefined for an object that is not live. *)
Definition dispose (p : option positive) : M World unit := λ w,
  match p with
  | None => Some (tt, w)
  | Some p => if decide (is_Some (heap w !! p)) then Some (tt, set_heap (delete p) w) else None
  end.

Definition load (p : positive) : M World Object := λ w,
  match heap w !! p with Some o => Some (o, w) | None => None end.
Definition store (p : positive) (o : Object) : M World unit := modify (set_heap <[p := o]>).

(** A call on a context: undefined on a null pointer and on an object of another kind;
    the context is updated when the call succeeds. *)
Definition call {C A} (kind : Object → option C) (inj : C → Object)
    (f : C → option (C * A)) (p : option positive) : M World (option A) :=
  match p with
  | None => undefined
  | Some p =>
      o ← load p;
      c ← defined (kind o);
      match f c with
      | Some (c', a) => store p (inj c') ;; mret (Some a)
      | None => mret None
      end
  end.

Definition new {C} (inj : C → Object) (c : option C) : M World (option positive) :=
  match c with
  | Some c => p ← alloc (inj c); mret (Some p)
  | None => mret None
  end.

Definition as_pkey (o : Object) := match o with OPKEY k => Some k | _ => None end.
Definition as_pkey_ctx (o : Object) := match o with OPKEY_CTX k => Some k | _ => None end.
Definition as_cipher_ctx (o : Object) := match o with OCIPHER_CTX k => Some k | _ => None end.
Definition as_md_ctx (o : Object) := match o with OMD_CTX k => Some k | _ => None end.

(** The key behind an [EVP_PKEY *] passed to a call. *)
Definition deref_pkey (p : option positive) : M World PKEY :=
  match p with
  | None => undefined
  | Some p => o ← load p; defined (as_pkey o)
  end.
End World.
#[global] Arguments Object : clear implicits.
#[global] Arguments Object {O}.
#[global] Arguments World : clear implicits.
#[global] Arguments World {O}.

(** [f(c)] for a call with no output but the context. *)
Definition no_output {C} (f : C → option C) (c : C) : option (C * unit) :=
  match f c with Some c' => Some (c', tt) | None => None end.

(** ** Reading and writing through pointers into byte arrays *)

(** [n] bytes read from [b.constData()]: Qt keeps a terminating zero after the data, so
    [size() + 1] bytes are readable; beyond them the read is undefined. *)
Definition read_ptr (n : nat) (b : QByteArray) : option (list byte) :=
  if decide (n ≤ length b + 1) then Some (take n (b ++ [nul])) else None.

Lemma read_ptr_exact b : read_ptr (length b) b = Some b.
Proof. unfold read_ptr. case_decide; [|lia]. by rewrite take_app_length. Qed.

Lemma read_ptr_le n b : n ≤ length b → read_ptr n b = Some (take n b).
Proof. intros. unfold read_ptr. case_decide; [|lia]. by rewrite take_app_le. Qed.

Lemma read_ptr_None n b : read_ptr n b = None ↔ length b + 1 < n.
Proof. unfold read_ptr. case_decide; naive_solver lia. Qed.

(** ** Running computations on the heap

    [with_obj p o w] is [w] with one more live object.  Every function of the program
    frees what it allocates in the opposite order, so its runs normalise to nested
    [with_obj] over the world it started from. *)
Section HeapLemmas.
Context `{O : OpenSSL}.
Implicit Types (w : World).

Definition with_obj (p : positive) (o : Object) (w : World) : World := set_heap <[p := o]> w.

Lemma world_ext w1 w2 :
  clock w1 = clock w2 → clock_reads w1 = clock_reads w2 → entropy w1 = entropy w2 →
  draws w1 = draws w2 → heap w1 = heap w2 → trace w1 = trace w2 → w1 = w2.
Proof. destruct w1, w2; simpl; congruence. Qed.

Lemma set_trace_app evs1 evs2 w :
  set_trace (λ t, t ++ evs2) (set_trace (λ t, t ++ evs1) w) = set_trace (λ t, t ++ (evs1 ++ evs2)) w.
Proof. unfold set_trace. simpl. by rewrite app_assoc. Qed.

Lemma set_trace_nil w : set_trace (λ t, t ++ []) w = w.
Proof. apply world_ext; simpl; try done. by rewrite app_nil_r. Qed.

Lemma alloc_run o w : ∃ p, heap w !! p = None ∧ alloc o w = Some (p, with_obj p o w).
Proof.
  exists (fresh (dom (heap w))). split; [|done].
  apply not_elem_of_dom, is_fresh.
Qed.

Lemma dispose_run p o w : heap w !! p = None → dispose (Some p) (with_obj p o w) = Some (tt, w).
Proof.
  intros Hp. unfold dispose, with_obj. simpl. rewrite lookup_insert_eq.
  rewrite decide_True by (by eexists). do 2 f_equal.
  apply world_ext; simpl; try done. by apply delete_insert_id.
Qed.

Lemma dispose_null w : dispose None w = Some (tt, w).
Proof. done. Qed.

Lemma call_run {C A} (kind : Object → option C) inj (f : C → option (C * A)) p c w :
  kind (inj c) = Some c →
  call kind inj f (Some p) (with_obj p (inj c) w) =
    match f c with
    | Some (c', a) => Some (Some a, with_obj p (inj c') w)
    | None => Some (None, with_obj p (inj c) w)
    end.
Proof.
  intros Hk. unfold call, load, with_obj, mbind, M_bind. simpl.
  rewrite lookup_insert_eq. unfold defined. rewrite Hk.
  destruct (f c) as [[c' a]|]; [|done]. unfold store, modify, mret, M_ret. do 2 f_equal.
  apply world_ext; simpl; try done. by rewrite insert_insert_eq.
Qed.

Lemma deref_pkey_run p k w : heap w !! p = Some (OPKEY k) → deref_pkey (Some p) w = Some (k, w).
Proof. intros Hp. unfold deref_pkey, load, mbind, M_bind. simpl. by rewrite Hp. Qed.

Lemma with_obj_lookup_eq p o w : heap (with_obj p o w) !! p = Some o.
Proof. unfold with_obj. simpl. apply lookup_insert_eq. Qed.

Lemma with_obj_lookup_ne p q o w : p ≠ q → heap (with_obj p o w) !! q = heap w !! q.
Proof. intros. unfold with_obj. simpl. by rewrite lookup_insert_ne. Qed.

Lemma with_obj_fresh_ne p q o w : heap (with_obj p o w) !! q = None → p ≠ q.
Proof. intros Hq ->. by rewrite with_obj_lookup_eq in Hq. Qed.

Lemma with_obj_fresh p q o w : heap (with_obj p o w) !! q = None → heap w !! q = None.
Proof. intros Hq. rewrite with_obj_lookup_ne in Hq; [done|by eapply with_obj_fresh_ne]. Qed.
End HeapLemmas.

(** [a && m] for a computation [m] that C++ runs only when [a] holds. *)
Definition and_then {S} (a : bool) (m : M S bool) : M S bool := if a then m else mret false.

Definition is_some {A} (o : option A) : bool := match o with Some _ => true | None => false end.

(** Allocation that runs: case analysis on a fresh pointer. *)
Ltac run_alloc p Hp :=
  lazymatch goal with
  | |- context [alloc ?o ?w] =>
      let E := fresh "E" in
      destruct (alloc_run o w) as (p & Hp & E); rewrite E; clear E; cbn beta iota zeta
  end.
