(* ===== verification/Crypto.v ===== *)
(** * src/core/crypto.cpp: key exchange, authenticated encryption, signatures

    Each function is modelled statement by statement over the heap of EVP
    objects and returns, next to its result, what it wrote through its
    [QString *error] parameter ([None]: nothing).  The [_run] lemmas reduce every
    function to a pure composition of OpenSSL operations and show that it
    neither leaks an object nor has undefined behaviour. *)
From stdpp Require Import base gmap sets list strings.
From Stdlib Require Import ZArith Lia.
From S2P Require Import Prelude Qt World.

Record X25519KeyPair : Type := mkX25519KeyPair { privateKey : QByteArray; publicKey : QByteArray }.
Record GcmCiphertext : Type := mkGcmCiphertext { ciphertext : QByteArray; tag : QByteArray }.

(** [QByteArray::resize] *)
Definition resize `{QtCore} (n : nat) (b : QByteArray) : QByteArray :=
  if decide (n ≤ length b) then take n b else b ++ Uninitialized (n - length b).

(** [setError(error, value)] for a caller that passes an error string. *)
Definition setError (value : QString) : option QString := Some value.

Section Crypto.
Context `{Q : QtCore} `{O : OpenSSL}.

(** A call on a live context whose only output is success or failure. *)
Definition pkey_ctx_call {A} := @call O PKEY_CTX A as_pkey_ctx OPKEY_CTX.
Definition cipher_call {A} := @call O CIPHER_CTX A as_cipher_ctx OCIPHER_CTX.
Definition md_call {A} := @call O MD_CTX A as_md_ctx OMD_CTX.
Definition succeeds {A} (m : M World (option A)) : M World bool := r ← m; mret (is_some r).

Definition generateX25519KeyPair : M World (X25519KeyPair * option QString) :=
  context ← new OPKEY_CTX (evp_pkey_ctx_new_id EVP_PKEY_X25519);
  ok ← and_then (is_some context)
         (succeeds (pkey_ctx_call (no_output evp_pkey_keygen_init) context));
  if negb ok then
    dispose context ;;
    mret (mkX25519KeyPair [] [], setError (QStringLiteral "X25519 key generation initialization failed"))
  else
    generated ← pkey_ctx_call evp_pkey_keygen context;
    match generated with
    | None =>
        dispose context ;;
        mret (mkX25519KeyPair [] [], setError (QStringLiteral "X25519 key generation failed"))
    | Some k =>
        key ← new OPKEY (Some k);
        let uninitialized := Uninitialized 32 in
        k ← deref_pkey key;
        result ← match evp_pkey_get_raw_private_key k with
          | None => mret None
          | Some raw =>
              privateKey ← defined (buf_write uninitialized 0 raw);
              match evp_pkey_get_raw_public_key k with
              | None => mret None
              | Some raw =>
                  publicKey ← defined (buf_write uninitialized 0 raw);
                  mret (Some (mkX25519KeyPair privateKey publicKey))
              end
          end;
        dispose key ;;
        dispose context ;;
        match result with
        | None => mret (mkX25519KeyPair [] [], setError (QStringLiteral "X25519 key export failed"))
        | Some keys => mret (keys, None)
        end
    end.

Definition x25519SharedSecret (privateKey peerPublicKey : QByteArray)
    : M World (QByteArray * option QString) :=
  if negb (length privateKey =? 32) || negb (length peerPublicKey =? 32) then
    mret ([], setError (QStringLiteral "X25519 keys must be 32 bytes"))
  else
    local ← new OPKEY (evp_pkey_new_raw_private_key EVP_PKEY_X25519 privateKey);
    peer ← new OPKEY (evp_pkey_new_raw_public_key EVP_PKEY_X25519 peerPublicKey);
    context ← (if is_some local
               then k ← deref_pkey local; new OPKEY_CTX (evp_pkey_ctx_new k)
               else mret None : M World (option positive));
    let secret := Uninitialized 32 in
    ok ← and_then (is_some context && is_some peer)
           (succeeds (pkey_ctx_call (no_output evp_pkey_derive_init) context));
    ok ← and_then ok
           (k ← deref_pkey peer;
            succeeds (pkey_ctx_call (no_output (λ c, evp_pkey_derive_set_peer c k)) context));
    derived ← (if ok : bool then
                 r ← pkey_ctx_call evp_pkey_derive context;
                 match r with
                 | None => mret None
                 | Some raw => secret ← defined (buf_write secret 0 raw); mret (Some secret)
                 end
               else mret None : M World (option QByteArray));
    dispose context ;;
    dispose peer ;;
    dispose local ;;
    match derived with
    | None => mret ([], setError (QStringLiteral "X25519 shared secret derivation failed"))
    | Some secret => mret (secret, None)
    end.

Definition encryptAes256Gcm (key nonce plaintext associatedData : QByteArray)
    : M World (GcmCiphertext * option QString) :=
  if negb (length key =? 32) || isEmpty nonce then
    mret (mkGcmCiphertext [] [],
          setError (QStringLiteral "AES-256-GCM requires a 32-byte key and nonce"))
  else
    context ← new OCIPHER_CTX evp_cipher_ctx_new;
    let result := Uninitialized (length plaintext + 16) in
    ok ← and_then (is_some context)
           (succeeds (cipher_call (no_output evp_encrypt_init_cipher) context));
    ok ← and_then ok
           (k ← defined (read_ptr aes256_key_length key);
            iv ← defined (read_ptr gcm_default_iv_length nonce);
            succeeds (cipher_call (no_output (λ c, evp_encrypt_init_key c k iv)) context));
    ok ← (if ok && negb (isEmpty associatedData)
          then succeeds (cipher_call (no_output (λ c, evp_encrypt_update_aad c associatedData)) context)
          else mret ok);
    '(ok, result, total) ←
      (if ok && negb (isEmpty plaintext) then
         r ← cipher_call (λ c, evp_encrypt_update c plaintext) context;
         match r with
         | Some out => result ← defined (buf_write result 0 out); mret (true, result, length out)
         | None => mret (false, result, 0)
         end
       else mret (ok, result, 0));
    '(ok, result, total) ←
      (if ok : bool then
         r ← cipher_call evp_encrypt_final context;
         match r with
         | Some out =>
             result ← defined (buf_write result total out); mret (true, result, total + length out)
         | None => mret (false, result, total)
         end
       else mret (ok, result, total));
    '(ok, tag) ←
      (if ok : bool then
         r ← cipher_call evp_ctrl_get_tag context;
         match r with
         | Some t => tag ← defined (buf_write (Uninitialized 16) 0 t); mret (true, tag)
         | None => mret (false, Uninitialized 16)
         end
       else mret (ok, Uninitialized 16));
    dispose context ;;
    if negb ok
    then mret (mkGcmCiphertext [] [], setError (QStringLiteral "AES-256-GCM encryption failed"))
    else mret (mkGcmCiphertext (resize total result) tag, None).

Definition decryptAes256Gcm (key nonce : QByteArray) (c : GcmCiphertext)
    (associatedData : QByteArray) : M World (QByteArray * option QString) :=
  if negb (length key =? 32) || isEmpty nonce || negb (length (tag c) =? 16) then
    mret ([], setError (QStringLiteral "invalid AES-256-GCM input"))
  else
    context ← new OCIPHER_CTX evp_cipher_ctx_new;
    let result := Uninitialized (length (ciphertext c)) in
    ok ← and_then (is_some context)
           (succeeds (cipher_call (no_output evp_decrypt_init_cipher) context));
    ok ← and_then ok
           (k ← defined (read_ptr aes256_key_length key);
            iv ← defined (read_ptr gcm_default_iv_length nonce);
            succeeds (cipher_call (no_output (λ c, evp_decrypt_init_key c k iv)) context));
    ok ← (if ok && negb (isEmpty associatedData)
          then succeeds (cipher_call (no_output (λ c, evp_decrypt_update_aad c associatedData)) context)
          else mret ok);
    '(ok, result, total) ←
      (if ok && negb (isEmpty (ciphertext c)) then
         r ← cipher_call (λ ctx, evp_decrypt_update ctx (ciphertext c)) context;
         match r with
         | Some out => result ← defined (buf_write result 0 out); mret (true, result, length out)
         | None => mret (false, result, 0)
         end
       else mret (ok, result, 0));
    ok ← and_then ok
           (succeeds (cipher_call (no_output (λ ctx, evp_ctrl_set_tag ctx (tag c))) context));
    '(ok, result, total) ←
      (if ok : bool then
         r ← cipher_call evp_decrypt_final context;
         match r with
         | Some out =>
             result ← defined (buf_write result total out); mret (true, result, total + length out)
         | None => mret (false, result, total)
         end
       else mret (ok, result, total));
    dispose context ;;
    if negb ok
    then mret ([], setError (QStringLiteral "AES-256-GCM authentication failed"))
    else mret (resize total result, None).

Definition verifyEd25519 (publicKey message signature : QByteArray)
    : M World (bool * option QString) :=
  if negb (length publicKey =? 32) || negb (length signature =? 64) then
    mret (false, setError (QStringLiteral "invalid Ed25519 key or signature length"))
  else
    key ← new OPKEY (evp_pkey_new_raw_public_key EVP_PKEY_ED25519 publicKey);
    context ← new OMD_CTX evp_md_ctx_new;
    ok ← and_then (is_some key && is_some context)
           (k ← deref_pkey key;
            succeeds (md_call (no_output (λ c, evp_digest_verify_init c k)) context));
    ok ← and_then ok
           (succeeds (md_call (no_output (λ c, evp_digest_verify c signature message)) context));
    dispose context ;;
    dispose key ;;
    if negb ok then mret (false, setError (QStringLiteral "signature verification failed"))
    else mret (true, None).
End Crypto.

(** [isFreshTimestamp]: signed 64-bit subtraction and [qAbs], whose overflow is undefined. *)
Definition qAbs64 (t : Z) : option Z := if bool_decide (0 <= t)%Z then Some t else checked 64 (- t).

Definition isFreshTimestamp (timestamp now : Z) : option bool :=
  d ← checked 64 (timestamp - now);
  a ← qAbs64 d;
  Some (bool_decide (a <= 30)%Z).

(** ** What the functions compute, as compositions of OpenSSL operations *)

Section Pure.
Context `{Q : QtCore} `{O : OpenSSL}.

(** The 12 bytes OpenSSL reads behind the nonce pointer. *)
Definition gcm_iv (nonce : QByteArray) : list byte := take gcm_default_iv_length (nonce ++ [nul]).

Definition gcm_seal (key iv associatedData plaintext : list byte) : option (list byte * list byte) :=
  c ← evp_cipher_ctx_new;
  c ← evp_encrypt_init_cipher c;
  c ← evp_encrypt_init_key c key iv;
  c ← (if isEmpty associatedData then Some c else evp_encrypt_update_aad c associatedData);
  '(c, out) ← (if isEmpty plaintext then Some (c, []) else evp_encrypt_update c plaintext);
  '(c, rest) ← evp_encrypt_final c;
  '(_, t) ← evp_ctrl_get_tag c;
  Some (out, t).

Definition gcm_open (key iv associatedData ciphertext tag : list byte) : option (list byte) :=
  c ← evp_cipher_ctx_new;
  c ← evp_decrypt_init_cipher c;
  c ← evp_decrypt_init_key c key iv;
  c ← (if isEmpty associatedData then Some c else evp_decrypt_update_aad c associatedData);
  '(c, out) ← (if isEmpty ciphertext then Some (c, []) else evp_decrypt_update c ciphertext);
  c ← evp_ctrl_set_tag c tag;
  '(_, rest) ← evp_decrypt_final c;
  Some out.

Definition x25519 (privateKey peerPublicKey : list byte) : option (list byte) :=
  local ← evp_pkey_new_raw_private_key EVP_PKEY_X25519 privateKey;
  c ← evp_pkey_ctx_new local;
  peer ← evp_pkey_new_raw_public_key EVP_PKEY_X25519 peerPublicKey;
  c ← evp_pkey_derive_init c;
  c ← evp_pkey_derive_set_peer c peer;
  '(_, secret) ← evp_pkey_derive c;
  Some secret.

Definition ed25519_valid (publicKey message signature : list byte) : bool :=
  is_some (key ← evp_pkey_new_raw_public_key EVP_PKEY_ED25519 publicKey;
           c ← evp_md_ctx_new;
           c ← evp_digest_verify_init c key;
           evp_digest_verify c signature message).
End Pure.

(** Unfold the monadic plumbing of a run. *)
Ltac unfold_run :=
  unfold succeeds, and_then, new, cipher_call, md_call, pkey_ctx_call;
  unfold mbind, M_bind, option_bind, mret, M_ret.

(** The object behind a pointer, under the objects allocated after it. *)
Ltac heap_lookup :=
  repeat first
    [ apply with_obj_lookup_eq
    | rewrite with_obj_lookup_ne by (apply not_eq_sym; eapply with_obj_fresh_ne; eassumption) ].

(** One step of a symbolic run over the EVP heap. *)
Ltac evp_step :=
  first
    [ progress cbn beta iota zeta delta [is_some negb andb no_output defined]
    | rewrite call_run by done
    | rewrite dispose_run by done
    | rewrite dispose_null
    | match goal with
      | |- context [deref_pkey (Some ?p) ?w] => erewrite (deref_pkey_run p _ w) by heap_lookup
      end
    | progress unfold no_output
    | let p := fresh "p" in let Hp := fresh "Hp" in run_alloc p Hp ].

(** Case analysis on the outcome of an OpenSSL operation or a test the run is blocked on. *)
Ltac evp_case :=
  match goal with
  | |- context [match ?x with _ => _ end] =>
      lazymatch x with
      | context [match _ with _ => _ end] => fail
      | buf_write _ _ _ => fail
      | _ =>
          let E := fresh "E" in
          lazymatch type of x with
          | option (_ * World) => fail
          | prod _ _ => fail
          | option (_ * _) => destruct x as [[??]|] eqn:E
          | _ => destruct x eqn:E
          end
      end
  end.
Ltac evp_run := repeat evp_step; try done.

Section Runs.
Context `{Q : QtCore} `{O : OpenSSL} {QL : QtLaws Q} {OS : OpenSSLSizes O}.

Lemma resize_le n (b : QByteArray) : n ≤ length b → resize n b = take n b.
Proof. intros. unfold resize. by rewrite decide_True. Qed.

(** Writing at the start of a fresh buffer that is large enough, then cutting it there. *)
Lemma write_fresh n (l : QByteArray) : length l ≤ n →
  ∃ r, buf_write (Uninitialized n) 0 l = Some r ∧ resize (length l) r = l ∧ length r = n.
Proof.
  intros Hl. destruct (buf_write_take (Uninitialized n) l) as (r & Hr & Ht & Hn).
  { by rewrite Uninitialized_length. }
  rewrite Uninitialized_length in Hn. exists r. rewrite resize_le by lia. done.
Qed.

Lemma write_all n (l : QByteArray) : length l = n → buf_write (Uninitialized n) 0 l = Some l.
Proof. intros. apply buf_write_all. by rewrite Uninitialized_length. Qed.

Lemma write_end n (l : QByteArray) :
  buf_write (Uninitialized n) 0 [] = Some (Uninitialized n).
Proof. apply buf_write_nil. lia. Qed.

Lemma resize_0 (b : QByteArray) : resize 0 b = [].
Proof. by rewrite resize_le by lia. Qed.

Ltac evp_sizes :=
  repeat match goal with
  | H : evp_encrypt_final _ = Some (_, ?l) |- _ => apply encrypt_final_nil in H as ?; subst l
  | H : evp_decrypt_final _ = Some (_, ?l) |- _ => apply decrypt_final_nil in H as ?; subst l
  | H : evp_encrypt_update _ _ = Some (_, ?l) |- _ =>
      lazymatch goal with
      | _ : length l = _ |- _ => fail
      | _ => pose proof (encrypt_update_length _ _ _ _ H)
      end
  | H : evp_decrypt_update _ _ = Some (_, ?l) |- _ =>
      lazymatch goal with
      | _ : length l = _ |- _ => fail
      | _ => pose proof (decrypt_update_length _ _ _ _ H)
      end
  end.

Ltac evp_write :=
  lazymatch goal with
  | |- context [buf_write (Uninitialized ?n) 0 []] => rewrite (buf_write_nil (Uninitialized n) 0) by lia
  | |- context [buf_write (Uninitialized 16) 0 ?t] =>
      rewrite (write_all 16 t) by (by eapply get_tag_length)
  | |- context [buf_write (Uninitialized 32) 0 ?t] =>
      rewrite (write_all 32 t)
        by first [ by eapply derive_length | by eapply raw_private_key_length
                 | by eapply raw_public_key_length ]
  | |- context [buf_write (Uninitialized ?n) 0 ?l] =>
      let r := fresh "r" in let E := fresh "E" in let Hres := fresh "Hres" in let Hlen := fresh "Hlen" in
      destruct (write_fresh n l) as (r & E & Hres & Hlen); [lia|rewrite E]
  | |- context [buf_write ?r ?n []] => rewrite (buf_write_nil r n) by lia
  end.

(** The operation the run is blocked on has a known outcome. *)
Ltac evp_known :=
  match goal with
  | H : ?x = Some _ |- context [match ?x with _ => _ end] => rewrite H
  | H : ?x = None |- context [match ?x with _ => _ end] => rewrite H
  end.

Ltac evp_finish :=
  evp_sizes; repeat (first [evp_write | evp_known]; evp_run);
  cbn [length]; rewrite ?Nat.add_0_r, ?resize_0; congruence.

Lemma encryptAes256Gcm_run key nonce plaintext aad w :
  length key = 32 → gcm_default_iv_length ≤ length nonce + 1 →
  encryptAes256Gcm key nonce plaintext aad w =
    Some (match gcm_seal key (gcm_iv nonce) aad plaintext with
          | Some (ct, t) => (mkGcmCiphertext ct t, None)
          | None => (mkGcmCiphertext [] [], Some (QStringLiteral "AES-256-GCM encryption failed"))
          end, w).
Proof.
  intros Hk Hn. unfold encryptAes256Gcm, gcm_seal.
  rewrite Hk. assert (isEmpty nonce = false) as ->.
  { apply isEmpty_false. intros ->. unfold gcm_default_iv_length in Hn. simpl in Hn. lia. }
  cbn beta iota zeta delta [Nat.eqb negb orb].
  assert (read_ptr aes256_key_length key = Some key) as -> by (unfold aes256_key_length; rewrite <- Hk; apply read_ptr_exact).
  assert (read_ptr gcm_default_iv_length nonce = Some (gcm_iv nonce)) as -> by (by apply decide_True).
  unfold_run. destruct evp_cipher_ctx_new as [c|]; [|done]. cbn beta iota.
  run_alloc p Hp. evp_run.
  repeat (evp_case; simplify_eq; evp_run).
  all: evp_finish.
Qed.

Lemma decryptAes256Gcm_run key nonce c aad w :
  length key = 32 → gcm_default_iv_length ≤ length nonce + 1 → length (tag c) = 16 →
  decryptAes256Gcm key nonce c aad w =
    Some (match gcm_open key (gcm_iv nonce) aad (ciphertext c) (tag c) with
          | Some plaintext => (plaintext, None)
          | None => ([], Some (QStringLiteral "AES-256-GCM authentication failed"))
          end, w).
Proof.
  intros Hk Hn Ht. unfold decryptAes256Gcm, gcm_open.
  rewrite Hk, Ht. assert (isEmpty nonce = false) as ->.
  { apply isEmpty_false. intros ->. unfold gcm_default_iv_length in Hn. simpl in Hn. lia. }
  cbn beta iota zeta delta [Nat.eqb negb orb].
  assert (read_ptr aes256_key_length key = Some key) as -> by (unfold aes256_key_length; rewrite <- Hk; apply read_ptr_exact).
  assert (read_ptr gcm_default_iv_length nonce = Some (gcm_iv nonce)) as -> by (by apply decide_True).
  unfold_run. destruct evp_cipher_ctx_new as [ctx|]; [|done]. cbn beta iota.
  run_alloc p Hp. evp_run.
  repeat (evp_case; simplify_eq; evp_run).
  all: evp_finish.
Qed.

(** A nonce of one to ten bytes: undefined as soon as there is a context that accepts the
    cipher, and the ordinary failure otherwise. *)
Lemma encryptAes256Gcm_short key nonce plaintext aad w :
  length key = 32 → nonce ≠ [] → length nonce + 1 < gcm_default_iv_length →
  encryptAes256Gcm key nonce plaintext aad w =
    match evp_cipher_ctx_new ≫= evp_encrypt_init_cipher with
    | Some _ => None
    | None => Some ((mkGcmCiphertext [] [], Some (QStringLiteral "AES-256-GCM encryption failed")), w)
    end.
Proof.
  intros Hk Hne Hn. unfold encryptAes256Gcm.
  rewrite Hk, (proj2 (isEmpty_false _) Hne). cbn beta iota zeta delta [Nat.eqb negb orb].
  assert (read_ptr aes256_key_length key = Some key) as -> by (unfold aes256_key_length; rewrite <- Hk; apply read_ptr_exact).
  rewrite (proj2 (read_ptr_None _ _)) by lia.
  unfold_run. destruct evp_cipher_ctx_new as [c|]; [|done]. cbn beta iota.
  run_alloc p Hp. evp_run. by destruct (evp_encrypt_init_cipher c); evp_run.
Qed.

Lemma decryptAes256Gcm_short key nonce c aad w :
  length key = 32 → nonce ≠ [] → length nonce + 1 < gcm_default_iv_length → length (tag c) = 16 →
  decryptAes256Gcm key nonce c aad w =
    match evp_cipher_ctx_new ≫= evp_decrypt_init_cipher with
    | Some _ => None
    | None => Some (([], Some (QStringLiteral "AES-256-GCM authentication failed")), w)
    end.
Proof.
  intros Hk Hne Hn Ht. unfold decryptAes256Gcm.
  rewrite Hk, Ht, (proj2 (isEmpty_false _) Hne). cbn beta iota zeta delta [Nat.eqb negb orb].
  assert (read_ptr aes256_key_length key = Some key) as -> by (unfold aes256_key_length; rewrite <- Hk; apply read_ptr_exact).
  rewrite (proj2 (read_ptr_None _ _)) by lia.
  unfold_run. destruct evp_cipher_ctx_new as [ctx|]; [|done]. cbn beta iota.
  run_alloc p Hp. evp_run. by destruct (evp_decrypt_init_cipher ctx); evp_run.
Qed.

Lemma x25519SharedSecret_run sk pk w :
  length sk = 32 → length pk = 32 →
  x25519SharedSecret sk pk w =
    Some (match x25519 sk pk with
          | Some secret => (secret, None)
          | None => ([], Some (QStringLiteral "X25519 shared secret derivation failed"))
          end, w).
Proof.
  intros Hs Hp. unfold x25519SharedSecret, x25519. rewrite Hs, Hp.
  cbn beta iota zeta delta [Nat.eqb negb orb]. unfold_run.
  destruct (evp_pkey_new_raw_private_key EVP_PKEY_X25519 sk) as [local|];
    destruct (evp_pkey_new_raw_public_key EVP_PKEY_X25519 pk) as [peer|]; evp_run.
  all: repeat (evp_case; simplify_eq; evp_run).
  all: evp_finish.
Qed.

Lemma verifyEd25519_run pk msg sig w :
  length pk = 32 → length sig = 64 →
  verifyEd25519 pk msg sig w =
    Some (if ed25519_valid pk msg sig then (true, None)
          else (false, Some (QStringLiteral "signature verification failed")), w).
Proof.
  intros Hp Hs. unfold verifyEd25519, ed25519_valid. rewrite Hs, Hp.
  cbn beta iota zeta delta [Nat.eqb negb orb]. unfold_run.
  destruct (evp_pkey_new_raw_public_key EVP_PKEY_ED25519 pk) as [key|];
    destruct evp_md_ctx_new as [md|]; evp_run.
  all: repeat (evp_case; simplify_eq; evp_run).
  all: evp_finish.
Qed.

(** Key generation yields a pair of 32-byte keys, or empty keys and a message. *)
Lemma generateX25519KeyPair_run w :
  ∃ keys err, generateX25519KeyPair w = Some ((keys, err), w) ∧
    ((err = None ∧ length (privateKey keys) = 32 ∧ length (publicKey keys) = 32) ∨
     (is_Some err ∧ keys = mkX25519KeyPair [] [])).
Proof.
  unfold generateX25519KeyPair. unfold_run.
  destruct (evp_pkey_ctx_new_id EVP_PKEY_X25519) as [c|]; evp_run.
  all: repeat (evp_case; simplify_eq; evp_run).
  all: repeat (evp_write; evp_run).
  all: eexists _, _; split; [reflexivity|]; simpl.
  1: left; split; [done|]; eauto using raw_private_key_length, raw_public_key_length.
  all: right; split; [by eexists|done].
Qed.
End Runs.

(** Correctness of AES-256-GCM as OpenSSL documents it: opening what was sealed with the same
    key, IV and associated data gives the plaintext back. *)
Class GcmCorrect (O : OpenSSL) : Prop := {
  gcm_open_seal key iv aad plaintext ct t :
    length key = 32 → length iv = 12 →
    gcm_seal key iv aad plaintext = Some (ct, t) → gcm_open key iv aad ct t = Some plaintext;
}.

(** ** Input checks and freshness *)

Section Checks.
Context `{Q : QtCore} `{O : OpenSSL}.

Lemma decryptAes256Gcm_refused key nonce c aad w :
  length key ≠ 32 ∨ nonce = [] ∨ length (tag c) ≠ 16 →
  decryptAes256Gcm key nonce c aad w = Some (([], Some (QStringLiteral "invalid AES-256-GCM input")), w).
Proof.
  intros H. unfold decryptAes256Gcm.
  destruct (Nat.eqb_spec (length key) 32), (isEmpty nonce) eqn:En, (Nat.eqb_spec (length (tag c)) 16);
    try done. apply isEmpty_false in En. naive_solver.
Qed.

Lemma encryptAes256Gcm_refused key nonce plaintext aad w :
  length key ≠ 32 ∨ nonce = [] →
  encryptAes256Gcm key nonce plaintext aad w =
    Some ((mkGcmCiphertext [] [], Some (QStringLiteral "AES-256-GCM requires a 32-byte key and nonce")), w).
Proof.
  intros H. unfold encryptAes256Gcm.
  destruct (Nat.eqb_spec (length key) 32), (isEmpty nonce) eqn:En; try done.
  apply isEmpty_false in En. naive_solver.
Qed.

Lemma verifyEd25519_refused pk msg sig w :
  length pk ≠ 32 ∨ length sig ≠ 64 →
  verifyEd25519 pk msg sig w =
    Some ((false, Some (QStringLiteral "invalid Ed25519 key or signature length")), w).
Proof.
  intros H. unfold verifyEd25519.
  destruct (Nat.eqb_spec (length pk) 32), (Nat.eqb_spec (length sig) 64); try done. naive_solver.
Qed.

Lemma x25519SharedSecret_refused sk pk w :
  length sk ≠ 32 ∨ length pk ≠ 32 →
  x25519SharedSecret sk pk w = Some (([], Some (QStringLiteral "X25519 keys must be 32 bytes")), w).
Proof.
  intros H. unfold x25519SharedSecret.
  destruct (Nat.eqb_spec (length sk) 32), (Nat.eqb_spec (length pk) 32); try done. naive_solver.
Qed.
End Checks.

(** Freshness without overflow: the distance is at most thirty seconds. *)
Lemma isFreshTimestamp_defined timestamp now :
  (- 2 ^ 63 < timestamp - now < 2 ^ 63)%Z →
  isFreshTimestamp timestamp now = Some (bool_decide (Z.abs (timestamp - now) <= 30)%Z).
Proof.
  intros H. unfold isFreshTimestamp, qAbs64.
  rewrite checked_in by (unfold in_range; lia). simpl. case_bool_decide.
  - simpl. by rewrite Z.abs_eq.
  - rewrite checked_in by (unfold in_range; lia). simpl. by rewrite Z.abs_neq by lia.
Qed.

Lemma isFreshTimestamp_true timestamp now :
  isFreshTimestamp timestamp now = Some true ↔ (Z.abs (timestamp - now) <= 30)%Z.
Proof.
  split.
  - unfold isFreshTimestamp, qAbs64. intros (d & [-> Hd]%checked_Some & H)%bind_Some.
    apply bind_Some in H as (a & Ha & H). simplify_eq.
    match goal with H : bool_decide _ = true |- _ => apply bool_decide_eq_true in H end.
    case_bool_decide; [simplify_eq; lia|]. apply checked_Some in Ha as [-> _]. lia.
  - intros H. rewrite isFreshTimestamp_defined by lia. by rewrite bool_decide_true.
Qed.
