(* ===== verification/Reference.v ===== *)
(** * Reference implementations of the interfaces

    Small executable implementations of [QtCore] and [OpenSSL] that satisfy the
    laws the development assumes of the real libraries.  They show that the
    laws hold together and let concrete runs be evaluated; no theorem about the
    program mentions them outside a witness. *)
From stdpp Require Import base gmap sets list strings.
From Stdlib Require Import ZArith Lia.
From S2P Require Import Prelude Qt World Crypto.

(** ** Decimal and hexadecimal *)

Definition digit_char (d : Z) : byte := byte_of_Z (48 + d).

Fixpoint digits (fuel : nat) (z : Z) : list byte :=
  match fuel with
  | O => []
  | S fuel => if (z <? 10)%Z then [digit_char z]
              else digits fuel (z / 10) ++ [digit_char (z mod 10)]
  end.

Definition decimal (z : Z) : list byte := digits (S (Z.to_nat (Z.log2 z))) z.

Definition ref_number (z : Z) : list byte :=
  if (z <? 0)%Z then Init.Byte.x2d :: decimal (- z) else decimal z.

Definition digits_value (l : list byte) : Z :=
  foldl (λ acc b, 10 * acc + (Z_of_byte b - 48))%Z 0%Z l.

Lemma log2_div_10 z : (10 <= z)%Z → (Z.to_nat (Z.log2 (z / 10)) < Z.to_nat (Z.log2 z)).
Proof.
  intros Hz. assert (1 <= z / 10)%Z by (apply Z.div_le_lower_bound; lia).
  assert (Z.log2 (z / 10) < Z.log2 z)%Z; [|pose proof (Z.log2_nonneg (z / 10)); lia].
  apply Z.log2_lt_pow2; [lia|]. pose proof (Z.log2_spec z ltac:(lia)) as [_ Hs].
  rewrite Z.pow_succ_r in Hs by apply Z.log2_nonneg.
  apply Z.div_lt_upper_bound; lia.
Qed.

Lemma digits_fuel n m z :
  (0 <= z)%Z → Z.to_nat (Z.log2 z) < n → Z.to_nat (Z.log2 z) < m → digits n z = digits m z.
Proof.
  induction n as [|n IH] in m, z |- *; intros Hz Hn Hm; [lia|].
  destruct m as [|m]; [lia|]. simpl. destruct (Z.ltb_spec z 10); [done|].
  pose proof (log2_div_10 z ltac:(lia)). f_equal.
  apply IH; [apply Z.div_pos; lia|lia|lia].
Qed.

Lemma decimal_snoc a d :
  (1 <= a)%Z → (0 <= d < 10)%Z → decimal (10 * a + d) = decimal a ++ [digit_char d].
Proof.
  intros Ha Hd. unfold decimal at 1. simpl. destruct (Z.ltb_spec (10 * a + d) 10); [lia|].
  assert ((10 * a + d) / 10 = a)%Z as E1 by (symmetry; apply (Z.div_unique _ _ _ d); lia).
  assert ((10 * a + d) mod 10 = d)%Z as E2 by (symmetry; apply (Z.mod_unique _ _ a d); lia).
  rewrite E1, E2. f_equal. apply digits_fuel; [lia| |lia].
  pose proof (log2_div_10 (10 * a + d) ltac:(lia)) as H'. rewrite E1 in H'. lia.
Qed.

Lemma Z_of_digit_char d : (0 <= d < 10)%Z → Z_of_byte (digit_char d) = (48 + d)%Z.
Proof. intros. unfold digit_char. rewrite Z_of_byte_of_Z. apply Z.mod_small. lia. Qed.

Lemma digits_value_digits n z :
  (0 <= z)%Z → Z.to_nat (Z.log2 z) < n → digits_value (digits n z) = z.
Proof.
  induction n as [|n IH] in z |- *; intros Hz Hn; [lia|]. simpl.
  destruct (Z.ltb_spec z 10).
  - unfold digits_value. simpl. rewrite Z_of_digit_char by lia. lia.
  - pose proof (log2_div_10 z ltac:(lia)). unfold digits_value in *. rewrite foldl_app. simpl.
    pose proof (Z.mod_pos_bound z 10 ltac:(lia)). pose proof (Z.div_mod z 10 ltac:(lia)).
    rewrite IH by (try apply Z.div_pos; lia). rewrite Z_of_digit_char; lia.
Qed.

Lemma digits_head n z b l : (0 <= z)%Z → digits n z = b :: l → b ≠ Init.Byte.x2d.
Proof.
  induction n as [|n IH] in z, b, l |- *; intros Hz Hd; [done|]. simpl in Hd.
  assert (∀ d, (0 <= d < 10)%Z → digit_char d ≠ Init.Byte.x2d) as Hchar.
  { intros d Hd' E. apply (f_equal Z_of_byte) in E. rewrite Z_of_digit_char in E by done.
    change (Z_of_byte Init.Byte.x2d) with 45%Z in E. lia. }
  destruct (Z.ltb_spec z 10).
  - simplify_eq. apply Hchar. lia.
  - destruct (digits n (z / 10)) as [|b' l'] eqn:E; simplify_eq/=.
    + apply Hchar, Z.mod_pos_bound. lia.
    + eapply IH; [|done]. apply Z.div_pos; lia.
Qed.

Lemma ref_number_inj z1 z2 : ref_number z1 = ref_number z2 → z1 = z2.
Proof.
  unfold ref_number. intros H. destruct (Z.ltb_spec z1 0), (Z.ltb_spec z2 0).
  - injection H as H. apply (f_equal digits_value) in H. unfold decimal in H.
    rewrite !digits_value_digits in H by lia. lia.
  - symmetry in H. apply digits_head in H; [done|lia].
  - apply digits_head in H; [done|lia].
  - apply (f_equal digits_value) in H. unfold decimal in H.
    rewrite !digits_value_digits in H by lia. lia.
Qed.

Definition hex_char (n : N) : byte :=
  default nul (Byte.of_N (if (n <? 10)%N then 48 + n else 87 + n)%N).
Definition hex_value (b : byte) : N :=
  let n := Byte.to_N b in if (n <? 58)%N then (n - 48)%N else (n - 87)%N.

Definition ref_toHex (l : list byte) : list byte :=
  b ← l; [hex_char (Byte.to_N b / 16); hex_char (Byte.to_N b mod 16)].

Fixpoint ref_fromHex (l : list byte) : list byte :=
  match l with
  | h :: l :: rest =>
      default nul (Byte.of_N (16 * hex_value h + hex_value l)%N) :: ref_fromHex rest
  | _ => []
  end.

Lemma hex_pair b :
  Byte.of_N (16 * hex_value (hex_char (Byte.to_N b / 16))
             + hex_value (hex_char (Byte.to_N b mod 16)))%N = Some b.
Proof. destruct b; vm_compute; reflexivity. Qed.

Lemma ref_fromHex_toHex l : ref_fromHex (ref_toHex l) = l.
Proof.
  induction l as [|b l IH]; [done|]. unfold ref_toHex. rewrite bind_cons. cbn [app ref_fromHex].
  rewrite hex_pair. cbn [default]. f_equal. apply IH.
Qed.

Lemma ref_toHex_text l : Forall (λ c, is_base64_char c = true) (ref_toHex l).
Proof.
  induction l as [|b l IH]; [constructor|]. unfold ref_toHex. rewrite bind_cons.
  apply Forall_app. split; [|exact IH]. destruct b; repeat constructor.
Qed.

Fixpoint hex_digits (fuel : nat) (z : Z) : list N :=
  match fuel with
  | O => []
  | S fuel => if (z <? 16)%Z then [Byte.to_N (hex_char (Z.to_N z))]
              else hex_digits fuel (z / 16) ++ [Byte.to_N (hex_char (Z.to_N (z mod 16)))]
  end.

Lemma hex_digits_length fuel z : length (hex_digits fuel z) ≤ fuel.
Proof.
  induction fuel as [|fuel IH] in z |- *; simpl; [done|].
  destruct (z <? 16)%Z; [simpl; lia|]. rewrite length_app. specialize (IH (z / 16)%Z). simpl. lia.
Qed.

Lemma byte_plain b : (Byte.to_N b < 0xD800)%N.
Proof. pose proof (Byte.to_N_bounded b). lia. Qed.

Lemma hex_digits_plain fuel z : plain_string (hex_digits fuel z).
Proof.
  induction fuel as [|fuel IH] in z |- *; simpl; [constructor|].
  destruct (z <? 16)%Z; [apply Forall_singleton, byte_plain|].
  apply Forall_app. split; [apply IH|]. apply Forall_singleton, byte_plain.
Qed.

(** ** Text *)

Definition ref_toLatin1 (s : list N) : list byte := (λ c, default nul (Byte.of_N c)) <$> s.
Definition ref_fromLatin1 (l : list byte) : list N := Byte.to_N <$> l.

Lemma ref_toLatin1_fromLatin1 l : ref_toLatin1 (ref_fromLatin1 l) = l.
Proof.
  induction l as [|b l IH]; [done|]. 
  change (default nul (Byte.of_N (Byte.to_N b)) :: ref_toLatin1 (ref_fromLatin1 l) = b :: l).
  by rewrite IH, Byte.of_to_N.
Qed.

Lemma ref_fromLatin1_plain l : plain_string (ref_fromLatin1 l).
Proof. apply Forall_fmap, Forall_forall. intros b _. apply byte_plain. Qed.

Definition is_space (b : byte) : bool :=
  let n := Byte.to_N b in (n =? 32)%N || ((9 <=? n) && (n <=? 13))%N.

Fixpoint skip_spaces (l : list byte) : list byte :=
  match l with b :: rest => if is_space b then skip_spaces rest else l | [] => [] end.
Definition ref_trimmed (l : list byte) : list byte := reverse (skip_spaces (reverse (skip_spaces l))).

Lemma skip_spaces_id l : Forall (λ b, is_space b = false) l → skip_spaces l = l.
Proof. destruct 1 as [|b l Hb]; simpl; [done|]. by rewrite Hb. Qed.

Lemma ref_trimmed_id l : Forall (λ b, is_space b = false) l → ref_trimmed l = l.
Proof.
  intros H. unfold ref_trimmed. rewrite !skip_spaces_id; [by rewrite reverse_involutive|done|].
  rewrite skip_spaces_id by done. by apply Forall_reverse.
Qed.

(** ** JSON: a member per plain value, as hexadecimal text

    An object is [{], then [key:value;] for every member.  Keys and strings are the
    hexadecimal form of their code units, so the separators are unambiguous. *)

Definition char_bytes (c : N) : list byte := [byte_of_Z (Z.of_N c / 256); byte_of_Z (Z.of_N c)].
Fixpoint of_char_bytes (l : list byte) : QString :=
  match l with
  | h :: l :: rest => Z.to_N (256 * Z_of_byte h + Z_of_byte l) :: of_char_bytes rest
  | _ => []
  end.

Definition text_of (s : QString) : list byte := ref_toHex (s ≫= char_bytes).
Definition of_text (l : list byte) : QString := of_char_bytes (ref_fromHex l).

Lemma of_text_of s : plain_string s → of_text (text_of s) = s.
Proof.
  unfold of_text, text_of. rewrite ref_fromHex_toHex. induction 1 as [|c s Hc _ IH]; [done|].
  rewrite bind_cons. cbn [char_bytes app of_char_bytes]. rewrite IH, !Z_of_byte_of_Z. f_equal.
  pose proof (Z.div_mod (Z.of_N c) 256 ltac:(lia)).
  rewrite (Z.mod_small (Z.of_N c / 256)); [lia|]. split; [apply Z.div_pos; lia|apply Z.div_lt_upper_bound; lia].
Qed.

(** The bits of an integer. *)
Fixpoint bits (p : positive) : list byte :=
  match p with
  | xH => bytes "e"
  | xO p => Init.Byte.x30 :: bits p
  | xI p => Init.Byte.x31 :: bits p
  end.
Fixpoint of_bits (l : list byte) : option positive :=
  match l with
  | [Init.Byte.x65] => Some xH
  | Init.Byte.x30 :: l => xO <$> of_bits l
  | Init.Byte.x31 :: l => xI <$> of_bits l
  | _ => None
  end.

Lemma of_bits_bits p : of_bits (bits p) = Some p.
Proof. induction p as [p IH|p IH|]; simpl; rewrite ?IH; done. Qed.

Definition value_text (v : QJsonValue) : list byte :=
  match v with
  | JBool b => bytes (if b then "t" else "f")
  | JInteger z => bytes "n" ++ bits (encode z)
  | JString s => bytes "s" ++ text_of s
  | _ => bytes "u"
  end.
Definition of_value_text (l : list byte) : QJsonValue :=
  match l with
  | Init.Byte.x74 :: _ => JBool true
  | Init.Byte.x66 :: _ => JBool false
  | Init.Byte.x6e :: l => default JNull (JInteger <$> (of_bits l ≫= decode))
  | Init.Byte.x73 :: l => JString (of_text l)
  | _ => JUndefined
  end.

Lemma of_value_text_of v : plain_value v → of_value_text (value_text v) = v.
Proof.
  destruct v as [| |[]|z| |s| |]; try done; intros Hv; cbn -[text_of of_text encode decode].
  - by rewrite of_bits_bits; cbn -[encode decode]; rewrite decode_encode.
  - by rewrite of_text_of.
Qed.

Definition SEMICOLON : byte := Init.Byte.x3b.
Definition COLON : byte := Init.Byte.x3a.

(** The characters of keys and values: letters and digits. *)
Lemma text_of_chars s : Forall (λ c, is_base64_char c = true) (text_of s).
Proof. apply ref_toHex_text. Qed.

Lemma value_text_chars v : Forall (λ c, is_base64_char c = true) (value_text v).
Proof.
  destruct v as [| |[]|z| |s| |]; cbn [value_text]; try by repeat constructor.
  - apply Forall_app. split; [by repeat constructor|]. generalize (encode z). clear z.
    intros p. induction p; cbn [bits]; by repeat constructor.
  - apply Forall_app. split; [by repeat constructor|]. apply text_of_chars.
Qed.

Lemma base64_not b (l : list byte) : is_base64_char b = false → Forall (λ c, is_base64_char c = true) l → b ∉ l.
Proof. intros Hb Hl Hin. rewrite Forall_forall in Hl. apply Hl in Hin. congruence. Qed.

Definition member_text (m : QString * QJsonValue) : list byte := text_of m.1 ++ COLON :: value_text m.2.
Definition of_member_text (l : list byte) : QString * QJsonValue :=
  match index_of COLON l with
  | Some i => (of_text (take i l), of_value_text (drop (S i) l))
  | None => ([], JUndefined)
  end.

Lemma of_member_text_of m : plain_string m.1 → plain_value m.2 → of_member_text (member_text m) = m.
Proof.
  destruct m as [k v]. intros Hk Hv. unfold of_member_text, member_text. cbn [fst snd] in *.
  rewrite (proj2 (index_of_Some COLON _ (length (text_of k)))).
  2: { exists (text_of k), (value_text v). split_and!; [done| |done]. by apply base64_not, text_of_chars. }
  rewrite take_app_length, of_text_of by done.
  replace (S (length (text_of k))) with (length (text_of k) + 1) by lia.
  rewrite drop_app_add. rewrite skipn_cons, drop_0. by rewrite of_value_text_of.
Qed.

(** The pieces of a text that end with a semicolon, and what follows the last. *)
Fixpoint pieces (l : list byte) : list (list byte) * list byte :=
  match l with
  | [] => ([], [])
  | c :: l =>
      let '(ps, rest) := pieces l in
      if decide (c = SEMICOLON) then ([] :: ps, rest)
      else match ps with [] => ([], c :: rest) | p :: ps => ((c :: p) :: ps, rest) end
  end.

Lemma pieces_app p l : SEMICOLON ∉ p → pieces (p ++ SEMICOLON :: l) = (p :: (pieces l).1, (pieces l).2).
Proof.
  induction p as [|c p IH]; cbn [app pieces]; intros Hp.
  - by destruct (pieces l).
  - rewrite IH by set_solver. rewrite decide_False by set_solver. done.
Qed.

Definition ref_toJson (o : QJsonObject) : list byte :=
  Init.Byte.x7b :: (map_to_list o ≫= λ m, member_text m ++ [SEMICOLON]).
Definition ref_fromJson (l : list byte) : option QJsonDocument :=
  match l with
  | Init.Byte.x7b :: l =>
      let '(ps, rest) := pieces l in
      if isEmpty rest then Some (DocObject (list_to_map (of_member_text <$> ps))) else None
  | _ => None
  end.

Lemma member_text_piece m : SEMICOLON ∉ member_text m.
Proof.
  unfold member_text. rewrite not_elem_of_app, not_elem_of_cons. split_and!; [|done|].
  - by apply base64_not, text_of_chars.
  - by apply base64_not, value_text_chars.
Qed.

Lemma pieces_members ms : pieces (ms ≫= λ m, member_text m ++ [SEMICOLON]) = (member_text <$> ms, []).
Proof.
  induction ms as [|m ms IH]; [done|].
  rewrite bind_cons, <- app_assoc. cbn [app]. rewrite pieces_app by apply member_text_piece. by rewrite IH.
Qed.

Lemma ref_fromJson_toJson o : plain_object o → ref_fromJson (ref_toJson o) = Some (DocObject o).
Proof.
  intros Ho. unfold ref_fromJson, ref_toJson. rewrite pieces_members. cbn. do 2 f_equal. rewrite <- list_fmap_compose.
  rewrite <- (list_to_map_to_list o) at 2. f_equal. rewrite <- (list_fmap_id (map_to_list o)) at 2.
  apply list_fmap_ext. intros i [k v] Hi. apply list_elem_of_lookup_2, elem_of_map_to_list in Hi.
  destruct (Ho k v Hi). by apply of_member_text_of.
Qed.

(** What no JSON text contains. *)
Lemma toJson_chars (P : byte → Prop) o :
  P Init.Byte.x7b → P COLON → P SEMICOLON → (∀ c, is_base64_char c = true → P c) → Forall P (ref_toJson o).
Proof.
  intros H1 H2 H3 H4. unfold ref_toJson. constructor; [done|].
  apply Forall_bind, Forall_forall. intros m _. unfold member_text.
  apply Forall_app. split; [|by repeat constructor]. apply Forall_app. split; [|constructor; [done|]].
  - eapply Forall_impl; [apply text_of_chars|]. done.
  - eapply Forall_impl; [apply value_text_chars|]. done.
Qed.

Lemma toJson_no_space o : Forall (λ b, is_space b = false) (ref_toJson o).
Proof. apply toJson_chars; try done. intros []; vm_compute; congruence. Qed.

Lemma ref_toJson_not b o :
  b ≠ Init.Byte.x7b → b ≠ COLON → b ≠ SEMICOLON → is_base64_char b = false → b ∉ ref_toJson o.
Proof.
  intros H1 H2 H3 H4 Hin. assert (Forall (λ c, c ≠ b) (ref_toJson o)) as Hf
    by (apply toJson_chars; congruence).
  rewrite Forall_forall in Hf. by destruct (Hf _ Hin).
Qed.

(** The first [%1] of [s] replaced by [x]. *)
Fixpoint ref_arg (s x : list N) : list N :=
  match s with
  | [] => []
  | c :: rest =>
      match rest with
      | d :: rest' => if decide (c = PERCENT ∧ d = 49%N) then x ++ rest' else c :: ref_arg rest x
      | [] => [c]
      end
  end.

Lemma ref_arg_prefix pre s x : PERCENT ∉ pre → ref_arg (pre ++ s) x = pre ++ ref_arg s x.
Proof.
  induction pre as [|c pre IH]; intros Hp; [done|].
  apply not_elem_of_cons in Hp as [Hc Hp]. specialize (IH Hp). cbn [app]. rewrite <- IH.
  cbn [ref_arg]. destruct (pre ++ s); [done|]. by rewrite decide_False by (by intros [-> _]).
Qed.

Lemma ref_arg_marker pre post x : PERCENT ∉ pre → ref_arg (pre ++ QStringLiteral "%1" ++ post) x = pre ++ x ++ post.
Proof. intros Hp. by rewrite ref_arg_prefix. Qed.

(** Every [%1] of [s] replaced by [x] and every [%2] by [y], at once. *)
Fixpoint ref_arg2 (s x y : list N) : list N :=
  match s with
  | [] => []
  | c :: rest =>
      match rest with
      | d :: rest' =>
          if decide (c = PERCENT ∧ d = 49%N) then x ++ ref_arg2 rest' x y
          else if decide (c = PERCENT ∧ d = 50%N) then y ++ ref_arg2 rest' x y
          else c :: ref_arg2 rest x y
      | [] => [c]
      end
  end.

Lemma ref_arg2_prefix pre s x y : PERCENT ∉ pre → ref_arg2 (pre ++ s) x y = pre ++ ref_arg2 s x y.
Proof.
  induction pre as [|c pre IH]; intros Hp; [done|].
  apply not_elem_of_cons in Hp as [Hc Hp]. specialize (IH Hp). cbn [app]. rewrite <- IH.
  cbn [ref_arg2]. destruct (pre ++ s); [done|].
  rewrite decide_False by (by intros [-> _]). by rewrite decide_False by (by intros [-> _]).
Qed.

Lemma ref_arg2_markers pre mid post x y :
  PERCENT ∉ pre → PERCENT ∉ mid → PERCENT ∉ post →
  ref_arg2 (pre ++ QStringLiteral "%1" ++ mid ++ QStringLiteral "%2" ++ post) x y = pre ++ x ++ mid ++ y ++ post.
Proof.
  intros H1 H2 H3. rewrite ref_arg2_prefix by done. f_equal.
  change (x ++ ref_arg2 (mid ++ QStringLiteral "%2" ++ post) x y = x ++ mid ++ y ++ post).
  rewrite ref_arg2_prefix by done. do 2 f_equal.
  change (y ++ ref_arg2 post x y = y ++ post). f_equal.
  rewrite <- (app_nil_r post) at 1. rewrite ref_arg2_prefix by done. apply app_nil_r.
Qed.

(** ** The Qt instance *)

#[global] Instance ref_Qt : QtCore := {
  fromJson := ref_fromJson;
  toJson := ref_toJson;
  toHex := ref_toHex;
  fromHex := ref_fromHex;
  toLatin1 := ref_toLatin1;
  fromLatin1 := ref_fromLatin1;
  toUtf8 := ref_toLatin1;
  fromUtf8 := ref_fromLatin1;
  toBase64 := ref_toHex;
  fromBase64 := ref_fromHex;
  number := ref_number;
  number16 := λ z, ref_toLatin1 (hex_digits 16 z);
  QString_number16 := hex_digits 16;
  rightJustified := λ s w c, replicate (w - length s) c ++ s;
  trimmed := ref_trimmed;
  toLongLong := λ v, match v with JInteger z => swrap 64 z | _ => 0%Z end;
  arg := ref_arg;
  argInt := λ s z, ref_arg s (ref_fromLatin1 (ref_number z));
  arg2 := ref_arg2;
  Uninitialized := λ n, replicate n Init.Byte.xcd;
}.

Lemma swrap_range w z : (0 < w)%Z → in_range w (swrap w z).
Proof.
  intros Hw. unfold in_range, swrap.
  assert (2 ^ w = 2 * 2 ^ (w - 1))%Z as E.
  { rewrite <- Z.pow_succ_r by lia. f_equal. lia. }
  pose proof (Z.mod_pos_bound (z + 2 ^ (w - 1)) (2 ^ w) ltac:(lia)). lia.
Qed.

#[local] Arguments hex_digits : simpl never.
#[local] Arguments decimal : simpl never.

#[global] Instance ref_Qt_laws : QtLaws ref_Qt.
Proof.
  split; simpl.
  - intros b. by rewrite ref_toLatin1_fromLatin1, ref_fromHex_toHex.
  - apply ref_fromLatin1_plain.
  - apply ref_fromJson_toJson.
  - done.
  - intros o. by apply ref_toJson_not.
  - intros o. apply ref_trimmed_id, toJson_no_space.
  - intros o. exact (ref_toLatin1_fromLatin1 (ref_toJson o)).
  - intros o. by apply ref_toJson_not.
  - intros z Hz. by apply swrap_id.
  - intros v. destruct v; try (by unfold in_range; simpl; lia). by apply swrap_range.
  - apply ref_number_inj.
  - intros a d Ha Hd. unfold ref_number.
    destruct (Z.ltb_spec (10 * a + d) 0), (Z.ltb_spec a 0), (Z.ltb_spec d 0); try lia.
    rewrite decimal_snoc by lia. f_equal. unfold decimal. simpl.
    destruct (Z.ltb_spec d 10); [done|lia].
  - intros d Hd. unfold ref_number, decimal. destruct (Z.ltb_spec d 0); [lia|]. simpl.
    destruct (Z.ltb_spec d 10); [done|lia].
  - intros z _. apply hex_digits_length.
  - intros z. apply hex_digits_plain.
  - intros s w c. rewrite length_app, length_replicate. lia.
  - intros s w c Hs Hc. apply Forall_app. split; [by apply Forall_replicate|done].
  - apply ref_fromHex_toHex.
  - apply ref_toHex_text.
  - intros n. apply length_replicate.
  - intros pre post x Hpre _ _. by apply ref_arg_marker.
  - intros pre s z Hpre. eexists. by apply ref_arg_prefix.
  - intros pre mid post x y H1 H2 H3 _ _. by apply ref_arg2_markers.
  - intros pre s x y Hpre. eexists. by apply ref_arg2_prefix.
Qed.

(** ** The OpenSSL instance

    A key agreement that commutes (byte-wise addition), a stream cipher (byte-wise
    addition of the first key byte) with a 128-bit polynomial checksum as its tag, and
    the same checksum as signature: correct in the algebraic sense the laws need, and
    of course not secure. *)

Definition checksum (l : list byte) : Z :=
  foldl (λ acc b, (acc * 257 + Z_of_byte b + 1) mod 2 ^ 128)%Z 0%Z l.

Definition checksum_bytes (n : nat) (l : list byte) : list byte :=
  let h := checksum l in (λ i, byte_of_Z (Z.shiftr h (8 * (Z.of_nat i mod 16)))) <$> seq 0 n.

Lemma checksum_bytes_length n l : length (checksum_bytes n l) = n.
Proof. unfold checksum_bytes. by rewrite length_fmap, length_seq. Qed.

Definition byte_add (k b : byte) : byte := byte_of_Z (Z_of_byte b + Z_of_byte k).
Definition byte_sub (k b : byte) : byte := byte_of_Z (Z_of_byte b - Z_of_byte k).

Lemma byte_sub_add k b : byte_sub k (byte_add k b) = b.
Proof.
  apply Z_of_byte_inj. unfold byte_sub, byte_add. rewrite !Z_of_byte_of_Z.
  rewrite Zminus_mod_idemp_l. replace (_ - _)%Z with (Z_of_byte b) by lia.
  apply Z.mod_small, Z_of_byte_range.
Qed.

Lemma byte_add_comm k b : byte_add k b = byte_add b k.
Proof. unfold byte_add. by rewrite Z.add_comm. Qed.

Record ref_cipher := mkRefCipher {
  rc_key : list byte; rc_iv : list byte; rc_aad : list byte; rc_text : list byte; rc_tag : list byte
}.

Definition rc_sum (c : ref_cipher) : list byte :=
  checksum_bytes 16 (rc_key c ++ rc_iv c ++ rc_aad c ++ rc_text c).
Definition rc_byte (c : ref_cipher) : byte := default nul (head (rc_key c)).
Definition rc_init (c : ref_cipher) (key iv : list byte) : option ref_cipher :=
  Some (mkRefCipher key iv [] [] []).
Definition rc_add_aad (c : ref_cipher) (aad : list byte) : option ref_cipher :=
  Some (mkRefCipher (rc_key c) (rc_iv c) (rc_aad c ++ aad) (rc_text c) (rc_tag c)).
Definition rc_set_tag (c : ref_cipher) (t : list byte) : option ref_cipher :=
  Some (mkRefCipher (rc_key c) (rc_iv c) (rc_aad c) (rc_text c) t).
Definition rc_add_text (c : ref_cipher) (ct : list byte) : ref_cipher :=
  mkRefCipher (rc_key c) (rc_iv c) (rc_aad c) (rc_text c ++ ct) (rc_tag c).
Definition rc_encrypt (c : ref_cipher) (p : list byte) : option (ref_cipher * list byte) :=
  let ct := byte_add (rc_byte c) <$> p in Some (rc_add_text c ct, ct).
Definition rc_decrypt (c : ref_cipher) (ct : list byte) : option (ref_cipher * list byte) :=
  Some (rc_add_text c ct, byte_sub (rc_byte c) <$> ct).

Definition ref_sign (key message : list byte) : list byte := checksum_bytes 64 (key ++ message).

Definition of_length {A} (n : nat) (l : list A) : option (list A) :=
  if decide (length l = n) then Some l else None.

Lemma of_length_Some {A} n (l k : list A) : of_length n l = Some k → length k = n ∧ k = l.
Proof. unfold of_length. case_decide; naive_solver. Qed.

#[global] Instance ref_OpenSSL : OpenSSL := {
  PKEY := pkey_type * list byte;
  PKEY_CTX := list byte * list byte;
  CIPHER_CTX := ref_cipher;
  MD_CTX := list byte;
  evp_pkey_ctx_new_id := λ _, Some ([], []);
  evp_pkey_keygen_init := Some;
  evp_pkey_keygen := λ c, Some (c, (EVP_PKEY_X25519, replicate 32 Init.Byte.x11));
  evp_pkey_get_raw_private_key := λ k, of_length 32 (snd k);
  evp_pkey_get_raw_public_key := λ k, of_length 32 (snd k);
  evp_pkey_new_raw_private_key := λ t b, Some (t, b);
  evp_pkey_new_raw_public_key := λ t b, Some (t, b);
  evp_pkey_ctx_new := λ k, Some (snd k, []);
  evp_pkey_derive_init := Some;
  evp_pkey_derive_set_peer := λ c k, Some (fst c, snd k);
  evp_pkey_derive := λ c, s ← of_length 32 (zip_with byte_add (fst c) (snd c)); Some (c, s);
  evp_cipher_ctx_new := Some (mkRefCipher [] [] [] [] []);
  evp_encrypt_init_cipher := Some;
  evp_decrypt_init_cipher := Some;
  evp_encrypt_init_key := rc_init;
  evp_decrypt_init_key := rc_init;
  evp_encrypt_update_aad := rc_add_aad;
  evp_decrypt_update_aad := rc_add_aad;
  evp_encrypt_update := rc_encrypt;
  evp_decrypt_update := rc_decrypt;
  evp_encrypt_final := λ c, Some (c, []);
  evp_decrypt_final := λ c, if decide (rc_tag c = rc_sum c) then Some (c, []) else None;
  evp_ctrl_get_tag := λ c, Some (c, rc_sum c);
  evp_ctrl_set_tag := rc_set_tag;
  evp_md_ctx_new := Some [];
  evp_digest_verify_init := λ _ k, Some (snd k);
  evp_digest_verify := λ c sig msg, if decide (sig = ref_sign c msg) then Some c else None;
}.

#[global] Instance ref_OpenSSL_sizes : OpenSSLSizes ref_OpenSSL.
Proof.
  split; simpl.
  - intros k b H%of_length_Some. tauto.
  - intros k b H%of_length_Some. tauto.
  - intros c c' b H. destruct (of_length _ _) as [s|] eqn:E; simplify_eq/=.
    apply of_length_Some in E. tauto.
  - intros c p c' b [= _ <-]. by rewrite length_fmap.
  - intros c p c' b [= _ <-]. by rewrite length_fmap.
  - naive_solver.
  - intros c c' b. case_decide; naive_solver.
  - intros c c' t [= _ <-]. apply checksum_bytes_length.
Qed.

#[global] Instance ref_gcm_correct : GcmCorrect ref_OpenSSL.
Proof.
  split. intros key iv aad plaintext ct t _ _. unfold gcm_seal, gcm_open. simpl.
  intros H. assert (Hsub : ∀ k (l : list byte), byte_sub k <$> (byte_add k <$> l) = l).
  { intros k l. induction l as [|b l IH]; [done|]. simpl. f_equal; [apply byte_sub_add|apply IH]. }
  destruct (isEmpty aad) eqn:Ea, (isEmpty plaintext) eqn:Ep; simpl in H; simplify_eq; simpl;
    try (apply isEmpty_true in Ep; subst; simpl; by rewrite decide_True).
  all: assert (isEmpty (byte_add (rc_byte (mkRefCipher key iv [] [] [])) <$> plaintext) = false
     ∧ isEmpty (byte_add (rc_byte (mkRefCipher key iv aad [] [])) <$> plaintext) = false) as [E1 E2]
    by (apply isEmpty_false in Ep; split; apply isEmpty_false; by destruct plaintext).
  all: rewrite ?E1, ?E2; simpl; rewrite decide_True by done; by rewrite Hsub.
Qed.
