(* ===== verification/CryptoTheorems.v ===== *)
(** * What src/core/crypto.cpp guarantees

    The properties of the functions of [Crypto]: memory safety, the
    encryption round trip, the bounds of the nonce and of the time stamp. *)
From stdpp Require Import base gmap sets list strings.
From Stdlib Require Import ZArith Lia.
From S2P Require Import Prelude Qt World Crypto Reference.

(** A nonce OpenSSL can read 12 bytes behind: with the terminating zero, 11 bytes are enough. *)
Definition nonce_readable (nonce : QByteArray) : Prop :=
  gcm_default_iv_length ≤ length nonce + 1.

#[export] Instance nonce_readable_dec nonce : Decision (nonce_readable nonce).
Proof. unfold nonce_readable. apply _. Defined.

Lemma gcm_iv_length nonce : nonce_readable nonce → length (gcm_iv nonce) = 12.
Proof.
  unfold nonce_readable, gcm_iv, gcm_default_iv_length. intros H.
  rewrite length_take, length_app. cbn [length]. lia.
Qed.

Lemma gcm_iv_prefix n x : length n = 12 → gcm_iv (n ++ x) = n.
Proof.
  intros H. unfold gcm_iv, gcm_default_iv_length.
  rewrite <- app_assoc, <- H. by rewrite take_app_length.
Qed.

Section Theorems.
Context `{Q : QtCore} `{O : OpenSSL} {QL : QtLaws Q} {OS : OpenSSLSizes O}.

Lemma gcm_seal_tag_length key iv aad plaintext ct t :
  gcm_seal key iv aad plaintext = Some (ct, t) → length t = 16.
Proof.
  unfold gcm_seal. intros H. do 5 (apply bind_Some in H as (? & _ & H)).
  match goal with p : CIPHER_CTX * _ |- _ => destruct p end.
  apply bind_Some in H as ([? ?] & _ & H). apply bind_Some in H as ([? ?] & Et & H).
  simplify_eq. by eapply get_tag_length.
Qed.

(** What a call of a GCM function with a nonce of one to ten bytes runs into. *)
Definition reads_behind_nonce (key nonce : QByteArray) (init : CIPHER_CTX → option CIPHER_CTX) : Prop :=
  length key = 32 ∧ 0 < length nonce < 11 ∧ is_Some (evp_cipher_ctx_new ≫= init).

Lemma length_pos (l : QByteArray) : l ≠ [] → 0 < length l.
Proof. destruct l; [done|]. cbn. lia. Qed.

(** C16: the five functions of crypto.cpp that use OpenSSL give back every EVP object they
    allocate, on every path, whatever OpenSSL answers: a call returns, with the heap and the rest
    of the world as they were, or is undefined, and that is only possible for the two GCM
    functions, exactly when a 32-byte key comes with a nonce of one to ten bytes (and, to decrypt,
    a 16-byte tag) and OpenSSL hands out a context that accepts the cipher.  The other two
    functions of the file, [isFreshTimestamp] and [ReplayGuard::accept], allocate nothing. *)
Theorem crypto_calls_release_everything (w : World) :
  (∃ r, generateX25519KeyPair w = Some (r, w)) ∧
  (∀ sk pk, ∃ r, x25519SharedSecret sk pk w = Some (r, w)) ∧
  (∀ pk msg sig, ∃ r, verifyEd25519 pk msg sig w = Some (r, w)) ∧
  (∀ key nonce plaintext aad,
     (reads_behind_nonce key nonce evp_encrypt_init_cipher ∧ encryptAes256Gcm key nonce plaintext aad w = None) ∨
     (¬ reads_behind_nonce key nonce evp_encrypt_init_cipher ∧
      ∃ r, encryptAes256Gcm key nonce plaintext aad w = Some (r, w))) ∧
  (∀ key nonce c aad,
     (reads_behind_nonce key nonce evp_decrypt_init_cipher ∧ length (tag c) = 16 ∧
      decryptAes256Gcm key nonce c aad w = None) ∨
     (¬ (reads_behind_nonce key nonce evp_decrypt_init_cipher ∧ length (tag c) = 16) ∧
      ∃ r, decryptAes256Gcm key nonce c aad w = Some (r, w))).
Proof.
  unfold reads_behind_nonce. split_and!.
  - destruct (generateX25519KeyPair_run w) as (? & ? & -> & _). by eexists.
  - intros sk pk.
    destruct (decide (length sk = 32)), (decide (length pk = 32));
      [rewrite x25519SharedSecret_run by done| | |];
      rewrite ?x25519SharedSecret_refused by tauto; by eexists.
  - intros pk msg sig.
    destruct (decide (length pk = 32)), (decide (length sig = 64));
      [rewrite verifyEd25519_run by done| | |];
      rewrite ?verifyEd25519_refused by tauto; by eexists.
  - intros key nonce plaintext aad. destruct (decide (length key = 32 ∧ nonce ≠ [])) as [[Hk Hne]|Hno].
    2: { right. rewrite encryptAes256Gcm_refused by (destruct (decide (nonce = [])); tauto).
         split; [|by eexists]. intros (? & ? & _). apply Hno. split; [done|]. intros ->. cbn in *. lia. }
    apply length_pos in Hne as Hpos. destruct (decide (nonce_readable nonce)) as [Hr|Hr]; unfold nonce_readable in Hr.
    + right. rewrite encryptAes256Gcm_run by done. unfold gcm_default_iv_length in Hr. split; [lia|by eexists].
    + rewrite encryptAes256Gcm_short by (try done; lia). unfold gcm_default_iv_length in Hr.
      destruct (evp_cipher_ctx_new ≫= evp_encrypt_init_cipher) as [c|]; [left|right].
      * split_and!; [done|lia|lia|by eexists|done].
      * split; [|by eexists]. by intros (_ & _ & [? ?]).
  - intros key nonce c aad. destruct (decide (length key = 32 ∧ nonce ≠ [] ∧ length (tag c) = 16)) as [(Hk & Hne & Ht)|Hno].
    2: { right. rewrite decryptAes256Gcm_refused
           by (destruct (decide (nonce = [])), (decide (length key = 32)); tauto).
         split; [|by eexists]. intros [(? & ? & _) ?]. apply Hno. split_and!; [done| |done]. intros ->. cbn in *. lia. }
    apply length_pos in Hne as Hpos. destruct (decide (nonce_readable nonce)) as [Hr|Hr]; unfold nonce_readable in Hr.
    + right. rewrite decryptAes256Gcm_run by done. unfold gcm_default_iv_length in Hr. split; [lia|by eexists].
    + rewrite decryptAes256Gcm_short by (try done; lia). unfold gcm_default_iv_length in Hr.
      destruct (evp_cipher_ctx_new ≫= evp_decrypt_init_cipher) as [ctx|]; [left|right].
      * split_and!; [done|lia|lia|by eexists|done|done].
      * split; [|by eexists]. by intros [(_ & _ & [? ?]) _].
Qed.

(** C15: what [encryptAes256Gcm] seals, [decryptAes256Gcm] opens under the same key, nonce and
    associated data. *)
Theorem aes256gcm_roundtrip {GC : GcmCorrect O} key nonce plaintext aad c w w' :
  length key = 32 → nonce_readable nonce →
  encryptAes256Gcm key nonce plaintext aad w = Some ((c, None), w') →
  decryptAes256Gcm key nonce c aad w' = Some ((plaintext, None), w').
Proof.
  intros Hk Hn. rewrite encryptAes256Gcm_run by done.
  destruct (gcm_seal key (gcm_iv nonce) aad plaintext) as [[ct t]|] eqn:E; [|done].
  intros [= <- <-]. rewrite decryptAes256Gcm_run; simpl; try done.
  - erewrite gcm_open_seal; [done|done| |done]. by apply gcm_iv_length.
  - by eapply gcm_seal_tag_length.
Qed.

(** A nonce of one to ten bytes passes the [isEmpty] check, and OpenSSL, which was never
    told the nonce length, then reads past the end of the array: both GCM functions are
    undefined as soon as OpenSSL hands out a context that accepts the cipher. *)
Lemma gcm_short_nonce_undefined key nonce plaintext ct aad c c1 c2 w :
  length key = 32 → length (tag ct) = 16 → 0 < length nonce < 11 →
  evp_cipher_ctx_new = Some c →
  evp_encrypt_init_cipher c = Some c1 → evp_decrypt_init_cipher c = Some c2 →
  encryptAes256Gcm key nonce plaintext aad w = None ∧ decryptAes256Gcm key nonce ct aad w = None.
Proof.
  intros Hk Ht Hn Hc H1 H2. assert (nonce ≠ []) as Hne by (intros ->; cbn in Hn; lia).
  rewrite encryptAes256Gcm_short, decryptAes256Gcm_short by (try done; unfold gcm_default_iv_length; lia).
  rewrite Hc. cbn [mbind option_bind]. by rewrite H1, H2.
Qed.

(** Only the first 12 bytes of a nonce are used: envelopes whose nonces differ beyond them
    decrypt alike. *)
Theorem gcm_nonce_truncated key nonce x y c aad w :
  length nonce = 12 →
  decryptAes256Gcm key (nonce ++ x) c aad w = decryptAes256Gcm key (nonce ++ y) c aad w.
Proof.
  intros Hn. assert (∀ z, nonce ++ z ≠ []) as Hne by (intros z; by destruct nonce).
  destruct (decide (length key = 32)), (decide (length (tag c) = 16));
    rewrite ?decryptAes256Gcm_refused by tauto; try done.
  rewrite !decryptAes256Gcm_run, !gcm_iv_prefix; try done.
  all: unfold gcm_default_iv_length; rewrite length_app; lia.
Qed.
End Theorems.

(** [isFreshTimestamp] decides [|timestamp - now| <= 30] when the subtraction and the
    negation inside [qAbs] fit 64 bits, and is undefined for every other pair; a clock reading
    between 0 and 2^62 leaves only time stamps at or below [now - 2^63] undefined. *)
Theorem isFreshTimestamp_spec timestamp now :
  isFreshTimestamp timestamp now =
    if decide (- 2 ^ 63 < timestamp - now < 2 ^ 63)%Z
    then Some (bool_decide (Z.abs (timestamp - now) <= 30)%Z) else None.
Proof.
  case_decide as H; [by apply isFreshTimestamp_defined|].
  unfold isFreshTimestamp, qAbs64. destruct (checked 64 (timestamp - now)) as [d|] eqn:E; [|done].
  apply checked_Some in E as [-> E]. unfold in_range in E. simpl in *. case_bool_decide; [lia|].
  unfold checked. case_decide as H'; [unfold in_range in H'; lia|done].
Qed.

(** *** Witnesses *)

Definition start_world : World := mkWorld (λ _, 0%Z) 0 (λ _, 0%Z) 0 ∅ [].

(** With the reference library: a nonce of twelve bytes is decrypted or refused, one of two bytes
    is undefined. *)
Lemma crypto_calls_release_everything_witness :
  (∃ r, decryptAes256Gcm (replicate 32 nul) (replicate 12 nul) (mkGcmCiphertext [] (replicate 16 nul)) []
          start_world = Some (r, start_world)) ∧
  encryptAes256Gcm (replicate 32 nul) (replicate 2 nul) [] [] start_world = None.
Proof.
  destruct (crypto_calls_release_everything start_world) as (_ & _ & _ & He & Hd). split.
  - destruct (Hd (replicate 32 nul) (replicate 12 nul) (mkGcmCiphertext [] (replicate 16 nul)) [])
      as [[(_ & Hlen & _) _]|[_ H]]; [cbn in Hlen; lia|exact H].
  - destruct (He (replicate 32 nul) (replicate 2 nul) [] []) as [[_ H]|[Hno _]]; [exact H|].
    destruct Hno. split_and!; [reflexivity|cbn; lia|cbn; lia|by eexists].
Defined.

Definition sealed_hello : GcmCiphertext :=
  match encryptAes256Gcm (replicate 32 Init.Byte.x05) (replicate 12 nul) (bytes "hello") (bytes "aad")
          start_world with
  | Some ((c, _), _) => c
  | None => mkGcmCiphertext [] []
  end.

Lemma aes256gcm_roundtrip_witness :
  decryptAes256Gcm (replicate 32 Init.Byte.x05) (replicate 12 nul) sealed_hello (bytes "aad") start_world =
    Some ((bytes "hello", None), start_world).
Proof.
  apply (aes256gcm_roundtrip (replicate 32 Init.Byte.x05) (replicate 12 nul) (bytes "hello")
    (bytes "aad") sealed_hello start_world start_world); [reflexivity| |vm_eq].
  apply (bool_decide_unpack _). reflexivity.
Defined.

Lemma gcm_nonce_truncated_witness :
  decryptAes256Gcm (replicate 32 nul) (replicate 12 nul ++ [nul]) (mkGcmCiphertext [] (replicate 16 nul)) []
    start_world =
  decryptAes256Gcm (replicate 32 nul) (replicate 12 nul ++ []) (mkGcmCiphertext [] (replicate 16 nul)) []
    start_world.
Proof. apply gcm_nonce_truncated. reflexivity. Defined.
