(* ===== verification/ReplayGuard.v ===== *)
(** * crypto::ReplayGuard (src/core/crypto.cpp, crypto.hpp)

    The guard remembers [nonce + decimal timestamp] tokens and forgets all of
    them when more than a minute has passed since the last cleanup.  The
    freshness test runs before the mutex is taken, the rest under it; the two
    parts are separate definitions so that concurrent callers can be
    interleaved. *)
From stdpp Require Import base gmap sets list strings.
From Stdlib Require Import ZArith Lia.
From S2P Require Import Prelude Qt World Crypto Reference CryptoTheorems.

Record ReplayGuard : Type := mkReplayGuard { seen_ : gset QByteArray; lastCleanup_ : Z }.

Definition initial_guard : ReplayGuard := mkReplayGuard ∅ 0.

Section Accept.
Context `{Q : QtCore} `{O : OpenSSL}.

(** [nonce + QByteArray::number(timestamp)] *)
Definition token (nonce : QByteArray) (timestamp : Z) : QByteArray := nonce ++ number timestamp.

(** The guard after the cleanup test of [accept] at the clock reading [now]. *)
Definition cleanup (g : ReplayGuard) (now age : Z) : ReplayGuard :=
  if bool_decide (age > 60)%Z then mkReplayGuard ∅ now else g.

(** The part of [accept] that holds the mutex. *)
Definition accept_locked (g : ReplayGuard) (nonce : QByteArray) (timestamp : Z)
    : M World (bool * ReplayGuard) :=
  now ← currentSecsSinceEpoch;
  age ← defined (checked 64 (now - lastCleanup_ g));
  let g := cleanup g now age in
  let t := token nonce timestamp in
  if bool_decide (t ∈ seen_ g) then mret (false, g)
  else mret (true, mkReplayGuard ({[t]} ∪ seen_ g) (lastCleanup_ g)).

(** [isFreshTimestamp(timestamp)] with its default argument, the current time. *)
Definition isFreshTimestamp_now (timestamp : Z) : M World bool :=
  now ← currentSecsSinceEpoch; defined (isFreshTimestamp timestamp now).

(** The test that runs before the mutex is taken. *)
Definition accept_precheck (nonce : QByteArray) (timestamp : Z) : M World bool :=
  if isEmpty nonce then mret false else isFreshTimestamp_now timestamp.

Definition accept (g : ReplayGuard) (nonce : QByteArray) (timestamp : Z)
    : M World (bool * ReplayGuard) :=
  fresh ← accept_precheck nonce timestamp;
  if negb fresh then mret (false, g) else accept_locked g nonce timestamp.
End Accept.

(** ** Runs *)

Section Runs.
Context `{Q : QtCore} `{O : OpenSSL}.
Implicit Types (w : World) (g : ReplayGuard).

(** The clock moved on by [n] readings. *)
Definition advance (n : nat) (w : World) : World := set_clock_reads (λ k, n + k) w.

Definition reading (w : World) (n : nat) : Z := clock w (clock_reads w + n).

Lemma currentSecsSinceEpoch_run w :
  currentSecsSinceEpoch w = Some (reading w 0, advance 1 w).
Proof. unfold reading. by rewrite Nat.add_0_r. Qed.

Lemma reading_advance w n k : reading (advance n w) k = reading w (n + k).
Proof. unfold reading. simpl. f_equal. lia. Qed.

Lemma advance_0 w : advance 0 w = w.
Proof. by destruct w. Qed.

Lemma advance_advance n k w : advance n (advance k w) = advance (n + k) w.
Proof. unfold advance, set_clock_reads. simpl. by rewrite Nat.add_assoc. Qed.

(** What [accept_locked] does at the clock reading [now]. *)
Definition locked_result g nonce timestamp (now : Z) : bool * ReplayGuard :=
  let g := cleanup g now (now - lastCleanup_ g) in
  if bool_decide (token nonce timestamp ∈ seen_ g) then (false, g)
  else (true, mkReplayGuard ({[token nonce timestamp]} ∪ seen_ g) (lastCleanup_ g)).

(** The decision in [locked_result]. *)
Lemma locked_accepts g nonce timestamp now b g' :
  (b, g') = locked_result g nonce timestamp now →
  b = bool_decide (token nonce timestamp ∉ seen_ g ∨ (now - lastCleanup_ g > 60)%Z).
Proof.
  unfold locked_result, cleanup.
  destruct (bool_decide (now - lastCleanup_ g > 60)%Z) eqn:Ea; simpl.
  - apply bool_decide_eq_true in Ea. rewrite bool_decide_false by set_solver.
    intros [= -> ->]. symmetry. apply bool_decide_true. by right.
  - apply bool_decide_eq_false in Ea. case_bool_decide as Hin; intros [= -> ->]; symmetry.
    + apply bool_decide_false. tauto.
    + apply bool_decide_true. by left.
Qed.

Lemma accept_locked_run g nonce timestamp w :
  in_range 64 (reading w 0 - lastCleanup_ g) →
  accept_locked g nonce timestamp w =
    Some (locked_result g nonce timestamp (reading w 0), advance 1 w).
Proof.
  intros Hr. unfold accept_locked, locked_result.
  rewrite (bind_run _ _ _ _ _ (currentSecsSinceEpoch_run w)).
  rewrite checked_in by done. unfold defined, mbind, M_bind. simpl. by case_bool_decide.
Qed.

Lemma accept_locked_inv g nonce timestamp w r w' :
  accept_locked g nonce timestamp w = Some (r, w') →
  r = locked_result g nonce timestamp (reading w 0) ∧ w' = advance 1 w.
Proof.
  intros H. destruct (decide (in_range 64 (reading w 0 - lastCleanup_ g))) as [Hr|Hr].
  - rewrite accept_locked_run in H by done. by simplify_eq.
  - unfold accept_locked in H. rewrite (bind_run _ _ _ _ _ (currentSecsSinceEpoch_run w)) in H.
    unfold checked in H. by rewrite decide_False in H.
Qed.

Lemma accept_precheck_run nonce timestamp w :
  nonce ≠ [] →
  accept_precheck nonce timestamp w =
    (λ b, (b, advance 1 w)) <$> isFreshTimestamp timestamp (reading w 0).
Proof.
  intros Hn. unfold accept_precheck, isFreshTimestamp_now. apply isEmpty_false in Hn as ->.
  rewrite (bind_run _ _ _ _ _ (currentSecsSinceEpoch_run w)). unfold defined.
  by destruct (isFreshTimestamp _ _).
Qed.

(** Every defined outcome of [accept]. *)
Lemma accept_inv g nonce timestamp w b g' w' :
  accept g nonce timestamp w = Some ((b, g'), w') →
  (nonce = [] ∧ b = false ∧ g' = g ∧ w' = w) ∨
  (nonce ≠ [] ∧ isFreshTimestamp timestamp (reading w 0) = Some false ∧
     b = false ∧ g' = g ∧ w' = advance 1 w) ∨
  (nonce ≠ [] ∧ isFreshTimestamp timestamp (reading w 0) = Some true ∧
     (b, g') = locked_result g nonce timestamp (reading w 1) ∧ w' = advance 2 w).
Proof.
  unfold accept. intros (fresh & w1 & Hp & H)%M_bind_Some.
  destruct (decide (nonce = [])) as [->|Hn].
  - left. unfold accept_precheck in Hp. simpl in Hp. unfold mret, M_ret in *. by simplify_eq/=.
  - right. rewrite accept_precheck_run in Hp by done.
    destruct (isFreshTimestamp timestamp (reading w 0)) as [[]|] eqn:Ef; simplify_eq/=.
    + right. apply accept_locked_inv in H as [Hr ->].
      rewrite reading_advance, advance_advance in *. done.
    + left. unfold mret, M_ret in H. by simplify_eq.
Qed.

Lemma accept_run g nonce timestamp w :
  nonce ≠ [] → (Z.abs (timestamp - reading w 0) <= 30)%Z →
  in_range 64 (reading w 1 - lastCleanup_ g) →
  accept g nonce timestamp w =
    Some (locked_result g nonce timestamp (reading w 1), advance 2 w).
Proof.
  intros Hn Hf Hr. unfold accept. apply isFreshTimestamp_true in Hf.
  rewrite (bind_run _ _ w true (advance 1 w)) by (by rewrite accept_precheck_run, Hf). simpl.
  rewrite accept_locked_run; rewrite reading_advance; [|done].
  by rewrite advance_advance.
Qed.
End Runs.
