(* ===== verification/ReplayTheorems.v ===== *)
(** * What the replay guard guarantees

    The decision of one call, the absence of double acceptance between two
    cleanups for concurrent callers, the replay that a cleanup re-admits, and
    the unambiguity of the tokens. *)
From stdpp Require Import base gmap sets list strings relations.
From Stdlib Require Import ZArith Lia.
From S2P Require Import Prelude Qt World Crypto Reference CryptoTheorems ReplayGuard.

(** ** Concurrent callers

    Each thread calls [accept] once: it evaluates the test in front of the mutex, then runs
    the locked part as one step.  Threads interleave freely and share the guard and the
    clock. *)
Inductive thread : Type :=
  | Called (nonce : QByteArray) (timestamp : Z)
  | Checked (nonce : QByteArray) (timestamp : Z)
  | Returned (nonce : QByteArray) (timestamp : Z) (result : bool).

Section Concurrency.
Context `{Q : QtCore} `{O : OpenSSL}.

Record config : Type := mkConfig {
  guard : ReplayGuard;
  world : World;
  threads : list thread;
}.

Inductive accept_step : config → config → Prop :=
  | step_precheck i nonce timestamp b w' c :
      threads c !! i = Some (Called nonce timestamp) →
      accept_precheck nonce timestamp (world c) = Some (b, w') →
      accept_step c (mkConfig (guard c) w'
        (<[i := if b : bool then Checked nonce timestamp else Returned nonce timestamp false]> (threads c)))
  | step_locked i nonce timestamp b g' w' c :
      threads c !! i = Some (Checked nonce timestamp) →
      accept_locked (guard c) nonce timestamp (world c) = Some ((b, g'), w') →
      accept_step c (mkConfig g' w' (<[i := Returned nonce timestamp b]> (threads c))).

(** The token a thread got accepted. *)
Definition accepted (t : thread) : option QByteArray :=
  match t with Returned nonce timestamp true => Some (token nonce timestamp) | _ => None end.

(** Between two cleanups: every accepted token is remembered, and no two threads got the
    same one. *)
Record no_double (g0 : ReplayGuard) (w0 : World) (c : config) : Prop := {
  nd_clock : clock (world c) = clock w0;
  nd_cleanup : lastCleanup_ (guard c) = lastCleanup_ g0;
  nd_grows : seen_ g0 ⊆ seen_ (guard c);
  nd_seen i t k : threads c !! i = Some t → accepted t = Some k → k ∈ seen_ (guard c) ∧ k ∉ seen_ g0;
  nd_distinct i j t u k :
    threads c !! i = Some t → threads c !! j = Some u →
    accepted t = Some k → accepted u = Some k → i = j;
}.

Lemma accept_precheck_clock nonce timestamp w b w' :
  accept_precheck nonce timestamp w = Some (b, w') → clock w' = clock w.
Proof.
  destruct (decide (nonce = [])) as [->|Hn].
  - unfold accept_precheck. simpl. unfold mret, M_ret. by intros [= _ <-].
  - rewrite accept_precheck_run by done. destruct (isFreshTimestamp _ _); simpl; [|done].
    by intros [= _ <-].
Qed.

Lemma cleanup_idle g now : (now - lastCleanup_ g <= 60)%Z → cleanup g now (now - lastCleanup_ g) = g.
Proof. intros. unfold cleanup. rewrite bool_decide_false; [done|lia]. Qed.

Lemma no_double_step g0 w0 c c' :
  (∀ n, clock w0 n - lastCleanup_ g0 <= 60)%Z →
  no_double g0 w0 c → accept_step c c' → no_double g0 w0 c'.
Proof.
  intros Hclock [Hc Hl Hg Hs Hd] Hstep.
  destruct Hstep as [i nonce ts b w' c Hi Hrun|i nonce ts b g' w' c Hi Hrun].
  - assert (accepted (if b then Checked nonce ts else Returned nonce ts false) = None) as Hnone
      by (by destruct b).
    split; simpl; try done.
    + rewrite <- Hc. by eapply accept_precheck_clock.
    + intros j t k Hj. rewrite list_lookup_insert_Some in Hj. naive_solver.
    + intros j1 j2 t u k Hj1 Hj2. rewrite list_lookup_insert_Some in Hj1, Hj2. naive_solver.
  - apply accept_locked_inv in Hrun as [Hres ->].
    unfold locked_result in Hres. rewrite cleanup_idle in Hres by (rewrite Hl; unfold reading; rewrite Hc; apply Hclock).
    case_bool_decide as Hin; simplify_eq.
    + split; simpl; try done.
      * intros j t k Hj. rewrite list_lookup_insert_Some in Hj. naive_solver.
      * intros j1 j2 t u k Hj1 Hj2. rewrite list_lookup_insert_Some in Hj1, Hj2. naive_solver.
    + assert (∀ j t k, threads c !! j = Some t → accepted t = Some k → k ≠ token nonce ts) as Hne.
      { intros j t k Hj Ht ->. by destruct (Hs _ _ _ Hj Ht). }
      split; simpl; try done; [set_solver| |].
      * intros j t k Hj Ht. rewrite list_lookup_insert_Some in Hj.
        destruct Hj as [(<- & <- & _)|[_ Hj]]; simplify_eq/=; [set_solver|].
        destruct (Hs _ _ _ Hj Ht). set_solver.
      * intros j1 j2 t u k Hj1 Hj2. rewrite list_lookup_insert_Some in Hj1, Hj2.
        destruct Hj1 as [(<- & <- & _)|[? Hj1]], Hj2 as [(<- & <- & _)|[? Hj2]]; simpl; intros;
          simplify_eq; try done; [by destruct (Hne j2 u (token nonce ts))
                                 |by destruct (Hne j1 t (token nonce ts))|by eapply Hd].
Qed.

Lemma no_double_steps g0 w0 c c' :
  (∀ n, clock w0 n - lastCleanup_ g0 <= 60)%Z →
  no_double g0 w0 c → rtc accept_step c c' → no_double g0 w0 c'.
Proof. intros Hclock Hc. induction 1; eauto using no_double_step. Qed.

Lemma no_double_start g0 w0 calls :
  no_double g0 w0 (mkConfig g0 w0 ((λ p, Called (fst p) (snd p)) <$> calls)).
Proof.
  split; simpl; try done.
  - intros i t k Hi. rewrite list_lookup_fmap in Hi. apply fmap_Some in Hi as (p & _ & ->). done.
  - intros i j t u k Hi. rewrite list_lookup_fmap in Hi. apply fmap_Some in Hi as (p & _ & ->). done.
Qed.
End Concurrency.

Section Theorems.
Context `{Q : QtCore} `{O : OpenSSL}.

(** C8: one call of [accept] returns true exactly when the nonce is not empty, the time stamp
    is at most 30 seconds away from the first clock reading, and the token is not remembered
    or the last cleanup is more than 60 seconds before the second reading; an accepted token
    is remembered, and nothing else is added. *)
Theorem accept_decides g nonce timestamp w b g' w' :
  accept g nonce timestamp w = Some ((b, g'), w') →
  (b = true ↔
     nonce ≠ [] ∧ (Z.abs (timestamp - reading w 0) <= 30)%Z ∧
     (token nonce timestamp ∉ seen_ g ∨ (reading w 1 - lastCleanup_ g > 60)%Z)) ∧
  (b = true → token nonce timestamp ∈ seen_ g') ∧
  seen_ g' ⊆ {[token nonce timestamp]} ∪ seen_ g.
Proof.
  intros H. apply accept_inv in H as
    [(-> & -> & -> & _)|[(Hn & Hf & -> & -> & _)|(Hn & Hf & Hr & _)]].
  - split_and!; [naive_solver|done|set_solver].
  - split_and!; [|done|set_solver]. split; [done|]. intros (_ & Ht%isFreshTimestamp_true & _).
    rewrite Hf in Ht. done.
  - apply isFreshTimestamp_true in Hf. revert Hr. unfold locked_result, cleanup.
    destruct (bool_decide (reading w 1 - lastCleanup_ g > 60)%Z) eqn:Ea; simpl.
    + apply bool_decide_eq_true in Ea. rewrite bool_decide_false by set_solver.
      intros [= -> ->]. simpl. set_solver.
    + apply bool_decide_eq_false in Ea.
      case_bool_decide; intros [= -> ->]; simpl; split_and!; try set_solver.
Qed.

(** C9: no matter how concurrent calls of [accept] interleave, as long as no clock reading is
    more than 60 seconds after the last cleanup, at most one call per token returns true, and
    none does for a token that was already remembered. *)
Theorem accept_once_between_cleanups g0 w0 calls c i j n1 t1 n2 t2 :
  (∀ n, clock w0 n - lastCleanup_ g0 <= 60)%Z →
  rtc accept_step (mkConfig g0 w0 ((λ p, Called (fst p) (snd p)) <$> calls)) c →
  threads c !! i = Some (Returned n1 t1 true) →
  threads c !! j = Some (Returned n2 t2 true) →
  token n1 t1 ∉ seen_ g0 ∧ (token n1 t1 = token n2 t2 → i = j).
Proof.
  intros Hclock Hsteps Hi Hj.
  pose proof (no_double_steps _ _ _ _ Hclock (no_double_start g0 w0 calls) Hsteps) as Hnd.
  split.
  - by destruct (nd_seen _ _ _ Hnd i _ (token n1 t1) Hi).
  - intros E. eapply (nd_distinct _ _ _ Hnd); [exact Hi|exact Hj|done|simpl; by rewrite E].
Qed.

(** The guard does not stop replays: a token accepted 60 seconds after the last cleanup is
    accepted again one second later, still fresh, because the second call first forgets every
    token. *)
Theorem replay_accepted_after_cleanup g nonce w b1 g1 w1 :
  let L := lastCleanup_ g in
  nonce ≠ [] → (0 <= L < 2 ^ 62)%Z →
  token nonce (L + 60) ∉ seen_ g →
  reading w 0 = (L + 60)%Z → reading w 1 = (L + 60)%Z →
  reading w 2 = (L + 61)%Z → reading w 3 = (L + 61)%Z →
  accept g nonce (L + 60) w = Some ((b1, g1), w1) →
  b1 = true ∧ ∃ g2 w2, accept g1 nonce (L + 60) w1 = Some ((true, g2), w2).
Proof.
  intros L Hn HL Ht H0 H1 H2 H3 H.
  rewrite accept_run in H; rewrite ?H0, ?H1; [|done|lia|fold L; unfold in_range; lia].
  unfold locked_result in H. rewrite H1, cleanup_idle in H by (fold L; lia).
  rewrite bool_decide_false in H by done. simplify_eq. split; [done|].
  eexists _, _. rewrite accept_run; rewrite ?reading_advance; simpl; fold L; rewrite ?H2, ?H3;
    [|done|lia|unfold in_range; lia].
  unfold locked_result, cleanup. simpl. fold L.
  rewrite (bool_decide_true (L + 61 - L > 60)%Z) by lia. simpl. by rewrite bool_decide_false by set_solver.
Qed.

(** For time stamps of ten decimal digits (every second between the years 2001 and 2286)
    a token determines the nonce and the time stamp. *)
Theorem token_injective {QL : QtLaws Q} n1 t1 n2 t2 :
  (10 ^ 9 <= t1 < 10 ^ 10)%Z → (10 ^ 9 <= t2 < 10 ^ 10)%Z →
  token n1 t1 = token n2 t2 → n1 = n2 ∧ t1 = t2.
Proof.
  intros H1 H2 E. unfold token in E.
  apply app_inj_2 in E as [-> E]; [|by rewrite !(number_length 9)]. split; [done|].
  by apply number_inj.
Qed.

(** Without that restriction tokens are ambiguous: a nonce that ends in digits can be read as
    a shorter nonce with a longer time stamp. *)
Lemma token_ambiguous {QL : QtLaws Q} nonce a d :
  (1 <= a)%Z → (0 <= d < 10)%Z → token (nonce ++ number a) d = token nonce (10 * a + d).
Proof. intros. unfold token. rewrite number_decimal by done. by rewrite app_assoc. Qed.
End Theorems.

(** *** Witnesses *)

(** A clock that shows [t] for two readings and [t + 1] afterwards. *)
Definition two_ticks (t : Z) : World :=
  mkWorld (λ n, if bool_decide (n < 2) then t else (t + 1)%Z) 0 (λ _, 0%Z) 0 ∅ [].

Definition guard_at (t : Z) : ReplayGuard := mkReplayGuard ∅ t.

Lemma accept_decides_witness :
  true = true ↔ [nul] ≠ [] ∧ (Z.abs (1060 - reading (two_ticks 1060) 0) <= 30)%Z ∧
    (token [nul] 1060 ∉ seen_ (guard_at 1000) ∨ (reading (two_ticks 1060) 1 - 1000 > 60)%Z).
Proof.
  refine (proj1 (accept_decides (guard_at 1000) [nul] 1060 (two_ticks 1060) true
    (snd (locked_result (guard_at 1000) [nul] 1060 1060)) (advance 2 (two_ticks 1060)) _)).
  vm_eq.
Defined.

(** Three callers, all past the first check before one gets the lock: the second presents the
    token of the first and is refused, the third another nonce. *)
Definition crowd : list (QByteArray * Z) := [([nul], 1060%Z); ([nul], 1060%Z); ([nul; nul], 1060%Z)].
Definition crowd_guard (k : nat) : ReplayGuard :=
  match k with
  | 0 => guard_at 1001
  | 1 => snd (locked_result (guard_at 1001) [nul] 1060 1061)
  | _ => snd (locked_result (snd (locked_result (guard_at 1001) [nul] 1060 1061)) [nul; nul] 1060 1061)
  end.

Lemma crowd_steps :
  rtc accept_step (mkConfig (crowd_guard 0) (two_ticks 1060) ((λ p, Called (fst p) (snd p)) <$> crowd))
    (mkConfig (crowd_guard 2) (advance 6 (two_ticks 1060))
       [Returned [nul] 1060 true; Returned [nul] 1060 false; Returned [nul; nul] 1060 true]).
Proof.
  eapply rtc_l; [apply (step_precheck 2 [nul; nul] 1060 true (advance 1 (two_ticks 1060))); [reflexivity|vm_eq]|].
  eapply rtc_l; [apply (step_precheck 0 [nul] 1060 true (advance 2 (two_ticks 1060))); [reflexivity|vm_eq]|].
  eapply rtc_l; [apply (step_precheck 1 [nul] 1060 true (advance 3 (two_ticks 1060))); [reflexivity|vm_eq]|].
  eapply rtc_l; [apply (step_locked 0 [nul] 1060 true (crowd_guard 1) (advance 4 (two_ticks 1060))); [reflexivity|vm_eq]|].
  eapply rtc_l; [apply (step_locked 1 [nul] 1060 false (crowd_guard 1) (advance 5 (two_ticks 1060))); [reflexivity|vm_eq]|].
  eapply rtc_l; [apply (step_locked 2 [nul; nul] 1060 true (crowd_guard 2) (advance 6 (two_ticks 1060))); [reflexivity|vm_eq]|].
  apply rtc_refl.
Qed.

Lemma accept_once_between_cleanups_witness :
  token [nul] 1060 ∉ seen_ (guard_at 1001) ∧ (token [nul] 1060 = token [nul; nul] 1060 → 0 = 2).
Proof.
  eapply (accept_once_between_cleanups (crowd_guard 0) (two_ticks 1060) crowd).
  - intros n. unfold two_ticks. simpl. case_bool_decide; lia.
  - exact crowd_steps.
  - reflexivity.
  - reflexivity.
Defined.

Lemma replay_accepted_after_cleanup_witness :
  true = true ∧ ∃ g2 w2,
    accept (snd (locked_result (guard_at 1000) [nul] 1060 1060)) [nul] 1060 (advance 2 (two_ticks 1060))
      = Some ((true, g2), w2).
Proof.
  refine (replay_accepted_after_cleanup (guard_at 1000) [nul] (two_ticks 1060) true _ _ _ _ _ _ _ _ _ _);
    [done|simpl; lia|simpl; set_solver|reflexivity..|vm_eq].
Defined.

Lemma token_injective_witness : [nul] = [nul] ∧ (1700000000 = 1700000000)%Z.
Proof. apply (token_injective [nul] 1700000000 [nul] 1700000000); [lia|lia|reflexivity]. Defined.
