(* ===== verification/Server.v ===== *)
(** * openbiounlock::Server (src/core/server.cpp, server.hpp)

    The TCP/UDP service: its members, and every member function as a
    computation over the server and the world.  What Qt hands to a slot (the
    sender, the bytes that arrived, the pending connections and datagrams, the
    answers of [listen] and [bind]) is an argument of the slot.  The
    connections made by the constructor are the assignment of the operations to
    the events of [ServerSteps]. *)
From stdpp Require Import base gmap sets list strings.
From Stdlib Require Import ZArith Lia Ascii.
From S2P Require Import Prelude Qt World Crypto Reference CryptoTheorems ReplayGuard.

(** ** State *)

Record Server : Type := mkServer {
  listening : bool;                             (* tcpServer_.isListening() *)
  udpBound : bool;                              (* udpSocket_ *)
  discoveryTimer_ : option Z;                   (* the interval; None is the null pointer *)
  pairedKeys_ : gmap QString QByteArray;
  sessionKeys_ : gmap QString QByteArray;
  buffers_ : gmap QTcpSocket QByteArray;
  replayGuard_ : ReplayGuard;
  port_ : Z;
  pcId_ : QByteArray;
  x25519KeyPair_ : X25519KeyPair;
  pairingCode_ : QString;
  pairingCreatedAt_ : Z;
}.

Definition set_listening b s := mkServer b (udpBound s) (discoveryTimer_ s) (pairedKeys_ s) (sessionKeys_ s) (buffers_ s) (replayGuard_ s) (port_ s) (pcId_ s) (x25519KeyPair_ s) (pairingCode_ s) (pairingCreatedAt_ s).
Definition set_udpBound b s := mkServer (listening s) b (discoveryTimer_ s) (pairedKeys_ s) (sessionKeys_ s) (buffers_ s) (replayGuard_ s) (port_ s) (pcId_ s) (x25519KeyPair_ s) (pairingCode_ s) (pairingCreatedAt_ s).
Definition set_discoveryTimer t s := mkServer (listening s) (udpBound s) t (pairedKeys_ s) (sessionKeys_ s) (buffers_ s) (replayGuard_ s) (port_ s) (pcId_ s) (x25519KeyPair_ s) (pairingCode_ s) (pairingCreatedAt_ s).
Definition set_pairedKeys f s := mkServer (listening s) (udpBound s) (discoveryTimer_ s) (f (pairedKeys_ s)) (sessionKeys_ s) (buffers_ s) (replayGuard_ s) (port_ s) (pcId_ s) (x25519KeyPair_ s) (pairingCode_ s) (pairingCreatedAt_ s).
Definition set_sessionKeys f s := mkServer (listening s) (udpBound s) (discoveryTimer_ s) (pairedKeys_ s) (f (sessionKeys_ s)) (buffers_ s) (replayGuard_ s) (port_ s) (pcId_ s) (x25519KeyPair_ s) (pairingCode_ s) (pairingCreatedAt_ s).
Definition set_buffers f s := mkServer (listening s) (udpBound s) (discoveryTimer_ s) (pairedKeys_ s) (sessionKeys_ s) (f (buffers_ s)) (replayGuard_ s) (port_ s) (pcId_ s) (x25519KeyPair_ s) (pairingCode_ s) (pairingCreatedAt_ s).
Definition set_replayGuard g s := mkServer (listening s) (udpBound s) (discoveryTimer_ s) (pairedKeys_ s) (sessionKeys_ s) (buffers_ s) g (port_ s) (pcId_ s) (x25519KeyPair_ s) (pairingCode_ s) (pairingCreatedAt_ s).
Definition set_port p s := mkServer (listening s) (udpBound s) (discoveryTimer_ s) (pairedKeys_ s) (sessionKeys_ s) (buffers_ s) (replayGuard_ s) p (pcId_ s) (x25519KeyPair_ s) (pairingCode_ s) (pairingCreatedAt_ s).
Definition set_pairingCode c s := mkServer (listening s) (udpBound s) (discoveryTimer_ s) (pairedKeys_ s) (sessionKeys_ s) (buffers_ s) (replayGuard_ s) (port_ s) (pcId_ s) (x25519KeyPair_ s) c (pairingCreatedAt_ s).
Definition set_pairingCreatedAt t s := mkServer (listening s) (udpBound s) (discoveryTimer_ s) (pairedKeys_ s) (sessionKeys_ s) (buffers_ s) (replayGuard_ s) (port_ s) (pcId_ s) (x25519KeyPair_ s) (pairingCode_ s) t.

(** What [listen] and [bind] answer, with the socket's [errorString()]. *)
Record NetAnswers : Type := mkNetAnswers {
  listen_ok : bool; listen_error : QString; bind_ok : bool; bind_error : QString
}.

(** One address of [QNetworkInterface::allAddresses()]. *)
Record HostAddress : Type := mkHostAddress {
  isIPv4 : bool; isLoopback : bool; isMulticast : bool; addressText : QString
}.

(** ** Helpers *)

Definition errorResponse (message : QString) : QJsonObject :=
  json [("type", JString (QStringLiteral "error")); ("message", JString message)].

(** [timestampBytes]: [char((timestamp >> (shift * 8)) & 0xff)] for [shift] from 7 down to 0. *)
Definition timestampBytes (timestamp : Z) : QByteArray :=
  (λ shift, byte_of_Z (Z.land (Z.shiftr timestamp (shift * 8)) 0xff)) <$> [7; 6; 5; 4; 3; 2; 1; 0]%Z.

(** The bytes [memcpy] finds in a [quint64] of a little-endian machine. *)
Definition quint64_bytes (value : Z) : list byte :=
  (λ i, byte_of_Z (Z.shiftr value (8 * i))) <$> [0; 1; 2; 3; 4; 5; 6; 7]%Z.

(** The conversion [int end = qsizetype], and [QByteArray::indexOf]. *)
Definition int_of_qsizetype (n : Z) : Z := swrap 32 n.
Definition indexOf (b : byte) (l : QByteArray) : Z :=
  match index_of b l with Some i => Z.of_nat i | None => -1 end.

Section Server.
Context `{Q : QtCore} `{O : OpenSSL}.

Record Sys : Type := mkSys { srv : Server; wrld : World }.

Definition server_get {A} (f : Server → A) : M Sys A := gets (λ s, f (srv s)).
Definition server_set (f : Server → Server) : M Sys unit :=
  modify (λ s, mkSys (f (srv s)) (wrld s)).
Definition in_world {A} (m : M World A) : M Sys A :=
  zoom wrld (λ w s, mkSys (srv s) w) m.

(** [for (int offset = 0; offset < size; offset += 8) memcpy(data + offset, &random, count)] *)
Fixpoint randomFill (fuel : nat) (count : nat → nat) (offset : nat) (buffer : QByteArray)
    : M World QByteArray :=
  if offset <? length buffer then
    match fuel with
    | 0 => undefined
    | S fuel =>
        value ← generate64;
        buffer ← defined (buf_write buffer offset (take (count offset) (quint64_bytes value)));
        randomFill fuel count (offset + 8) buffer
    end
  else mret buffer.

Definition challengeNonce : M World QByteArray :=
  randomFill 4 (λ _, 8) 0 (Uninitialized 32).
Definition envelopeNonce : M World QByteArray :=
  randomFill 2 (λ offset, 8 `min` (12 - offset)) 0 (Uninitialized 12).

(** ** Construction, start and stop *)

(** [QString::number(generate64(), 16).rightJustified(16, '0')] *)
Definition newPairingCode : M World QString :=
  r ← generate64;
  mret (rightJustified (QString_number16 r) 16 (QLatin1Char "0"%char)).

Definition Server_new : M World Server :=
  r ← generate64;
  '(keys, _) ← generateX25519KeyPair;
  mret (mkServer false false None ∅ ∅ ∅ initial_guard 43295 (number16 r) keys [] 0).

Definition isRunning (s : Server) : bool := listening s.
Definition port (s : Server) : Z := port_ s.

Definition broadcastDiscovery : M Sys unit :=
  s ← server_get (λ s, s);
  let packet := json [("type", JString (QStringLiteral "openbiounlock"));
                      ("pc_id", JString (fromLatin1 (toHex (pcId_ s))));
                      ("port", JInteger (port_ s))] in
  in_world (perform (WriteDatagram (toJson packet) (port_ s))).

Definition start (net : NetAnswers) (port : Z) : M Sys bool :=
  running ← server_get isRunning;
  if running : bool then mret true
  else
    server_set (set_port port) ;;
    keys ← server_get x25519KeyPair_;
    if negb (length (publicKey keys) =? 32) then
      in_world (emit (logMessage (QStringLiteral "X25519 key initialization failed"))) ;;
      mret false
    else
      code ← in_world newPairingCode;
      server_set (set_pairingCode code) ;;
      now ← in_world currentSecsSinceEpoch;
      server_set (set_pairingCreatedAt now) ;;
      if negb (listen_ok net) then
        in_world (emit (logMessage (arg (QStringLiteral "TCP listener failed: %1") (listen_error net)))) ;;
        mret false
      else
        in_world (perform (TcpListen port)) ;;
        server_set (set_listening true) ;;
        if negb (bind_ok net) then
          in_world (emit (logMessage (arg (QStringLiteral "UDP discovery listener failed: %1") (bind_error net)))) ;;
          in_world (perform TcpClose) ;;
          server_set (set_listening false) ;;
          mret false
        else
          in_world (perform (UdpBind port)) ;;
          server_set (set_udpBound true) ;;
          server_set (set_discoveryTimer (Some 5000%Z)) ;;
          in_world (perform (TimerStart 5000)) ;;
          broadcastDiscovery ;;
          in_world (emit (statusChanged (argInt (QStringLiteral "Listening on TCP/UDP %1") port))) ;;
          in_world (emit (logMessage (argInt (QStringLiteral "server started on port %1") port))) ;;
          mret true.

(** [sender] is [qobject_cast<QTcpSocket *>(sender())]. *)
Definition clientDisconnected (sender : option QTcpSocket) : M Sys unit :=
  match sender with
  | None => mret tt
  | Some socket =>
      server_set (set_buffers (delete socket)) ;;
      in_world (emit (logMessage (QStringLiteral "client disconnected"))) ;;
      in_world (perform (SocketDeleteLater socket))
  end.

(** [closes_now socket]: [disconnectFromHost] has nothing left to write and emits
    [disconnected] before it returns, so that [clientDisconnected] runs inside the loop. *)
Definition stop (closes_now : QTcpSocket → bool) : M Sys unit :=
  timer ← server_get discoveryTimer_;
  (if is_some timer
   then in_world (perform TimerStop) ;; server_set (set_discoveryTimer None)
   else mret tt) ;;
  keys ← server_get (λ s, fst <$> map_to_list (buffers_ s));
  for_each keys (λ socket,
    in_world (perform (SocketDisconnectFromHost socket)) ;;
    if closes_now socket then clientDisconnected (Some socket) else mret tt) ;;
  server_set (set_buffers (λ _, ∅)) ;;
  in_world (perform TcpClose) ;;
  server_set (set_listening false) ;;
  in_world (perform UdpClose) ;;
  server_set (set_udpBound false) ;;
  in_world (emit (statusChanged (QStringLiteral "Stopped"))).

(** ** Pairing payload *)

Fixpoint first_endpoint (addresses : list HostAddress) : QString :=
  match addresses with
  | [] => []
  | a :: rest =>
      if isIPv4 a && negb (isLoopback a) && negb (isMulticast a) then addressText a
      else first_endpoint rest
  end.

Definition pairingPayload (allAddresses : list HostAddress) (host : QString) : M Sys QByteArray :=
  let endpoint := if isEmpty host then first_endpoint allAddresses else host in
  let endpoint := if isEmpty endpoint then QStringLiteral "127.0.0.1" else endpoint in
  code ← server_get pairingCode_;
  expired ← (if isEmpty code then mret true
             else
               now ← in_world currentSecsSinceEpoch;
               created ← server_get pairingCreatedAt_;
               age ← defined (checked 64 (now - created));
               mret (bool_decide (age > 300)%Z));
  (if expired : bool then
     code ← in_world newPairingCode;
     server_set (set_pairingCode code) ;;
     now ← in_world currentSecsSinceEpoch;
     server_set (set_pairingCreatedAt now)
   else mret tt) ;;
  s ← server_get (λ s, s);
  mret (toJson (json [("version", JInteger 1);
                      ("host", JString endpoint);
                      ("port", JInteger (port_ s));
                      ("pc_id", JString (fromLatin1 (toHex (pcId_ s))));
                      ("x25519_public_key", JString (fromLatin1 (toHex (publicKey (x25519KeyPair_ s)))));
                      ("pairing_code", JString (pairingCode_ s))])).

(** ** Connections *)

(** [pending]: what [nextPendingConnection] returns, with the peer address of each socket. *)
Definition acceptConnections (pending : list (QTcpSocket * QString)) : M Sys unit :=
  for_each pending (λ p,
    server_set (set_buffers <[fst p := []]>) ;;
    in_world (emit (logMessage (arg (QStringLiteral "client connected from %1") (snd p))))).

(** ** Requests *)

Definition field (o : QJsonObject) (key : string) : QString := toString (value o (QStringLiteral key)).
Definition hexField (o : QJsonObject) (key : string) : QByteArray := fromHex (toLatin1 (field o key)).

Definition encryptedResponse (deviceId : QString) (payload : QJsonObject) : M Sys QJsonObject :=
  nonce ← in_world envelopeNonce;
  key ← server_get (λ s, default [] (sessionKeys_ s !! deviceId));
  '(encrypted, error) ← in_world (encryptAes256Gcm key nonce (toJson payload) (toUtf8 deviceId));
  if negb (length (tag encrypted) =? 16) then mret (errorResponse (default [] error))
  else mret (json [("type", JString (QStringLiteral "secure"));
                   ("device_id", JString deviceId);
                   ("nonce", JString (fromLatin1 (toHex nonce)));
                   ("ciphertext", JString (fromLatin1 (toHex (ciphertext encrypted))));
                   ("tag", JString (fromLatin1 (toHex (tag encrypted))))]).

(** [decryptRequest]: [inl] of the text written to [*error] with the result false, [inr] of
    [*deviceId] and [*payload] with the result true. *)
Definition decryptRequest (envelope : QJsonObject) : M Sys (QString + (QString * QJsonObject)) :=
  if negb (bool_decide (field envelope "type" = QStringLiteral "secure")) then
    mret (inl (QStringLiteral "unencrypted requests are not accepted"))
  else
    let id := field envelope "device_id" in
    session ← server_get (λ s, sessionKeys_ s !! id);
    match session with
    | None => mret (inl (QStringLiteral "device is not paired"))
    | Some key =>
        let nonce := hexField envelope "nonce" in
        let encrypted := mkGcmCiphertext (hexField envelope "ciphertext") (hexField envelope "tag") in
        '(plaintext, localError) ← in_world (decryptAes256Gcm key nonce encrypted (toUtf8 id));
        if isEmpty plaintext then mret (inl (default [] localError))
        else
          match fromJson plaintext with
          | Some (DocObject payload) => mret (inr (id, payload))
          | _ => mret (inl (QStringLiteral "decrypted payload is invalid"))
          end
    end.

(** The [pair] branch of [processLine]. *)
Definition handlePair (request : QJsonObject) : M Sys QJsonObject :=
  let id := field request "device_id" in
  let signingKey := hexField request "public_key" in
  let deviceKey := hexField request "x25519_public_key" in
  let code := field request "pairing_code" in
  pairingCode ← server_get pairingCode_;
  invalid ← (if isEmpty id || negb (length signingKey =? 32) || negb (length deviceKey =? 32)
                || negb (bool_decide (code = pairingCode)) then mret true
             else
               now ← in_world currentSecsSinceEpoch;
               created ← server_get pairingCreatedAt_;
               age ← defined (checked 64 (now - created));
               mret (bool_decide (age > 300)%Z));
  if invalid : bool then
    mret (errorResponse (QStringLiteral "pairing code, keys, or pairing window is invalid"))
  else
    keys ← server_get x25519KeyPair_;
    '(shared, error) ← in_world (x25519SharedSecret (privateKey keys) deviceKey);
    if negb (length shared =? 32) then mret (errorResponse (default [] error))
    else
      server_set (set_pairedKeys <[id := signingKey]>) ;;
      server_set (set_sessionKeys <[id := shared]>) ;;
      server_set (set_pairingCode []) ;;
      in_world (emit (deviceChanged id true)) ;;
      pcId ← server_get pcId_;
      in_world (emit (logMessage (arg (QStringLiteral "paired device %1") id))) ;;
      mret (json [("type", JString (QStringLiteral "paired"));
                  ("accepted", JBool true);
                  ("pc_id", JString (fromLatin1 (toHex pcId)))]).

Definition handleChallenge (deviceId : QString) : M Sys QJsonObject :=
  nonce ← in_world challengeNonce;
  timestamp ← in_world currentSecsSinceEpoch;
  encryptedResponse deviceId
    (json [("type", JString (QStringLiteral "challenge"));
           ("challenge_id", JString (fromLatin1 (toHex nonce)));
           ("nonce", JString (fromLatin1 (toHex nonce)));
           ("timestamp", JInteger timestamp)]).

(** The conjunction that computes [authorized], with the text left in [verifyError]. *)
Definition authorize (deviceId : QString) (nonce : QByteArray) (timestamp : Z) (signature : QByteArray)
    : M Sys (bool * QString) :=
  paired ← server_get (λ s, pairedKeys_ s !! deviceId);
  match paired with
  | None => mret (false, [])
  | Some key =>
      guard ← server_get replayGuard_;
      '(accepted, guard) ← in_world (accept guard nonce timestamp);
      server_set (set_replayGuard guard) ;;
      if negb accepted then mret (false, [])
      else
        '(valid, error) ← in_world (verifyEd25519 key (nonce ++ timestampBytes timestamp) signature);
        mret (valid, default [] error)
  end.

Definition handleVerify (deviceId : QString) (decrypted : QJsonObject) : M Sys QJsonObject :=
  let nonce := hexField decrypted "nonce" in
  let timestamp := toLongLong (value decrypted (QStringLiteral "timestamp")) in
  let signature := hexField decrypted "signature" in
  '(authorized, verifyError) ← authorize deviceId nonce timestamp signature;
  response ← encryptedResponse deviceId
               (json [("type", JString (QStringLiteral "authorized")); ("authorized", JBool authorized)]);
  in_world (emit (logMessage (if authorized : bool
                              then arg (QStringLiteral "device %1 authorized") deviceId
                              else arg (QStringLiteral "authorization rejected: %1") verifyError))) ;;
  mret response.

(** The other branch: everything but pairing is encrypted. *)
Definition handleSecure (request : QJsonObject) : M Sys QJsonObject :=
  r ← decryptRequest request;
  match r with
  | inl error => mret (errorResponse error)
  | inr (deviceId, decrypted) =>
      let type := field decrypted "type" in
      if bool_decide (type = QStringLiteral "challenge") then handleChallenge deviceId
      else if bool_decide (type = QStringLiteral "verify") then handleVerify deviceId decrypted
      else encryptedResponse deviceId (errorResponse (QStringLiteral "unsupported request type"))
  end.

Definition reply (socket : QTcpSocket) (response : QJsonObject) : M Sys unit :=
  in_world (perform (SocketWrite socket (toJson response ++ [newline]))).

Definition processLine (socket : QTcpSocket) (line : QByteArray) : M Sys unit :=
  match fromJson line with
  | Some (DocObject request) =>
      response ← (if bool_decide (field request "type" = QStringLiteral "pair")
                  then handlePair request else handleSecure request);
      reply socket response
  | _ => reply socket (errorResponse (QStringLiteral "invalid JSON request"))
  end.

(** ** Input *)

(** [while ((end = buffer.indexOf('\n')) >= 0) { ... }] over the buffer of [socket]. *)
Fixpoint processBuffer (fuel : nat) (socket : QTcpSocket) : M Sys unit :=
  match fuel with
  | 0 => undefined
  | S fuel =>
      buffer ← server_get (λ s, default [] (buffers_ s !! socket));
      let end_ := int_of_qsizetype (indexOf newline buffer) in
      if bool_decide (end_ >= 0)%Z then
        let line := trimmed (take (Z.to_nat end_) buffer) in
        n ← defined (checked 32 (end_ + 1));
        server_set (set_buffers <[socket := drop (Z.to_nat n) buffer]>) ;;
        (if isEmpty line then mret tt else processLine socket line) ;;
        processBuffer fuel socket
      else mret tt
  end.

(** [arrived] is what [socket->readAll()] returns. *)
Definition readClient (sender : option QTcpSocket) (arrived : QByteArray) : M Sys unit :=
  match sender with
  | None => mret tt
  | Some socket =>
      buffer ← server_get (λ s, default [] (buffers_ s !! socket) ++ arrived);
      server_set (set_buffers <[socket := buffer]>) ;;
      processBuffer (S (length buffer)) socket
  end.

(** [pending]: the datagrams waiting on [udpSocket_]. *)
Definition readDatagrams (pending : list QByteArray) : M Sys unit :=
  for_each pending (λ datagram,
    match fromJson datagram with
    | Some document =>
        if bool_decide (field (object document) "type" = QStringLiteral "discover")
        then broadcastDiscovery else mret tt
    | None => mret tt
    end).
End Server.
