(* ===== verification/Scenario.v ===== *)
(** * A concrete server for witnesses

    A server built and started over the reference implementations, with a clock
    that stands still, and the requests of one device.  Only witnesses use it. *)
From stdpp Require Import base gmap sets list strings.
From Stdlib Require Import ZArith Lia.
From S2P Require Import Prelude Qt World Crypto Reference CryptoTheorems ReplayGuard ReplayTheorems Server.

Definition demo_world : World :=
  mkWorld (λ _, 1700000000%Z) 0 (λ n, (Z.of_nat n * 7919 + 12345678901234567)%Z) 0 ∅ [].

Definition demo_net : NetAnswers := mkNetAnswers true [] true [].

Definition blank_server : Server :=
  mkServer false false None ∅ ∅ ∅ initial_guard 43295 [] (mkX25519KeyPair [] []) [] 0.

(** The state a run ends in, or [s] if the run is undefined. *)
Definition after {A} (m : M Sys A) (s : Sys) : Sys :=
  match m s with Some (_, s') => s' | None => s end.

Definition result_of {A} (d : A) (m : M Sys A) (s : Sys) : A :=
  match m s with Some (a, _) => a | None => d end.

Lemma sys_eta (s : Sys) : mkSys (srv s) (wrld s) = s.
Proof. by destruct s. Qed.

(** A defined run, without evaluating the state it ends in. *)
Lemma run_after {A} (a : A) (m : M Sys A) (s : Sys) : fst <$> m s = Some a → m s = Some (a, after m s).
Proof. unfold after. destruct (m s) as [[b t]|]; [|done]. intros [= <-]. done. Qed.

Lemma run_defined {A} (d : A) (m : M Sys A) (s : Sys) :
  is_some (m s) = true → m s = Some (result_of d m s, after m s).
Proof. unfold after, result_of. destruct (m s) as [[b t]|]; done. Qed.

Definition demo_new : Sys :=
  match Server_new demo_world with
  | Some (s, w) => mkSys s w
  | None => mkSys blank_server demo_world
  end.

Definition demo_started : Sys := after (start demo_net 43295) demo_new.

Definition demo_socket : QTcpSocket := 1%positive.
Definition demo_accepted : Sys :=
  after (acceptConnections [(demo_socket, QStringLiteral "127.0.0.1")]) demo_started.

(** ** The device *)

Definition demo_id : QString := QStringLiteral "phone".
Definition demo_signing_key : QByteArray := replicate 32 Init.Byte.x22.
Definition demo_exchange_key : QByteArray := replicate 32 Init.Byte.x33.

Definition hex_text (b : QByteArray) : QJsonValue := JString (fromLatin1 (toHex b)).

Definition pair_request (code : QString) : QJsonObject :=
  json [("type", JString (QStringLiteral "pair"));
        ("device_id", JString demo_id);
        ("public_key", hex_text demo_signing_key);
        ("x25519_public_key", hex_text demo_exchange_key);
        ("pairing_code", JString code)].

Definition demo_code : QString := pairingCode_ (srv demo_accepted).
Definition demo_reply : QJsonObject := result_of ∅ (handlePair (pair_request demo_code)) demo_accepted.
Definition demo_paired : Sys := after (handlePair (pair_request demo_code)) demo_accepted.

(** Conversion unfolds the names of the states before the operations that reach them. *)
Strategy expand [demo_new demo_started demo_accepted demo_reply demo_paired].

Lemma demo_pair_run : handlePair (pair_request demo_code) demo_accepted = Some (demo_reply, demo_paired).
Proof.
  assert (is_some (handlePair (pair_request demo_code) demo_accepted) = true) as H by vm_eq.
  exact (run_defined ∅ (handlePair (pair_request demo_code)) demo_accepted H).
Qed.

Lemma demo_start_run : start demo_net 43295 demo_new = Some (true, demo_started).
Proof.
  assert (fst <$> start demo_net 43295 demo_new = Some true) as H by vm_eq.
  exact (run_after true (start demo_net 43295) demo_new H).
Qed.

Lemma demo_accept_run :
  acceptConnections [(demo_socket, QStringLiteral "127.0.0.1")] demo_started = Some (tt, demo_accepted).
Proof.
  assert (fst <$> acceptConnections [(demo_socket, QStringLiteral "127.0.0.1")] demo_started = Some tt)
    as H by vm_eq.
  exact (run_after tt (acceptConnections [(demo_socket, QStringLiteral "127.0.0.1")]) demo_started H).
Qed.

Lemma demo_new_run : Server_new demo_world = Some (srv demo_new, wrld demo_new).
Proof.
  unfold demo_new. assert (is_some (Server_new demo_world) = true) as H by vm_eq.
  destruct (Server_new demo_world) as [[s w]|]; done.
Qed.

Definition demo_secret : QByteArray := default [] (sessionKeys_ (srv demo_paired) !! demo_id).
