(* ===== verification/ServerLemmas.v ===== *)
(** * Runs of the server's operations

    The rules that step through server code, what each helper computes on a
    well-behaved world, and the frame property: no request handler looks at the
    receive buffers. *)
From stdpp Require Import base gmap sets list strings.
From Stdlib Require Import ZArith Lia.
From S2P Require Import Prelude Qt World Crypto Reference CryptoTheorems ReplayGuard ReplayTheorems Server.

(** ** Stepping rules *)

Section Rules.
Context `{Q : QtCore} `{O : OpenSSL}.
Implicit Types (s : Sys).

Lemma in_world_run {A} (m : M World A) s a w' :
  m (wrld s) = Some (a, w') → in_world m s = Some (a, mkSys (srv s) w').
Proof. unfold in_world, zoom. by intros ->. Qed.

Lemma in_world_inv {A} (m : M World A) s a s' :
  in_world m s = Some (a, s') → m (wrld s) = Some (a, wrld s') ∧ srv s' = srv s.
Proof. unfold in_world, zoom. destruct (m (wrld s)) as [[]|]; naive_solver. Qed.

Lemma wlp_in_world {A} (m : M World A) (P : A → Sys → Prop) s :
  (∀ a w', m (wrld s) = Some (a, w') → P a (mkSys (srv s) w')) → wlp (in_world m) P s.
Proof.
  intros H a s' [Hm Hs]%in_world_inv. destruct s' as [s1 w1]. simpl in *. subst. by apply H.
Qed.

Lemma wlp_server_get {A} (f : Server → A) (P : A → Sys → Prop) s :
  P (f (srv s)) s → wlp (server_get f) P s.
Proof. intros H a s' [= <- <-]. exact H. Qed.

Lemma wlp_server_set (f : Server → Server) (P : unit → Sys → Prop) s :
  P tt (mkSys (f (srv s)) (wrld s)) → wlp (server_set f) P s.
Proof. intros H a s' [= <- <-]. exact H. Qed.

(** Reading and writing the server in a run. *)
Lemma server_get_bind {A B} (f : Server → A) (k : A → M Sys B) s :
  (server_get f ≫= k) s = k (f (srv s)) s.
Proof. done. Qed.

Lemma server_set_bind {B} (f : Server → Server) (k : unit → M Sys B) s :
  (server_set f ≫= k) s = k tt (mkSys (f (srv s)) (wrld s)).
Proof. done. Qed.

Lemma in_world_bind {A B} (m : M World A) (k : A → M Sys B) s a w' :
  m (wrld s) = Some (a, w') → (in_world m ≫= k) s = k a (mkSys (srv s) w').
Proof. intros H. apply bind_run. by apply in_world_run. Qed.

Lemma clock_bind {B} (k : Z → M Sys B) s :
  (in_world currentSecsSinceEpoch ≫= k) s =
    k (reading (wrld s) 0) (mkSys (srv s) (advance 1 (wrld s))).
Proof. apply in_world_bind, currentSecsSinceEpoch_run. Qed.

Lemma defined_bind {S A B} (o : option A) (k : A → M S B) (t : S) a :
  o = Some a → (defined o ≫= k) t = k a t.
Proof. intros ->. done. Qed.

Lemma ret_bind {S A B} (a : A) (k : A → M S B) (t : S) : (mret a ≫= k) t = k a t.
Proof. done. Qed.
End Rules.

(** Open one operation of a [wlp] goal over server code. *)
Ltac srv_step :=
  lazymatch goal with
  | |- wlp (in_world (perform _)) _ _ => apply wlp_in_world; intros ? ? [= <- <-]
  | |- wlp (in_world (emit _)) _ _ => apply wlp_in_world; intros ? ? [= <- <-]
  | |- wlp (in_world _) _ _ => apply wlp_in_world; intros
  | |- wlp (server_get _) _ _ => apply wlp_server_get
  | |- wlp (server_set _) _ _ => apply wlp_server_set
  | |- wlp (match ?x with _ => _ end) _ _ => destruct x eqn:?
  | |- wlp (let '(_, _) := ?x in _) _ _ => destruct x
  | _ => wlp_step
  end.
Ltac srv_steps := repeat (srv_step; simpl).

(** ** Random bytes *)

Section Random.
Context `{Q : QtCore} `{O : OpenSSL}.
Implicit Types (w : World).

Definition random (w : World) (n : nat) : Z := (entropy w (n + draws w) mod 2 ^ 64)%Z.
Definition drawn (n : nat) (w : World) : World := set_draws (λ k, n + k) w.

Lemma generate64_run w : generate64 w = Some (random w 0, drawn 1 w).
Proof. done. Qed.

Lemma random_drawn w n k : random (drawn n w) k = random w (n + k).
Proof. unfold random. simpl. do 2 f_equal. lia. Qed.

Lemma drawn_drawn n k w : drawn n (drawn k w) = drawn (n + k) w.
Proof. unfold drawn, set_draws. simpl. by rewrite Nat.add_assoc. Qed.

Lemma random_range w n : (0 <= random w n < 2 ^ 64)%Z.
Proof. apply Z.mod_pos_bound. lia. Qed.

Lemma quint64_bytes_length v : length (quint64_bytes v) = 8.
Proof. done. Qed.

Context {QL : QtLaws Q}.

(** The challenge nonce consists of four random words; no byte of the array stays
    uninitialized. *)
Lemma challengeNonce_run w :
  challengeNonce w =
    Some (quint64_bytes (random w 0) ++ quint64_bytes (random w 1) ++
          quint64_bytes (random w 2) ++ quint64_bytes (random w 3), drawn 4 w).
Proof.
  unfold challengeNonce. pose proof (Uninitialized_length 32) as El.
  generalize dependent (Uninitialized 32). intros b El.
  do 32 (destruct b as [|? b]; [done|]). destruct b; [|done]. clear El.
  reflexivity.
Qed.

(** The envelope nonce is the first twelve bytes of two random words. *)
Definition envelope_nonce (w : World) : QByteArray :=
  quint64_bytes (random w 0) ++ take 4 (quint64_bytes (random w 1)).

Lemma envelopeNonce_run w : envelopeNonce w = Some (envelope_nonce w, drawn 2 w).
Proof.
  unfold envelopeNonce. pose proof (Uninitialized_length 12) as El.
  generalize dependent (Uninitialized 12). intros b El.
  do 12 (destruct b as [|? b]; [done|]). destruct b; [|done]. clear El.
  reflexivity.
Qed.

Lemma envelope_nonce_length w : length (envelope_nonce w) = 12.
Proof. done. Qed.
End Random.

(** ** Request handlers do not look at the receive buffers *)

Definition on_server `{OpenSSL} (g : Server → Server) (s : Sys) : Sys := mkSys (g (srv s)) (wrld s).

Section Frame.
Context `{Q : QtCore} `{O : OpenSSL}.

Definition ignores_buffers {A} (m : M Sys A) : Prop :=
  ∀ f s, m (on_server (set_buffers f) s) =
         (λ p, (fst p, on_server (set_buffers f) (snd p))) <$> m s.

Lemma frame_ret {A} (a : A) : ignores_buffers (mret a).
Proof. done. Qed.

Lemma frame_bind {A B} (m : M Sys A) (k : A → M Sys B) :
  ignores_buffers m → (∀ a, ignores_buffers (k a)) → ignores_buffers (m ≫= k).
Proof.
  intros Hm Hk f s. unfold mbind at 1, M_bind. rewrite Hm.
  unfold mbind, M_bind. destruct (m s) as [[a s']|]; simpl; [|done]. apply Hk.
Qed.

Lemma frame_in_world {A} (m : M World A) : ignores_buffers (in_world m).
Proof. intros f s. unfold in_world, zoom. simpl. by destruct (m (wrld s)) as [[]|]. Qed.

Lemma frame_get {A} (g : Server → A) :
  (∀ f s, g (set_buffers f s) = g s) → ignores_buffers (server_get g).
Proof. intros Hg f s. unfold server_get, gets. simpl. by rewrite Hg. Qed.

Lemma frame_set (g : Server → Server) :
  (∀ f s, g (set_buffers f s) = set_buffers f (g s)) → ignores_buffers (server_set g).
Proof. intros Hg f s. unfold server_set, modify, on_server. simpl. by rewrite Hg. Qed.

Lemma frame_defined {A} (o : option A) : ignores_buffers (defined o).
Proof. intros f s. by destruct o. Qed.

(** A handler that ignores the buffers leaves them as they were. *)
Lemma frame_preserves {A} (m : M Sys A) s a s' :
  ignores_buffers m → m s = Some (a, s') → buffers_ (srv s') = buffers_ (srv s).
Proof.
  intros Hm H. specialize (Hm (λ _, buffers_ (srv s)) s).
  replace (on_server (set_buffers (λ _, buffers_ (srv s))) s) with s in Hm
    by (by destruct s as [[] ?]).
  rewrite H in Hm. simpl in Hm. injection Hm as Hs'. rewrite Hs'. done.
Qed.
End Frame.

Ltac frame_step :=
  lazymatch goal with
  | |- ignores_buffers (_ ≫= _) => apply frame_bind; [|intros]
  | |- ignores_buffers (mret _) => apply frame_ret
  | |- ignores_buffers (in_world _) => apply frame_in_world
  | |- ignores_buffers (server_get _) => apply frame_get; done
  | |- ignores_buffers (server_set _) => apply frame_set; done
  | |- ignores_buffers (defined _) => apply frame_defined
  | |- ignores_buffers (match ?x with _ => _ end) => destruct x
  end.
Ltac frame := repeat (frame_step; cbn beta iota zeta).

Section HandlersFrame.
Context `{Q : QtCore} `{O : OpenSSL}.

Lemma encryptedResponse_frame id payload : ignores_buffers (encryptedResponse id payload).
Proof. unfold encryptedResponse. frame. Qed.

Lemma decryptRequest_frame envelope : ignores_buffers (decryptRequest envelope).
Proof. unfold decryptRequest. frame. Qed.

Lemma handlePair_frame request : ignores_buffers (handlePair request).
Proof. unfold handlePair. frame. Qed.

Lemma authorize_frame id nonce timestamp signature :
  ignores_buffers (authorize id nonce timestamp signature).
Proof. unfold authorize. frame. Qed.

Ltac handler_frame_step :=
  lazymatch goal with
  | |- ignores_buffers (decryptRequest _) => apply decryptRequest_frame
  | |- ignores_buffers (encryptedResponse _ _) => apply encryptedResponse_frame
  | |- ignores_buffers (authorize _ _ _ _) => apply authorize_frame
  | _ => frame_step; cbn beta iota zeta
  end.

Lemma handleSecure_frame request : ignores_buffers (handleSecure request).
Proof.
  unfold handleSecure, handleChallenge, handleVerify. repeat handler_frame_step.
Qed.

Lemma processLine_frame socket line : ignores_buffers (processLine socket line).
Proof.
  unfold processLine, reply. repeat
    lazymatch goal with
    | |- ignores_buffers (handlePair _) => apply handlePair_frame
    | |- ignores_buffers (handleSecure _) => apply handleSecure_frame
    | _ => handler_frame_step
    end.
Qed.
End HandlersFrame.

(** ** Splitting a stream into lines *)

(** The complete lines of [b], without their newlines, and what follows the last newline. *)
Fixpoint split_lines (b : list byte) : list (list byte) * list byte :=
  match b with
  | [] => ([], [])
  | x :: b =>
      let '(lines, rest) := split_lines b in
      if decide (x = newline) then ([] :: lines, rest)
      else match lines with
           | [] => ([], x :: rest)
           | l :: lines => ((x :: l) :: lines, rest)
           end
  end.

Lemma split_lines_no_newline b : newline ∉ b → split_lines b = ([], b).
Proof.
  induction b as [|x b IH]; simpl; [done|]. intros H.
  rewrite IH by set_solver. rewrite decide_False by set_solver. done.
Qed.

Lemma split_lines_newline l b :
  newline ∉ l → split_lines (l ++ newline :: b) = (l :: fst (split_lines b), snd (split_lines b)).
Proof.
  induction l as [|x l IH]; simpl; intros H.
  - by destruct (split_lines b).
  - rewrite IH by set_solver. by rewrite decide_False by set_solver.
Qed.

Lemma split_lines_app a b :
  split_lines (a ++ b) =
    (fst (split_lines a) ++ fst (split_lines (snd (split_lines a) ++ b)),
     snd (split_lines (snd (split_lines a) ++ b))).
Proof.
  remember (length a) as n eqn:Hn. revert a Hn.
  induction n as [n IH] using lt_wf_ind. intros a Hn.
  destruct (index_of newline a) as [i|] eqn:Ei.
  - apply index_of_Some in Ei as (l1 & l2 & -> & Hni & Hl).
    rewrite <- app_assoc. simpl. rewrite !split_lines_newline by done. simpl.
    rewrite (IH (length l2)); [done| |done]. subst n. rewrite length_app. simpl. lia.
  - apply index_of_None in Ei. rewrite (split_lines_no_newline a) by done. simpl.
    by destruct (split_lines (a ++ b)).
Qed.

Lemma split_lines_rest_le b : length (snd (split_lines b)) ≤ length b.
Proof.
  induction b as [|x b IH]; simpl; [done|]. destruct (split_lines b) as [lines rest]. simpl in *.
  case_decide; [simpl; lia|]. destruct lines; simpl; lia.
Qed.
