(* ===== verification/ServerFrame.v ===== *)
(** * What the slots of the server leave alone

    Between [start] and [stop] nothing changes the sockets, the timer, the port
    or the identity of the workstation: the network can make the server pair,
    answer and log, but not stop listening or change its keys.  The desktop
    program relies on it ([Desktop]). *)
From stdpp Require Import base gmap sets list strings relations.
From Stdlib Require Import ZArith Lia.
From S2P Require Import Prelude Qt World Crypto Reference CryptoTheorems ReplayGuard ReplayTheorems Server Scenario ServerLemmas.

Section Unchanged.
Context `{Q : QtCore} `{O : OpenSSL} {X : Type} (f : Server → X).
Implicit Types (s : Sys).

(** Every defined run of [m] ends with the same [f] it began with. *)
Definition unchanged {A} (m : M Sys A) : Prop := ∀ s, wlp m (λ _ s', f (srv s') = f (srv s)) s.

Lemma unchanged_ret {A} (a : A) : unchanged (mret a).
Proof. intros s. by apply wlp_ret. Qed.

Lemma unchanged_bind {A B} (m : M Sys A) (k : A → M Sys B) :
  unchanged m → (∀ a, unchanged (k a)) → unchanged (m ≫= k).
Proof.
  intros Hm Hk s. apply wlp_bind. eapply wlp_mono; [|apply Hm]. intros a s1 E.
  eapply wlp_mono; [|apply Hk]. intros b s2 E2. congruence.
Qed.

Lemma unchanged_in_world {A} (m : M World A) : unchanged (in_world m).
Proof. intros s. by apply wlp_in_world. Qed.

Lemma unchanged_get {A} (g : Server → A) : unchanged (server_get g).
Proof. intros s. by apply wlp_server_get. Qed.

Lemma unchanged_set (g : Server → Server) : (∀ v, f (g v) = f v) → unchanged (server_set g).
Proof. intros Hg s. apply wlp_server_set. apply Hg. Qed.

Lemma unchanged_defined {A} (o : option A) : unchanged (defined o).
Proof. intros s. by apply wlp_defined. Qed.

Lemma unchanged_undefined {A} : unchanged (@undefined Sys A).
Proof. by intros s a s' H. Qed.

Lemma unchanged_for_each {B} (l : list B) (body : B → M Sys unit) :
  (∀ x, unchanged (body x)) → unchanged (for_each l body).
Proof. intros Hb. induction l; cbn [for_each]; [apply unchanged_ret|]. by apply unchanged_bind. Qed.

Lemma unchanged_run {A} (m : M Sys A) s a s' : unchanged m → m s = Some (a, s') → f (srv s') = f (srv s).
Proof. intros Hm H. exact (Hm s a s' H). Qed.
End Unchanged.

Ltac unchanged_step :=
  lazymatch goal with
  | |- unchanged _ (_ ≫= _) => apply unchanged_bind; [|intros]
  | |- unchanged _ (mret _) => apply unchanged_ret
  | |- unchanged _ (in_world _) => apply unchanged_in_world
  | |- unchanged _ (server_get _) => apply unchanged_get
  | |- unchanged _ (server_set _) => apply unchanged_set; by intros []
  | |- unchanged _ (defined _) => apply unchanged_defined
  | |- unchanged _ undefined => apply unchanged_undefined
  | |- unchanged _ (for_each _ _) => apply unchanged_for_each; intros
  | |- unchanged _ (match ?x with _ => _ end) => destruct x
  end.
Ltac unchanged := repeat (unchanged_step; cbn beta iota zeta).

Section Slots.
Context `{Q : QtCore} `{O : OpenSSL}.
Implicit Types (s : Sys).

(** The members that belong to the running service. *)
Definition service (v : Server) : bool * bool * option Z * Z * QByteArray * X25519KeyPair :=
  (listening v, udpBound v, discoveryTimer_ v, port_ v, pcId_ v, x25519KeyPair_ v).

Lemma processLine_service socket line : unchanged service (processLine socket line).
Proof.
  unfold processLine, reply, handlePair, handleSecure, decryptRequest, handleChallenge, handleVerify, authorize,
    encryptedResponse. unchanged.
Qed.

Lemma processBuffer_service fuel socket : unchanged service (processBuffer fuel socket).
Proof.
  induction fuel as [|fuel IH]; cbn [processBuffer]; [unchanged|].
  apply unchanged_bind; [unchanged|intros buffer]. destruct (bool_decide _); [|unchanged].
  apply unchanged_bind; [unchanged|intros n]. apply unchanged_bind; [unchanged|intros _].
  apply unchanged_bind; [destruct (isEmpty _); [unchanged|apply processLine_service]|done].
Qed.

Lemma readClient_service sender arrived : unchanged service (readClient sender arrived).
Proof.
  unfold readClient. destruct sender; [|unchanged]. apply unchanged_bind; [unchanged|intros buffer].
  apply unchanged_bind; [unchanged|intros _]. apply processBuffer_service.
Qed.

Lemma broadcastDiscovery_service : unchanged service broadcastDiscovery.
Proof. unfold broadcastDiscovery. unchanged. Qed.

Lemma readDatagrams_service pending : unchanged service (readDatagrams pending).
Proof.
  unfold readDatagrams. apply unchanged_for_each. intros d. destruct (fromJson d); [|unchanged].
  destruct (bool_decide _); [apply broadcastDiscovery_service|unchanged].
Qed.

Lemma acceptConnections_service pending : unchanged service (acceptConnections pending).
Proof. unfold acceptConnections. unchanged. Qed.

Lemma clientDisconnected_service sender : unchanged service (clientDisconnected sender).
Proof. unfold clientDisconnected. unchanged. Qed.

Lemma pairingPayload_service addresses host : unchanged service (pairingPayload addresses host).
Proof. unfold pairingPayload. unchanged. Qed.

(** The slots that the events of the network and of the timer run. *)
Inductive slot : Sys → Sys → Prop :=
  | slot_newConnection pending s s' : acceptConnections pending s = Some (tt, s') → slot s s'
  | slot_readyRead sender arrived s s' : readClient sender arrived s = Some (tt, s') → slot s s'
  | slot_disconnected sender s s' : clientDisconnected sender s = Some (tt, s') → slot s s'
  | slot_datagrams pending s s' : readDatagrams pending s = Some (tt, s') → slot s s'
  | slot_timeout s s' :
      is_Some (discoveryTimer_ (srv s)) → broadcastDiscovery s = Some (tt, s') → slot s s'.

Lemma slot_service s s' : slot s s' → service (srv s') = service (srv s).
Proof.
  intros [p s0 s1 H|se a s0 s1 H|se s0 s1 H|p s0 s1 H|s0 s1 _ H]; (eapply unchanged_run; [|exact H]).
  - apply acceptConnections_service.
  - apply readClient_service.
  - apply clientDisconnected_service.
  - apply readDatagrams_service.
  - apply broadcastDiscovery_service.
Qed.
End Slots.
