(* ===== verification/ServerStream.v ===== *)
(** * The TCP byte stream: framing, chunking, one reply per request

    [readClient] is shown equal to processing the newline-terminated lines of
    everything received so far, whatever the segmentation of the stream. *)
From stdpp Require Import base gmap sets list strings.
From Stdlib Require Import ZArith Lia.
From S2P Require Import Prelude Qt World Crypto Reference CryptoTheorems ReplayGuard ReplayTheorems Server Scenario ServerLemmas.

Section Stream.
Context `{Q : QtCore} `{O : OpenSSL}.
Implicit Types (s : Sys).

(** What the loop does with one complete line. *)
Definition handleLine (socket : QTcpSocket) (line : QByteArray) : M Sys unit :=
  let line := trimmed line in
  if isEmpty line then mret tt else processLine socket line.

Lemma handleLine_frame socket line : ignores_buffers (handleLine socket line).
Proof. unfold handleLine. destruct (isEmpty _); [apply frame_ret|apply processLine_frame]. Qed.

Lemma for_each_frame {B} (l : list B) (body : B → M Sys unit) :
  (∀ x, ignores_buffers (body x)) → ignores_buffers (for_each l body).
Proof.
  intros Hb. induction l as [|x l IH]; simpl; [apply frame_ret|].
  by apply frame_bind; [apply Hb|intros []].
Qed.

Lemma for_each_app {S B} (l1 l2 : list B) (body : B → M S unit) (t : S) :
  for_each (l1 ++ l2) body t = (for_each l1 body ;; for_each l2 body) t.
Proof.
  induction l1 as [|x l1 IH] in t |- *; [done|]. simpl.
  unfold mbind, M_bind in *. destruct (body x t) as [[[] t']|]; [|done]. apply IH.
Qed.

Definition bufferOf (socket : QTcpSocket) (s : Sys) : QByteArray :=
  default [] (buffers_ (srv s) !! socket).

Definition set_buffer (socket : QTcpSocket) (b : QByteArray) : Sys → Sys :=
  on_server (set_buffers <[socket := b]>).

Lemma set_buffer_set_buffer socket b b' s :
  set_buffer socket b (set_buffer socket b' s) = set_buffer socket b s.
Proof. unfold set_buffer, on_server, set_buffers. simpl. by rewrite insert_insert_eq. Qed.

Lemma bufferOf_set_buffer socket b s : bufferOf socket (set_buffer socket b s) = b.
Proof. unfold bufferOf. simpl. by rewrite lookup_insert_eq. Qed.

Lemma set_buffer_id socket s :
  is_Some (buffers_ (srv s) !! socket) → set_buffer socket (bufferOf socket s) s = s.
Proof.
  intros [b Hb]. unfold set_buffer, on_server, bufferOf. rewrite Hb. simpl.
  destruct s as [[] w]. simpl in *. unfold set_buffers. simpl. by rewrite insert_id.
Qed.

(** The offset of a newline survives the conversion to [int] below 2 GiB. *)
Lemma indexOf_int b : (Z.of_nat (length b) < 2 ^ 31)%Z →
  int_of_qsizetype (indexOf newline b) = indexOf newline b.
Proof.
  intros Hb. apply swrap_id; [lia|]. unfold in_range, indexOf.
  destruct (index_of newline b) as [i|] eqn:E; [|lia]. apply index_of_lt in E. lia.
Qed.

(** One round of the loop that finds a line. *)
Lemma processBuffer_line fuel socket l rest s :
  bufferOf socket s = l ++ newline :: rest → newline ∉ l →
  (Z.of_nat (length (bufferOf socket s)) < 2 ^ 31)%Z →
  processBuffer (S fuel) socket s =
    (handleLine socket l ;; processBuffer fuel socket) (set_buffer socket rest s).
Proof.
  intros Hb Hni Hlen. cbn [processBuffer]. rewrite server_get_bind.
  fold (bufferOf socket s). rewrite indexOf_int by done. rewrite Hb in *.
  rewrite length_app in Hlen. cbn [length] in Hlen.
  assert (indexOf newline (l ++ newline :: rest) = Z.of_nat (length l)) as ->.
  { unfold indexOf. by rewrite (proj2 (index_of_Some newline _ (length l))) by eauto. }
  rewrite bool_decide_true by lia. rewrite Nat2Z.id, take_app_length.
  rewrite (defined_bind _ _ _ (Z.of_nat (length l) + 1)%Z).
  2: { apply checked_in. unfold in_range. lia. }
  rewrite server_set_bind.
  replace (drop (Z.to_nat (Z.of_nat (length l) + 1)) (l ++ newline :: rest)) with rest; [done|].
  replace (Z.to_nat (Z.of_nat (length l) + 1)) with (length l + 1) by lia.
  by rewrite drop_app_add.
Qed.

Lemma processBuffer_end fuel socket s :
  newline ∉ bufferOf socket s → processBuffer (S fuel) socket s = Some (tt, s).
Proof.
  intros Hni. cbn [processBuffer]. rewrite server_get_bind. fold (bufferOf socket s).
  unfold indexOf. rewrite (proj2 (index_of_None newline _) Hni).
  by rewrite bool_decide_false by (vm_compute; congruence).
Qed.

(** The loop processes the lines of the buffer in order and leaves what follows the last
    newline; a fuel of one more than the length of the buffer is enough. *)
Lemma processBuffer_lines fuel socket s :
  is_Some (buffers_ (srv s) !! socket) →
  length (bufferOf socket s) < fuel → (Z.of_nat (length (bufferOf socket s)) < 2 ^ 31)%Z →
  processBuffer fuel socket s =
    for_each (fst (split_lines (bufferOf socket s))) (handleLine socket)
      (set_buffer socket (snd (split_lines (bufferOf socket s))) s).
Proof.
  induction fuel as [|fuel IH] in s |- *; intros Hs Hfuel Hlen; [lia|].
  destruct (index_of newline (bufferOf socket s)) as [i|] eqn:Ei.
  - apply index_of_Some in Ei as (l & rest & Hb & Hni & _).
    rewrite (processBuffer_line _ _ l rest) by done.
    rewrite Hb, split_lines_newline by done. cbn [fst snd for_each].
    unfold mbind, M_bind. unfold set_buffer at 1 2. rewrite !handleLine_frame.
    destruct (handleLine socket l s) as [[[] s1]|] eqn:Eh; [|done]. simpl.
    fold (set_buffer socket rest s1) (set_buffer socket (snd (split_lines rest)) s1).
    rewrite Hb, length_app in Hfuel, Hlen. cbn [length] in Hfuel, Hlen.
    rewrite IH; rewrite ?bufferOf_set_buffer, ?set_buffer_set_buffer; [done| |lia|lia].
    simpl. rewrite lookup_insert_eq. by eexists.
  - apply index_of_None in Ei. rewrite processBuffer_end by done.
    rewrite split_lines_no_newline by done. simpl. by rewrite set_buffer_id.
Qed.

(** C17: [readClient] appends what arrived to the buffer of its socket, handles every complete
    line of the result exactly once and in order, and keeps the incomplete rest; in
    particular the loop terminates.  (Buffers of 2 GiB and more, where the [int] index wraps,
    are excluded.) *)
Theorem readClient_lines socket arrived s :
  let buffer := bufferOf socket s ++ arrived in
  (Z.of_nat (length buffer) < 2 ^ 31)%Z →
  readClient (Some socket) arrived s =
    for_each (fst (split_lines buffer)) (handleLine socket)
      (set_buffer socket (snd (split_lines buffer)) s).
Proof.
  intros buffer Hlen. unfold readClient. rewrite server_get_bind. fold (bufferOf socket s) buffer.
  rewrite server_set_bind. fold (on_server (set_buffers <[socket := buffer]>) s).
  fold (set_buffer socket buffer s).
  rewrite processBuffer_lines; rewrite ?bufferOf_set_buffer; [|simpl; rewrite lookup_insert_eq; by eexists|lia|done].
  by rewrite set_buffer_set_buffer.
Qed.

(** C18: the segmentation of the stream does not matter: two consecutive reads behave as one
    read of the concatenation. *)
Theorem readClient_chunks socket a b s :
  (Z.of_nat (length (bufferOf socket s ++ a ++ b)) < 2 ^ 31)%Z →
  (readClient (Some socket) a ;; readClient (Some socket) b) s = readClient (Some socket) (a ++ b) s.
Proof.
  intros Hlen. rewrite readClient_lines by done. rewrite app_assoc, split_lines_app.
  rewrite !length_app in Hlen. cbn [fst snd]. rewrite for_each_app.
  set (ba := bufferOf socket s ++ a). set (rest := snd (split_lines ba)).
  unfold mbind, M_bind.
  rewrite readClient_lines by (rewrite length_app; lia). fold ba rest.
  unfold set_buffer. rewrite !(for_each_frame _ _ (handleLine_frame socket)).
  destruct (for_each (fst (split_lines ba)) (handleLine socket) s) as [[[] s1]|] eqn:Eh; [|done].
  cbn [fmap option_fmap option_map fst snd]. fold (set_buffer socket rest s1).
  pose proof (split_lines_rest_le ba) as Hrest. fold rest in Hrest. unfold ba in Hrest. rewrite length_app in Hrest.
  rewrite readClient_lines; rewrite bufferOf_set_buffer; [|rewrite length_app; lia].
  by rewrite set_buffer_set_buffer.
Qed.
End Stream.

(** ** One reply per request *)

Section Replies.
Context `{Q : QtCore} `{O : OpenSSL}.
Implicit Types (s : Sys).

Definition is_write (e : Event) : bool := match e with SocketWrite _ _ => true | _ => false end.

(** [m] extends the trace by events that write to no socket. *)
Definition silent {A} (m : M Sys A) : Prop :=
  ∀ s, wlp m (λ _ s', ∃ evs, trace (wrld s') = trace (wrld s) ++ evs ∧ Forall (λ e, is_write e = false) evs) s.

Lemma silent_ret {A} (a : A) : silent (mret a).
Proof. intros s. apply wlp_ret. exists []. by rewrite app_nil_r. Qed.

Lemma silent_bind {A B} (m : M Sys A) (k : A → M Sys B) :
  silent m → (∀ a, silent (k a)) → silent (m ≫= k).
Proof.
  intros Hm Hk s. apply wlp_bind. eapply wlp_mono; [|apply Hm]. intros a s1 (e1 & E1 & H1).
  eapply wlp_mono; [|apply Hk]. intros b s2 (e2 & E2 & H2). exists (e1 ++ e2).
  rewrite E2, E1, app_assoc. split; [done|]. by apply Forall_app.
Qed.

Lemma silent_server_get {A} (f : Server → A) : silent (server_get f).
Proof. intros s. apply wlp_server_get. exists []. by rewrite app_nil_r. Qed.

Lemma silent_server_set f : silent (server_set f).
Proof. intros s. apply wlp_server_set. exists []. by rewrite app_nil_r. Qed.

Lemma silent_defined {A} (o : option A) : silent (defined o).
Proof. intros s. apply wlp_defined. intros a _. exists []. by rewrite app_nil_r. Qed.

Lemma silent_emit sg : silent (in_world (emit sg)).
Proof. intros s. apply wlp_in_world. intros [] w' [= <-]. exists [Emit sg]. by repeat constructor. Qed.

(** [w'] is [w] at a later reading of the same clock. *)
Definition later (w w' : World) : Prop := clock w' = clock w ∧ clock_reads w ≤ clock_reads w'.

#[export] Instance later_preorder : PreOrder later.
Proof. split; [by split|]. intros w1 w2 w3 [E1 H1] [E2 H2]. split; [congruence|lia]. Qed.

(** World computations that add nothing to the trace and only read the clock. *)
Definition quiet {A} (m : M World A) : Prop := ∀ w, wlp m (λ _ w', trace w' = trace w ∧ later w w') w.

Lemma silent_quiet {A} (m : M World A) : quiet m → silent (in_world m).
Proof.
  intros Hm s. apply wlp_in_world. intros a w' H. exists []. rewrite app_nil_r. split; [|done].
  by destruct (Hm _ _ _ H).
Qed.

Lemma quiet_ret {A} (a : A) : quiet (mret a).
Proof. intros w. by apply wlp_ret. Qed.

Lemma quiet_bind {A B} (m : M World A) (k : A → M World B) :
  quiet m → (∀ a, quiet (k a)) → quiet (m ≫= k).
Proof.
  intros Hm Hk w. apply wlp_bind. eapply wlp_mono; [|apply Hm]. intros a w1 [E1 L1].
  eapply wlp_mono; [|apply Hk]. simpl. intros b w2 [E2 L2]. split; [congruence|by etrans].
Qed.

Lemma quiet_defined {A} (o : option A) : quiet (defined o).
Proof. intros w. apply wlp_defined. done. Qed.

Lemma quiet_clock : quiet currentSecsSinceEpoch.
Proof. intros w a w' [= _ <-]. split; [done|]. split; [done|]. cbn. lia. Qed.

Lemma quiet_generate64 : quiet generate64.
Proof. intros w a w' [= _ <-]. done. Qed.

Lemma quiet_new {C} (inj : C → Object) c : quiet (new inj c).
Proof. destruct c; [|apply quiet_ret]. apply quiet_bind; [|intros; apply quiet_ret]. by intros w p w' [= _ <-]. Qed.

Lemma quiet_dispose p : quiet (dispose p).
Proof. intros w a w'. destruct p; simpl; [case_decide|]; intros [= _ <-]; by split. Qed.

Lemma quiet_load p : quiet (load p).
Proof. intros w a w'. unfold load. destruct (_ !! _); by intros [= _ <-]. Qed.

Lemma quiet_call {C A} (kind : Object → option C) inj (f : C → option (C * A)) p :
  quiet (call kind inj f p).
Proof.
  destruct p; [|by intros w]. simpl. apply quiet_bind; [apply quiet_load|]. intros o.
  apply quiet_bind; [apply quiet_defined|]. intros c. destruct (f c) as [[c' a]|]; [|apply quiet_ret].
  apply quiet_bind; [by intros w a' w' [= _ <-]|intros; apply quiet_ret].
Qed.

Lemma quiet_deref p : quiet (deref_pkey p).
Proof. destruct p; [|by intros w]. apply quiet_bind; [apply quiet_load|intros; apply quiet_defined]. Qed.
End Replies.

Ltac quiet_step :=
  lazymatch goal with
  | |- quiet (_ ≫= _) => apply quiet_bind; [|intros]
  | |- quiet (mret _) => apply quiet_ret
  | |- quiet (defined _) => apply quiet_defined
  | |- quiet currentSecsSinceEpoch => apply quiet_clock
  | |- quiet generate64 => apply quiet_generate64
  | |- quiet (new _ _) => apply quiet_new
  | |- quiet (dispose _) => apply quiet_dispose
  | |- quiet (deref_pkey _) => apply quiet_deref
  | |- quiet (call _ _ _ _) => apply quiet_call
  | |- quiet (match ?x with _ => _ end) => destruct x
  end.
Ltac quiet_steps :=
  unfold succeeds, and_then, cipher_call, md_call, pkey_ctx_call;
  repeat (quiet_step; cbn beta iota zeta).

Section HandlersReply.
Context `{Q : QtCore} `{O : OpenSSL}.
Implicit Types (s : Sys).

Lemma x25519SharedSecret_quiet sk pk : quiet (x25519SharedSecret sk pk).
Proof. unfold x25519SharedSecret. quiet_steps. Qed.
Lemma encryptAes256Gcm_quiet key nonce p aad : quiet (encryptAes256Gcm key nonce p aad).
Proof. unfold encryptAes256Gcm. quiet_steps. Qed.
Lemma decryptAes256Gcm_quiet key nonce c aad : quiet (decryptAes256Gcm key nonce c aad).
Proof. unfold decryptAes256Gcm. quiet_steps. Qed.
Lemma verifyEd25519_quiet pk msg sig : quiet (verifyEd25519 pk msg sig).
Proof. unfold verifyEd25519. quiet_steps. Qed.
Lemma accept_quiet g nonce timestamp : quiet (accept g nonce timestamp).
Proof. unfold accept, accept_precheck, isFreshTimestamp_now, accept_locked. quiet_steps. Qed.
Lemma randomFill_quiet fuel count offset b : quiet (randomFill fuel count offset b).
Proof.
  induction fuel as [|fuel IH] in offset, b |- *; simpl; destruct (_ <? _); try apply quiet_ret.
  - by intros w.
  - apply quiet_bind; [apply quiet_generate64|]. intros v. apply quiet_bind; [apply quiet_defined|].
    intros b'. apply IH.
Qed.

Lemma Server_new_trace w v w' : Server_new w = Some (v, w') → trace w' = trace w ∧ clock w' = clock w.
Proof.
  unfold Server_new. intros (r & w1 & H1 & H)%M_bind_Some. apply quiet_generate64 in H1 as [Et [Ec _]].
  apply M_bind_Some in H as ([keys err] & w2 & H2 & H). unfold mret, M_ret in H. simplify_eq.
  assert (quiet generateX25519KeyPair) as Hq by (unfold generateX25519KeyPair; quiet_steps).
  apply Hq in H2 as [Et2 [Ec2 _]]. split; congruence.
Qed.

Ltac silent_step :=
  lazymatch goal with
  | |- silent (_ ≫= _) => apply silent_bind; [|intros]
  | |- silent (mret _) => apply silent_ret
  | |- silent (server_get _) => apply silent_server_get
  | |- silent (server_set _) => apply silent_server_set
  | |- silent (defined _) => apply silent_defined
  | |- silent (in_world (emit _)) => apply silent_emit
  | |- silent (in_world _) => apply silent_quiet
  | |- silent (match ?x with _ => _ end) => destruct x
  | |- quiet (x25519SharedSecret _ _) => apply x25519SharedSecret_quiet
  | |- quiet (encryptAes256Gcm _ _ _ _) => apply encryptAes256Gcm_quiet
  | |- quiet (decryptAes256Gcm _ _ _ _) => apply decryptAes256Gcm_quiet
  | |- quiet (verifyEd25519 _ _ _) => apply verifyEd25519_quiet
  | |- quiet (accept _ _ _) => apply accept_quiet
  | |- quiet challengeNonce => apply randomFill_quiet
  | |- quiet envelopeNonce => apply randomFill_quiet
  | |- quiet currentSecsSinceEpoch => apply quiet_clock
  end.
Ltac silent_steps := repeat (silent_step; cbn beta iota zeta).

Lemma handlePair_silent request : silent (handlePair request).
Proof. unfold handlePair. silent_steps. Qed.

Lemma encryptedResponse_silent id payload : silent (encryptedResponse id payload).
Proof. unfold encryptedResponse. silent_steps. Qed.

Lemma decryptRequest_silent envelope : silent (decryptRequest envelope).
Proof. unfold decryptRequest. silent_steps. Qed.

Lemma authorize_silent id nonce timestamp signature : silent (authorize id nonce timestamp signature).
Proof. unfold authorize. silent_steps. Qed.

Lemma handleSecure_silent request : silent (handleSecure request).
Proof.
  unfold handleSecure, handleChallenge, handleVerify.
  repeat lazymatch goal with
  | |- silent (decryptRequest _) => apply decryptRequest_silent
  | |- silent (encryptedResponse _ _) => apply encryptedResponse_silent
  | |- silent (authorize _ _ _ _) => apply authorize_silent
  | _ => silent_step; cbn beta iota zeta
  end.
Qed.

(** Every request line gets exactly one response, on the socket it came from, as the last
    thing the server does with it: one line of compact JSON, terminated by the only newline in
    it. *)
Lemma processLine_output {QL : QtLaws Q} socket line s s' :
  processLine socket line s = Some (tt, s') →
  ∃ evs response,
    trace (wrld s') = trace (wrld s) ++ evs ++ [SocketWrite socket (toJson response ++ [newline])] ∧
    Forall (λ e, is_write e = false) evs ∧ newline ∉ toJson response.
Proof.
  intros H. unfold processLine in H.
  assert (∀ response t, reply socket response t = Some (tt, s') →
    trace (wrld s') = trace (wrld t) ++ [SocketWrite socket (toJson response ++ [newline])]) as Hr.
  { intros response t Ht. unfold reply in Ht. apply in_world_inv in Ht as [Ht _].
    unfold perform, modify in Ht. injection Ht as Ht. by rewrite <- Ht. }
  destruct (fromJson line) as [[|l|request]|].
  3: {
    apply M_bind_Some in H as (response & t & Hh & H). apply Hr in H.
    assert (∃ evs, trace (wrld t) = trace (wrld s) ++ evs ∧ Forall (λ e, is_write e = false) evs)
      as (evs & Ht & Hevs).
    { destruct (bool_decide _); [eapply handlePair_silent|eapply handleSecure_silent]; done. }
    exists evs, response. rewrite H, Ht, app_assoc. auto using toJson_one_line. }
  all: apply Hr in H; exists [], (errorResponse (QStringLiteral "invalid JSON request"));
    simpl; auto using toJson_one_line.
Qed.
End HandlersReply.

(** *** Witnesses *)

Definition two_lines : QByteArray := bytes "hello" ++ [newline] ++ bytes "wor".

Lemma readClient_lines_witness :
  readClient (Some demo_socket) two_lines demo_accepted =
    for_each [bytes "hello"] (handleLine demo_socket)
      (set_buffer demo_socket (bytes "wor") demo_accepted).
Proof. apply (readClient_lines demo_socket two_lines demo_accepted). vm_compute. reflexivity. Defined.

Lemma readClient_chunks_witness :
  (readClient (Some demo_socket) two_lines ;; readClient (Some demo_socket) two_lines) demo_accepted =
    readClient (Some demo_socket) (two_lines ++ two_lines) demo_accepted.
Proof. apply readClient_chunks. vm_compute. reflexivity. Defined.
