(* ===== verification/ServerInvariant.v ===== *)
(** * The invariant of the server and its reachable states

    [server_step] has one constructor per slot, timer and public operation; the
    invariant relates the socket flags, the timer, the two key tables and the
    pairing code, and holds in every reachable state. *)
From stdpp Require Import base gmap sets list strings relations.
From Stdlib Require Import ZArith Lia.
From S2P Require Import Prelude Qt World Crypto Reference CryptoTheorems ReplayGuard ReplayTheorems Server Scenario ServerLemmas ServerStream.

Record server_ok (s : Server) : Prop := {
  (** the UDP socket and the timer are up exactly when the TCP server listens *)
  ok_udp : udpBound s = listening s;
  ok_timer : discoveryTimer_ s = if listening s then Some 5000%Z else None;
  ok_port : listening s = true → (0 <= port_ s < 2 ^ 16)%Z;
  ok_keypair : listening s = true → length (publicKey (x25519KeyPair_ s)) = 32;
  (** a device has a signing key exactly when it has a session key; both have 32 bytes *)
  ok_dom : dom (pairedKeys_ s) = dom (sessionKeys_ s);
  ok_paired : map_Forall (λ id k, id ≠ [] ∧ length k = 32) (pairedKeys_ s);
  ok_session : map_Forall (λ id k, id ≠ [] ∧ length k = 32) (sessionKeys_ s);
  (** the pairing code is cleared or has sixteen characters *)
  ok_code : pairingCode_ s = [] ∨ length (pairingCode_ s) = 16;
}.

Section Steps.
Context `{Q : QtCore} `{O : OpenSSL}.

Inductive server_step : Sys → Sys → Prop :=
  | step_start net port b s s' :
      (0 <= port < 2 ^ 16)%Z → start net port s = Some (b, s') → server_step s s'
  | step_stop closes_now s s' : stop closes_now s = Some (tt, s') → server_step s s'
  | step_pairingPayload addresses host payload s s' :
      pairingPayload addresses host s = Some (payload, s') → server_step s s'
  | step_newConnection pending s s' : acceptConnections pending s = Some (tt, s') → server_step s s'
  | step_readyRead sender arrived s s' : readClient sender arrived s = Some (tt, s') → server_step s s'
  | step_disconnected sender s s' : clientDisconnected sender s = Some (tt, s') → server_step s s'
  | step_datagrams pending s s' : readDatagrams pending s = Some (tt, s') → server_step s s'
  | step_timeout s s' :
      is_Some (discoveryTimer_ (srv s)) → broadcastDiscovery s = Some (tt, s') → server_step s s'.

(** A computation that keeps the invariant. *)
Definition keeps_ok {A} (m : M Sys A) : Prop :=
  ∀ s, server_ok (srv s) → wlp m (λ _ s', server_ok (srv s')) s.
End Steps.

Section Preservation.
Context `{Q : QtCore} `{O : OpenSSL}.
Implicit Types (s : Sys).

Lemma keeps_ret {A} (a : A) : keeps_ok (mret a).
Proof. intros s Hs. by apply wlp_ret. Qed.

Lemma keeps_bind {A B} (m : M Sys A) (k : A → M Sys B) :
  keeps_ok m → (∀ a, keeps_ok (k a)) → keeps_ok (m ≫= k).
Proof. intros Hm Hk s Hs. apply wlp_bind. eapply wlp_mono; [|by apply Hm]. intros a s' Hs'. by apply Hk. Qed.

Lemma keeps_ret_bind {A B} (a : A) (k : A → M Sys B) : keeps_ok (k a) → keeps_ok (mret a ≫= k).
Proof. done. Qed.

Lemma keeps_in_world {A} (m : M World A) : keeps_ok (in_world m).
Proof. intros s Hs. by apply wlp_in_world. Qed.

Lemma keeps_get {A} (f : Server → A) : keeps_ok (server_get f).
Proof. intros s Hs. by apply wlp_server_get. Qed.

Lemma keeps_set f : (∀ v, server_ok v → server_ok (f v)) → keeps_ok (server_set f).
Proof. intros Hf s Hs. apply wlp_server_set. by apply Hf. Qed.

Lemma keeps_defined {A} (o : option A) : keeps_ok (defined o).
Proof. intros s Hs. by apply wlp_defined. Qed.

Lemma keeps_undefined {A} : keeps_ok (@undefined Sys A).
Proof. by intros s Hs. Qed.

Lemma keeps_for_each {B} (l : list B) (body : B → M Sys unit) :
  (∀ x, keeps_ok (body x)) → keeps_ok (for_each l body).
Proof. intros Hb. induction l; simpl; [apply keeps_ret|]. by apply keeps_bind. Qed.

(** Updates the invariant does not depend on. *)
Lemma ok_set_buffers f (s : Server) : server_ok s → server_ok (set_buffers f s).
Proof. by intros []. Qed.
Lemma ok_set_replayGuard g (s : Server) : server_ok s → server_ok (set_replayGuard g s).
Proof. by intros []. Qed.
Lemma ok_set_pairingCreatedAt t (s : Server) : server_ok s → server_ok (set_pairingCreatedAt t s).
Proof. by intros []. Qed.
Lemma ok_set_pairingCode c (s : Server) : c = [] ∨ length c = 16 → server_ok s → server_ok (set_pairingCode c s).
Proof. intros Hc []. by split. Qed.

Lemma ok_pair id signingKey shared (s : Server) :
  id ≠ [] → length signingKey = 32 → length shared = 32 → server_ok s →
  server_ok (set_sessionKeys <[id := shared]> (set_pairedKeys <[id := signingKey]> s)).
Proof.
  intros Hid Hk Hs []. split; simpl; try done.
  - rewrite !dom_insert_L. by rewrite ok_dom0.
  - by apply map_Forall_insert_2.
  - by apply map_Forall_insert_2.
Qed.
End Preservation.

Ltac keeps_step :=
  lazymatch goal with
  | |- keeps_ok (_ ≫= _) => apply keeps_bind; [|intros]
  | |- keeps_ok (mret _) => apply keeps_ret
  | |- keeps_ok (in_world _) => apply keeps_in_world
  | |- keeps_ok (server_get _) => apply keeps_get
  | |- keeps_ok (server_set (set_buffers _)) => apply keeps_set, ok_set_buffers
  | |- keeps_ok (server_set (set_replayGuard _)) => apply keeps_set, ok_set_replayGuard
  | |- keeps_ok (server_set (set_pairingCreatedAt _)) => apply keeps_set, ok_set_pairingCreatedAt
  | |- keeps_ok (defined _) => apply keeps_defined
  | |- keeps_ok undefined => apply keeps_undefined
  | |- keeps_ok (for_each _ _) => apply keeps_for_each; intros
  | |- keeps_ok (match ?x with _ => _ end) => destruct x
  end.
Ltac keeps := repeat (keeps_step; cbn beta iota zeta).

Section Operations.
Context `{Q : QtCore} `{O : OpenSSL} {QL : QtLaws Q}.
Implicit Types (s : Sys).

Lemma newPairingCode_length w code w' : newPairingCode w = Some (code, w') → length code = 16.
Proof.
  unfold newPairingCode. rewrite (bind_run _ _ _ _ _ (generate64_run w)).
  unfold mret, M_ret. intros [= <- _]. rewrite rightJustified_length.
  pose proof (QString_number16_length _ (random_range w 0)). lia.
Qed.

Lemma keeps_new_code {B} (k : unit → M Sys B) :
  keeps_ok (k tt) →
  keeps_ok (code ← in_world newPairingCode; x ← server_set (set_pairingCode code); k x).
Proof.
  intros Hk s Hs. apply wlp_bind, wlp_in_world. intros code w' H. apply wlp_bind, wlp_server_set.
  apply Hk. simpl. apply ok_set_pairingCode; [|done]. right. by eapply newPairingCode_length.
Qed.

Lemma broadcastDiscovery_ok : keeps_ok broadcastDiscovery.
Proof. unfold broadcastDiscovery. keeps. Qed.

Lemma encryptedResponse_ok id payload : keeps_ok (encryptedResponse id payload).
Proof. unfold encryptedResponse. keeps. Qed.

Lemma decryptRequest_ok envelope : keeps_ok (decryptRequest envelope).
Proof. unfold decryptRequest. keeps. Qed.

Lemma authorize_ok id nonce timestamp signature : keeps_ok (authorize id nonce timestamp signature).
Proof. unfold authorize. keeps. Qed.

Lemma handleSecure_ok request : keeps_ok (handleSecure request).
Proof.
  unfold handleSecure, handleChallenge, handleVerify.
  repeat lazymatch goal with
  | |- keeps_ok (decryptRequest _) => apply decryptRequest_ok
  | |- keeps_ok (encryptedResponse _ _) => apply encryptedResponse_ok
  | |- keeps_ok (authorize _ _ _ _) => apply authorize_ok
  | _ => keeps_step; cbn beta iota zeta
  end.
Qed.

Lemma handlePair_ok request : keeps_ok (handlePair request).
Proof.
  unfold handlePair. set (id := field request "device_id").
  set (signingKey := hexField request "public_key"). apply keeps_bind; [apply keeps_get|]. intros code.
  destruct (isEmpty id) eqn:Eid; [apply keeps_ret_bind; keeps|].
  destruct (Nat.eqb_spec (length signingKey) 32) as [Hk|]; [|apply keeps_ret_bind; keeps].
  cbn [orb negb]. apply keeps_bind; [keeps|]. intros [|]; [keeps|].
  apply keeps_bind; [apply keeps_get|]. intros keys. apply keeps_bind; [apply keeps_in_world|].
  intros [shared error]. destruct (Nat.eqb_spec (length shared) 32) as [Hs|]; [|cbn [negb]; keeps].
  cbn [negb]. intros s Hok. apply wlp_bind, wlp_server_set, wlp_bind, wlp_server_set,
    wlp_bind, wlp_server_set. simpl.
  eapply (keeps_bind (in_world (emit (deviceChanged id true)))); [keeps|intros; keeps|].
  simpl. apply ok_set_pairingCode; [by left|]. apply isEmpty_false in Eid. by apply ok_pair.
Qed.

Lemma processLine_ok socket line : keeps_ok (processLine socket line).
Proof.
  unfold processLine, reply.
  repeat lazymatch goal with
  | |- keeps_ok (handlePair _) => apply handlePair_ok
  | |- keeps_ok (handleSecure _) => apply handleSecure_ok
  | _ => keeps_step; cbn beta iota zeta
  end.
Qed.

Lemma processBuffer_ok fuel socket : keeps_ok (processBuffer fuel socket).
Proof.
  induction fuel as [|fuel IH]; cbn [processBuffer]; [keeps|].
  apply keeps_bind; [keeps|intros buffer]. destruct (bool_decide _); [|keeps].
  apply keeps_bind; [keeps|intros n]. apply keeps_bind; [keeps|intros _].
  apply keeps_bind; [destruct (isEmpty _); [keeps|apply processLine_ok]|done].
Qed.

Lemma readClient_ok sender arrived : keeps_ok (readClient sender arrived).
Proof.
  unfold readClient. destruct sender; [|keeps].
  apply keeps_bind; [keeps|intros b]. apply keeps_bind; [keeps|intros _]. apply processBuffer_ok.
Qed.

Lemma readDatagrams_ok pending : keeps_ok (readDatagrams pending).
Proof.
  unfold readDatagrams. apply keeps_for_each. intros d.
  destruct (fromJson d); [|keeps]. destruct (bool_decide _); [apply broadcastDiscovery_ok|keeps].
Qed.

Lemma acceptConnections_ok pending : keeps_ok (acceptConnections pending).
Proof. unfold acceptConnections. keeps. Qed.

Lemma clientDisconnected_ok sender : keeps_ok (clientDisconnected sender).
Proof. unfold clientDisconnected. keeps. Qed.

Lemma pairingPayload_ok addresses host : keeps_ok (pairingPayload addresses host).
Proof.
  unfold pairingPayload. apply keeps_bind; [keeps|intros code]. apply keeps_bind; [keeps|].
  intros [|]; [|keeps]. apply keeps_bind; [|intros; keeps].
  apply (keeps_new_code (λ _, now ← in_world currentSecsSinceEpoch; server_set (set_pairingCreatedAt now))).
  keeps.
Qed.

(** [stop] in pieces: with the timer gone the loop keeps the rest of the invariant. *)
Lemma stop_ok closes_now : keeps_ok (stop closes_now).
Proof.
  intros s Hs. unfold stop.
  set (P := λ s', server_ok (set_discoveryTimer (if listening (srv s') then Some 5000%Z else None) (srv s'))
                  ∧ discoveryTimer_ (srv s') = None).
  apply wlp_bind, wlp_server_get, wlp_bind.
  eapply wlp_mono with (P := λ _, P).
  2: { destruct (discoveryTimer_ (srv s)) as [t|] eqn:Et; cbn [is_some].
       - apply wlp_bind, wlp_in_world. intros _ w' _. apply wlp_server_set. destruct Hs. split; [by split|done].
       - apply wlp_ret. destruct Hs. split; [by split|done]. }
  intros _ s1 H1. apply wlp_bind, wlp_server_get, wlp_bind.
  eapply wlp_mono; [|apply (wlp_for_each _ _ P); [|done]].
  2: { intros socket s2 _ [H2 Et]. apply wlp_bind, wlp_in_world. intros _ w' _. destruct (closes_now socket).
       - unfold clientDisconnected. apply wlp_bind, wlp_server_set, wlp_bind, wlp_in_world.
         intros _ w1 _. apply wlp_in_world. intros _ w2 _. destruct H2. split; [by split|done].
       - by apply wlp_ret. }
  intros _ s2 [H2 Et]. apply wlp_bind, wlp_server_set, wlp_bind, wlp_in_world. intros _ w1 _.
  apply wlp_bind, wlp_server_set, wlp_bind, wlp_in_world. intros _ w2 _.
  apply wlp_bind, wlp_server_set, wlp_in_world. intros _ w3 _. simpl. destruct H2. by split.
Qed.

Lemma start_ok net port : (0 <= port < 2 ^ 16)%Z → keeps_ok (start net port).
Proof.
  intros Hp s Hs. unfold start. apply wlp_bind, wlp_server_get.
  unfold isRunning. destruct (listening (srv s)) eqn:El; [by apply wlp_ret|].
  apply wlp_bind, wlp_server_set. simpl.
  assert (server_ok (set_port port (srv s))) as H1 by (destruct Hs; split; simpl in *; try congruence; done).
  assert (listening (set_port port (srv s)) = false) as E1 by done.
  assert (port_ (set_port port (srv s)) = port) as Ep by done.
  generalize dependent (set_port port (srv s)). intros s1 H1 E1 Ep.
  apply wlp_bind, wlp_server_get. simpl.
  destruct (Nat.eqb_spec (length (publicKey (x25519KeyPair_ s1))) 32) as [Hk|]; cbn [negb].
  2: { by apply (keeps_bind _ _ (keeps_in_world _) (λ _, keeps_ret _)). }
  apply wlp_bind, wlp_in_world. intros code w1 Hcode. apply newPairingCode_length in Hcode.
  apply wlp_bind, wlp_server_set, wlp_bind, wlp_in_world. intros now w2 _.
  apply wlp_bind, wlp_server_set. simpl.
  destruct (listen_ok net); cbn [negb];
    [|apply (keeps_bind _ _ (keeps_in_world _) (λ _, keeps_ret _)); destruct H1; by split; auto].
  apply wlp_bind, wlp_in_world. intros _ w3 _. apply wlp_bind, wlp_server_set. simpl.
  destruct (bind_ok net); cbn [negb].
  - apply wlp_bind, wlp_in_world. intros _ w4 _. apply wlp_bind, wlp_server_set.
    apply wlp_bind, wlp_server_set, wlp_bind, wlp_in_world. intros _ w5 _. simpl.
    apply (keeps_bind _ _ broadcastDiscovery_ok); [intros; keeps|].
    destruct H1; split; simpl in *; auto; intros; lia.
  - apply wlp_bind, wlp_in_world. intros _ w4 _. apply wlp_bind, wlp_in_world. intros _ w5 _.
    apply wlp_bind, wlp_server_set, wlp_ret. destruct H1. rewrite E1 in *. split; simpl in *; auto; intros; congruence.
Qed.

Lemma Server_new_ok w (s : Server) w' : Server_new w = Some (s, w') → server_ok s.
Proof.
  unfold Server_new. intros (r & w1 & _ & H)%M_bind_Some.
  apply M_bind_Some in H as ([keys err] & w2 & _ & H). unfold mret, M_ret in H. simplify_eq.
  split; simpl; try done; by left.
Qed.

Lemma server_step_ok s s' : server_ok (srv s) → server_step s s' → server_ok (srv s').
Proof.
  intros Hs Hstep. destruct Hstep as
    [net p b s s' Hp H|cl s s' H|ad h pl s s' H|pe s s' H|se ar s s' H|se s s' H|pe s s' H|s s' _ H];
    [eapply start_ok|eapply stop_ok|eapply pairingPayload_ok|eapply acceptConnections_ok
    |eapply readClient_ok|eapply clientDisconnected_ok|eapply readDatagrams_ok|eapply broadcastDiscovery_ok];
    done.
Qed.

(** C13: in every state reachable from the constructor through any sequence of slots, timer
    events and calls, the socket flags and the timer agree, every paired device has a
    32-byte signing key and a 32-byte session key under a non-empty identifier, and the
    pairing code is cleared or has sixteen characters. *)
Theorem reachable_server_ok w (s : Server) w' s' :
  Server_new w = Some (s, w') → rtc server_step (mkSys s w') s' → server_ok (srv s').
Proof.
  intros Hnew Hsteps. apply Server_new_ok in Hnew.
  change s with (srv (mkSys s w')) in Hnew. revert Hnew Hsteps.
  generalize (mkSys s w'). intros s0 H0. induction 1; eauto using server_step_ok.
Qed.
End Operations.

(** *** Witness *)

Lemma reachable_server_ok_witness : server_ok (srv demo_accepted).
Proof.
  apply (reachable_server_ok demo_world (srv demo_new) (wrld demo_new)); [exact demo_new_run|].
  change (rtc server_step (mkSys (srv demo_new) (wrld demo_new)) demo_accepted).
  rewrite sys_eta. eapply rtc_l; [apply (step_start demo_net 43295 true _ demo_started); [lia|exact demo_start_run]|].
  eapply rtc_l; [apply (step_newConnection [(demo_socket, QStringLiteral "127.0.0.1")] _ demo_accepted); exact demo_accept_run|].
  apply rtc_refl.
Defined.
