(* ===== verification/ServerPairing.v ===== *)
(** * Pairing: who gets registered, and with which code

    The exact outcome of a [pair] request, the life of the pairing code, and
    the payload of the QR code. *)
From stdpp Require Import base gmap sets list strings.
From Stdlib Require Import ZArith Lia.
From S2P Require Import Prelude Qt World Crypto Reference CryptoTheorems ReplayGuard ReplayTheorems Server Scenario ServerLemmas.

(** ** JSON objects the program writes *)

Section Json.
Lemma value_json_snoc_eq kv k v : value (json (kv ++ [(k, v)])) (QStringLiteral k) = v.
Proof. unfold value. rewrite json_snoc. by rewrite lookup_insert_eq. Qed.
End Json.

(** Evaluate a member of a JSON object the program built: the keys are literals. *)
Ltac json_field :=
  unfold hexField, field, value, json; cbn [foldl fst snd];
  repeat first
    [ rewrite lookup_insert_eq
    | rewrite lookup_insert_ne by (vm_compute; discriminate) ];
  cbn [from_option Datatypes.id toString].

(** The members of an object literal are plain: strings by the hints, numbers are left. *)
Ltac plain_members :=
  rewrite !Forall_cons; cbn [snd plain_value]; split_and!; auto with qt.

Section Pairing.
Context `{Q : QtCore} `{O : OpenSSL}.
Implicit Types (s : Sys).

(** The test of the [pair] branch at the clock reading [now], negated. *)
Definition pair_valid (request : QJsonObject) (s : Server) (now : Z) : Prop :=
  field request "device_id" ≠ [] ∧
  length (hexField request "public_key") = 32 ∧
  length (hexField request "x25519_public_key") = 32 ∧
  field request "pairing_code" = pairingCode_ s ∧
  (now - pairingCreatedAt_ s <= 300)%Z.

#[export] Instance pair_valid_dec request (s : Server) now : Decision (pair_valid request s now).
Proof. unfold pair_valid. apply _. Defined.

(** The server after a device was paired. *)
Definition register (id : QString) (signingKey shared : QByteArray) (s : Server) : Server :=
  set_pairingCode [] (set_sessionKeys <[id := shared]> (set_pairedKeys <[id := signingKey]> s)).

Definition pairedResponse (s : Server) : QJsonObject :=
  json [("type", JString (QStringLiteral "paired"));
        ("accepted", JBool true);
        ("pc_id", JString (fromLatin1 (toHex (pcId_ s))))].

Definition agreed_secret (request : QJsonObject) (s : Server) : option (list byte) :=
  x25519 (privateKey (x25519KeyPair_ s)) (hexField request "x25519_public_key").

Lemma x25519_length {OS : OpenSSLSizes O} sk pk secret : x25519 sk pk = Some secret → length secret = 32.
Proof.
  unfold x25519. intros H. do 5 (apply bind_Some in H as (? & _ & H)).
  apply bind_Some in H as ([? ?] & Hd & H). simplify_eq. by eapply derive_length.
Qed.

(** The clock is read on this path, and the window is still open. *)
Definition window_age (s : Sys) : Z := reading (wrld s) 0 - pairingCreatedAt_ (srv s).

Context {QL : QtLaws Q} {OS : OpenSSLSizes O}.

Lemma handlePair_refused request s :
  in_range 64 (window_age s) → ¬ pair_valid request (srv s) (reading (wrld s) 0) →
  ∃ n, handlePair request s =
    Some (errorResponse (QStringLiteral "pairing code, keys, or pairing window is invalid"),
          mkSys (srv s) (advance n (wrld s))).
Proof.
  intros Hr Hv. unfold handlePair, pair_valid in *. rewrite server_get_bind.
  destruct (isEmpty (field request "device_id")) eqn:Eid; cbn [orb];
    [exists 0; rewrite advance_0; by destruct s|].
  destruct (Nat.eqb_spec (length (hexField request "public_key")) 32) as [E1|E1]; cbn [negb orb];
    [|exists 0; rewrite advance_0; by destruct s].
  destruct (Nat.eqb_spec (length (hexField request "x25519_public_key")) 32) as [E2|E2]; cbn [negb orb];
    [|exists 0; rewrite advance_0; by destruct s].
  case_bool_decide as E3; cbn [negb orb]; [|exists 0; rewrite advance_0; by destruct s].
  exists 1. unfold mbind at 1, M_bind at 1. rewrite clock_bind, server_get_bind.
  rewrite (defined_bind _ _ _ _ (checked_in _ _ Hr)). unfold mret at 1, M_ret at 1. simpl.
  apply isEmpty_false in Eid.
  rewrite bool_decide_true; [done|]. apply Z.lt_gt, Z.nle_gt. intros Hle. by apply Hv.
Qed.

Lemma handlePair_valid request s :
  in_range 64 (window_age s) → length (privateKey (x25519KeyPair_ (srv s))) = 32 →
  pair_valid request (srv s) (reading (wrld s) 0) →
  handlePair request s =
    Some (match agreed_secret request (srv s) with
          | None => (errorResponse (QStringLiteral "X25519 shared secret derivation failed"),
                     mkSys (srv s) (advance 1 (wrld s)))
          | Some shared =>
              let id := field request "device_id" in
              (pairedResponse (srv s),
               mkSys (register id (hexField request "public_key") shared (srv s))
                 (set_trace (λ t, (t ++ [Emit (deviceChanged id true)]) ++
                    [Emit (logMessage (arg (QStringLiteral "paired device %1") id))]) (advance 1 (wrld s))))
          end).
Proof.
  intros Hr Hk (Hid & E1 & E2 & E3 & E4). unfold handlePair. rewrite server_get_bind.
  apply isEmpty_false in Hid as ->. rewrite E1, E2, E3. rewrite bool_decide_true by done.
  cbn [Nat.eqb negb orb]. unfold mbind at 1, M_bind at 1. rewrite clock_bind, server_get_bind.
  rewrite (defined_bind _ _ _ _ (checked_in _ _ Hr)). unfold mret at 1, M_ret at 1. simpl.
  rewrite bool_decide_false by (unfold window_age; lia). rewrite server_get_bind. simpl.
  rewrite (in_world_bind _ _ _ _ _ (x25519SharedSecret_run _ _ _ Hk E2)).
  unfold agreed_secret. destruct (x25519 _ _) as [secret|] eqn:Ex; [|done].
  by rewrite (x25519_length _ _ _ Ex).
Qed.

(** C6: a [pair] request registers its device exactly when it names a device, carries two
    32-byte keys and the current code, arrives at most 300 seconds after the code was made,
    and the key agreement succeeds.  Then the signing key, the agreed session key and the
    cleared code are the only changes and the reply is [paired]; otherwise the server does
    not change at all, nothing is logged and the reply is an error. *)
Theorem pairing_decides request s :
  in_range 64 (window_age s) → length (privateKey (x25519KeyPair_ (srv s))) = 32 →
  ∃ response s', handlePair request s = Some (response, s') ∧
    ((∃ shared, pair_valid request (srv s) (reading (wrld s) 0) ∧
        agreed_secret request (srv s) = Some shared ∧ response = pairedResponse (srv s) ∧
        srv s' = register (field request "device_id") (hexField request "public_key") shared (srv s)) ∨
     (¬ (pair_valid request (srv s) (reading (wrld s) 0) ∧ is_Some (agreed_secret request (srv s))) ∧
        srv s' = srv s ∧ trace (wrld s') = trace (wrld s) ∧ ∃ message, response = errorResponse message)).
Proof.
  intros Hr Hk. destruct (decide (pair_valid request (srv s) (reading (wrld s) 0))) as [Hv|Hv].
  - rewrite handlePair_valid by done. destruct (agreed_secret request (srv s)) as [shared|] eqn:Ea.
    + eexists _, _. split; [done|]. left. eauto.
    + eexists _, _. split; [done|]. right. split; [by intros [_ []]|]. eauto.
  - destruct (handlePair_refused request s Hr Hv) as (n & ->). eexists _, _. split; [done|].
    right. split; [tauto|]. eauto.
Qed.

(** A pairing code works once: after a successful pairing every request that carries a
    non-empty code is refused, without a change of the server. *)
Theorem pairing_code_single_use r1 r2 s response s1 :
  in_range 64 (window_age s) → in_range 64 (window_age s1) →
  length (privateKey (x25519KeyPair_ (srv s))) = 32 →
  handlePair r1 s = Some (response, s1) → srv s1 ≠ srv s → field r2 "pairing_code" ≠ [] →
  ∃ message s2, handlePair r2 s1 = Some (errorResponse message, s2) ∧ srv s2 = srv s1.
Proof.
  intros Hr Hr1 Hk H1 Hchanged Hcode.
  destruct (decide (pair_valid r1 (srv s) (reading (wrld s) 0))) as [Hv|Hv].
  - rewrite handlePair_valid in H1 by done.
    destruct (agreed_secret r1 (srv s)) as [shared|]; simplify_eq/=.
    assert (∀ now, ¬ pair_valid r2
      (register (field r1 "device_id") (hexField r1 "public_key") shared (srv s)) now) as Hn
      by (by intros now (_ & _ & _ & E & _)).
    destruct (handlePair_refused r2 _ Hr1 (Hn _)) as (n & ->). by eexists _, _.
  - destruct (handlePair_refused r1 s Hr Hv) as (n & E). rewrite E in H1. by simplify_eq.
Qed.

(** C29: the one-time code does not protect the rest of the pairing window.  The code is cleared,
    not invalidated, and a request with an empty (or missing) code matches the cleared one:
    right after any successful pairing, anyone who can connect registers a device of their
    choice, without knowing any code. *)
Theorem pairing_reopened_by_empty_code r1 r2 s response s1 :
  in_range 64 (window_age s) → length (privateKey (x25519KeyPair_ (srv s))) = 32 →
  handlePair r1 s = Some (response, s1) → srv s1 ≠ srv s →
  field r2 "pairing_code" = [] → field r2 "device_id" ≠ [] →
  length (hexField r2 "public_key") = 32 → length (hexField r2 "x25519_public_key") = 32 →
  in_range 64 (window_age s1) → (window_age s1 <= 300)%Z →
  is_Some (agreed_secret r2 (srv s1)) →
  ∃ s2, handlePair r2 s1 = Some (pairedResponse (srv s1), s2) ∧
    pairedKeys_ (srv s2) !! field r2 "device_id" = Some (hexField r2 "public_key").
Proof.
  intros Hr Hk H1 Hchanged Hcode Hid Hk1 Hk2 Hr1 Hage [secret Hsecret].
  destruct (decide (pair_valid r1 (srv s) (reading (wrld s) 0))) as [Hv|Hv].
  2: { destruct (handlePair_refused r1 s Hr Hv) as (n & E). rewrite E in H1. by simplify_eq. }
  rewrite handlePair_valid in H1 by done.
  destruct (agreed_secret r1 (srv s)) as [shared|]; simplify_eq/=.
  rewrite handlePair_valid; [|done|done|done]. cbn [srv]. rewrite Hsecret. eexists. split; [done|].
  simpl. by rewrite lookup_insert_eq.
Qed.
End Pairing.

(** *** Witnesses *)

(** A second device that knows no code. *)
Definition intruder_request : QJsonObject :=
  json [("type", JString (QStringLiteral "pair"));
        ("device_id", JString (QStringLiteral "intruder"));
        ("public_key", hex_text (replicate 32 Init.Byte.x44));
        ("x25519_public_key", hex_text (replicate 32 Init.Byte.x55))].

Lemma demo_paired_changed : srv demo_paired ≠ srv demo_accepted.
Proof.
  intros E. apply (f_equal (λ s, isEmpty (pairingCode_ s))) in E. vm_compute in E. discriminate.
Qed.

Lemma pairing_decides_witness :
  ∃ response s', handlePair (pair_request demo_code) demo_accepted = Some (response, s') ∧
    ((∃ shared, pair_valid (pair_request demo_code) (srv demo_accepted) (reading (wrld demo_accepted) 0) ∧
        agreed_secret (pair_request demo_code) (srv demo_accepted) = Some shared ∧
        response = pairedResponse (srv demo_accepted) ∧
        srv s' = register (field (pair_request demo_code) "device_id")
                   (hexField (pair_request demo_code) "public_key") shared (srv demo_accepted)) ∨
     (¬ (pair_valid (pair_request demo_code) (srv demo_accepted) (reading (wrld demo_accepted) 0) ∧
         is_Some (agreed_secret (pair_request demo_code) (srv demo_accepted))) ∧
        srv s' = srv demo_accepted ∧ trace (wrld s') = trace (wrld demo_accepted) ∧
        ∃ message, response = errorResponse message)).
Proof.
  apply (pairing_decides (pair_request demo_code) demo_accepted).
  - apply (bool_decide_unpack _). vm_compute. exact I.
  - vm_compute. reflexivity.
Defined.

Lemma pairing_code_single_use_witness :
  ∃ message s2, handlePair (pair_request demo_code) demo_paired = Some (errorResponse message, s2) ∧
    srv s2 = srv demo_paired.
Proof.
  apply (pairing_code_single_use (pair_request demo_code) (pair_request demo_code) demo_accepted
    demo_reply demo_paired).
  - apply (bool_decide_unpack _). vm_compute. exact I.
  - apply (bool_decide_unpack _). vm_compute. exact I.
  - vm_compute. reflexivity.
  - exact demo_pair_run.
  - exact demo_paired_changed.
  - vm_compute. discriminate.
Defined.

Lemma pairing_reopened_by_empty_code_witness :
  ∃ s2, handlePair intruder_request demo_paired = Some (pairedResponse (srv demo_paired), s2) ∧
    pairedKeys_ (srv s2) !! field intruder_request "device_id" = Some (hexField intruder_request "public_key").
Proof.
  apply (pairing_reopened_by_empty_code (pair_request demo_code) intruder_request demo_accepted
    demo_reply demo_paired).
  - apply (bool_decide_unpack _). vm_compute. exact I.
  - vm_compute. reflexivity.
  - exact demo_pair_run.
  - exact demo_paired_changed.
  - vm_compute. reflexivity.
  - vm_compute. discriminate.
  - vm_compute. reflexivity.
  - vm_compute. reflexivity.
  - apply (bool_decide_unpack _). vm_compute. exact I.
  - apply (bool_decide_unpack _). vm_compute. exact I.
  - vm_compute. by eexists.
Defined.
