(* ===== verification/ServerLifecycle.v ===== *)
(** * Starting, stopping, the pairing payload, and discovery

    The outcomes of [start] and [stop], the rotation of the pairing code, and
    the discovery datagrams. *)
From stdpp Require Import base gmap sets list strings.
From Stdlib Require Import ZArith Lia Ascii.
From S2P Require Import Prelude Qt World Crypto Reference CryptoTheorems ReplayGuard ReplayTheorems Server Scenario ServerLemmas ServerPairing.

Section Lifecycle.
Context `{Q : QtCore} `{O : OpenSSL}.
Implicit Types (s : Sys) (w : World).

(** The code [start] and [pairingPayload] draw. *)
Definition fresh_code (w : World) : QString :=
  rightJustified (QString_number16 (random w 0)) 16 (QLatin1Char "0"%char).

Definition discoveryPacket (s : Server) : QByteArray :=
  toJson (json [("type", JString (QStringLiteral "openbiounlock"));
                ("pc_id", JString (fromLatin1 (toHex (pcId_ s))));
                ("port", JInteger (port_ s))]).

(** The server once [start] has drawn a code, before it listens. *)
Definition with_code (port : Z) (s : Sys) : Server :=
  set_pairingCreatedAt (reading (wrld s) 0)
    (set_pairingCode (fresh_code (wrld s)) (set_port port (srv s))).

Definition run_up (s : Server) : Server :=
  set_discoveryTimer (Some 5000%Z) (set_udpBound true (set_listening true s)).

Definition emits (s : Sys) (evs : list Event) : World :=
  set_trace (λ t, t ++ evs) (advance 1 (drawn 1 (wrld s))).

(** The complete outcome of [start]. *)
Lemma start_run net port s :
  start net port s =
    if listening (srv s) then Some (true, s)
    else if negb (length (publicKey (x25519KeyPair_ (srv s))) =? 32) then
      Some (false, mkSys (set_port port (srv s))
        (set_trace (λ t, t ++ [Emit (logMessage (QStringLiteral "X25519 key initialization failed"))]) (wrld s)))
    else if negb (listen_ok net) then
      Some (false, mkSys (with_code port s)
        (emits s [Emit (logMessage (arg (QStringLiteral "TCP listener failed: %1") (listen_error net)))]))
    else if negb (bind_ok net) then
      Some (false, mkSys (set_listening false (set_listening true (with_code port s)))
        (emits s [TcpListen port;
                  Emit (logMessage (arg (QStringLiteral "UDP discovery listener failed: %1") (bind_error net)));
                  TcpClose]))
    else
      Some (true, mkSys (run_up (with_code port s))
        (emits s [TcpListen port; UdpBind port; TimerStart 5000;
                  WriteDatagram (discoveryPacket (with_code port s)) port;
                  Emit (statusChanged (argInt (QStringLiteral "Listening on TCP/UDP %1") port));
                  Emit (logMessage (argInt (QStringLiteral "server started on port %1") port))])).
Proof.
  unfold start. rewrite server_get_bind. unfold isRunning.
  destruct (listening (srv s)); [done|]. rewrite server_set_bind, server_get_bind.
  cbn [x25519KeyPair_ set_port srv]. destruct (negb (_ =? 32)); [done|].
  assert (in_world newPairingCode (mkSys (set_port port (srv s)) (wrld s)) =
    Some (fresh_code (wrld s), mkSys (set_port port (srv s)) (drawn 1 (wrld s)))) as Hcode by done.
  rewrite (bind_run _ _ _ _ _ Hcode), server_set_bind, clock_bind, server_set_bind.
  cbn [wrld srv]. change (reading (drawn 1 (wrld s)) 0) with (reading (wrld s) 0).
  fold (with_code port s).
  destruct (listen_ok net), (bind_ok net); cbn [negb]; unfold emits, broadcastDiscovery;
    unfold mbind, M_bind; cbn -[argInt arg toJson QStringLiteral];
    rewrite ?set_trace_app; done.
Qed.

(** [start] always returns, and returns whether the server listens afterwards: on a running
    server it changes nothing; otherwise it succeeds exactly when the key pair exists and
    both sockets can be opened, with a new pairing code, the UDP socket and the five-second
    timer, and after a failure nothing was brought up (a failed bind closes the listener). *)
Theorem start_outcomes net port s :
  ∃ b s', start net port s = Some (b, s') ∧ listening (srv s') = b ∧
    (b = true ↔ listening (srv s) = true ∨
       length (publicKey (x25519KeyPair_ (srv s))) = 32 ∧ listen_ok net = true ∧ bind_ok net = true) ∧
    (listening (srv s) = true → s' = s) ∧
    (listening (srv s) = false → b = true → srv s' = run_up (with_code port s)) ∧
    (b = false → udpBound (srv s') = udpBound (srv s) ∧ discoveryTimer_ (srv s') = discoveryTimer_ (srv s)).
Proof.
  rewrite start_run. destruct (listening (srv s)) eqn:El; [eexists _, _; split; [done|]; naive_solver|].
  destruct (Nat.eqb_spec (length (publicKey (x25519KeyPair_ (srv s)))) 32) as [Hk|Hk]; cbn [negb];
    [|eexists _, _; split; [done|]; naive_solver].
  destruct (listen_ok net), (bind_ok net); cbn [negb]; eexists _, _; (split; [done|]); naive_solver.
Qed.

(** [stop] always succeeds, whichever sockets close at once: nothing listens, the timer is
    gone and no buffer is left, while the paired devices, their keys, the pairing code and the
    replay guard stay. *)
Lemma stop_run closes_now s :
  ∃ w', stop closes_now s =
    Some (tt, mkSys (set_udpBound false (set_listening false
                      (set_buffers (λ _, ∅) (set_discoveryTimer None (srv s))))) w').
Proof.
  unfold stop. rewrite server_get_bind.
  set (halt := if is_some _ then _ else _).
  assert (∃ w1, halt s = Some (tt, mkSys (set_discoveryTimer None (srv s)) w1)) as (w1 & Hhalt).
  { subst halt. destruct (discoveryTimer_ (srv s)) eqn:Et; [by eexists|]. exists (wrld s).
    destruct s as [[] w]; simpl in *; subst. done. }
  rewrite (bind_run _ _ _ _ _ Hhalt), server_get_bind.
  set (I := λ s', set_buffers (λ _, ∅) (srv s') = set_buffers (λ _, ∅) (set_discoveryTimer None (srv s))).
  destruct (for_each_total (fst <$> map_to_list (buffers_ (srv (mkSys (set_discoveryTimer None (srv s)) w1))))
    (λ socket, in_world (perform (SocketDisconnectFromHost socket)) ;;
       if closes_now socket then clientDisconnected (Some socket) else mret tt) I
    (mkSys (set_discoveryTimer None (srv s)) w1)) as (s2 & Hloop & HI).
  - intros socket s' Hs'. destruct (closes_now socket) eqn:Ec; unfold clientDisconnected, mbind, M_bind;
      cbn; rewrite ?Ec; eexists; (split; [reflexivity|]); unfold I in *; simpl; done.
  - reflexivity.
  - rewrite (bind_run _ _ _ _ _ Hloop), server_set_bind. rewrite HI. by eexists.
Qed.

(** ** The pairing payload *)

Definition endpoint_of (addresses : list HostAddress) (host : QString) : QString :=
  let endpoint := if isEmpty host then first_endpoint addresses else host in
  if isEmpty endpoint then QStringLiteral "127.0.0.1" else endpoint.

Definition payload_object (endpoint : QString) (s : Server) : QJsonObject :=
  json [("version", JInteger 1);
        ("host", JString endpoint);
        ("port", JInteger (port_ s));
        ("pc_id", JString (fromLatin1 (toHex (pcId_ s))));
        ("x25519_public_key", JString (fromLatin1 (toHex (publicKey (x25519KeyPair_ s)))));
        ("pairing_code", JString (pairingCode_ s))].

(** The code is still good: not used up, and not older than 300 seconds. *)
Definition code_current (s : Sys) : Prop :=
  pairingCode_ (srv s) ≠ [] ∧ (window_age s <= 300)%Z.

#[export] Instance code_current_dec s : Decision (code_current s).
Proof. unfold code_current. apply _. Defined.

(** Drawing a new code, followed by anything. *)
Lemma renew_bind {B} (k : unit → M Sys B) s :
  ((code ← in_world newPairingCode;
    server_set (set_pairingCode code) ;;
    now ← in_world currentSecsSinceEpoch;
    server_set (set_pairingCreatedAt now)) ≫= k) s =
  k tt (mkSys (set_pairingCreatedAt (reading (wrld s) 0)
                (set_pairingCode (fresh_code (wrld s)) (srv s)))
          (advance 1 (drawn 1 (wrld s)))).
Proof.
  assert (in_world newPairingCode s = Some (fresh_code (wrld s), mkSys (srv s) (drawn 1 (wrld s))))
    as Hcode by done.
  unfold mbind at 1, M_bind at 1. by rewrite (bind_run _ _ _ _ _ Hcode), server_set_bind, clock_bind.
Qed.

(** The complete outcome of [pairingPayload]. *)
Lemma pairingPayload_run addresses host s :
  in_range 64 (window_age s) →
  ∃ s', pairingPayload addresses host s =
      Some (toJson (payload_object (endpoint_of addresses host) (srv s')), s') ∧
    if decide (code_current s) then srv s' = srv s
    else ∃ now, srv s' = set_pairingCreatedAt now (set_pairingCode (fresh_code (wrld s)) (srv s)) ∧
         window_age (mkSys (srv s') (wrld s)) = (reading (wrld s) 0 - now)%Z ∧
         (now = reading (wrld s) 0 ∨ now = reading (wrld s) 1).
Proof.
  intros Hr. unfold pairingPayload. fold (endpoint_of addresses host). cbv zeta.
  rewrite server_get_bind. destruct (isEmpty (pairingCode_ (srv s))) eqn:Ec.
  - apply isEmpty_true in Ec. destruct (decide (code_current s)) as [[]|_]; [done|].
    rewrite ret_bind, renew_bind, server_get_bind.
    eexists. split; [reflexivity|]. exists (reading (wrld s) 0). simpl. auto.
  - apply isEmpty_false in Ec. unfold mbind at 1, M_bind at 1. rewrite clock_bind, server_get_bind.
    rewrite (defined_bind _ _ _ _ (checked_in _ _ Hr)). unfold mret at 1, M_ret at 1. cbn beta iota.
    cbn [srv]. fold (window_age s). destruct (decide (code_current s)) as [Hc|Hc].
    + destruct Hc as [_ Hc]. rewrite bool_decide_false by lia. rewrite ret_bind.
      by eexists.
    + rewrite bool_decide_true.
      2: { apply Z.lt_gt, Z.nle_gt. intros Hle. by apply Hc. }
      rewrite renew_bind, server_get_bind.
      eexists. split; [reflexivity|]. exists (reading (wrld s) 1). cbn [srv wrld].
      rewrite reading_advance. simpl. auto.
Qed.

(** [pairingPayload] keeps a current code and replaces a used or expired one by a new random
    code made at the current time; the payload it returns is the JSON text of the endpoint,
    the port, the workstation's identity and public key and exactly the code the server
    then accepts. *)
Theorem pairingPayload_rotates addresses host s :
  in_range 64 (window_age s) →
  ∃ s', pairingPayload addresses host s =
      Some (toJson (payload_object (endpoint_of addresses host) (srv s')), s') ∧
    if decide (code_current s) then srv s' = srv s
    else ∃ now, srv s' = set_pairingCreatedAt now (set_pairingCode (fresh_code (wrld s)) (srv s)) ∧
         window_age (mkSys (srv s') (wrld s)) = (reading (wrld s) 0 - now)%Z ∧
         (now = reading (wrld s) 0 ∨ now = reading (wrld s) 1).
Proof. apply pairingPayload_run. Qed.

Context {QL : QtLaws Q} {OS : OpenSSLSizes O}.

(** ** Discovery *)

Definition is_discover (datagram : QByteArray) : bool :=
  match fromJson datagram with
  | Some document => bool_decide (field (object document) "type" = QStringLiteral "discover")
  | None => false
  end.

(** [readDatagrams] sends one broadcast for every well-formed datagram of type [discover] and
    none for any other, leaves the server as it is, and does not react to the broadcasts the
    server sends itself, which come back on the same port. *)
Theorem readDatagrams_answers pending s :
  (0 <= port_ (srv s) < 2 ^ 16)%Z →
  readDatagrams pending s =
    Some (tt, mkSys (srv s) (set_trace (λ t, t ++ replicate (length (filter (λ d, is_discover d = true) pending))
                                 (WriteDatagram (discoveryPacket (srv s)) (port_ (srv s)))) (wrld s))) ∧
  is_discover (discoveryPacket (srv s)) = false.
Proof.
  intros Hport. split.
  - induction pending as [|d pending IH] in s, Hport |- *.
    + unfold readDatagrams. simpl. unfold mret, M_ret. do 2 f_equal. destruct s as [? []]. simpl.
      unfold set_trace. simpl. by rewrite app_nil_r.
    + assert (readDatagrams (d :: pending) s =
        ((if is_discover d then broadcastDiscovery else mret tt) ;; readDatagrams pending) s) as ->
        by (unfold readDatagrams, is_discover; cbn [for_each]; by destruct (fromJson d)).
      rewrite filter_cons. destruct (is_discover d) eqn:Ed.
      * rewrite decide_True by done.
        assert (broadcastDiscovery s = Some (tt, mkSys (srv s) (set_trace
          (λ t, t ++ [WriteDatagram (discoveryPacket (srv s)) (port_ (srv s))]) (wrld s)))) as Hb by done.
        rewrite (bind_run _ _ _ _ _ Hb), IH by done. cbn [srv wrld]. by rewrite set_trace_app.
      * rewrite decide_False by done. rewrite ret_bind. by apply IH.
  - unfold is_discover, discoveryPacket. rewrite fromJson_toJson; [|apply plain_json].
    + simpl. rewrite bool_decide_false; [done|]. json_field. vm_compute. discriminate.
    + plain_members. unfold in_range. lia.
Qed.

(** The payload is the JSON text of an object that reads back. *)
Lemma pairingPayload_plain addresses host s payload s1 :
  in_range 64 (window_age s) →
  plain_string (endpoint_of addresses host) → plain_string (pairingCode_ (srv s)) →
  (0 <= port_ (srv s) < 2 ^ 16)%Z → pairingPayload addresses host s = Some (payload, s1) →
  payload = toJson (payload_object (endpoint_of addresses host) (srv s1)) ∧
  plain_object (payload_object (endpoint_of addresses host) (srv s1)) ∧
  x25519KeyPair_ (srv s1) = x25519KeyPair_ (srv s).
Proof.
  intros Hr Hhost Hcode Hport Hpay.
  destruct (pairingPayload_run addresses host s Hr) as (s' & Hrun & Hs').
  rewrite Hrun in Hpay. injection Hpay as <- <-.
  assert (port_ (srv s') = port_ (srv s) ∧ x25519KeyPair_ (srv s') = x25519KeyPair_ (srv s) ∧
    plain_string (pairingCode_ (srv s'))) as (Ep & Ek & Hplain).
  { case_decide; [by rewrite Hs'|]. destruct Hs' as (now & -> & _). split_and!; [done|done|].
    apply rightJustified_plain; [apply QString_number16_plain|done]. }
  split_and!; [done| |done]. apply plain_json. plain_members; unfold in_range; rewrite ?Ep; lia.
Qed.

(** The QR ceremony works: a device that scans the payload [pairingPayload] returns and sends
    its code with a non-empty identifier and two 32-byte keys within 300 seconds is paired,
    whenever the key agreement succeeds. *)
Lemma payload_code_pairs addresses host s payload s1 o request w2 :
  in_range 64 (window_age s) →
  plain_string (endpoint_of addresses host) → plain_string (pairingCode_ (srv s)) →
  (0 <= port_ (srv s) < 2 ^ 16)%Z → length (privateKey (x25519KeyPair_ (srv s))) = 32 →
  pairingPayload addresses host s = Some (payload, s1) →
  fromJson payload = Some (DocObject o) →
  field request "pairing_code" = field o "pairing_code" →
  field request "device_id" ≠ [] → length (hexField request "public_key") = 32 →
  length (hexField request "x25519_public_key") = 32 →
  in_range 64 (window_age (mkSys (srv s1) w2)) → (window_age (mkSys (srv s1) w2) <= 300)%Z →
  is_Some (agreed_secret request (srv s1)) →
  ∃ s3, handlePair request (mkSys (srv s1) w2) = Some (pairedResponse (srv s1), s3) ∧
    pairedKeys_ (srv s3) !! field request "device_id" = Some (hexField request "public_key").
Proof.
  intros Hr Hhost Hcode Hport Hk Hpay Hjson Hreq Hid H1 H2 Hr2 Hage [secret Hs].
  destruct (pairingPayload_plain addresses host s payload s1) as (-> & Hplain & Ek); try done.
  rewrite fromJson_toJson in Hjson by done.
  injection Hjson as <-. unfold payload_object in Hreq. revert Hreq. json_field. intros Hreq.
  rewrite handlePair_valid; [|done|cbn; by rewrite Ek|done]. cbn [srv]. rewrite Hs.
  eexists. split; [done|]. simpl. by rewrite lookup_insert_eq.
Qed.
End Lifecycle.

(** *** Witnesses *)

Lemma pairingPayload_rotates_witness :
  ∃ s', pairingPayload [] [] demo_accepted =
      Some (toJson (payload_object (endpoint_of [] []) (srv s')), s') ∧
    if decide (code_current demo_accepted) then srv s' = srv demo_accepted
    else ∃ now, srv s' = set_pairingCreatedAt now
                  (set_pairingCode (fresh_code (wrld demo_accepted)) (srv demo_accepted)) ∧
         window_age (mkSys (srv s') (wrld demo_accepted)) = (reading (wrld demo_accepted) 0 - now)%Z ∧
         (now = reading (wrld demo_accepted) 0 ∨ now = reading (wrld demo_accepted) 1).
Proof.
  apply (pairingPayload_rotates [] [] demo_accepted).
  apply (bool_decide_unpack _). vm_compute. exact I.
Defined.

Lemma readDatagrams_answers_witness :
  is_discover (discoveryPacket (srv demo_accepted)) = false.
Proof.
  refine (proj2 (readDatagrams_answers [] demo_accepted _)). vm_compute. split; congruence.
Defined.

Definition demo_displayed : Sys := after (pairingPayload [] []) demo_accepted.
Strategy expand [demo_displayed].
Definition demo_payload : QByteArray := result_of [] (pairingPayload [] []) demo_accepted.

Lemma demo_displayed_run : pairingPayload [] [] demo_accepted = Some (demo_payload, demo_displayed).
Proof.
  assert (is_some (pairingPayload [] [] demo_accepted) = true) as H by vm_eq.
  exact (run_defined [] (pairingPayload [] []) demo_accepted H).
Qed.
