(* ===== verification/ServerAuth.v ===== *)
(** * Authorization: envelopes, challenges, signatures

    The secure envelope in both directions, the decision of a [verify] request,
    and a complete honest session. *)
From stdpp Require Import base gmap sets list strings.
From Stdlib Require Import ZArith Lia.
From S2P Require Import Prelude Qt World Crypto Reference CryptoTheorems ReplayGuard ReplayTheorems Server Scenario ServerLemmas ServerPairing.

Section Auth.
Context `{Q : QtCore} `{O : OpenSSL}.
Implicit Types (s : Sys) (w : World).

(** ** The decision of a [verify] request *)

(** Every defined run of [authorize]. *)
Lemma authorize_inv id nonce timestamp signature s b e s' :
  authorize id nonce timestamp signature s = Some ((b, e), s') →
  (pairedKeys_ (srv s) !! id = None ∧ b = false ∧ s' = s) ∨
  ∃ key accepted g w1,
    pairedKeys_ (srv s) !! id = Some key ∧
    accept (replayGuard_ (srv s)) nonce timestamp (wrld s) = Some ((accepted, g), w1) ∧
    srv s' = set_replayGuard g (srv s) ∧
    (accepted = false ∧ b = false ∧ wrld s' = w1 ∨
     accepted = true ∧ ∃ err,
       verifyEd25519 key (nonce ++ timestampBytes timestamp) signature w1 = Some ((b, err), wrld s')).
Proof.
  unfold authorize. rewrite server_get_bind. destruct (pairedKeys_ (srv s) !! id) as [key|] eqn:Ek.
  - rewrite server_get_bind. intros ([accepted g] & s1 & [Ha Es]%in_world_inv & H)%M_bind_Some.
    right. exists key, accepted, g, (wrld s1). split_and!; [done|done| |].
    + rewrite server_set_bind in H. destruct accepted; cbn [negb] in H.
      * apply M_bind_Some in H as ([valid err] & s2 & [Hv Es2]%in_world_inv & H).
        unfold mret, M_ret in H. simplify_eq. simpl in *. congruence.
      * unfold mret, M_ret in H. simplify_eq. simpl in *. congruence.
    + rewrite server_set_bind in H. destruct accepted; cbn [negb] in H.
      * apply M_bind_Some in H as ([valid err] & s2 & [Hv Es2]%in_world_inv & H).
        unfold mret, M_ret in H. simplify_eq/=. right. eauto.
      * unfold mret, M_ret in H. simplify_eq/=. by left.
  - unfold mret, M_ret. intros [= <- <- <-]. by left.
Qed.

Context {QL : QtLaws Q} {OS : OpenSSLSizes O}.

(** A signature the verification accepts: 32-byte key, 64-byte signature, and OpenSSL agrees. *)
Definition signature_ok (key message signature : QByteArray) : Prop :=
  length key = 32 ∧ length signature = 64 ∧ ed25519_valid key message signature = true.

Lemma verifyEd25519_result key message signature w b err w' :
  verifyEd25519 key message signature w = Some ((b, err), w') →
  (b = true ↔ signature_ok key message signature) ∧ w' = w.
Proof.
  unfold signature_ok. intros H.
  destruct (decide (length key = 32)) as [Hk|Hk]; [destruct (decide (length signature = 64)) as [Hs|Hs]|].
  - rewrite verifyEd25519_run in H by done. destruct (ed25519_valid key message signature); simplify_eq; naive_solver.
  - rewrite verifyEd25519_refused in H by tauto. simplify_eq. naive_solver.
  - rewrite verifyEd25519_refused in H by tauto. simplify_eq. naive_solver.
Qed.

(** C5: [authorized] is true exactly when the device is paired, the nonce is not empty, the time
    stamp is within 30 seconds of the clock, the replay guard accepts the pair, and the
    signature over the nonce and the big-endian time stamp verifies under the key the device
    registered; nothing but the replay guard changes. *)
Theorem authorize_decides id nonce timestamp signature s b e s' :
  authorize id nonce timestamp signature s = Some ((b, e), s') →
  (b = true ↔ ∃ key,
     pairedKeys_ (srv s) !! id = Some key ∧ nonce ≠ [] ∧
     (Z.abs (timestamp - reading (wrld s) 0) <= 30)%Z ∧
     (token nonce timestamp ∉ seen_ (replayGuard_ (srv s)) ∨
      (reading (wrld s) 1 - lastCleanup_ (replayGuard_ (srv s)) > 60)%Z) ∧
     signature_ok key (nonce ++ timestampBytes timestamp) signature) ∧
  ∃ g, srv s' = set_replayGuard g (srv s).
Proof.
  intros H. apply authorize_inv in H as [(Hnone & -> & ->)|(key & acc & g & w1 & Hk & Ha & Hsrv & Hb)].
  - split; [naive_solver|]. exists (replayGuard_ (srv s)). by destruct (srv s).
  - split; [|eauto]. apply accept_inv in Ha.
    assert (acc = true ↔ nonce ≠ [] ∧ (Z.abs (timestamp - reading (wrld s) 0) <= 30)%Z ∧
      (token nonce timestamp ∉ seen_ (replayGuard_ (srv s)) ∨
       (reading (wrld s) 1 - lastCleanup_ (replayGuard_ (srv s)) > 60)%Z)) as Hacc.
    { rewrite <- (isFreshTimestamp_true timestamp (reading (wrld s) 0)).
      destruct Ha as [(-> & -> & _)|[(Hn & Hf & -> & _)|(Hn & Hf & Hr & _)]];
        [naive_solver|split; [done|]; intros (_ & Hf' & _); congruence|].
      apply locked_accepts in Hr as ->. rewrite bool_decide_eq_true. tauto. }
    destruct Hb as [(-> & -> & _)|(-> & err & Hv)].
    + split; [done|]. intros (key' & Hk' & Hn & Hf & Hs & _). by apply Hacc.
    + apply verifyEd25519_result in Hv as [Hv _]. rewrite Hv. split.
      * intros Hok. destruct Hacc as [Hacc _]. destruct (Hacc eq_refl) as (? & ? & ?). by exists key.
      * intros (key' & Hk' & _ & _ & _ & Hok). by simplify_eq.
Qed.

(** The run of [authorize] on a paired device and an acceptable pair. *)
Lemma authorize_run id key nonce timestamp signature s :
  pairedKeys_ (srv s) !! id = Some key → nonce ≠ [] →
  (Z.abs (timestamp - reading (wrld s) 0) <= 30)%Z →
  in_range 64 (reading (wrld s) 1 - lastCleanup_ (replayGuard_ (srv s))) →
  token nonce timestamp ∉ seen_ (replayGuard_ (srv s)) →
  signature_ok key (nonce ++ timestampBytes timestamp) signature →
  ∃ g, authorize id nonce timestamp signature s =
    Some ((true, []), mkSys (set_replayGuard g (srv s)) (advance 2 (wrld s))).
Proof.
  intros Hk Hn Hf Hr Ht (H1 & H2 & H3). unfold authorize.
  rewrite server_get_bind, Hk, server_get_bind.
  pose proof (accept_run (replayGuard_ (srv s)) nonce timestamp (wrld s) Hn Hf Hr) as Ha.
  destruct (locked_result _ _ _ _) as [acc g] eqn:El.
  assert (acc = true) as ->.
  { symmetry in El. apply locked_accepts in El as ->. apply bool_decide_true. by left. }
  rewrite (in_world_bind _ _ _ _ _ Ha), server_set_bind. cbn [negb srv wrld].
  rewrite (in_world_bind _ _ _ (true, None) (advance 2 (wrld s))).
  2: { cbn [wrld]. rewrite verifyEd25519_run by done. by rewrite H3. }
  by exists g.
Qed.

(** Nothing ties a [verify] request to a challenge: on any server, also one that never
    issued a challenge, a paired device is authorized for any non-empty nonce of its own choice
    with a current time stamp it has not used yet and its signature. *)
Theorem authorization_without_challenge id key nonce timestamp signature s :
  pairedKeys_ (srv s) !! id = Some key → nonce ≠ [] →
  (Z.abs (timestamp - reading (wrld s) 0) <= 30)%Z →
  in_range 64 (reading (wrld s) 1 - lastCleanup_ (replayGuard_ (srv s))) →
  token nonce timestamp ∉ seen_ (replayGuard_ (srv s)) →
  signature_ok key (nonce ++ timestampBytes timestamp) signature →
  ∃ s', authorize id nonce timestamp signature s = Some ((true, []), s').
Proof. intros. edestruct (authorize_run id key) as [g ->]; try done. by eexists. Qed.

(** The replay guard is consulted before the signature is checked, and its tokens do not
    name the device: once anyone's request with a fresh nonce and time stamp was refused for its
    signature, the same pair is refused for every device, also with a valid signature, until the
    guard is cleaned. *)
Theorem rejected_signature_burns_nonce id1 id2 nonce timestamp sig1 sig2 s b1 e1 s1 b2 e2 s2 :
  (∀ n, reading (wrld s) n - lastCleanup_ (replayGuard_ (srv s)) <= 60)%Z →
  is_Some (pairedKeys_ (srv s) !! id1) → nonce ≠ [] →
  (Z.abs (timestamp - reading (wrld s) 0) <= 30)%Z →
  authorize id1 nonce timestamp sig1 s = Some ((b1, e1), s1) →
  authorize id2 nonce timestamp sig2 s1 = Some ((b2, e2), s2) →
  b2 = false.
Proof.
  intros Hclock [key Hk] Hn Hf H1 H2.
  apply authorize_inv in H1 as [(Hnone & _)|(key1 & acc & g & w1 & Hk1 & Ha & Hsrv & Hb)];
    [congruence|].
  assert (token nonce timestamp ∈ seen_ g ∧ lastCleanup_ g = lastCleanup_ (replayGuard_ (srv s)) ∧
    w1 = advance 2 (wrld s)) as (Hin & Hlast & ->).
  { apply isFreshTimestamp_true in Hf. apply accept_inv in Ha as
      [(? & _)|[(_ & Hf' & _)|(_ & _ & Hr & ->)]]; [done|congruence|].
    unfold locked_result in Hr. rewrite cleanup_idle in Hr by apply Hclock.
    case_bool_decide; simplify_eq; simpl; set_solver. }
  assert (wrld s1 = advance 2 (wrld s)) as Ew.
  { destruct Hb as [(_ & _ & ->)|(_ & err & Hv)]; [done|].
    by apply verifyEd25519_result in Hv as [_ ->]. }
  apply not_true_is_false. intros ->.
  apply authorize_inv in H2 as [(_ & ? & _)|(key2 & acc2 & g2 & w2 & _ & Ha2 & _ & [(_ & ? & _)|[-> _]])];
    [done|done|].
  apply accept_inv in Ha2 as [(_ & ? & _)|[(_ & _ & ? & _)|(_ & _ & Hr & _)]]; [done|done|].
  apply locked_accepts in Hr. rewrite Hsrv, Ew, reading_advance in Hr. symmetry in Hr.
  apply bool_decide_eq_true in Hr. cbn [replayGuard_ set_replayGuard] in Hr. rewrite Hlast in Hr.
  specialize (Hclock (2 + 1)). destruct Hr as [Hr|Hr]; [done|lia].
Qed.
End Auth.

(** *** Witnesses *)

Definition demo_nonce : QByteArray := bytes "a nonce the device made up".
Definition demo_time : Z := 1700000010.
Definition demo_signature : QByteArray :=
  ref_sign demo_signing_key (demo_nonce ++ timestampBytes demo_time).

(** The server with a guard that was cleaned at the demo clock's only reading. *)
Definition demo_cleaned : Sys :=
  mkSys (set_replayGuard (mkReplayGuard ∅ 1700000000) (srv demo_paired)) (wrld demo_paired).

Definition demo_refused : Sys :=
  after (authorize demo_id demo_nonce demo_time (replicate 64 nul)) demo_cleaned.
Definition demo_refused_again : Sys :=
  after (authorize demo_id demo_nonce demo_time demo_signature) demo_refused.
Strategy expand [demo_refused demo_refused_again].

Lemma demo_pairedKey : pairedKeys_ (srv demo_paired) !! demo_id = Some demo_signing_key.
Proof. vm_eq. Qed.

Lemma demo_signature_ok :
  signature_ok demo_signing_key (demo_nonce ++ timestampBytes demo_time) demo_signature.
Proof. split; [|split]; vm_eq. Qed.

Lemma still_reading (w : World) t n : clock w = (λ _, t) → reading w n = t.
Proof. unfold reading. by intros ->. Qed.

Lemma demo_reading n : reading (wrld demo_paired) n = 1700000000%Z.
Proof. apply still_reading. vm_eq. Qed.

Lemma demo_cleaned_reading n : reading (wrld demo_cleaned) n = 1700000000%Z.
Proof. apply still_reading. vm_eq. Qed.

Lemma demo_cleaned_last : lastCleanup_ (replayGuard_ (srv demo_cleaned)) = 1700000000%Z.
Proof. vm_eq. Qed.

Lemma demo_authorize_run :
  authorize demo_id demo_nonce demo_time demo_signature demo_paired =
    Some (true, [], after (authorize demo_id demo_nonce demo_time demo_signature) demo_paired).
Proof.
  assert (fst <$> authorize demo_id demo_nonce demo_time demo_signature demo_paired = Some (true, []))
    as H by vm_eq.
  exact (run_after _ (authorize demo_id demo_nonce demo_time demo_signature) demo_paired H).
Qed.

Lemma demo_refused_run :
  authorize demo_id demo_nonce demo_time (replicate 64 nul) demo_cleaned =
    Some (false, QStringLiteral "signature verification failed", demo_refused).
Proof.
  assert (fst <$> authorize demo_id demo_nonce demo_time (replicate 64 nul) demo_cleaned =
    Some (false, QStringLiteral "signature verification failed")) as H by vm_eq.
  exact (run_after _ (authorize demo_id demo_nonce demo_time (replicate 64 nul)) demo_cleaned H).
Qed.

Lemma demo_refused_again_run :
  authorize demo_id demo_nonce demo_time demo_signature demo_refused = Some (false, [], demo_refused_again).
Proof.
  assert (fst <$> authorize demo_id demo_nonce demo_time demo_signature demo_refused = Some (false, []))
    as H by vm_eq.
  exact (run_after _ (authorize demo_id demo_nonce demo_time demo_signature) demo_refused H).
Qed.

Lemma authorize_decides_witness :
  (true = true ↔ ∃ key,
     pairedKeys_ (srv demo_paired) !! demo_id = Some key ∧ demo_nonce ≠ [] ∧
     (Z.abs (demo_time - reading (wrld demo_paired) 0) <= 30)%Z ∧
     (token demo_nonce demo_time ∉ seen_ (replayGuard_ (srv demo_paired)) ∨
      (reading (wrld demo_paired) 1 - lastCleanup_ (replayGuard_ (srv demo_paired)) > 60)%Z) ∧
     signature_ok key (demo_nonce ++ timestampBytes demo_time) demo_signature) ∧
  ∃ g, srv (after (authorize demo_id demo_nonce demo_time demo_signature) demo_paired) =
    set_replayGuard g (srv demo_paired).
Proof.
  apply (authorize_decides demo_id demo_nonce demo_time demo_signature demo_paired true [] _).
  exact demo_authorize_run.
Defined.

Lemma authorization_without_challenge_witness :
  ∃ s', authorize demo_id demo_nonce demo_time demo_signature demo_paired = Some ((true, []), s').
Proof.
  apply (authorization_without_challenge demo_id demo_signing_key).
  - exact demo_pairedKey.
  - discriminate.
  - rewrite demo_reading. unfold demo_time. lia.
  - apply (bool_decide_unpack _). vm_compute. exact I.
  - apply (bool_decide_unpack _). vm_compute. exact I.
  - exact demo_signature_ok.
Defined.

Lemma rejected_signature_burns_nonce_witness :
  signature_ok demo_signing_key (demo_nonce ++ timestampBytes demo_time) demo_signature ∧ false = false.
Proof.
  split; [exact demo_signature_ok|]. apply (rejected_signature_burns_nonce demo_id demo_id demo_nonce demo_time (replicate 64 nul)
    demo_signature demo_cleaned false (QStringLiteral "signature verification failed") demo_refused
    false [] demo_refused_again).
  - intros n. rewrite demo_cleaned_reading, demo_cleaned_last. lia.
  - exists demo_signing_key. vm_eq.
  - discriminate.
  - rewrite demo_cleaned_reading. unfold demo_time. lia.
  - exact demo_refused_run.
  - exact demo_refused_again_run.
Defined.
