(* ===== verification/ServerHistory.v ===== *)
(** * What the server did

    The history of a run of [Server]: every call of [processLine] and every other
    operation, with the states before and after it, in their order ([served]).
    [deed] says what such an item did to the outside: which code it made, which
    device it paired with which key and code, which device it authorized on which
    message.  It is computed from the request the server received and from what the
    server then reported, so that a theorem about the deeds of a history is one about
    the requests themselves. *)
From stdpp Require Import base gmap sets list strings relations.
From Stdlib Require Import ZArith Lia.
From S2P Require Import Prelude Qt World Crypto Reference CryptoTheorems ReplayGuard ReplayTheorems Server Scenario ServerLemmas ServerStream ServerInvariant ServerPairing ServerAuth.

#[export] Instance Signal_eq_dec : EqDecision Signal.
Proof. solve_decision. Defined.
#[export] Instance Event_eq_dec : EqDecision Event.
Proof. solve_decision. Defined.

Definition device_prefix : QString := QStringLiteral "device ".

(** The log line of an authorization. *)
Definition authorized_text (id : QString) : QString := device_prefix ++ id ++ QStringLiteral " authorized".

Inductive Deed : Type :=
  | Issued (code : QString) (made : Z)
  | Enrolled (id : QString) (key : QByteArray) (code : QString)
  | Granted (id : QString) (nonce : QByteArray) (timestamp : Z) (signature : QByteArray).

Section History.
Context `{Q : QtCore} `{O : OpenSSL}.
Implicit Types (s : Sys).

(** ** Items *)

Inductive Item : Type :=
  | Line (line : QByteArray) (before after : Sys)   (* a call of [processLine] *)
  | Operation (before after : Sys).                 (* a call of anything but [readClient] *)

Definition before (i : Item) : Sys := match i with Line _ b _ | Operation b _ => b end.
Definition afterwards (i : Item) : Sys := match i with Line _ _ a | Operation _ a => a end.

(** What was reported in between. *)
Definition said (s s' : Sys) : list Event := drop (length (trace (wrld s))) (trace (wrld s')).

(** A [pair] request enrolls the device it names, under the key and with the code it presents,
    if the device is then reported as connected. *)
Definition pair_deed (request : QJsonObject) (s s' : Sys) : option Deed :=
  let id := field request "device_id" in
  if bool_decide (Emit (deviceChanged id true) ∈ said s s')
  then Some (Enrolled id (hexField request "public_key") (field request "pairing_code")) else None.

(** Any other request is opened as the server opens it; a [verify] request inside is granted if
    the authorization of its device is then logged. *)
Definition secure_deed (request : QJsonObject) (s s' : Sys) : option Deed :=
  match decryptRequest request s with
  | Some (inr (id, decrypted), _) =>
      if bool_decide (field decrypted "type" = QStringLiteral "verify")
         && bool_decide (Emit (logMessage (authorized_text id)) ∈ said s s')
      then Some (Granted id (hexField decrypted "nonce")
                   (toLongLong (value decrypted (QStringLiteral "timestamp"))) (hexField decrypted "signature"))
      else None
  | _ => None
  end.

(** Outside of [processLine] a random number is drawn exactly for a new code. *)
Definition deed (i : Item) : option Deed :=
  match i with
  | Line line s s' =>
      match fromJson line with
      | Some (DocObject request) =>
          if bool_decide (field request "type" = QStringLiteral "pair")
          then pair_deed request s s' else secure_deed request s s'
      | _ => None
      end
  | Operation s s' =>
      if draws (wrld s) <? draws (wrld s') then Some (Issued (pairingCode_ (srv s')) (pairingCreatedAt_ (srv s')))
      else None
  end.

(** ** Histories *)

(** The lines [processBuffer] handles, with the states around each. *)
Fixpoint lines_handled (fuel : nat) (socket : QTcpSocket) (s : Sys) : list Item :=
  match fuel with
  | 0 => []
  | S fuel =>
      let buffer := bufferOf socket s in
      let end_ := int_of_qsizetype (indexOf newline buffer) in
      if bool_decide (end_ >= 0)%Z then
        let line := trimmed (take (Z.to_nat end_) buffer) in
        let s := set_buffer socket (drop (Z.to_nat (end_ + 1)) buffer) s in
        if isEmpty line then lines_handled fuel socket s
        else
          match processLine socket line s with
          | Some (_, s') => Line line s s' :: lines_handled fuel socket s'
          | None => []
          end
      else []
  end.

Definition lines_of (sender : option QTcpSocket) (arrived : QByteArray) (s : Sys) : list Item :=
  match sender with
  | None => []
  | Some socket =>
      let buffer := bufferOf socket s ++ arrived in
      lines_handled (S (length buffer)) socket (set_buffer socket buffer s)
  end.

(** [server_step] with what it did. *)
Inductive stepped : list Item → Sys → Sys → Prop :=
  | stepped_start net port b s s' :
      (0 <= port < 2 ^ 16)%Z → start net port s = Some (b, s') → stepped [Operation s s'] s s'
  | stepped_stop closes_now s s' : stop closes_now s = Some (tt, s') → stepped [Operation s s'] s s'
  | stepped_pairingPayload addresses host payload s s' :
      pairingPayload addresses host s = Some (payload, s') → stepped [Operation s s'] s s'
  | stepped_newConnection pending s s' :
      acceptConnections pending s = Some (tt, s') → stepped [Operation s s'] s s'
  | stepped_readyRead sender arrived s s' :
      readClient sender arrived s = Some (tt, s') → stepped (lines_of sender arrived s) s s'
  | stepped_disconnected sender s s' : clientDisconnected sender s = Some (tt, s') → stepped [Operation s s'] s s'
  | stepped_datagrams pending s s' : readDatagrams pending s = Some (tt, s') → stepped [Operation s s'] s s'
  | stepped_timeout s s' :
      is_Some (discoveryTimer_ (srv s)) → broadcastDiscovery s = Some (tt, s') → stepped [Operation s s'] s s'.

(** The items of a whole run, in their order. *)
Inductive served : Sys → list Item → Sys → Prop :=
  | served_nil s : served s [] s
  | served_step items1 items2 s s1 s' : stepped items1 s s1 → served s1 items2 s' → served s (items1 ++ items2) s'.

Lemma stepped_step items s s' : stepped items s s' → server_step s s'.
Proof.
  intros [].
  - by eapply step_start.
  - by eapply step_stop.
  - by eapply step_pairingPayload.
  - by eapply step_newConnection.
  - by eapply step_readyRead.
  - by eapply step_disconnected.
  - by eapply step_datagrams.
  - by eapply step_timeout.
Qed.

Lemma step_stepped s s' : server_step s s' → ∃ items, stepped items s s'.
Proof.
  intros []; eexists.
  - by eapply stepped_start.
  - by eapply stepped_stop.
  - by eapply stepped_pairingPayload.
  - by eapply stepped_newConnection.
  - by eapply stepped_readyRead.
  - by eapply stepped_disconnected.
  - by eapply stepped_datagrams.
  - by eapply stepped_timeout.
Qed.

(** Histories are the runs of the server, labelled. *)
Lemma served_iff s s' : (∃ items, served s items s') ↔ rtc server_step s s'.
Proof.
  split.
  - intros [items H]. induction H as [|? ? ? ? ? H _ IH]; [done|]. eapply rtc_l; [by eapply stepped_step|done].
  - intros H. induction H as [s|s s1 s' H _ [items2 IH]]; [by exists []; constructor|].
    apply step_stepped in H as [items1 H]. exists (items1 ++ items2). by eapply served_step.
Qed.

(** ** Facts about items *)

(** [id] was paired last under [key]. *)
Definition last_enrolled (id : QString) (key : QByteArray) (items : list Item) : Prop :=
  ∃ items1 i code items2, items = items1 ++ i :: items2 ∧ deed i = Some (Enrolled id key code) ∧
    Forall (λ i, ∀ key code, deed i ≠ Some (Enrolled id key code)) items2.

(** The deed makes or uses up a code. *)
Definition takes_code (d : Deed) : Prop := match d with Issued _ _ | Enrolled _ _ _ => True | Granted _ _ _ _ => False end.

(** [d] grants the message [nonce], [timestamp]. *)
Definition grants (nonce : QByteArray) (timestamp : Z) (d : Deed) : bool :=
  match d with Granted _ n t _ => bool_decide (n = nonce ∧ t = timestamp) | _ => false end.

(** How many requests with this nonce and time stamp were authorized, for whatever device. *)
Definition times_granted (nonce : QByteArray) (timestamp : Z) (items : list Item) : nat :=
  length (filter (λ d, grants nonce timestamp d = true) (omap deed items)).

(** During a call of [processLine] the clock moves at most one second. *)
Definition unhurried (i : Item) : Prop :=
  match i with
  | Line _ s s' => ∀ m n, clock_reads (wrld s) ≤ m ≤ n → n < clock_reads (wrld s') →
      (clock (wrld s) n <= clock (wrld s) m + 1)%Z
  | Operation _ _ => True
  end.

(** The clock showed [t] while the item ran. *)
Definition shown_during (i : Item) (t : Z) : Prop :=
  ∃ n, clock_reads (wrld (before i)) ≤ n < clock_reads (wrld (afterwards i)) ∧ t = clock (wrld (before i)) n.

(** What a history owes for an authorization of [id]: a line that presented a signature over a
    nonce and a time stamp which the clock then confirmed, valid under the key [id] was paired
    with last. *)
Definition vouched (id : QString) (items : list Item) : Prop :=
  ∃ items1 i items2 key nonce ts signature now,
    items = items1 ++ i :: items2 ∧ deed i = Some (Granted id nonce ts signature) ∧
    last_enrolled id key items1 ∧ signature_ok key (nonce ++ timestampBytes ts) signature ∧
    nonce ≠ [] ∧ shown_during i now ∧ (Z.abs (ts - now) <= 30)%Z.
End History.
