(* ===== verification/ServerSession.v ===== *)
(** * Sessions: the secure envelope in both directions

    What [encryptedResponse] writes and [decryptRequest] reads, which requests
    can have an effect at all, the message a device signs, and a complete honest
    session from the challenge to the authorization. *)
From stdpp Require Import base gmap sets list strings.
From Stdlib Require Import ZArith Lia.
From S2P Require Import Prelude Qt World Crypto Reference CryptoTheorems ReplayGuard ReplayTheorems Server Scenario ServerLemmas ServerInvariant ServerPairing ServerAuth.

(** ** The signed message *)

Definition big_endian (l : list byte) : Z := foldl (λ acc b, 256 * acc + Z_of_byte b)%Z 0%Z l.

Lemma timestampBytes_value timestamp : big_endian (timestampBytes timestamp) = (timestamp mod 2 ^ 64)%Z.
Proof.
  assert (E : ∀ k, (0 <= k)%Z →
    Z_of_byte (byte_of_Z (Z.land (Z.shiftr timestamp k) 0xff)) = (timestamp / 2 ^ k mod 256)%Z).
  { intros k Hk. rewrite Z_of_byte_of_Z. change 255%Z with (Z.ones 8).
    rewrite Z.land_ones, Z.shiftr_div_pow2 by lia. change (2 ^ 8)%Z with 256%Z.
    apply Z.mod_mod. lia. }
  unfold timestampBytes, big_endian. cbn [fmap list_fmap foldl]. rewrite !E by lia.
  change (2 ^ (7 * 8))%Z with (2 ^ 56)%Z. change (2 ^ (0 * 8))%Z with 1%Z.
  cbn [Z.mul Pos.mul Pos.add]. Z.div_mod_to_equations. lia.
Qed.

Lemma swrap_mod w z : (0 < w)%Z → swrap w (z mod 2 ^ w) = swrap w z.
Proof. intros Hw. unfold swrap. by rewrite Zplus_mod_idemp_l. Qed.

Lemma timestampBytes_decode timestamp :
  in_range 64 timestamp → swrap 64 (big_endian (timestampBytes timestamp)) = timestamp.
Proof. intros H. rewrite timestampBytes_value, swrap_mod by lia. by apply swrap_id. Qed.

(** The signed message determines the nonce and the time stamp (unlike the token of the
    replay guard): the eight bytes at its end are the big-endian two's complement of the time
    stamp, and what precedes them is the nonce. *)
Theorem signed_message_injective nonce1 nonce2 t1 t2 :
  in_range 64 t1 → in_range 64 t2 →
  nonce1 ++ timestampBytes t1 = nonce2 ++ timestampBytes t2 → nonce1 = nonce2 ∧ t1 = t2.
Proof.
  intros H1 H2 [-> E]%app_inj_2; [|done]. split; [done|].
  rewrite <- (timestampBytes_decode t1), <- (timestampBytes_decode t2) by done. by rewrite E.
Qed.

Lemma signed_message_injective_witness : demo_nonce = demo_nonce ∧ demo_time = demo_time.
Proof.
  apply (signed_message_injective demo_nonce demo_nonce demo_time demo_time);
    [unfold in_range, demo_time; lia|unfold in_range, demo_time; lia|reflexivity].
Defined.

(** ** Envelopes *)

Section Envelopes.
Context `{Q : QtCore} `{O : OpenSSL}.
Implicit Types (s : Sys) (w : World).

Definition secure_envelope (id : QString) (nonce ct t : QByteArray) : QJsonObject :=
  json [("type", JString (QStringLiteral "secure"));
        ("device_id", JString id);
        ("nonce", JString (fromLatin1 (toHex nonce)));
        ("ciphertext", JString (fromLatin1 (toHex ct)));
        ("tag", JString (fromLatin1 (toHex t)))].

(** The envelope a holder of [key] writes around [payload]. *)
Definition seal (id : QString) (key nonce : QByteArray) (payload : QJsonObject) : option QJsonObject :=
  '(ct, t) ← gcm_seal key nonce (toUtf8 id) (toJson payload);
  Some (secure_envelope id nonce ct t).

(** The bytes an envelope carries for [id] under [key], if it is authentic. *)
Definition authentic (envelope : QJsonObject) (id : QString) (key : QByteArray) : option QByteArray :=
  gcm_open key (gcm_iv (hexField envelope "nonce")) (toUtf8 id)
    (hexField envelope "ciphertext") (hexField envelope "tag").

(** The object a holder of [key] reads from an envelope. *)
Definition unseal (envelope : QJsonObject) (id : QString) (key : QByteArray) : option QJsonObject :=
  plaintext ← authentic envelope id key;
  document ← fromJson plaintext;
  match document with DocObject o => Some o | _ => None end.

Context {QL : QtLaws Q} {OS : OpenSSLSizes O}.

Lemma gcm_iv_exact nonce : length nonce = 12 → gcm_iv nonce = nonce.
Proof. intros H. rewrite <- (app_nil_r nonce) at 1. by apply gcm_iv_prefix. Qed.

Lemma secure_envelope_fields id nonce ct t :
  field (secure_envelope id nonce ct t) "type" = QStringLiteral "secure" ∧
  field (secure_envelope id nonce ct t) "device_id" = id ∧
  hexField (secure_envelope id nonce ct t) "nonce" = nonce ∧
  hexField (secure_envelope id nonce ct t) "ciphertext" = ct ∧
  hexField (secure_envelope id nonce ct t) "tag" = t.
Proof. unfold secure_envelope. split_and!; json_field; by rewrite ?fromHex_toHex. Qed.

(** Whoever holds the key reads back what was sealed. *)
Lemma unseal_seal {GC : GcmCorrect O} id key nonce payload envelope :
  length key = 32 → length nonce = 12 → plain_object payload →
  seal id key nonce payload = Some envelope → unseal envelope id key = Some payload.
Proof.
  intros Hk Hn Hp Hs. unfold seal in Hs.
  destruct (gcm_seal _ _ _ _) as [[ct t]|] eqn:E; simplify_eq/=.
  destruct (secure_envelope_fields id nonce ct t) as (_ & _ & E1 & E2 & E3).
  unfold unseal, authentic. rewrite E1, E2, E3, gcm_iv_exact by done.
  rewrite (gcm_open_seal _ _ _ _ _ _ Hk Hn E). simpl. by rewrite fromJson_toJson.
Qed.

(** ** Sending *)

Lemma encryptedResponse_run id payload key s :
  sessionKeys_ (srv s) !! id = Some key → length key = 32 →
  encryptedResponse id payload s =
    Some (default (errorResponse (QStringLiteral "AES-256-GCM encryption failed"))
            (seal id key (envelope_nonce (wrld s)) payload),
          mkSys (srv s) (drawn 2 (wrld s))).
Proof.
  intros Hs Hk. unfold encryptedResponse.
  rewrite (in_world_bind _ _ _ _ _ (envelopeNonce_run (wrld s))), server_get_bind.
  cbn [srv]. rewrite Hs. cbn [default].
  assert (gcm_default_iv_length ≤ length (envelope_nonce (wrld s)) + 1) as Hn
    by (rewrite envelope_nonce_length; unfold gcm_default_iv_length; lia).
  rewrite (in_world_bind _ _ _ _ _ (encryptAes256Gcm_run key _ _ _ _ Hk Hn)).
  rewrite gcm_iv_exact by apply envelope_nonce_length. unfold seal.
  destruct (gcm_seal _ _ _ _) as [[ct t]|] eqn:E; [|done]. cbn [tag].
  by rewrite (gcm_seal_tag_length _ _ _ _ _ _ E).
Qed.

(** ** Receiving *)

(** The answers of [decryptRequest] to a request under the session key [key]. *)
Definition open_result (envelope : QJsonObject) (id : QString) (key : QByteArray)
    : QString + (QString * QJsonObject) :=
  match authentic envelope id key with
  | None => inl (QStringLiteral "AES-256-GCM authentication failed")
  | Some [] => inl []
  | Some plaintext =>
      match fromJson plaintext with
      | Some (DocObject payload) => inr (id, payload)
      | _ => inl (QStringLiteral "decrypted payload is invalid")
      end
  end.

Definition decrypt_result (envelope : QJsonObject) (s : Server) : QString + (QString * QJsonObject) :=
  let id := field envelope "device_id" in
  if decide (field envelope "type" = QStringLiteral "secure") then
    match sessionKeys_ s !! id with
    | None => inl (QStringLiteral "device is not paired")
    | Some key =>
        if decide (length key = 32 ∧ hexField envelope "nonce" ≠ [] ∧
                   length (hexField envelope "tag") = 16)
        then open_result envelope id key
        else inl (QStringLiteral "invalid AES-256-GCM input")
    end
  else inl (QStringLiteral "unencrypted requests are not accepted").

Lemma decryptRequest_run envelope s :
  hexField envelope "nonce" = [] ∨ nonce_readable (hexField envelope "nonce") →
  decryptRequest envelope s = Some (decrypt_result envelope (srv s), s).
Proof.
  intros Hn. unfold decryptRequest, decrypt_result.
  destruct (decide (field envelope "type" = QStringLiteral "secure")) as [Ht|Ht];
    [rewrite bool_decide_true by done|by rewrite bool_decide_false].
  cbn [negb]. rewrite server_get_bind.
  destruct (sessionKeys_ (srv s) !! field envelope "device_id") as [key|]; [|done].
  assert (∀ r : QString + (QString * QJsonObject), Some (r, mkSys (srv s) (wrld s)) = Some (r, s)) as Es
    by (by destruct s).
  destruct (decide _) as [(Hk & Hne & Htag)|Hno].
  - rewrite (in_world_bind _ _ _ _ _ (decryptAes256Gcm_run key _ (mkGcmCiphertext _ _) _ _ Hk
      ltac:(by destruct Hn) Htag)). cbn [ciphertext tag].
    unfold open_result, authentic. destruct (gcm_open _ _ _ _ _) as [[|b plaintext]|]; [apply Es| |apply Es].
    cbn [isEmpty bool_decide decide decide_rel]. change (isEmpty (b :: plaintext)) with false. cbn iota.
    destruct (fromJson _) as [[]|]; apply Es.
  - assert (length key ≠ 32 ∨ hexField envelope "nonce" = [] ∨ length (hexField envelope "tag") ≠ 16) as Hr.
    { destruct (decide (length key = 32)), (decide (hexField envelope "nonce" = [])); tauto. }
    rewrite (in_world_bind _ _ _ _ _ (decryptAes256Gcm_refused key _ (mkGcmCiphertext _ _) _ _ Hr)).
    apply Es.
Qed.

(** Every run that is defined, whatever the nonce. *)
Lemma decryptRequest_inv envelope s r s' :
  decryptRequest envelope s = Some (r, s') → s' = s ∧ (r = decrypt_result envelope (srv s) ∨ ∃ error, r = inl error).
Proof.
  intros H. destruct (decide (hexField envelope "nonce" = [] ∨ nonce_readable (hexField envelope "nonce"))) as [Hn|Hn].
  { rewrite decryptRequest_run in H by done. simplify_eq. split; [done|by left]. }
  unfold decryptRequest in H. destruct (negb _); [unfold mret, M_ret in H; simplify_eq; eauto|].
  rewrite server_get_bind in H. destruct (sessionKeys_ (srv s) !! _) as [key|];
    [|unfold mret, M_ret in H; simplify_eq; eauto].
  apply M_bind_Some in H as ([plaintext err] & s1 & [Hd Es]%in_world_inv & H).
  assert (plaintext = [] ∧ wrld s1 = wrld s) as [-> Ew].
  { assert (hexField envelope "nonce" ≠ []) as Hne by tauto. unfold nonce_readable in Hn.
    destruct (decide (length key = 32)) as [Hk|Hk], (decide (length (hexField envelope "tag") = 16)) as [Ht|Ht].
    2-4: rewrite decryptAes256Gcm_refused in Hd by (cbn [tag]; tauto); by simplify_eq.
    rewrite decryptAes256Gcm_short in Hd by (try done; lia).
    by destruct (evp_cipher_ctx_new ≫= evp_decrypt_init_cipher); simplify_eq. }
  assert (s1 = s) as -> by (destruct s, s1; cbn in *; congruence).
  change (isEmpty []) with true in H. unfold mret, M_ret in H. simplify_eq. eauto.
Qed.

Lemma decryptRequest_sealed {GC : GcmCorrect O} id key nonce payload envelope s :
  sessionKeys_ (srv s) !! id = Some key → length key = 32 → length nonce = 12 →
  plain_object payload → seal id key nonce payload = Some envelope →
  decryptRequest envelope s = Some (inr (id, payload), s).
Proof.
  intros Hs Hk Hn Hp Hseal. pose proof (unseal_seal _ _ _ _ _ Hk Hn Hp Hseal) as Hu.
  unfold seal in Hseal. destruct (gcm_seal _ _ _ _) as [[ct t]|] eqn:E; [|done].
  injection Hseal as <-. destruct (secure_envelope_fields id nonce ct t) as (E0 & E1 & E2 & E3 & E4).
  rewrite decryptRequest_run by (right; rewrite E2; unfold nonce_readable, gcm_default_iv_length; lia).
  do 2 f_equal. unfold decrypt_result. rewrite E0, E1, decide_True, Hs by done.
  rewrite decide_True; [|rewrite E2, E4; split_and!; [done|by intros ->|by eapply gcm_seal_tag_length]].
  unfold open_result. unfold unseal in Hu.
  destruct (authentic _ _ _) as [plaintext|] eqn:Ea; [|done]. cbn [mbind option_bind] in Hu.
  assert (plaintext = toJson payload) as ->.
  { unfold authentic in Ea. rewrite E2, E3, E4, gcm_iv_exact in Ea by done.
    rewrite (gcm_open_seal _ _ _ _ _ _ Hk Hn E) in Ea. by injection Ea. }
  rewrite fromJson_toJson by done. pose proof (toJson_nonempty payload). by destruct (toJson payload).
Qed.

(** ** What the envelope guarantees *)

(** C14: for a paired device the envelope is transparent in both directions: the server's
    response to the device carries exactly its payload and costs two random words, and any
    envelope the device seals under a 12-byte nonce is opened to its payload and identifier,
    without any change. *)
Theorem envelopes_roundtrip {GC : GcmCorrect O} id key payload s :
  (∀ iv aad plaintext, is_Some (gcm_seal key iv aad plaintext)) →
  sessionKeys_ (srv s) !! id = Some key → length key = 32 → plain_object payload →
  (∃ envelope, encryptedResponse id payload s = Some (envelope, mkSys (srv s) (drawn 2 (wrld s))) ∧
     unseal envelope id key = Some payload) ∧
  (∀ nonce, length nonce = 12 → ∃ envelope, seal id key nonce payload = Some envelope ∧
     decryptRequest envelope s = Some (inr (id, payload), s)).
Proof.
  intros Hgcm Hs Hk Hp. split.
  - rewrite (encryptedResponse_run id payload key) by done.
    destruct (Hgcm (envelope_nonce (wrld s)) (toUtf8 id) (toJson payload)) as [[ct t] E].
    assert (seal id key (envelope_nonce (wrld s)) payload =
      Some (secure_envelope id (envelope_nonce (wrld s)) ct t)) as Es by (unfold seal; by rewrite E).
    rewrite Es. eexists. split; [reflexivity|]. cbn [default].
    by eapply unseal_seal; [| |done|exact Es].
  - intros nonce Hn. destruct (Hgcm nonce (toUtf8 id) (toJson payload)) as [[ct t] E].
    assert (seal id key nonce payload = Some (secure_envelope id nonce ct t)) as Es
      by (unfold seal; by rewrite E).
    exists (secure_envelope id nonce ct t). split; [done|]. by eapply decryptRequest_sealed.
Qed.

Lemma encryptedResponse_srv id payload s r s' :
  encryptedResponse id payload s = Some (r, s') → srv s' = srv s.
Proof.
  revert r s'. change (wlp (encryptedResponse id payload) (λ _ s', srv s' = srv s) s).
  unfold encryptedResponse. srv_steps; done.
Qed.

Lemma decrypt_result_inr envelope (v : Server) id payload :
  decrypt_result envelope v = inr (id, payload) →
  field envelope "type" = QStringLiteral "secure" ∧ field envelope "device_id" = id ∧
  ∃ key plaintext, sessionKeys_ v !! id = Some key ∧
    authentic envelope id key = Some plaintext ∧ fromJson plaintext = Some (DocObject payload).
Proof.
  unfold decrypt_result. case_decide; [|done].
  destruct (sessionKeys_ v !! _) as [key|] eqn:Ek; [|done]. case_decide; [|done].
  unfold open_result. destruct (authentic _ _ _) as [[|b plaintext]|] eqn:Ea; [done| |done].
  destruct (fromJson _) as [[]|] eqn:Ej; intros; simplify_eq. eauto 10.
Qed.

Lemma handleVerify_srv id payload s r s' :
  handleVerify id payload s = Some (r, s') → ∃ g, srv s' = set_replayGuard g (srv s).
Proof.
  unfold handleVerify. intros ([authorized e] & s1 & Ha & H)%M_bind_Some.
  assert (∃ g, srv s1 = set_replayGuard g (srv s)) as [g Hg].
  { apply authorize_inv in Ha as [(_ & _ & ->)|(_ & _ & g & _ & _ & _ & Hg & _)]; [|by exists g].
    exists (replayGuard_ (srv s)). by destruct (srv s). }
  apply M_bind_Some in H as (response & s2 & Hr & H). apply encryptedResponse_srv in Hr.
  apply M_bind_Some in H as ([] & s3 & [_ Hs3]%in_world_inv & H).
  unfold mret, M_ret in H. simplify_eq. exists g. congruence.
Qed.

(** C4: a request that is not a pairing request has no effect at all, not even on the random
    generator or the log, unless it is a [secure] envelope that names a paired device and is
    authentic under the session key of that device; and then the only member of the server it
    can change is the replay guard, by a [verify] request.  This is said of every run that is
    defined, whatever the length of the nonce; a request with a nonce of one to ten bytes need
    not have one, also if it is not authentic ([short_nonce_request_undefined]). *)
Theorem secure_requests_authenticated request s r s' :
  handleSecure request s = Some (r, s') →
  (s' = s ∧ ∃ message, r = errorResponse message) ∨
  (field request "type" = QStringLiteral "secure" ∧
   ∃ key plaintext payload,
     sessionKeys_ (srv s) !! field request "device_id" = Some key ∧
     authentic request (field request "device_id") key = Some plaintext ∧
     fromJson plaintext = Some (DocObject payload) ∧
     (srv s' = srv s ∨
      field payload "type" = QStringLiteral "verify" ∧ ∃ g, srv s' = set_replayGuard g (srv s))).
Proof.
  unfold handleSecure. intros (result & s1 & Hd & H)%M_bind_Some.
  apply decryptRequest_inv in Hd as [-> Hd]. destruct result as [e|[id payload]].
  - unfold mret, M_ret in H. simplify_eq. left. eauto.
  - destruct Hd as [Ed|[? [=]]]. symmetry in Ed. apply decrypt_result_inr in Ed as (Ht & <- & key & plaintext & Hk & Ha & Hj). right.
    split; [done|]. exists key, plaintext, payload. split_and!; [done..|].
    repeat case_bool_decide.
    + left. unfold handleChallenge in H.
      apply M_bind_Some in H as (nonce & s1 & [_ E1]%in_world_inv & H).
      apply M_bind_Some in H as (t & s2 & [_ E2]%in_world_inv & H).
      apply encryptedResponse_srv in H. congruence.
    + right. split; [done|]. by eapply handleVerify_srv.
    + left. by eapply encryptedResponse_srv.
Qed.

(** C34: a nonce of one to ten bytes takes the server to undefined behaviour: the length check
    lets it pass and OpenSSL, which is never told the length, reads 12 bytes behind it.  The
    sender needs no key, only the identifier of a paired device. *)
Theorem short_nonce_request_undefined socket request key c c1 c2 s :
  plain_object request → field request "type" = QStringLiteral "secure" →
  sessionKeys_ (srv s) !! field request "device_id" = Some key → length key = 32 →
  length (hexField request "tag") = 16 → 0 < length (hexField request "nonce") < 11 →
  evp_cipher_ctx_new = Some c →
  evp_encrypt_init_cipher c = Some c1 → evp_decrypt_init_cipher c = Some c2 →
  processLine socket (toJson request) s = None.
Proof.
  intros Hp Ht Hs Hk Htag Hn Hc H1 H2. unfold processLine. rewrite fromJson_toJson by done.
  rewrite Ht, bool_decide_false by done. apply bind_stuck. apply bind_stuck.
  unfold decryptRequest. rewrite Ht, bool_decide_true by done. cbn [negb].
  rewrite server_get_bind, Hs. apply bind_stuck. unfold in_world, zoom.
  destruct (gcm_short_nonce_undefined key (hexField request "nonce") []
    (mkGcmCiphertext (hexField request "ciphertext") (hexField request "tag"))
    (toUtf8 (field request "device_id")) c c1 c2 (wrld s)) as [_ ->]; done.
Qed.

(** ** A complete session *)

Definition challenge_request : QJsonObject := json [("type", JString (QStringLiteral "challenge"))].

Definition verify_request (nonce : QByteArray) (timestamp : Z) (signature : QByteArray) : QJsonObject :=
  json [("type", JString (QStringLiteral "verify"));
        ("nonce", JString (fromLatin1 (toHex nonce)));
        ("timestamp", JInteger timestamp);
        ("signature", JString (fromLatin1 (toHex signature)))].

(** What a device answers to a challenge with its signing function. *)
Definition answer (sign : QByteArray → QByteArray) (challenge : QJsonObject) : QJsonObject :=
  let nonce := hexField challenge "nonce" in
  let timestamp := toLongLong (value challenge (QStringLiteral "timestamp")) in
  verify_request nonce timestamp (sign (nonce ++ timestampBytes timestamp)).

Definition challenge_nonce w : QByteArray :=
  quint64_bytes (random w 0) ++ quint64_bytes (random w 1) ++
  quint64_bytes (random w 2) ++ quint64_bytes (random w 3).

Definition challenge_object (nonce : QByteArray) (timestamp : Z) : QJsonObject :=
  json [("type", JString (QStringLiteral "challenge"));
        ("challenge_id", JString (fromLatin1 (toHex nonce)));
        ("nonce", JString (fromLatin1 (toHex nonce)));
        ("timestamp", JInteger timestamp)].

Definition authorized_object (authorized : bool) : QJsonObject :=
  json [("type", JString (QStringLiteral "authorized")); ("authorized", JBool authorized)].

Lemma handleChallenge_run id key s :
  sessionKeys_ (srv s) !! id = Some key → length key = 32 →
  handleChallenge id s =
    let w := advance 1 (drawn 4 (wrld s)) in
    Some (default (errorResponse (QStringLiteral "AES-256-GCM encryption failed"))
            (seal id key (envelope_nonce w)
               (challenge_object (challenge_nonce (wrld s)) (reading (wrld s) 0))),
          mkSys (srv s) (drawn 2 w)).
Proof.
  intros Hs Hk. unfold handleChallenge.
  rewrite (in_world_bind _ _ _ _ _ (challengeNonce_run (wrld s))), clock_bind.
  by rewrite (encryptedResponse_run id _ key).
Qed.

Lemma handleSecure_dispatch envelope id payload s :
  decryptRequest envelope s = Some (inr (id, payload), s) →
  handleSecure envelope s =
    (if bool_decide (field payload "type" = QStringLiteral "challenge") then handleChallenge id s
     else if bool_decide (field payload "type" = QStringLiteral "verify") then handleVerify id payload s
     else encryptedResponse id (errorResponse (QStringLiteral "unsupported request type")) s).
Proof.
  intros H. unfold handleSecure. rewrite (bind_run _ _ _ _ _ H).
  by repeat case_bool_decide.
Qed.

Lemma verify_request_fields nonce timestamp signature :
  in_range 64 timestamp →
  field (verify_request nonce timestamp signature) "type" = QStringLiteral "verify" ∧
  hexField (verify_request nonce timestamp signature) "nonce" = nonce ∧
  toLongLong (value (verify_request nonce timestamp signature) (QStringLiteral "timestamp")) = timestamp ∧
  hexField (verify_request nonce timestamp signature) "signature" = signature.
Proof.
  intros Hr. unfold verify_request.
  split_and!; json_field; by rewrite ?fromHex_toHex, ?toLongLong_integer.
Qed.

Lemma challenge_object_fields nonce timestamp :
  in_range 64 timestamp →
  hexField (challenge_object nonce timestamp) "nonce" = nonce ∧
  toLongLong (value (challenge_object nonce timestamp) (QStringLiteral "timestamp")) = timestamp.
Proof.
  intros Hr. unfold challenge_object.
  split_and!; json_field; by rewrite ?fromHex_toHex, ?toLongLong_integer.
Qed.

(** A [verify] request the server authorizes, and says so in its log. *)
Definition authorized_line (id : QString) : Event := Emit (logMessage (arg (QStringLiteral "device %1 authorized") id)).

Lemma handleVerify_authorized id key signingKey nonce timestamp signature s :
  (∀ iv aad plaintext, is_Some (gcm_seal key iv aad plaintext)) →
  sessionKeys_ (srv s) !! id = Some key → length key = 32 →
  pairedKeys_ (srv s) !! id = Some signingKey → nonce ≠ [] → in_range 64 timestamp →
  (Z.abs (timestamp - reading (wrld s) 0) <= 30)%Z →
  in_range 64 (reading (wrld s) 1 - lastCleanup_ (replayGuard_ (srv s))) →
  token nonce timestamp ∉ seen_ (replayGuard_ (srv s)) →
  signature_ok signingKey (nonce ++ timestampBytes timestamp) signature →
  ∃ nonce2 r s', handleVerify id (verify_request nonce timestamp signature) s = Some (r, s') ∧
    length nonce2 = 12 ∧ seal id key nonce2 (authorized_object true) = Some r ∧
    trace (wrld s') = trace (wrld s) ++ [authorized_line id].
Proof.
  intros Hgcm Hs Hk Hp Hn Hr Hf Hr2 Ht Hsig. unfold handleVerify.
  destruct (verify_request_fields nonce timestamp signature Hr) as (_ & -> & -> & ->).
  destruct (authorize_run id signingKey nonce timestamp signature s) as [g Ha]; try done.
  rewrite (bind_run _ _ _ _ _ Ha).
  set (s1 := mkSys _ _).
  pose proof (encryptedResponse_run id (authorized_object true) key s1 Hs Hk) as He.
  rewrite (bind_run _ _ _ _ _ He).
  exists (envelope_nonce (wrld s1)).
  destruct (Hgcm (envelope_nonce (wrld s1)) (toUtf8 id) (toJson (authorized_object true))) as [[ct t] E].
  assert (seal id key (envelope_nonce (wrld s1)) (authorized_object true) =
    Some (secure_envelope id (envelope_nonce (wrld s1)) ct t)) as -> by (unfold seal; by rewrite E).
  eexists _, _. split; [reflexivity|]. split_and!; [apply envelope_nonce_length|done..].
Qed.

Lemma seal_always id key nonce payload :
  (∀ iv aad plaintext, is_Some (gcm_seal key iv aad plaintext)) →
  is_Some (seal id key nonce payload).
Proof.
  intros Hgcm. unfold seal. destruct (Hgcm nonce (toUtf8 id) (toJson payload)) as [[ct t] ->]. by eexists.
Qed.

Lemma reading_drawn n k w : reading (drawn n w) k = reading w k.
Proof. done. Qed.

Definition after_challenge s : Sys := mkSys (srv s) (drawn 2 (advance 1 (drawn 4 (wrld s)))).

(** The first exchange of a session. *)
Lemma challenge_exchange {GC : GcmCorrect O} id key nonce e s :
  (∀ iv aad plaintext, is_Some (gcm_seal key iv aad plaintext)) →
  sessionKeys_ (srv s) !! id = Some key → length key = 32 → length nonce = 12 →
  in_range 64 (reading (wrld s) 0) → seal id key nonce challenge_request = Some e →
  ∃ r, handleSecure e s = Some (r, after_challenge s) ∧
    unseal r id key = Some (challenge_object (challenge_nonce (wrld s)) (reading (wrld s) 0)).
Proof.
  intros Hgcm Hs Hk Hn Hr He.
  assert (plain_object challenge_request) by (apply plain_json; plain_members; by apply Forall_nil).
  rewrite (handleSecure_dispatch e id challenge_request) by by eapply decryptRequest_sealed.
  rewrite bool_decide_true by done. rewrite (handleChallenge_run id key) by done. cbv zeta.
  set (challenge := challenge_object _ _).
  destruct (seal_always id key (envelope_nonce (advance 1 (drawn 4 (wrld s)))) challenge Hgcm) as [r Er].
  rewrite Er. exists r. split; [done|]. eapply unseal_seal; [done| | |exact Er].
  - apply envelope_nonce_length.
  - apply plain_json; plain_members; by apply Forall_nil.
Qed.

(** The second exchange. *)
Lemma verify_exchange {GC : GcmCorrect O} id key signingKey nonce timestamp signature nonce2 e s :
  (∀ iv aad plaintext, is_Some (gcm_seal key iv aad plaintext)) →
  sessionKeys_ (srv s) !! id = Some key → length key = 32 →
  pairedKeys_ (srv s) !! id = Some signingKey → nonce ≠ [] → in_range 64 timestamp →
  (Z.abs (timestamp - reading (wrld s) 0) <= 30)%Z →
  in_range 64 (reading (wrld s) 1 - lastCleanup_ (replayGuard_ (srv s))) →
  token nonce timestamp ∉ seen_ (replayGuard_ (srv s)) →
  signature_ok signingKey (nonce ++ timestampBytes timestamp) signature →
  length nonce2 = 12 → seal id key nonce2 (verify_request nonce timestamp signature) = Some e →
  ∃ r s', handleSecure e s = Some (r, s') ∧ unseal r id key = Some (authorized_object true) ∧
    trace (wrld s') = trace (wrld s) ++ [authorized_line id].
Proof.
  intros Hgcm Hs Hk Hp Hn Hr Hf Hr2 Ht Hsig Hn2 He.
  assert (plain_object (verify_request nonce timestamp signature))
    by (apply plain_json; plain_members; by apply Forall_nil).
  rewrite (handleSecure_dispatch e id (verify_request nonce timestamp signature))
    by by eapply decryptRequest_sealed.
  destruct (verify_request_fields nonce timestamp signature Hr) as (-> & _).
  rewrite bool_decide_false, bool_decide_true by done.
  destruct (handleVerify_authorized id key signingKey nonce timestamp signature s)
    as (nonce3 & r & s' & Hv & Hn3 & Hr' & Htr); try done.
  exists r, s'. split_and!; [done| |done]. eapply unseal_seal; [done|done| |exact Hr'].
  apply plain_json; plain_members; by apply Forall_nil.
Qed.

(** C1: a complete honest session succeeds: a paired device asks for a challenge, reads the
    nonce and time stamp out of the server's envelope, signs them and sends the answer; the
    server's reply then opens to [authorized: true].  What it takes: the server's clock does
    not jump by more than 30 seconds between challenge and answer, and the nonce it drew was
    not used before. *)
Theorem honest_session {GC : GcmCorrect O} id key signingKey sign nonce1 nonce2 s :
  (∀ iv aad plaintext, is_Some (gcm_seal key iv aad plaintext)) →
  (∀ message, signature_ok signingKey message (sign message)) →
  sessionKeys_ (srv s) !! id = Some key → length key = 32 →
  pairedKeys_ (srv s) !! id = Some signingKey → length nonce1 = 12 → length nonce2 = 12 →
  let t := reading (wrld s) 0 in
  in_range 64 t → (Z.abs (t - reading (wrld s) 1) <= 30)%Z →
  in_range 64 (reading (wrld s) 2 - lastCleanup_ (replayGuard_ (srv s))) →
  token (challenge_nonce (wrld s)) t ∉ seen_ (replayGuard_ (srv s)) →
  ∃ e1 r1 s1 challenge e2 r2 s2,
    seal id key nonce1 challenge_request = Some e1 ∧ handleSecure e1 s = Some (r1, s1) ∧
    unseal r1 id key = Some challenge ∧
    seal id key nonce2 (answer sign challenge) = Some e2 ∧ handleSecure e2 s1 = Some (r2, s2) ∧
    unseal r2 id key = Some (authorized_object true).
Proof.
  intros Hgcm Hsign Hs Hk Hp Hn1 Hn2 t Hr Hf Hr2 Ht.
  destruct (seal_always id key nonce1 challenge_request Hgcm) as [e1 He1].
  destruct (challenge_exchange id key nonce1 e1 s) as (r1 & Hr1 & Hu1); try done.
  fold t in Hu1. set (challenge := challenge_object _ _) in *.
  destruct (seal_always id key nonce2 (answer sign challenge) Hgcm) as [e2 He2].
  destruct (challenge_object_fields (challenge_nonce (wrld s)) t Hr) as [Ec1 Ec2].
  fold challenge in Ec1, Ec2.
  assert (Ha : answer sign challenge = verify_request (challenge_nonce (wrld s)) t
    (sign (challenge_nonce (wrld s) ++ timestampBytes t))) by (unfold answer; by rewrite Ec1, Ec2).
  rewrite Ha in He2.
  destruct (verify_exchange id key signingKey (challenge_nonce (wrld s)) t
    (sign (challenge_nonce (wrld s) ++ timestampBytes t)) nonce2 e2 (after_challenge s))
    as (r2 & s2 & Hr2' & Hu2 & _); try done; cbn [after_challenge wrld srv];
    rewrite ?reading_drawn, ?reading_advance, ?reading_drawn; try done.
  exists e1, r1, (after_challenge s), challenge, e2, r2, s2. rewrite Ha. done.
Qed.

End Envelopes.

(** *** Witnesses *)

Lemma ref_seal_always key iv aad plaintext : is_Some (gcm_seal key iv aad plaintext).
Proof.
  unfold gcm_seal. simpl. destruct (isEmpty aad), (isEmpty plaintext); simpl; by eexists.
Qed.

Lemma ref_signature_ok key message : length key = 32 → signature_ok key message (ref_sign key message).
Proof.
  intros Hk. split; [done|]. split; [apply checksum_bytes_length|].
  unfold ed25519_valid. simpl. by rewrite decide_True.
Qed.

Definition demo_nonce1 : QByteArray := bytes "first nonce!".
Definition demo_nonce2 : QByteArray := bytes "other nonce!".

Lemma demo_session : sessionKeys_ (srv demo_paired) !! demo_id = Some demo_secret.
Proof. vm_eq. Qed.

Lemma demo_secret_length : length demo_secret = 32.
Proof. vm_eq. Qed.

Lemma envelopes_roundtrip_witness :
  (∃ envelope, encryptedResponse demo_id challenge_request demo_paired =
     Some (envelope, mkSys (srv demo_paired) (drawn 2 (wrld demo_paired))) ∧
     unseal envelope demo_id demo_secret = Some challenge_request) ∧
  (∀ nonce, length nonce = 12 → ∃ envelope, seal demo_id demo_secret nonce challenge_request = Some envelope ∧
     decryptRequest envelope demo_paired = Some (inr (demo_id, challenge_request), demo_paired)).
Proof.
  apply (envelopes_roundtrip demo_id demo_secret challenge_request demo_paired).
  - apply ref_seal_always.
  - exact demo_session.
  - exact demo_secret_length.
  - apply (bool_decide_unpack _). vm_compute. exact I.
Defined.

(** An envelope the device seals, and one with a nonce of one byte. *)
Definition demo_envelope : QJsonObject :=
  default ∅ (seal demo_id demo_secret demo_nonce1 challenge_request).
Definition demo_short : QJsonObject := secure_envelope demo_id [nul] [] (replicate 16 nul).

Lemma demo_secure_run :
  handleSecure demo_envelope demo_paired =
    Some (result_of ∅ (handleSecure demo_envelope) demo_paired, after (handleSecure demo_envelope) demo_paired).
Proof.
  assert (is_some (handleSecure demo_envelope demo_paired) = true) as H by vm_eq.
  exact (run_defined ∅ (handleSecure demo_envelope) demo_paired H).
Qed.

Lemma secure_requests_authenticated_witness :
  (after (handleSecure demo_envelope) demo_paired = demo_paired ∧
     ∃ message, result_of ∅ (handleSecure demo_envelope) demo_paired = errorResponse message) ∨
  (field demo_envelope "type" = QStringLiteral "secure" ∧
   ∃ key plaintext payload,
     sessionKeys_ (srv demo_paired) !! field demo_envelope "device_id" = Some key ∧
     authentic demo_envelope (field demo_envelope "device_id") key = Some plaintext ∧
     fromJson plaintext = Some (DocObject payload) ∧
     (srv (after (handleSecure demo_envelope) demo_paired) = srv demo_paired ∨
      field payload "type" = QStringLiteral "verify" ∧
      ∃ g, srv (after (handleSecure demo_envelope) demo_paired) = set_replayGuard g (srv demo_paired))).
Proof.
  apply (secure_requests_authenticated demo_envelope demo_paired). exact demo_secure_run.
Defined.

Lemma short_nonce_request_undefined_witness :
  processLine demo_socket (toJson demo_short) demo_paired = None.
Proof.
  eapply (short_nonce_request_undefined demo_socket demo_short demo_secret).
  - apply (bool_decide_unpack _). vm_compute. exact I.
  - vm_compute. reflexivity.
  - vm_eq.
  - exact demo_secret_length.
  - vm_compute. reflexivity.
  - replace (length _) with 1 by vm_eq. lia.
  - reflexivity.
  - reflexivity.
  - reflexivity.
Defined.

Lemma honest_session_witness :
  ∃ e1 r1 s1 challenge e2 r2 s2,
    seal demo_id demo_secret demo_nonce1 challenge_request = Some e1 ∧
    handleSecure e1 demo_paired = Some (r1, s1) ∧
    unseal r1 demo_id demo_secret = Some challenge ∧
    seal demo_id demo_secret demo_nonce2 (answer (ref_sign demo_signing_key) challenge) = Some e2 ∧
    handleSecure e2 s1 = Some (r2, s2) ∧
    unseal r2 demo_id demo_secret = Some (authorized_object true).
Proof.
  apply (honest_session demo_id demo_secret demo_signing_key (ref_sign demo_signing_key)
    demo_nonce1 demo_nonce2 demo_paired).
  - apply ref_seal_always.
  - intros message. by apply ref_signature_ok.
  - exact demo_session.
  - exact demo_secret_length.
  - exact demo_pairedKey.
  - reflexivity.
  - reflexivity.
  - apply (bool_decide_unpack _). vm_compute. exact I.
  - rewrite !demo_reading. lia.
  - apply (bool_decide_unpack _). vm_compute. exact I.
  - apply (bool_decide_unpack _). vm_compute. exact I.
Defined.
