(* ===== verification/ServerProgress.v ===== *)
(** * Progress: every request is answered

    Under a sane clock, a line the server can receive never leads to undefined
    behaviour, except for the two inputs the other files single out (a nonce
    of one to ten bytes, and a time stamp near the lower end of the 64-bit
    range in an authentic [verify] request). *)
From stdpp Require Import base gmap sets list strings.
From Stdlib Require Import ZArith Lia.
From S2P Require Import Prelude Qt World Crypto Reference CryptoTheorems ReplayGuard ReplayTheorems Server Scenario ServerLemmas ServerStream ServerInvariant ServerPairing ServerAuth ServerSession.

Section Progress.
Context `{Q : QtCore} `{O : OpenSSL} {QL : QtLaws Q} {OS : OpenSSLSizes O}.
Implicit Types (s : Sys).

(** The computation has a defined result. *)
Definition runs {S A} (m : M S A) (s : S) : Prop := is_Some (m s).

Lemma runs_bind {S A B} (m : M S A) (k : A → M S B) (t : S) :
  runs m t → (∀ a t', m t = Some (a, t') → runs (k a) t') → runs (m ≫= k) t.
Proof.
  unfold runs. intros [[a t'] Hm] Hk. rewrite (bind_run _ _ _ _ _ Hm). by apply Hk.
Qed.

Lemma runs_in_world {A} (m : M World A) s : runs m (wrld s) → runs (in_world m) s.
Proof. intros [[a w'] Hm]. unfold runs, in_world, zoom. rewrite Hm. by eexists. Qed.

Lemma runs_if {S A} (b : bool) (m1 m2 : M S A) (t : S) :
  runs m1 t → runs m2 t → runs (if b then m1 else m2) t.
Proof. by destruct b. Qed.

(** A clock between 1970 and the year 146 billion, also behind the moments the server
    remembers. *)
Definition sane (t : Z) : Prop := (0 <= t < 2 ^ 62)%Z.
Definition clock_sane (s : Sys) : Prop :=
  (∀ n, sane (reading (wrld s) n)) ∧ sane (pairingCreatedAt_ (srv s)) ∧
  sane (lastCleanup_ (replayGuard_ (srv s))).

(** The two inputs that have no defined outcome. *)
Definition request_defined (request : QJsonObject) (s : Server) : Prop :=
  (hexField request "nonce" = [] ∨ nonce_readable (hexField request "nonce")) ∧
  ∀ id payload, decrypt_result request s = inr (id, payload) →
    (- 2 ^ 62 <= toLongLong (value payload (QStringLiteral "timestamp")))%Z.

Lemma sane_difference a b : sane a → sane b → in_range 64 (a - b).
Proof. unfold sane, in_range. lia. Qed.

Lemma x25519_runs sk pk w : runs (x25519SharedSecret sk pk) w.
Proof.
  unfold runs. destruct (decide (length sk = 32)), (decide (length pk = 32));
    [rewrite x25519SharedSecret_run by done| | |];
    rewrite ?x25519SharedSecret_refused by tauto; by eexists.
Qed.

Lemma verify_runs key message signature w : runs (verifyEd25519 key message signature) w.
Proof.
  unfold runs. destruct (decide (length key = 32)), (decide (length signature = 64));
    [rewrite verifyEd25519_run by done| | |];
    rewrite ?verifyEd25519_refused by tauto; by eexists.
Qed.

Lemma encryptedResponse_runs id payload s : runs (encryptedResponse id payload) s.
Proof.
  unfold encryptedResponse. apply runs_bind.
  { apply runs_in_world. unfold runs. rewrite envelopeNonce_run. by eexists. }
  intros nonce s1 [Hn _]%in_world_inv. rewrite envelopeNonce_run in Hn.
  assert (gcm_default_iv_length ≤ length nonce + 1 ∧ nonce ≠ []) as [Hl Hne].
  { injection Hn as <- _. split; [rewrite envelope_nonce_length; unfold gcm_default_iv_length; lia|done]. }
  apply runs_bind; [by eexists|]. intros key s2 _. apply runs_bind.
  { apply runs_in_world. unfold runs. destruct (decide (length key = 32)) as [Hk|Hk].
    - rewrite encryptAes256Gcm_run by done. by eexists.
    - rewrite encryptAes256Gcm_refused by tauto. by eexists. }
  intros [encrypted error] s3 _. apply runs_if; by eexists.
Qed.

Lemma handlePair_runs request s : clock_sane s → runs (handlePair request) s.
Proof.
  intros (Hclock & Hcreated & _). unfold handlePair. apply runs_bind; [by eexists|].
  intros code s1 [= <- <-]. apply runs_bind.
  - apply runs_if; [by eexists|]. unfold runs. rewrite clock_bind, server_get_bind.
    rewrite (defined_bind _ _ _ _ (checked_in _ _ (sane_difference _ _ (Hclock 0) Hcreated))). by eexists.
  - intros invalid s2 _. apply runs_if; [by eexists|]. apply runs_bind; [by eexists|].
    intros keys s3 _. apply runs_bind; [apply runs_in_world, x25519_runs|].
    intros [shared error] s4 _. apply runs_if; by eexists.
Qed.

Lemma accept_runs g nonce timestamp w :
  (∀ n, sane (reading w n)) → sane (lastCleanup_ g) → in_range 64 timestamp → (- 2 ^ 62 <= timestamp)%Z →
  runs (accept g nonce timestamp) w.
Proof.
  intros Hclock Hlast Hr Ht. unfold accept. apply runs_bind.
  - unfold runs. destruct (decide (nonce = [])) as [->|Hn]; [by eexists|].
    rewrite accept_precheck_run by done.
    rewrite isFreshTimestamp_defined; [by eexists|].
    pose proof (Hclock 0). unfold sane, in_range in *. lia.
  - intros fresh w1 Hp. apply runs_if; [by eexists|]. unfold runs.
    assert (∃ n, reading w1 0 = reading w n) as [n En].
    { unfold accept_precheck, isFreshTimestamp_now in Hp. destruct (isEmpty nonce); [injection Hp as _ <-; by exists 0|].
      rewrite (bind_run _ _ _ _ _ (currentSecsSinceEpoch_run w)) in Hp. unfold defined in Hp.
      destruct (isFreshTimestamp _ _); [|done]. injection Hp as _ <-. exists 1. apply reading_advance. }
    rewrite accept_locked_run; [by eexists|]. rewrite En. by apply sane_difference.
Qed.

Lemma handleVerify_runs id payload s :
  clock_sane s → (- 2 ^ 62 <= toLongLong (value payload (QStringLiteral "timestamp")))%Z →
  runs (handleVerify id payload) s.
Proof.
  intros (Hclock & _ & Hlast) Ht. unfold handleVerify. apply runs_bind.
  - unfold authorize. apply runs_bind; [by eexists|]. intros paired s1 [= <- <-].
    destruct (pairedKeys_ (srv s) !! id) as [key|]; [|by eexists].
    apply runs_bind; [by eexists|]. intros guard s2 [= <- <-].
    apply runs_bind; [apply runs_in_world, accept_runs; try done; apply toLongLong_range|].
    intros [accepted guard] s3 _. apply runs_bind; [by eexists|]. intros _ s4 _.
    apply runs_if; [by eexists|]. apply runs_bind; [apply runs_in_world, verify_runs|].
    intros [valid error] s5 _. by eexists.
  - intros [authorized error] s1 _. apply runs_bind; [apply encryptedResponse_runs|].
    intros response s2 _. by eexists.
Qed.

Lemma handleSecure_runs request s :
  clock_sane s → request_defined request (srv s) → runs (handleSecure request) s.
Proof.
  intros Hs (Hn & Ht). unfold handleSecure, runs.
  rewrite (bind_run _ _ _ _ _ (decryptRequest_run request s Hn)).
  destruct (decrypt_result request (srv s)) as [e|[id payload]] eqn:Ed; [by eexists|].
  specialize (Ht _ _ eq_refl). repeat case_bool_decide.
  - apply runs_bind; [apply runs_in_world; unfold runs; rewrite challengeNonce_run; by eexists|].
    intros nonce s1 _. apply runs_bind; [by eexists|]. intros t s2 _. apply encryptedResponse_runs.
  - by apply handleVerify_runs.
  - apply encryptedResponse_runs.
Qed.

(** C7: every line is answered exactly once: for any bytes whatsoever that a client sends as a
    line, the server reaches the end of [processLine], and the last thing it does is to write,
    to the socket the line came from, one response: compact JSON on one line, terminated by the
    only newline in it.  Excluded are the two inputs without a defined outcome
    ([request_defined]). *)
Theorem processLine_one_reply socket line s :
  clock_sane s →
  (∀ request, fromJson line = Some (DocObject request) → field request "type" ≠ QStringLiteral "pair" →
     request_defined request (srv s)) →
  ∃ s' evs response, processLine socket line s = Some (tt, s') ∧
    trace (wrld s') = trace (wrld s) ++ evs ++ [SocketWrite socket (toJson response ++ [newline])] ∧
    Forall (λ e, is_write e = false) evs ∧ newline ∉ toJson response.
Proof.
  intros Hs Hreq. assert (runs (processLine socket line) s) as [[[] s'] Hrun].
  { unfold processLine. destruct (fromJson line) as [[]|] eqn:Ej; try by eexists.
    apply runs_bind; [|intros response s1 _; by eexists].
    case_bool_decide; [by apply handlePair_runs|]. apply handleSecure_runs; [done|]. by apply Hreq. }
  destruct (processLine_output socket line s s' Hrun) as (evs & response & H). eauto 10.
Qed.
End Progress.

(** *** Witness *)

Lemma document_unique (x : option QJsonDocument) a b :
  x = Some (DocObject a) → x = Some (DocObject b) → a = b.
Proof. intros -> H. by injection H. Qed.

Lemma payload_unique (x : QString + (QString * QJsonObject)) i a j b :
  x = inr (i, a) → x = inr (j, b) → a = b.
Proof. intros -> H. by injection H. Qed.

Lemma processLine_one_reply_witness :
  ∃ s' evs response, processLine demo_socket (toJson demo_envelope) demo_paired = Some (tt, s') ∧
    trace (wrld s') = trace (wrld demo_paired) ++ evs ++ [SocketWrite demo_socket (toJson response ++ [newline])] ∧
    Forall (λ e, is_write e = false) evs ∧ newline ∉ toJson response.
Proof.
  apply (processLine_one_reply demo_socket (toJson demo_envelope) demo_paired).
  - unfold clock_sane, sane. split; [intros n; rewrite demo_reading; lia|].
    split; apply (bool_decide_unpack _); vm_compute; exact I.
  - intros request Hj _.
    assert (E : fromJson (toJson demo_envelope) = Some (DocObject demo_envelope)) by vm_eq.
    rewrite (document_unique _ _ _ Hj E).
    split; [right; apply (bool_decide_unpack _); vm_compute; exact I|].
    intros id payload Hd.
    assert (Ed : decrypt_result demo_envelope (srv demo_paired) = inr (demo_id, challenge_request)) by vm_eq.
    rewrite (payload_unique _ _ _ _ _ Hd Ed).
    assert (Et : toLongLong (value challenge_request (QStringLiteral "timestamp")) = 0%Z) by vm_eq.
    rewrite Et. lia.
Defined.
