(* ===== verification/ServerReplies.v ===== *)
(** * The vocabulary of the server

    Whatever clients send, the server writes lines of three kinds: an error, the
    answer to a pairing, and an envelope sealed under a session key around one of
    the answers to a device.  In particular [authorized] and [challenge] answers
    never leave in the clear. *)
From stdpp Require Import base gmap sets list strings relations.
From Stdlib Require Import ZArith Lia.
From S2P Require Import Prelude Qt World Crypto Reference CryptoTheorems ReplayGuard ReplayTheorems Server Scenario ServerLemmas ServerFrame ServerStream ServerInvariant ServerPairing ServerAuth ServerSession.

Section Replies.
Context `{Q : QtCore} `{O : OpenSSL}.
Implicit Types (s : Sys).

(** The answers to a device. *)
Inductive answer_payload : QJsonObject → Prop :=
  | payload_challenge nonce timestamp : length nonce = 32 → answer_payload (challenge_object nonce timestamp)
  | payload_authorized b : answer_payload (authorized_object b)
  | payload_unsupported : answer_payload (errorResponse (QStringLiteral "unsupported request type")).

Inductive response_ok (pc : QByteArray) : QJsonObject → Prop :=
  | response_error message : response_ok pc (errorResponse message)
  | response_paired v : pcId_ v = pc → response_ok pc (pairedResponse v)
  | response_secure id key nonce payload o :
      length key = 32 → length nonce = 12 → answer_payload payload →
      seal id key nonce payload = Some o → response_ok pc o.

(** What an event may write to a socket. *)
Definition well_typed (pc : QByteArray) (e : Event) : Prop :=
  match e with
  | SocketWrite _ data => ∃ o, data = toJson o ++ [newline] ∧ response_ok pc o
  | _ => True
  end.

Context (pc : QByteArray).

(** [m] keeps the identity [pc], and what it adds to the trace is well typed. *)
Definition typed {A} (m : M Sys A) : Prop :=
  ∀ s, pcId_ (srv s) = pc → wlp m (λ _ s', pcId_ (srv s') = pc ∧
    ∃ evs, trace (wrld s') = trace (wrld s) ++ evs ∧ Forall (well_typed pc) evs) s.

Lemma typed_still {A} (m : M Sys A) :
  (∀ s, wlp m (λ _ s', pcId_ (srv s') = pcId_ (srv s) ∧ trace (wrld s') = trace (wrld s)) s) → typed m.
Proof.
  intros Hm s Hs. eapply wlp_mono; [|apply Hm]. intros a s' [E1 E2]. split; [congruence|].
  exists []. rewrite app_nil_r. by split.
Qed.

Lemma typed_ret {A} (a : A) : typed (mret a).
Proof. apply typed_still. intros s. by apply wlp_ret. Qed.

Lemma typed_get {A} (f : Server → A) : typed (server_get f).
Proof. apply typed_still. intros s. by apply wlp_server_get. Qed.

Lemma typed_set f : (∀ v, pcId_ (f v) = pcId_ v) → typed (server_set f).
Proof. intros Hf. apply typed_still. intros s. apply wlp_server_set. cbn. by rewrite Hf. Qed.

Lemma typed_defined {A} (o : option A) : typed (defined o).
Proof. apply typed_still. intros s. by apply wlp_defined. Qed.

Lemma typed_undefined {A} : typed (@undefined Sys A).
Proof. by intros s Hs a s' H. Qed.

Lemma typed_quiet {A} (m : M World A) : quiet m → typed (in_world m).
Proof. intros Hm. apply typed_still. intros s. apply wlp_in_world. intros a w' H. by destruct (Hm _ _ _ H). Qed.

Lemma typed_bind {A B} (m : M Sys A) (k : A → M Sys B) : typed m → (∀ a, typed (k a)) → typed (m ≫= k).
Proof.
  intros Hm Hk s Hs. apply wlp_bind. eapply wlp_mono; [|by apply Hm]. intros a s1 (Hs1 & evs1 & E1 & H1).
  eapply wlp_mono; [|by apply Hk]. intros b s2 (Hs2 & evs2 & E2 & H2). split; [done|]. exists (evs1 ++ evs2).
  rewrite E2, E1, app_assoc. split; [done|]. by apply Forall_app.
Qed.

Lemma typed_perform e : well_typed pc e → typed (in_world (perform e)).
Proof. intros He s Hs. apply wlp_in_world. intros [] w' [= <-]. split; [done|]. exists [e]. by repeat constructor. Qed.

Lemma typed_for_each {B} (l : list B) (body : B → M Sys unit) : (∀ x, typed (body x)) → typed (for_each l body).
Proof. intros Hb. induction l; cbn [for_each]; [apply typed_ret|]. by apply typed_bind. Qed.

(** A handler that writes nothing, and the reply it computes. *)
Lemma typed_reply (socket : QTcpSocket) (m : M Sys QJsonObject) :
  silent m → unchanged pcId_ m → (∀ s, pcId_ (srv s) = pc → wlp m (λ r _, response_ok pc r) s) →
  typed (response ← m; reply socket response).
Proof.
  intros Hsil Hpc Hm s Hs. apply wlp_bind. intros r s1 Hrun.
  destruct (Hsil _ _ _ Hrun) as (evs & E & Hevs). pose proof (Hpc _ _ _ Hrun) as E1.
  pose proof (Hm _ Hs _ _ Hrun) as Hr. apply wlp_in_world. intros [] w' [= <-]. cbn. split; [congruence|].
  exists (evs ++ [SocketWrite socket (toJson r ++ [newline])]). rewrite E, app_assoc. split; [done|].
  apply Forall_app. split; [|repeat constructor; by exists r].
  eapply Forall_impl; [exact Hevs|]. by intros [].
Qed.
End Replies.

Ltac typed_step :=
  lazymatch goal with
  | |- typed _ (_ ≫= _) => apply typed_bind; [|intros]
  | |- typed _ (mret _) => apply typed_ret
  | |- typed _ (server_get _) => apply typed_get
  | |- typed _ (server_set _) => apply typed_set; by intros []
  | |- typed _ (defined _) => apply typed_defined
  | |- typed _ undefined => apply typed_undefined
  | |- typed _ (in_world currentSecsSinceEpoch) => apply typed_quiet, quiet_clock
  | |- typed _ (in_world newPairingCode) => apply typed_quiet, quiet_bind; [apply quiet_generate64|intros; apply quiet_ret]
  | |- typed _ (in_world (emit _)) => by apply typed_perform
  | |- typed _ (in_world (perform _)) => by apply typed_perform
  | |- typed _ (for_each _ _) => apply typed_for_each; intros
  | |- typed _ (match ?x with _ => _ end) => destruct x
  end.
Ltac typed := repeat (typed_step; cbn beta iota zeta).

Section Responses.
Context `{Q : QtCore} `{O : OpenSSL} {QL : QtLaws Q} {OS : OpenSSLSizes O}.
Implicit Types (s : Sys) (pc : QByteArray).

Lemma encryptedResponse_typed pc id payload s :
  answer_payload payload → wlp (encryptedResponse id payload) (λ r _, response_ok pc r) s.
Proof.
  intros Hp. unfold encryptedResponse. apply wlp_bind, wlp_in_world. intros nonce w1 Hn.
  rewrite envelopeNonce_run in Hn. injection Hn as <- <-. apply wlp_bind, wlp_server_get, wlp_bind, wlp_in_world.
  cbn [srv wrld]. set (nonce := envelope_nonce (wrld s)).
  assert (length nonce = 12) as Hn by apply envelope_nonce_length.
  intros [encrypted error] w2 He. set (key := default [] _) in *.
  destruct (decide (length key = 32)) as [Hk|Hk].
  - rewrite encryptAes256Gcm_run in He by (rewrite ?Hn; unfold gcm_default_iv_length; lia).
    rewrite gcm_iv_exact in He by done.
    destruct (gcm_seal _ _ _ _) as [[ct t]|] eqn:Es; injection He as <- <- <-; cbn [tag].
    + rewrite (gcm_seal_tag_length _ _ _ _ _ _ Es). apply wlp_ret.
      eapply (response_secure _ id key nonce payload); try done. unfold seal. by rewrite Es.
    + apply wlp_ret. constructor.
  - rewrite encryptAes256Gcm_refused in He by tauto. injection He as <- <- <-. apply wlp_ret. constructor.
Qed.

Lemma handlePair_typed request s : wlp (handlePair request) (λ r _, response_ok (pcId_ (srv s)) r) s.
Proof.
  unfold handlePair. apply wlp_bind, wlp_server_get, wlp_bind.
  apply (wlp_mono _ (λ _ s1, srv s1 = srv s)).
  2: { destruct (_ || _); srv_steps; done. }
  intros [|] s1 E1; [apply wlp_ret; constructor|].
  apply wlp_bind, wlp_server_get, wlp_bind, wlp_in_world. intros [shared error] w2 _.
  destruct (negb _); srv_steps; [constructor|]. rewrite E1.
  apply (response_paired _ (srv s)). done.
Qed.

Lemma handleSecure_typed pc request s : wlp (handleSecure request) (λ r _, response_ok pc r) s.
Proof.
  unfold handleSecure. apply wlp_bind. intros [error|[id payload]] s1 _; [apply wlp_ret; constructor|].
  cbn beta iota zeta. destruct (bool_decide _).
  - unfold handleChallenge. apply wlp_bind, wlp_in_world. intros nonce w1 Hn.
    rewrite challengeNonce_run in Hn. injection Hn as <- <-.
    apply wlp_bind, wlp_in_world. intros t w2 _. by apply encryptedResponse_typed, payload_challenge.
  - destruct (bool_decide _); [|by apply encryptedResponse_typed, payload_unsupported].
    unfold handleVerify. apply wlp_bind. intros [b e] s2 _. apply wlp_bind.
    eapply wlp_mono; [|by apply (encryptedResponse_typed pc), payload_authorized].
    intros r s3 Hr. apply wlp_bind, wlp_in_world. intros [] w3 _. by apply wlp_ret.
Qed.

Lemma processLine_typed pc socket line : typed pc (processLine socket line).
Proof.
  unfold processLine. destruct (fromJson line) as [[|l|request]|].
  3: { apply typed_reply.
    - destruct (bool_decide _); [apply handlePair_silent|apply handleSecure_silent].
    - unfold handlePair, handleSecure, decryptRequest, handleChallenge, handleVerify, authorize, encryptedResponse.
      unchanged.
    - intros s <-. destruct (bool_decide _); [apply handlePair_typed|apply handleSecure_typed]. }
  all: apply typed_perform; eexists; split; [done|]; apply response_error.
Qed.

Lemma processBuffer_typed pc fuel socket : typed pc (processBuffer fuel socket).
Proof.
  induction fuel as [|fuel IH]; cbn [processBuffer]; [typed|].
  apply typed_bind; [typed|intros buffer]. destruct (bool_decide _); [|typed].
  apply typed_bind; [typed|intros n]. apply typed_bind; [typed|intros _].
  apply typed_bind; [destruct (isEmpty _); [typed|apply processLine_typed]|done].
Qed.

Lemma server_step_typed pc s s' :
  pcId_ (srv s) = pc → server_step s s' →
  pcId_ (srv s') = pc ∧ ∃ evs, trace (wrld s') = trace (wrld s) ++ evs ∧ Forall (well_typed pc) evs.
Proof.
  intros Hpc Hstep. destruct Hstep as
    [net p b s s' Hp Hr|cl s s' Hr|ad h pl s s' Hr|pe s s' Hr|se ar s s' Hr|se s s' Hr|pe s s' Hr|s s' _ Hr];
    match type of Hr with ?m s = Some _ => assert (typed pc m) as Hm; [|by apply (Hm s Hpc _ _ Hr)] end.
  - unfold start, broadcastDiscovery. typed.
  - unfold stop, clientDisconnected. typed.
  - unfold pairingPayload. typed.
  - unfold acceptConnections. typed.
  - unfold readClient. destruct se; [|typed]. do 2 (apply typed_bind; [typed|intros]). apply processBuffer_typed.
  - unfold clientDisconnected. typed.
  - unfold readDatagrams, broadcastDiscovery. typed.
  - unfold broadcastDiscovery. typed.
Qed.

(** The trace only grows, by well-typed events. *)
Lemma server_run_typed pc s s' :
  pcId_ (srv s) = pc → rtc server_step s s' →
  pcId_ (srv s') = pc ∧ ∃ evs, trace (wrld s') = trace (wrld s) ++ evs ∧ Forall (well_typed pc) evs.
Proof.
  intros Hpc Hsteps. induction Hsteps as [s|s s1 s' Hs _ IH].
  - split; [done|]. exists []. rewrite app_nil_r. by split.
  - destruct (server_step_typed pc s s1 Hpc Hs) as (Hpc1 & evs1 & E1 & H1).
    destruct (IH Hpc1) as (Hpc2 & evs2 & E2 & H2). split; [done|]. exists (evs1 ++ evs2).
    rewrite E2, E1, app_assoc. split; [done|]. by apply Forall_app.
Qed.

(** C12: Whatever happens to the server, every line it writes to a socket is the compact JSON of an
    error, of the answer to a pairing with its own identity, or of an envelope with a nonce of
    twelve bytes, sealed under a 32-byte key around a challenge, a decision or an error; decisions
    and challenges never leave in the clear. *)
Theorem replies_well_typed w v w' s' socket data :
  Server_new w = Some (v, w') → trace w = [] → rtc server_step (mkSys v w') s' →
  SocketWrite socket data ∈ trace (wrld s') →
  ∃ o, data = toJson o ++ [newline] ∧ response_ok (pcId_ v) o.
Proof.
  intros Hnew Hw Hsteps Hin. destruct (Server_new_trace _ _ _ Hnew) as [Et _].
  apply (server_run_typed (pcId_ v)) in Hsteps as (_ & evs & E & Ht); [|done].
  cbn [wrld] in E. rewrite E, Et, Hw in Hin.
  rewrite Forall_forall in Ht. exact (Ht _ Hin).
Qed.
End Responses.

(** *** Witness *)

(** What the server answers to a line that is not JSON. *)
Definition demo_hello : QByteArray := bytes "hello" ++ [newline].
Definition demo_answered : Sys := after (readClient (Some demo_socket) demo_hello) demo_accepted.
Strategy expand [demo_answered].

Lemma demo_hello_run : readClient (Some demo_socket) demo_hello demo_accepted = Some (tt, demo_answered).
Proof.
  assert (fst <$> readClient (Some demo_socket) demo_hello demo_accepted = Some tt) as H by vm_eq.
  exact (run_after tt (readClient (Some demo_socket) demo_hello) demo_accepted H).
Qed.

Definition demo_answer : QByteArray :=
  toJson (errorResponse (QStringLiteral "invalid JSON request")) ++ [newline].

Lemma demo_hello_answered : SocketWrite demo_socket demo_answer ∈ trace (wrld demo_answered).
Proof.
  apply list_elem_of_lookup. exists 7.
  assert (trace (wrld demo_answered) !! 7 = Some (SocketWrite demo_socket demo_answer)) as H by vm_eq. exact H.
Qed.

Lemma replies_well_typed_witness :
  ∃ o, demo_answer = toJson o ++ [newline] ∧ response_ok (pcId_ (srv demo_new)) o.
Proof.
  apply (replies_well_typed demo_world (srv demo_new) (wrld demo_new) demo_answered demo_socket).
  - exact demo_new_run.
  - reflexivity.
  - rewrite sys_eta. eapply rtc_l; [apply (step_start demo_net 43295 true _ demo_started); [lia|exact demo_start_run]|].
    eapply rtc_l; [apply (step_newConnection [(demo_socket, QStringLiteral "127.0.0.1")] _ demo_accepted); exact demo_accept_run|].
    eapply rtc_l; [eapply step_readyRead; exact demo_hello_run|]. apply rtc_refl.
  - exact demo_hello_answered.
Defined.
