(* ===== verification/Protocol.v ===== *)
(** * The protocol of the workstation, without the program

    What the server promises, as a small transition system: a one-time code, the
    registered keys, and the pairs of nonce and time stamp that are spent until
    the next cleanup.  [pstep] says which events may happen when; [prun] collects
    the events of a run.  The theorems here are about runs of this system only;
    [ServerRefinement] shows that every run of the server is one of them.

    [PairedWithoutCode] is a step the protocol should not have: after a pairing the
    server accepts a request without a code for the rest of the window.  It is
    kept apart, so that everything else is stated for the protocol as intended. *)
From stdpp Require Import base gmap sets list strings.
From Stdlib Require Import ZArith Lia.
From S2P Require Import Prelude Qt.

(** ** States and events *)

Record Protocol : Type := mkProtocol {
  p_code : option QString;                 (* the code, until it is used *)
  p_made : Z;                              (* when it was made *)
  p_keys : gmap QString QByteArray;
  p_sessions : gmap QString QByteArray;
  p_spent : gset (QByteArray * Z);         (* nonces and time stamps *)
  p_cleaned : Z;                           (* when [p_spent] was emptied *)
}.

(** An event carries the clock readings it rests on: a spending event the one that decides
    the freshness and the one that decides the cleanup. *)
Inductive PEvent : Type :=
  | NewCode (code : QString) (made : Z)
  | Paired (id : QString) (key : QByteArray) (code : QString) (now : Z)
  | PairedWithoutCode (id : QString) (key : QByteArray) (now : Z)
  | Authorized (id : QString) (key nonce : QByteArray) (timestamp : Z) (signature : QByteArray) (fresh locked : Z)
  | Refused (id : QString) (nonce : QByteArray) (timestamp fresh locked : Z).

(** The first and the last clock reading of an event. *)
Definition span (e : PEvent) : Z * Z :=
  match e with
  | NewCode _ t | Paired _ _ _ t | PairedWithoutCode _ _ t => (t, t)
  | Authorized _ _ _ _ _ t1 t2 | Refused _ _ _ t1 t2 => (t1, t2)
  end.

Definition initial_protocol : Protocol := mkProtocol None 0 ∅ ∅ ∅ 0.

Definition issue (code : QString) (made : Z) (a : Protocol) : Protocol :=
  mkProtocol (Some code) made (p_keys a) (p_sessions a) (p_spent a) (p_cleaned a).

Definition enroll (id : QString) (key secret : QByteArray) (a : Protocol) : Protocol :=
  mkProtocol None (p_made a) (<[id := key]> (p_keys a)) (<[id := secret]> (p_sessions a)) (p_spent a) (p_cleaned a).

(** The spent pairs are forgotten when the last time was more than 60 seconds ago. *)
Definition clean (now : Z) (a : Protocol) : Protocol :=
  if bool_decide (now - p_cleaned a > 60)%Z
  then mkProtocol (p_code a) (p_made a) (p_keys a) (p_sessions a) ∅ now else a.

Definition spend (nonce : QByteArray) (timestamp now : Z) (a : Protocol) : Protocol :=
  let a := clean now a in
  mkProtocol (p_code a) (p_made a) (p_keys a) (p_sessions a) ({[(nonce, timestamp)]} ∪ p_spent a) (p_cleaned a).

Section Protocol.
(** [valid key nonce timestamp signature] *)
Context (valid : QByteArray → QByteArray → Z → QByteArray → Prop).
Implicit Types (a : Protocol) (evs : list PEvent).

(** A pair may be spent: it is fresh at [fresh] and, after the cleanup due at [locked], not
    spent yet. *)
Definition spendable (nonce : QByteArray) (timestamp fresh locked : Z) a : Prop :=
  nonce ≠ [] ∧ (Z.abs (timestamp - fresh) <= 30)%Z ∧ (nonce, timestamp) ∉ p_spent (clean locked a).

(** What a device must present besides the code. *)
Definition enrollable (id : QString) (key secret : QByteArray) (now : Z) a : Prop :=
  id ≠ [] ∧ length key = 32 ∧ length secret = 32 ∧ (now - p_made a <= 300)%Z.

Inductive pstep a : PEvent → Protocol → Prop :=
  | step_NewCode code made : code ≠ [] → pstep a (NewCode code made) (issue code made a)
  | step_Paired id key secret code now :
      p_code a = Some code → enrollable id key secret now a →
      pstep a (Paired id key code now) (enroll id key secret a)
  | step_PairedWithoutCode id key secret now :
      p_code a = None → enrollable id key secret now a →
      pstep a (PairedWithoutCode id key now) (enroll id key secret a)
  | step_Authorized id key nonce timestamp signature fresh locked :
      p_keys a !! id = Some key → spendable nonce timestamp fresh locked a →
      valid key nonce timestamp signature →
      pstep a (Authorized id key nonce timestamp signature fresh locked) (spend nonce timestamp locked a)
  | step_Refused id nonce timestamp fresh locked :
      is_Some (p_keys a !! id) → spendable nonce timestamp fresh locked a →
      pstep a (Refused id nonce timestamp fresh locked) (spend nonce timestamp locked a).

Inductive prun a : list PEvent → Protocol → Prop :=
  | prun_nil : prun a [] a
  | prun_snoc evs e a1 a2 : prun a evs a1 → pstep a1 e a2 → prun a (evs ++ [e]) a2.

Lemma prun_one a e a' : pstep a e a' → prun a [e] a'.
Proof. intros H. apply (prun_snoc a [] e a a'); [constructor|done]. Qed.

Lemma prun_app a evs1 a1 evs2 a2 : prun a evs1 a1 → prun a1 evs2 a2 → prun a (evs1 ++ evs2) a2.
Proof.
  intros Hrun. induction 1 as [|evs e a2 a3 _ IH H]; [by rewrite app_nil_r|].
  rewrite app_assoc. by eapply prun_snoc.
Qed.

Lemma prun_app_inv a evs1 evs2 a2 : prun a (evs1 ++ evs2) a2 → ∃ a1, prun a evs1 a1 ∧ prun a1 evs2 a2.
Proof.
  induction evs2 as [|e evs2 IH] using rev_ind in a2 |- *; intros H.
  - rewrite app_nil_r in H. exists a2. split; [done|constructor].
  - rewrite app_assoc in H. inversion H as [E|evs' e' a1' a2' Hrun Hstep E].
    + destruct (evs1 ++ evs2); discriminate.
    + apply app_inj_tail in E as [-> ->]. apply IH in Hrun as (b & Hl & Hr).
      exists b. split; [done|]. by eapply prun_snoc.
Qed.

Lemma prun_split a evs1 e evs2 a2 :
  prun a (evs1 ++ e :: evs2) a2 → ∃ a1 a1', prun a evs1 a1 ∧ pstep a1 e a1' ∧ prun a1' evs2 a2.
Proof.
  intros (a1 & H1 & H2)%prun_app_inv. change (e :: evs2) with ([e] ++ evs2) in H2.
  apply prun_app_inv in H2 as (a1' & H2 & H3). exists a1, a1'. split_and!; [done| |done].
  inversion H2 as [|evs' e' b1 b2 Hrun Hstep E]. destruct evs' as [|? []]; simplify_eq/=.
  inversion Hrun as [|evs'' ? ? ? ? ? E]; [by subst|]. by destruct evs''.
Qed.

(** ** Who is registered *)

(** The event registers [id] with [key]. *)
Definition enrolls (e : PEvent) : option (QString * QByteArray) :=
  match e with
  | Paired id key _ _ | PairedWithoutCode id key _ => Some (id, key)
  | _ => None
  end.

(** The last event among [evs] that satisfies [P], and what follows it. *)
Definition last_such (P : PEvent → Prop) (e : PEvent) evs : Prop :=
  ∃ evs1 evs2, evs = evs1 ++ e :: evs2 ∧ P e ∧ Forall (λ e, ¬ P e) evs2.

Lemma last_such_here (P : PEvent → Prop) e evs : P e → last_such P e (evs ++ [e]).
Proof. intros H. by exists evs, []. Qed.

Lemma last_such_snoc (P : PEvent → Prop) e evs e' : ¬ P e' → last_such P e evs → last_such P e (evs ++ [e']).
Proof.
  intros H (evs1 & evs2 & -> & He & Hf). exists evs1, (evs2 ++ [e']). split_and!; [by rewrite <- app_assoc|done|].
  apply Forall_app. split; [done|by repeat constructor].
Qed.

Definition concerns (id : QString) (e : PEvent) : Prop := ∃ key, enrolls e = Some (id, key).

(** A registered key was registered by the last pairing of its device. *)
Lemma keys_enrolled evs a id key :
  prun initial_protocol evs a → p_keys a !! id = Some key →
  ∃ e, last_such (concerns id) e evs ∧ enrolls e = Some (id, key).
Proof.
  intros Hrun. induction Hrun as [|evs e a1 a2 Hrun IH Hstep].
  { cbn. by rewrite lookup_empty. }
  assert (∀ e', enrolls e' = None → p_keys a2 = p_keys a1 → p_keys a2 !! id = Some key →
    ∃ e0, last_such (concerns id) e0 (evs ++ [e']) ∧ enrolls e0 = Some (id, key)) as Hother.
  { intros e' He' -> Hk. destruct (IH Hk) as (e0 & H1 & H2). exists e0. split; [|done].
    apply last_such_snoc; [|done]. intros [k Hc]. congruence. }
  assert (∀ e' i k, enrolls e' = Some (i, k) → p_keys a2 = <[i := k]> (p_keys a1) → p_keys a2 !! id = Some key →
    ∃ e0, last_such (concerns id) e0 (evs ++ [e']) ∧ enrolls e0 = Some (id, key)) as Henroll.
  { intros e' i k He' -> Hk. destruct (decide (i = id)) as [->|Hi].
    - rewrite lookup_insert_eq in Hk. injection Hk as ->. exists e'. split; [|done].
      apply last_such_here. by eexists.
    - rewrite lookup_insert_ne in Hk by done. destruct (IH Hk) as (e0 & H1 & H2). exists e0. split; [|done].
      apply last_such_snoc; [|done]. intros [k' Hc]. congruence. }
  destruct Hstep; [by apply Hother|by eapply Henroll|by eapply Henroll| |];
    (apply Hother; [done|]); cbn; unfold clean; by case_bool_decide.
Qed.

(** Every authorization is earned: its signature is valid under the key with which the device
    was last paired before, for a fresh nonce and time stamp. *)
Lemma authorization_earned evs1 id key nonce ts signature fresh locked evs2 a :
  prun initial_protocol (evs1 ++ Authorized id key nonce ts signature fresh locked :: evs2) a →
  valid key nonce ts signature ∧ nonce ≠ [] ∧ (Z.abs (ts - fresh) <= 30)%Z ∧
  ∃ e, last_such (concerns id) e evs1 ∧ enrolls e = Some (id, key).
Proof.
  intros (a1 & a2 & H1 & Hstep & _)%prun_split. inversion Hstep as [| | |? ? ? ? ? ? ? Hk Hs Hv|]; subst.
  destruct Hs as (Hn & Hf & _). split_and!; [done..|]. by apply (keys_enrolled evs1 a1).
Qed.

(** ** One code, one device *)

(** The events that change the code. *)
Definition about_code (e : PEvent) : Prop :=
  match e with NewCode _ _ | Paired _ _ _ _ | PairedWithoutCode _ _ _ => True | _ => False end.

Lemma code_issued evs a code :
  prun initial_protocol evs a → p_code a = Some code → last_such about_code (NewCode code (p_made a)) evs.
Proof.
  intros Hrun. induction Hrun as [|evs e a1 a2 Hrun IH Hstep]; [done|].
  destruct Hstep as [c m Hc| | | |]; cbn [p_code issue enroll].
  - intros [= ->]. by apply last_such_here.
  - done.
  - done.
  - unfold spend, clean. case_bool_decide; cbn; intros; apply last_such_snoc; auto.
  - unfold spend, clean. case_bool_decide; cbn; intros; apply last_such_snoc; auto.
Qed.

(** A pairing with a code uses the code that was issued last, at most 300 seconds before, and
    that nobody has used since: one code admits one device. *)
Lemma pairing_uses_last_code evs1 id key code now evs2 a :
  prun initial_protocol (evs1 ++ Paired id key code now :: evs2) a →
  ∃ made, last_such about_code (NewCode code made) evs1 ∧ (now - made <= 300)%Z.
Proof.
  intros (a1 & a2 & H1 & Hstep & _)%prun_split. inversion Hstep as [|? ? ? ? ? Hc He| | |]; subst.
  exists (p_made a1). split; [by apply code_issued|]. apply He.
Qed.

(** ** How often a signed message is honoured *)

(** The event spends the pair. *)
Definition spends (nonce : QByteArray) (timestamp : Z) (e : PEvent) : bool :=
  match e with
  | Authorized _ _ n t _ _ _ | Refused _ n t _ _ => bool_decide (n = nonce ∧ t = timestamp)
  | _ => false
  end.

Definition times (nonce : QByteArray) (timestamp : Z) evs : nat :=
  length (filter (λ e, spends nonce timestamp e = true) evs).

(** The clock does not go back between the events, nor before [from]. *)
Fixpoint ordered (from : Z) evs : Prop :=
  match evs with
  | [] => True
  | e :: evs => (from <= (span e).1 <= (span e).2)%Z ∧ ordered (span e).2 evs
  end.

(** The time after the events. *)
Definition until (from : Z) evs : Z := foldl (λ _ e, (span e).2) from evs.

Lemma ordered_snoc from evs e :
  ordered from (evs ++ [e]) ↔ ordered from evs ∧ (until from evs <= (span e).1 <= (span e).2)%Z.
Proof. induction evs as [|e' evs IH] in from |- *; cbn; [tauto|]. rewrite IH. unfold until. cbn. tauto. Qed.

Lemma until_snoc from evs e : until from (evs ++ [e]) = (span e).2.
Proof. unfold until. by rewrite foldl_app. Qed.

Lemma times_snoc nonce ts evs e :
  times nonce ts (evs ++ [e]) = times nonce ts evs + (if spends nonce ts e then 1 else 0).
Proof.
  unfold times. rewrite filter_app, length_app, filter_cons, filter_nil.
  destruct (spends nonce ts e); [by rewrite decide_True|by rewrite decide_False].
Qed.

(** The two readings of an event are at most a second apart. *)
Definition prompt (e : PEvent) : Prop := ((span e).2 <= (span e).1 + 1)%Z.

(** Where a pair stands after it was spent [k] times, at the time [now].  The third time
    takes an event that is not prompt. *)
Definition phase (nonce : QByteArray) (ts : Z) (k : nat) (now : Z) a : Prop :=
  match k with
  | 0 => True
  | 1 => (ts - 30 <= now)%Z ∧
      ((nonce, ts) ∈ p_spent a ∧ (ts - 90 <= p_cleaned a)%Z ∨ (ts - 29 <= p_cleaned a)%Z)
  | 2 => (nonce, ts) ∈ p_spent a ∧ (ts - 29 <= p_cleaned a)%Z ∨ (ts + 30 < now)%Z
  | 3 => (ts + 30 < now)%Z
  | _ => False
  end.

Lemma clean_cases now a :
  clean now a = a ∧ (now - p_cleaned a <= 60)%Z ∨
  p_spent (clean now a) = ∅ ∧ p_cleaned (clean now a) = now ∧ (now - p_cleaned a > 60)%Z.
Proof. unfold clean. case_bool_decide; [right; cbn; auto|left; split; [done|lia]]. Qed.

Lemma phase_spend nonce ts k now a n t fresh locked :
  (now <= fresh <= locked)%Z → spendable n t fresh locked a → phase nonce ts k now a →
  (bool_decide (n = nonce ∧ t = ts) = true → k = 2 → (fresh + 1 < locked)%Z) ∧
  phase nonce ts (k + (if bool_decide (n = nonce ∧ t = ts) then 1 else 0)) locked (spend n t locked a).
Proof.
  intros Hle (_ & Hf & Hns) Hp. unfold spend. pose proof (clean_cases locked a) as Hc.
  case_bool_decide as He; [destruct He as [-> ->]|].
  - destruct k as [|[|[|[|]]]]; cbn [phase Nat.add p_spent p_cleaned] in *; destruct Hc as [[E Hc]|(E1 & E2 & Hc)];
      try rewrite E in *; (split; [intros _; try done; intros _|]); set_solver by lia.
  - rewrite Nat.add_0_r. split; [done|].
    destruct k as [|[|[|[|]]]]; cbn [phase p_spent p_cleaned] in *; destruct Hc as [[E Hc]|(E1 & E2 & Hc)];
      try rewrite E in *; set_solver by lia.
Qed.

Lemma phase_other nonce ts k now now' a a' :
  p_spent a' = p_spent a → p_cleaned a' = p_cleaned a → (now <= now')%Z →
  phase nonce ts k now a → phase nonce ts k now' a'.
Proof.
  intros E1 E2 Hle. destruct k as [|[|[|[|]]]]; cbn; rewrite ?E1, ?E2; try done.
  - intros [H1 H2]. split; [lia|done].
  - intros [H|H]; [by left|right; lia].
  - lia.
Qed.

(** The phase of a run, and the event behind a third time. *)
Lemma run_phase evs from a nonce ts :
  prun initial_protocol evs a → ordered from evs →
  phase nonce ts (times nonce ts evs) (until from evs) a ∧ (Forall prompt evs → times nonce ts evs ≤ 2).
Proof.
  intros Hrun. induction Hrun as [|evs e a1 a2 Hrun IH Hstep]; [intros _; split; [done|cbn; lia]|].
  intros [Ho He]%ordered_snoc. destruct (IH Ho) as [Hp Hle]. rewrite times_snoc, until_snoc, Forall_app, Forall_singleton.
  destruct Hstep as [code made Hc|id key secret code t Hc Hen|id key secret t Hc Hen
    |id key n t sig fresh locked Hk Hsp Hv|id n t fresh locked Hk Hsp];
    cbn [spends span fst snd] in *; rewrite ?Nat.add_0_r;
    try (split; [by eapply phase_other; [..|exact Hp]; cbn; try done; lia|naive_solver]).
  all: unfold prompt; cbn [span fst snd].
  all: destruct (phase_spend nonce ts _ _ a1 n t fresh locked He Hsp Hp) as [H2 H3]; split; [exact H3|].
  all: intros [H4 H5]; specialize (Hle H4); destruct (bool_decide (n = nonce ∧ t = ts)); [|lia].
  all: specialize (H2 eq_refl); lia.
Qed.

(** If the clock does not go back, a signed message, that is a nonce with a time stamp, is
    accepted at most three times, however long the server runs and whatever it is sent; at most
    twice, if no call stalls for more than a second between its two looks at the clock. *)
Lemma spent_at_most_thrice evs from a nonce ts :
  prun initial_protocol evs a → ordered from evs →
  times nonce ts evs ≤ 3 ∧ (Forall prompt evs → times nonce ts evs ≤ 2).
Proof.
  intros H1 H2. destruct (run_phase evs from a nonce ts H1 H2) as [Hp Hle]. split; [|done].
  destruct (times nonce ts evs) as [|[|[|[|]]]]; [lia..|by destruct Hp].
Qed.
End Protocol.
