(* ===== verification/ServerRefinement.v ===== *)
(** * The server refines the protocol

    Every run of [Server] is a run of [Protocol]: each slot, timer event and call
    performs a (possibly empty) list of protocol events, and what it shows of them
    in its trace (the log lines of authorizations, the [deviceChanged] signals)
    is exactly what those events show.  The proof is one forward simulation that
    goes through the code by its structure: an operation other than [processLine]
    performs at most the event of a new code ([operates]), a line at most the event
    of its request ([answers]).  [recorded] ties the events to the history of the
    run ([ServerHistory]): keys, codes, messages and clock readings of the events
    are those of the requests that caused them. *)
From stdpp Require Import base gmap sets list strings relations.
From Stdlib Require Import ZArith Lia Ascii.
From S2P Require Import Prelude Qt World Crypto Reference CryptoTheorems ReplayGuard ReplayTheorems Server Scenario ServerLemmas ServerStream ServerInvariant ServerPairing ServerAuth ServerHistory ServerSession ServerReplies Protocol.

(** ** What can be observed *)

Inductive Observation : Type :=
  | SawPaired (id : QString)
  | SawLog (text : QString).

#[export] Instance Observation_eq_dec : EqDecision Observation.
Proof. solve_decision. Defined.

(** The log lines that begin with [device ] and the devices reported as connected. *)
Definition observed (e : Event) : list Observation :=
  match e with
  | Emit (deviceChanged id true) => [SawPaired id]
  | Emit (logMessage text) => if decide (device_prefix `prefix_of` text) then [SawLog text] else []
  | _ => []
  end.

Definition observe (t : list Event) : list Observation := t ≫= observed.

(** What the server shows of an event. *)
Definition shows (e : PEvent) : list Observation :=
  match e with
  | Paired id _ _ _ | PairedWithoutCode id _ _ => [SawPaired id]
  | Authorized id _ _ _ _ _ _ => [SawLog (authorized_text id)]
  | NewCode _ _ | Refused _ _ _ _ _ => []
  end.

Definition shown (evs : list PEvent) : list Observation := evs ≫= shows.

(** The clock readings of the events, at increasing places of the clock. *)
Fixpoint stamped (clock : nat → Z) (i : nat) (evs : list PEvent) (j : nat) : Prop :=
  match evs with
  | [] => i ≤ j
  | e :: evs => ∃ k1 k2, i ≤ k1 ≤ k2 ∧ span e = (clock k1, clock k2) ∧ stamped clock (S k2) evs j
  end.

Lemma stamped_weaken clock i i' evs j j' : i' ≤ i → j ≤ j' → stamped clock i evs j → stamped clock i' evs j'.
Proof.
  induction evs as [|e evs IH] in i, i' |- *; cbn [stamped]; intros Hi Hj; [lia|].
  intros (k1 & k2 & Hk & E & H). exists k1, k2. split_and!; [lia..|done|]. by eapply IH; [..|exact H].
Qed.

Lemma stamped_app clock i evs1 j evs2 k :
  stamped clock i evs1 j → stamped clock j evs2 k → stamped clock i (evs1 ++ evs2) k.
Proof.
  induction evs1 as [|e evs1 IH] in i |- *; cbn [stamped app]; intros H1 H2.
  - by eapply stamped_weaken; [exact H1|reflexivity|].
  - destruct H1 as (k1 & k2 & Hk & E & H1). exists k1, k2. eauto.
Qed.

(** On a clock that does not go back the events are ordered. *)
Lemma stamped_ordered clock i evs j from :
  (∀ m n, m ≤ n → (clock m <= clock n)%Z) → (from <= clock i)%Z → stamped clock i evs j → ordered from evs.
Proof.
  intros Hmono. induction evs as [|e evs IH] in i, from |- *; cbn [stamped ordered]; [done|].
  intros Hi (k1 & k2 & Hk & E & H). rewrite E. cbn [fst snd].
  pose proof (Hmono i k1). pose proof (Hmono k1 k2). split; [lia|].
  eapply IH; [|exact H]. apply Hmono. lia.
Qed.

Section Refinement.
Context `{Q : QtCore} `{O : OpenSSL}.
Implicit Types (s : Sys) (v : Server) (a : Protocol) (evs : list PEvent).

(** ** The simulation relation *)

(** A signature over a nonce and a time stamp is valid under a key. *)
Definition valid_signature (key nonce : QByteArray) (timestamp : Z) (signature : QByteArray) : Prop :=
  signature_ok key (nonce ++ timestampBytes timestamp) signature.

(** The empty code is the used one; a spent pair has its token in the replay guard. *)
Record represents a v : Prop := {
  rep_code : p_code a = if decide (pairingCode_ v = []) then None else Some (pairingCode_ v);
  rep_made : p_made a = pairingCreatedAt_ v;
  rep_keys : p_keys a = pairedKeys_ v;
  rep_sessions : p_sessions a = sessionKeys_ v;
  rep_spent : ∀ nonce timestamp, (nonce, timestamp) ∈ p_spent a → token nonce timestamp ∈ seen_ (replayGuard_ v);
  rep_cleaned : p_cleaned a = lastCleanup_ (replayGuard_ v);
}.

(** [s'] follows [s] by the events [evs] of the protocol. *)
Definition follows s a evs s' a' : Prop :=
  prun valid_signature a evs a' ∧ represents a' (srv s') ∧
  observe (trace (wrld s')) = observe (trace (wrld s)) ++ shown evs ∧
  clock (wrld s') = clock (wrld s) ∧ stamped (clock (wrld s)) (clock_reads (wrld s)) evs (clock_reads (wrld s')).

Lemma follows_refl s a : represents a (srv s) → follows s a [] s a.
Proof. intros H. split_and!; [constructor|done|by rewrite app_nil_r|done|cbn; done]. Qed.

Lemma follows_trans s a evs1 s1 a1 evs2 s2 a2 :
  follows s a evs1 s1 a1 → follows s1 a1 evs2 s2 a2 → follows s a (evs1 ++ evs2) s2 a2.
Proof.
  intros (R1 & _ & O1 & C1 & T1) (R2 & H2 & O2 & C2 & T2). split_and!.
  - by eapply prun_app.
  - done.
  - by rewrite O2, O1, <- app_assoc; unfold shown; rewrite bind_app.
  - congruence.
  - eapply stamped_app; [exact T1|]. by rewrite <- C1.
Qed.

(** A step that only changes what the protocol does not see. *)
Lemma follows_silent s a s' :
  represents a (srv s') → observe (trace (wrld s')) = observe (trace (wrld s)) →
  later (wrld s) (wrld s') → follows s a [] s' a.
Proof. intros H1 H2 [H3 H4]. split_and!; [constructor|done|by rewrite app_nil_r|done|done]. Qed.

(** *** Events and items of the history *)

(** What the server does in an event. *)
Definition deed_of (e : PEvent) : option Deed :=
  match e with
  | NewCode code made => Some (Issued code made)
  | Paired id key code _ => Some (Enrolled id key code)
  | PairedWithoutCode id key _ => Some (Enrolled id key [])
  | Authorized id _ nonce timestamp signature _ _ => Some (Granted id nonce timestamp signature)
  | Refused _ _ _ _ _ => None
  end.

(** Codes are made by operations, from the random number drawn there; the other events are
    requests. *)
Definition kind_ok (i : Item) (e : PEvent) : Prop :=
  match i, e with
  | Operation s _, NewCode code _ => newPairingCode (wrld s) = Some (code, drawn 1 (wrld s))
  | Line _ _ _, NewCode _ _ | Operation _ _, _ => False
  | Line _ _ _, _ => True
  end.

(** The item [i] of the history is the event [e], at the readings of the clock it made. *)
Record matches (i : Item) (e : PEvent) : Prop := {
  matches_deed : deed i = deed_of e;
  matches_kind : kind_ok i e;
  matches_span : ∃ k1 k2, clock_reads (wrld (before i)) ≤ k1 ≤ k2 ∧ k2 < clock_reads (wrld (afterwards i)) ∧
    span e = (clock (wrld (before i)) k1, clock (wrld (before i)) k2);
}.

(** An item is one event or none; without a deed it may be a refusal. *)
Definition in_item (i : Item) (oe : option PEvent) : Prop :=
  match oe with Some e => matches i e | None => deed i = None end.

Inductive recorded : list Item → list PEvent → Prop :=
  | recorded_nil : recorded [] []
  | recorded_cons i oe items evs :
      in_item i oe → recorded items evs → recorded (i :: items) (option_list oe ++ evs).

Lemma recorded_app items1 evs1 items2 evs2 :
  recorded items1 evs1 → recorded items2 evs2 → recorded (items1 ++ items2) (evs1 ++ evs2).
Proof.
  intros H1 H2. induction H1 as [|i oe items evs Hi _ IH]; [done|]. rewrite <- app_assoc. by constructor.
Qed.

Lemma recorded_one i oe : in_item i oe → recorded [i] (option_list oe).
Proof. intros H. rewrite <- (app_nil_r (option_list oe)). by repeat constructor. Qed.

(** An event of the run has an item, and the history is cut there as the run is. *)
Lemma recorded_event items evs1 e evs2 :
  recorded items (evs1 ++ e :: evs2) →
  ∃ items1 i items2, items = items1 ++ i :: items2 ∧ matches i e ∧ recorded items1 evs1 ∧ recorded items2 evs2.
Proof.
  remember (evs1 ++ e :: evs2) as evs eqn:E. intros H. revert evs1 E.
  induction H as [|i oe items evs Hi Hrec IH]; intros evs1 E; [by destruct evs1|].
  destruct oe as [e'|]; [destruct evs1 as [|e1 evs1]|]; cbn in E; simplify_eq.
  - exists [], i, items. split_and!; [done|exact Hi|constructor|done].
  - destruct (IH evs1 eq_refl) as (items1 & j & items2 & -> & Hj & H1 & H2).
    exists (i :: items1), j, items2. split_and!; [done..| |done].
    change (e1 :: evs1) with (option_list (Some e1) ++ evs1). by constructor.
  - destruct (IH evs1 eq_refl) as (items1 & j & items2 & -> & Hj & H1 & H2).
    exists (i :: items1), j, items2. split_and!; [done..| |done].
    change evs1 with (option_list None ++ evs1). by constructor.
Qed.

(** The other way round: a cut of the history is a cut of the run. *)
Lemma recorded_item items1 i items2 evs :
  recorded (items1 ++ i :: items2) evs →
  ∃ evs1 oe evs2, evs = evs1 ++ option_list oe ++ evs2 ∧ in_item i oe ∧ recorded items1 evs1.
Proof.
  induction items1 as [|j items1 IH] in evs |- *; cbn [app]; intros H; inversion H as [|? oe ? evs' Hi Hrec]; subst.
  - exists [], oe, evs'. split_and!; [done|exact Hi|constructor].
  - destruct (IH _ Hrec) as (evs1 & oe' & evs2 & -> & Hj & H1). exists (option_list oe ++ evs1), oe', evs2.
    split_and!; [by rewrite <- app_assoc|done|by constructor].
Qed.

(** Items with deeds are events. *)
Lemma recorded_deed items evs i d :
  recorded items evs → i ∈ items → deed i = Some d → ∃ e, e ∈ evs ∧ deed_of e = Some d.
Proof.
  intros H. induction H as [|j oe items evs Hj _ IH]; [by intros ?%not_elem_of_nil|].
  rewrite elem_of_cons. intros [->|Hi] Hd.
  - destruct oe as [e|]; cbn in Hj; [|congruence]. exists e. split; [by left|]. rewrite <- Hd. symmetry. apply Hj.
  - destruct (IH Hi Hd) as (e & He & Hde). exists e. split; [|done]. apply elem_of_app. by right.
Qed.

Lemma shown_option oe : shown (option_list oe) = from_option shows [] oe.
Proof. destruct oe; [apply app_nil_r|done]. Qed.

(** *** Operations *)

(** [m] does nothing the protocol sees: no event, no random number. *)
Definition unseen {A} (m : M Sys A) : Prop :=
  ∀ s a, represents a (srv s) → wlp m (λ _ s', represents a (srv s') ∧
    observe (trace (wrld s')) = observe (trace (wrld s)) ∧ later (wrld s) (wrld s') ∧
    draws (wrld s') = draws (wrld s) ∧ entropy (wrld s') = entropy (wrld s)) s.

Lemma unseen_ret {A} (x : A) : unseen (mret x).
Proof. intros s a H. by apply wlp_ret. Qed.

Lemma unseen_bind {A B} (m : M Sys A) (k : A → M Sys B) : unseen m → (∀ x, unseen (k x)) → unseen (m ≫= k).
Proof.
  intros Hm Hk s a H. apply wlp_bind. eapply wlp_mono; [|by apply Hm].
  intros x s1 (R1 & O1 & L1 & D1 & E1). eapply wlp_mono; [|by apply Hk].
  intros y s2 (R2 & O2 & L2 & D2 & E2). split_and!; [done|congruence|by etrans|congruence..].
Qed.

Lemma unseen_get {A} (f : Server → A) : unseen (server_get f).
Proof. intros s a H. by apply wlp_server_get. Qed.

Lemma unseen_set f : (∀ a v, represents a v → represents a (f v)) → unseen (server_set f).
Proof. intros Hf s a H. apply wlp_server_set. split_and!; [by apply Hf|done..]. Qed.

Lemma unseen_clock : unseen (in_world currentSecsSinceEpoch).
Proof. intros s a H. apply wlp_in_world. intros t w' [= _ <-]. split_and!; [done..|split; [done|cbn; lia]|done|done]. Qed.

Lemma unseen_perform e : observed e = [] → unseen (in_world (perform e)).
Proof.
  intros He s a H. apply wlp_in_world. intros [] w' [= <-]. split_and!; [done| |by split|done|done].
  cbn. unfold observe. by rewrite bind_app, bind_cons, He, !app_nil_r.
Qed.

Lemma unseen_defined {A} (o : option A) : unseen (defined o).
Proof. intros s a H. by apply wlp_defined. Qed.

Lemma unseen_for_each {B} (l : list B) (body : B → M Sys unit) : (∀ x, unseen (body x)) → unseen (for_each l body).
Proof. intros Hb. induction l; cbn [for_each]; [apply unseen_ret|]. by apply unseen_bind. Qed.

(** [m] makes at most one code. *)
Definition operates {A} (m : M Sys A) : Prop :=
  ∀ s a, represents a (srv s) →
    wlp m (λ _ s', ∃ oe a', follows s a (option_list oe) s' a' ∧ in_item (Operation s s') oe) s.

Lemma deed_operation s s' : deed (Operation s s') =
  if draws (wrld s) <? draws (wrld s') then Some (Issued (pairingCode_ (srv s')) (pairingCreatedAt_ (srv s'))) else None.
Proof. done. Qed.

Lemma operates_unseen {A} (m : M Sys A) : unseen m → operates m.
Proof.
  intros Hm s a H. eapply wlp_mono; [|by apply Hm]. intros x s' (R & E & L & D & _). exists None, a.
  split; [by apply follows_silent|]. cbn [in_item]. by rewrite deed_operation, D, Nat.ltb_irrefl.
Qed.

Lemma operates_ext {A} (m m' : M Sys A) : (∀ s, m' s = m s) → operates m → operates m'.
Proof. intros E Hm s a H x s'. rewrite E. by apply Hm. Qed.

Lemma newPairingCode_run w : newPairingCode w =
  Some (rightJustified (QString_number16 (random w 0)) 16 (QLatin1Char "0"%char), drawn 1 w).
Proof. done. Qed.

Lemma random_same w w' : entropy w' = entropy w → draws w' = draws w → random w' 0 = random w 0.
Proof. unfold random. by intros -> ->. Qed.

(** Nothing seen before. *)
Lemma operates_after {A B} (m : M Sys A) (k : A → M Sys B) :
  unseen m → (∀ x, operates (k x)) → operates (m ≫= k).
Proof.
  intros Hm Hk s a H. apply wlp_bind. eapply wlp_mono; [|by apply Hm].
  intros x s1 (R1 & O1 & L1 & D1 & E1). eapply wlp_mono; [|by apply Hk].
  intros y s2 (oe & a2 & F & Hi). exists oe, a2. split.
  { change (option_list oe) with ([] ++ option_list oe). eapply follows_trans; [by apply follows_silent|done]. }
  destruct oe as [e|]; cbn [in_item] in Hi |- *; [|by rewrite deed_operation, <- D1].
  destruct Hi as [Hd Hkind (k1 & k2 & H1 & H2 & Hsp)]. cbn [before afterwards] in H1, H2, Hsp. destruct L1 as [C1 L1].
  split; [by rewrite deed_operation, <- D1| |].
  - destruct e; cbn in Hkind |- *; try done. rewrite newPairingCode_run in Hkind |- *.
    rewrite (random_same _ _ E1 D1) in Hkind. by injection Hkind as <-.
  - exists k1, k2. cbn [before afterwards]. rewrite <- C1. split_and!; [lia..|done].
Qed.

Lemma represents_code a v v' :
  represents a v → represents a v' → pairingCode_ v' = pairingCode_ v ∧ pairingCreatedAt_ v' = pairingCreatedAt_ v.
Proof.
  intros [E1 E2 _ _ _ _] [E1' E2' _ _ _ _]. split; [|congruence]. rewrite E1 in E1'.
  repeat case_decide; congruence.
Qed.

(** Nothing seen afterwards. *)
Lemma operates_before {A B} (m : M Sys A) (k : A → M Sys B) :
  operates m → (∀ x, unseen (k x)) → operates (m ≫= k).
Proof.
  intros Hm Hk s a H. apply wlp_bind. eapply wlp_mono; [|by apply Hm].
  intros x s1 (oe & a1 & F & Hi). pose proof F as (_ & R1 & _). eapply wlp_mono; [|by apply Hk].
  intros y s2 (R2 & O2 & L2 & D2 & E2). exists oe, a1. split.
  { rewrite <- (app_nil_r (option_list oe)). eapply follows_trans; [done|by apply follows_silent]. }
  destruct (represents_code _ _ _ R1 R2) as [Ec Em].
  assert (deed (Operation s s2) = deed (Operation s s1)) as Ed by (by rewrite !deed_operation, D2, Ec, Em).
  destruct oe as [e|]; cbn [in_item] in Hi |- *; [|by rewrite Ed].
  destruct Hi as [Hd Hkind (k1 & k2 & H1 & H2 & Hsp)]. destruct L2 as [_ L2]. split; [by rewrite Ed|done|].
  exists k1, k2. cbn [before afterwards] in H1, H2, Hsp |- *. split_and!; [lia..|done].
Qed.

(** Computations that read the server, the clock and random numbers, and nothing else. *)
Definition reads {A} (m : M Sys A) : Prop :=
  ∀ s, wlp m (λ _ s', srv s' = srv s ∧ trace (wrld s') = trace (wrld s) ∧ later (wrld s) (wrld s')) s.

Lemma reads_ret {A} (x : A) : reads (mret x).
Proof. intros s. by apply wlp_ret. Qed.

Lemma reads_bind {A B} (m : M Sys A) (k : A → M Sys B) : reads m → (∀ x, reads (k x)) → reads (m ≫= k).
Proof.
  intros Hm Hk s. apply wlp_bind. eapply wlp_mono; [|apply Hm]. intros x s1 (E1 & T1 & L1).
  eapply wlp_mono; [|apply Hk]. cbn. intros y s2 (E2 & T2 & L2). split_and!; [congruence..|by etrans].
Qed.

Lemma reads_get {A} (f : Server → A) : reads (server_get f).
Proof. intros s. by apply wlp_server_get. Qed.

Lemma reads_quiet {A} (m : M World A) : quiet m → reads (in_world m).
Proof. intros Hm s. apply wlp_in_world. intros x w' E. by destruct (Hm _ _ _ E). Qed.

Lemma reads_defined {A} (o : option A) : reads (defined o).
Proof. intros s. by apply wlp_defined. Qed.

(** From [s], [m] performs the deed [d] or nothing that is seen. *)
Definition answers {A} (m : M Sys A) (d : Deed) s : Prop :=
  ∀ a, represents a (srv s) → wlp m (λ _ s', ∃ oe a', follows s a (option_list oe) s' a' ∧
    match oe with
    | Some (NewCode _ _) => False
    | Some e => deed_of e = Some d ∨ deed_of e = None
    | None => True
    end) s.

Lemma answers_after {A B} (m : M Sys A) (k : A → M Sys B) d s :
  reads m → (∀ x s', m s = Some (x, s') → answers (k x) d s') → answers (m ≫= k) d s.
Proof.
  intros Hm Hk a H y s2 (x & s1 & H1 & H2)%M_bind_Some. destruct (Hm s _ _ H1) as (E & Et & L).
  destruct (Hk _ _ H1 a ltac:(by rewrite E) _ _ H2) as (oe & a2 & F & Hoe). exists oe, a2. split; [|done].
  change (option_list oe) with ([] ++ option_list oe). eapply follows_trans; [|exact F].
  apply follows_silent; [by rewrite E|by rewrite Et|done].
Qed.
End Refinement.

Ltac reads_step :=
  lazymatch goal with
  | |- reads (_ ≫= _) => apply reads_bind; [|intros]
  | |- reads (mret _) => apply reads_ret
  | |- reads (server_get _) => apply reads_get
  | |- reads (defined _) => apply reads_defined
  | |- reads (in_world (encryptAes256Gcm _ _ _ _)) => apply reads_quiet, encryptAes256Gcm_quiet
  | |- reads (in_world (decryptAes256Gcm _ _ _ _)) => apply reads_quiet, decryptAes256Gcm_quiet
  | |- reads (in_world challengeNonce) => apply reads_quiet, randomFill_quiet
  | |- reads (in_world envelopeNonce) => apply reads_quiet, randomFill_quiet
  | |- reads (in_world currentSecsSinceEpoch) => apply reads_quiet, quiet_clock
  | |- reads (match ?x with _ => _ end) => destruct x
  end.
Ltac reads := repeat (reads_step; cbn beta iota zeta).

Ltac unseen_step :=
  lazymatch goal with
  | |- unseen (_ ≫= _) => apply unseen_bind; [|intros]
  | |- unseen (mret _) => apply unseen_ret
  | |- unseen (server_get _) => apply unseen_get
  | |- unseen (server_set (set_listening _)) => apply unseen_set; by intros ? ? []
  | |- unseen (server_set (set_udpBound _)) => apply unseen_set; by intros ? ? []
  | |- unseen (server_set (set_discoveryTimer _)) => apply unseen_set; by intros ? ? []
  | |- unseen (server_set (set_port _)) => apply unseen_set; by intros ? ? []
  | |- unseen (server_set (set_buffers _)) => apply unseen_set; by intros ? ? []
  | |- unseen (in_world currentSecsSinceEpoch) => apply unseen_clock
  | |- unseen (in_world (emit (statusChanged _))) => by apply unseen_perform
  | |- unseen (in_world (perform _)) => by apply unseen_perform
  | |- unseen (defined _) => apply unseen_defined
  | |- unseen (for_each _ _) => apply unseen_for_each; intros
  | |- unseen (match ?x with _ => _ end) => destruct x
  end.
Ltac unseen := repeat (unseen_step; cbn beta iota zeta).

(** ** The operations *)

Section Operations.
Context `{Q : QtCore} `{O : OpenSSL} {QL : QtLaws Q} {OS : OpenSSLSizes O}.
Implicit Types (s : Sys) (v : Server) (a : Protocol).

(** The log lines that are not about a device. *)
Lemma unseen_log text : ¬ device_prefix `prefix_of` text → unseen (in_world (emit (logMessage text))).
Proof. intros H. apply unseen_perform. cbn. by rewrite decide_False. Qed.

Lemma QStringLiteral_app (s1 s2 : string) : QStringLiteral (s1 +:+ s2) = QStringLiteral s1 ++ QStringLiteral s2.
Proof. induction s1 as [|c s1 IH]; [done|]. exact (f_equal (cons (Ascii.N_of_ascii c)) IH). Qed.

(** A text with one marker: neither side has another percent sign, the right one starts with
    no digit, the left one does not start with a [d]. *)
Definition marked (pre post : string) : Prop :=
  PERCENT ∉ QStringLiteral pre ∧ PERCENT ∉ QStringLiteral post ∧ head_is_digit (QStringLiteral post) = false ∧
  head (QStringLiteral pre) ≠ head device_prefix ∧ QStringLiteral pre ≠ [].

#[local] Instance marked_dec pre post : Decision (marked pre post).
Proof. unfold marked. apply _. Defined.

Lemma not_device (pre rest : QString) :
  head pre ≠ head device_prefix → pre ≠ [] → ¬ device_prefix `prefix_of` (pre ++ rest).
Proof. destruct pre as [|c pre]; [done|]. intros Hh _ [k Hk]. apply Hh. by injection Hk as ->. Qed.

Lemma observed_log_arg pre post x :
  marked pre post → observed (Emit (logMessage (arg (QStringLiteral (pre +:+ "%1" +:+ post)) x))) = [].
Proof.
  intros (H1 & H2 & H3 & H4 & H5). cbn [observed]. rewrite decide_False; [done|].
  rewrite !QStringLiteral_app, arg_marker by done. by apply not_device.
Qed.

Lemma unseen_log_arg pre post x :
  marked pre post → unseen (in_world (emit (logMessage (arg (QStringLiteral (pre +:+ "%1" +:+ post)) x)))).
Proof. intros H. by apply unseen_perform, observed_log_arg. Qed.

Lemma unseen_log_argInt pre post z :
  marked pre post → unseen (in_world (emit (logMessage (argInt (QStringLiteral (pre +:+ "%1" +:+ post)) z)))).
Proof.
  intros (H1 & H2 & H3 & H4 & H5). apply unseen_log. rewrite !QStringLiteral_app.
  destruct (argInt_prefix (QStringLiteral pre) (QStringLiteral "%1" ++ QStringLiteral post) z) as [rest ->]; [done|].
  by apply not_device.
Qed.

Ltac log_text := apply unseen_log; rewrite <- (app_nil_r (QStringLiteral _)); apply not_device; by vm_compute.
Ltac marked_text := apply (bool_decide_unpack _); vm_compute; exact I.

Lemma broadcastDiscovery_unseen : unseen broadcastDiscovery.
Proof. unfold broadcastDiscovery. unseen. Qed.

Lemma readDatagrams_unseen pending : unseen (readDatagrams pending).
Proof.
  unfold readDatagrams. apply unseen_for_each. intros d. destruct (fromJson d); [|unseen].
  destruct (bool_decide _); [apply broadcastDiscovery_unseen|unseen].
Qed.

Lemma acceptConnections_unseen pending : unseen (acceptConnections pending).
Proof.
  unfold acceptConnections. apply unseen_for_each. intros p. apply unseen_bind; [unseen|intros _].
  apply (unseen_log_arg "client connected from " ""). marked_text.
Qed.

Lemma clientDisconnected_unseen sender : unseen (clientDisconnected sender).
Proof.
  unfold clientDisconnected. destruct sender; [|unseen]. apply unseen_bind; [unseen|intros _].
  apply unseen_bind; [log_text|intros _]. unseen.
Qed.

Lemma stop_unseen closes_now : unseen (stop closes_now).
Proof.
  unfold stop. apply unseen_bind; [unseen|intros timer]. apply unseen_bind; [unseen|intros _].
  apply unseen_bind; [unseen|intros keys].
  apply unseen_bind; [apply unseen_for_each; intros socket; apply unseen_bind; [unseen|intros _]|intros _; unseen].
  destruct (closes_now socket); [apply clientDisconnected_unseen|unseen].
Qed.

Lemma encryptedResponse_reads id payload : reads (encryptedResponse id payload).
Proof. unfold encryptedResponse. reads. Qed.

Lemma decryptRequest_reads envelope : reads (decryptRequest envelope).
Proof. unfold decryptRequest. reads. Qed.

(** *** The code *)

Lemma rep_issue a v code made :
  code ≠ [] → represents a v → represents (issue code made a) (set_pairingCreatedAt made (set_pairingCode code v)).
Proof. intros Hc []. split; cbn; try done. by rewrite decide_False. Qed.

Definition issue_code : M Sys unit :=
  code ← in_world newPairingCode;
  server_set (set_pairingCode code) ;;
  now ← in_world currentSecsSinceEpoch;
  server_set (set_pairingCreatedAt now).

Lemma issue_code_operates : operates issue_code.
Proof.
  intros s a H. apply wlp_bind, wlp_in_world. intros code w1 Hrun.
  pose proof (newPairingCode_length _ _ _ Hrun) as Hlen. pose proof Hrun as Hcode.
  rewrite newPairingCode_run in Hrun. injection Hrun as _ <-.
  apply wlp_bind, wlp_server_set, wlp_bind, wlp_in_world. cbn [srv wrld]. intros t w2 [= <- <-].
  assert (code ≠ []) as Hc by (by intros ->).
  set (now := clock (wrld s) (clock_reads (wrld s))).
  apply wlp_server_set. exists (Some (NewCode code now)), (issue code now a). split; [split_and!; cbn|split; [rewrite deed_operation|..]; cbn [srv wrld draws drawn set_draws set_clock_reads kind_ok deed_of span before afterwards clock clock_reads]].
  - apply prun_one. by constructor.
  - by apply rep_issue.
  - by rewrite app_nil_r.
  - done.
  - exists (clock_reads (wrld s)), (clock_reads (wrld s)). split_and!; [lia..|done|lia].
  - by rewrite (proj2 (Nat.ltb_lt _ _)) by lia.
  - done.
  - exists (clock_reads (wrld s)), (clock_reads (wrld s)). split_and!; [lia..|done].
Qed.

(** [issue_code] in front of more code, as [start] has it. *)
Lemma operates_issue_code {B} (k : M Sys B) :
  unseen k →
  operates (code ← in_world newPairingCode;
            server_set (set_pairingCode code) ;;
            now ← in_world currentSecsSinceEpoch;
            server_set (set_pairingCreatedAt now) ;; k).
Proof.
  intros Hk. apply (operates_ext (issue_code ;; k)).
  - intros s. unfold issue_code, mbind, M_bind. by destruct (in_world newPairingCode s) as [[code s1]|].
  - by apply operates_before; [apply issue_code_operates|intros _].
Qed.

Lemma start_operates net port : operates (start net port).
Proof.
  unfold start. apply operates_after; [unseen|intros [|]]; [apply operates_unseen; unseen|].
  apply operates_after; [unseen|intros _]. apply operates_after; [unseen|intros keys].
  destruct (negb _); [apply operates_unseen, unseen_bind; [log_text|intros _; unseen]|].
  apply operates_issue_code. destruct (negb (listen_ok net)).
  - apply unseen_bind; [|intros _; unseen]. apply (unseen_log_arg "TCP listener failed: " ""). marked_text.
  - apply unseen_bind; [unseen|intros _]. apply unseen_bind; [unseen|intros _]. destruct (negb (bind_ok net)).
    + apply unseen_bind; [|intros _; unseen]. apply (unseen_log_arg "UDP discovery listener failed: " ""). marked_text.
    + do 4 (apply unseen_bind; [unseen|intros _]). apply unseen_bind; [apply broadcastDiscovery_unseen|intros _].
      apply unseen_bind; [unseen|intros _]. apply unseen_bind; [|intros _; unseen].
      apply (unseen_log_argInt "server started on port " ""). marked_text.
Qed.

Lemma pairingPayload_operates addresses host : operates (pairingPayload addresses host).
Proof.
  unfold pairingPayload. apply operates_after; [unseen|intros code].
  apply operates_after; [unseen|intros expired].
  apply operates_before; [|intros _; unseen].
  destruct expired; [apply issue_code_operates|apply operates_unseen; unseen].
Qed.

(** *** Pairing *)

Lemma rep_enroll id key secret a v :
  represents a v → represents (enroll id key secret a) (register id key secret v).
Proof. intros [? ? Ek Es ? ?]. split; cbn; rewrite ?Ek, ?Es; done. Qed.

(** What was checked when a device is registered: the event is [Paired] or
    [PairedWithoutCode], whichever the server's code says, with the code that was presented. *)
Lemma pair_step a v id key secret code t :
  represents a v → id ≠ [] → length key = 32 → length secret = 32 → (t - pairingCreatedAt_ v <= 300)%Z →
  code = pairingCode_ v →
  ∃ e, pstep valid_signature a e (enroll id key secret a) ∧ shows e = [SawPaired id] ∧ span e = (t, t) ∧
    deed_of e = Some (Enrolled id key code).
Proof.
  intros H Hid Hk Hs Ht ->. assert (enrollable id key secret t a) as He.
  { split_and!; [done..|]. by rewrite (rep_made _ _ H). }
  pose proof (rep_code _ _ H) as Hc. case_decide as Hcode.
  - exists (PairedWithoutCode id key t). split; [by constructor|]. cbn. by rewrite Hcode.
  - exists (Paired id key (pairingCode_ v) t). split; [by constructor|done].
Qed.

Lemma observe_app t1 t2 : observe (t1 ++ t2) = observe t1 ++ observe t2.
Proof. apply bind_app. Qed.

Lemma observe_one e : observe [e] = observed e.
Proof. apply app_nil_r. Qed.

Lemma handlePair_answers request s : answers (handlePair request)
  (Enrolled (field request "device_id") (hexField request "public_key") (field request "pairing_code")) s.
Proof.
  intros a H. assert (∀ s', srv s' = srv s → trace (wrld s') = trace (wrld s) → later (wrld s) (wrld s') →
    follows s a [] s' a) as Hno by (intros s' E Et L; apply follows_silent; [by rewrite E|by rewrite Et|done]).
  unfold handlePair. apply wlp_bind, wlp_server_get.
  destruct (isEmpty (field request "device_id")) eqn:Eid; cbn [orb];
    [apply wlp_ret; exists None, a; by split; [apply Hno|]|].
  apply isEmpty_false in Eid.
  destruct (Nat.eqb_spec (length (hexField request "public_key")) 32) as [Hk|]; cbn [negb orb];
    [|apply wlp_ret; exists None, a; by split; [apply Hno|]].
  destruct (Nat.eqb_spec (length (hexField request "x25519_public_key")) 32); cbn [negb orb];
    [|apply wlp_ret; exists None, a; by split; [apply Hno|]].
  destruct (bool_decide_reflect (field request "pairing_code" = pairingCode_ (srv s))) as [Hcode|]; cbn [negb];
    [|apply wlp_ret; exists None, a; by split; [apply Hno|]].
  apply wlp_bind, wlp_bind, wlp_in_world. intros t w1 [= <- <-].
  apply wlp_bind, wlp_server_get, wlp_bind, wlp_defined. cbn [srv]. intros age [-> _]%checked_Some. apply wlp_ret.
  case_bool_decide as Hage;
    [apply wlp_ret; exists None, a; split; [apply Hno; [done..|split; [done|cbn; lia]]|done]|].
  apply wlp_bind, wlp_server_get, wlp_bind, wlp_in_world. intros [shared err] w2 Hx.
  destruct (x25519SharedSecret_quiet _ _ _ _ _ Hx) as [Et [Ec Hl]]. cbn in Et, Ec, Hl.
  destruct (Nat.eqb_spec (length shared) 32) as [Hs|]; cbn [negb].
  2: { apply wlp_ret. exists None, a. split; [|done]. apply Hno; [done|cbn; congruence|split; cbn; [done|lia]]. }
  srv_steps. cbn [srv wrld] in *.
  edestruct (pair_step a (srv s) (field request "device_id") (hexField request "public_key") shared)
    as (ev & He & Hsh & Hsp & Hd); try done.
  assert (observed (Emit (logMessage (arg (QStringLiteral "paired device %1") (field request "device_id")))) = []) as El
    by (apply (observed_log_arg "paired device " ""); marked_text).
  exists (Some ev), (enroll (field request "device_id") (hexField request "public_key") shared a).
  split; [|destruct ev; [by cbn in Hsh|by left..]]. split_and!; cbn [srv wrld trace clock set_trace].
  - by apply prun_one.
  - by apply rep_enroll.
  - by rewrite !observe_app, !observe_one, El, Et, app_nil_r, shown_option; cbn [from_option]; rewrite Hsh.
  - done.
  - exists (clock_reads (wrld s)), (clock_reads (wrld s)). split_and!; cbn; [lia..|done|lia].
Qed.

(** *** Authorization *)

(** A pair the guard accepts was not spent, and is now. *)
Lemma rep_spend nonce timestamp t g a v :
  represents a v → (true, g) = locked_result (replayGuard_ v) nonce timestamp t →
  (nonce, timestamp) ∉ p_spent (clean t a) ∧ represents (spend nonce timestamp t a) (set_replayGuard g v).
Proof.
  intros [Hc Hm Hk Hs Hsp Hcl]. unfold locked_result, cleanup, spend, clean. rewrite Hcl.
  destruct (bool_decide (t - lastCleanup_ (replayGuard_ v) > 60)%Z); cbn [seen_ lastCleanup_].
  - rewrite bool_decide_false by set_solver. intros [= ->]. split; [set_solver|].
    split; cbn; try done. intros n' t'. rewrite elem_of_union, elem_of_singleton.
    intros [[= -> ->]|?]; set_solver.
  - case_bool_decide as Hin; [done|]. intros [= ->]. split; [by intros ?%Hsp|].
    split; cbn; try done. intros n' t'. rewrite !elem_of_union, !elem_of_singleton.
    intros [[= -> ->]|?%Hsp]; auto.
Qed.

Lemma locked_refuses g nonce timestamp t g' : (false, g') = locked_result g nonce timestamp t → g' = g.
Proof.
  unfold locked_result, cleanup. destruct (bool_decide (t - lastCleanup_ g > 60)%Z); cbn [seen_].
  - rewrite bool_decide_false by set_solver. done.
  - case_bool_decide; congruence.
Qed.

(** The decision of a [verify] request is an event of the protocol; nothing is shown yet. *)
Lemma authorize_event id nonce timestamp signature s a :
  represents a (srv s) →
  wlp (authorize id nonce timestamp signature) (λ r s', ∃ oe a',
    prun valid_signature a (option_list oe) a' ∧ represents a' (srv s') ∧ trace (wrld s') = trace (wrld s) ∧
    clock (wrld s') = clock (wrld s) ∧
    stamped (clock (wrld s)) (clock_reads (wrld s)) (option_list oe) (clock_reads (wrld s')) ∧
    match oe with
    | Some (Authorized i key n t sig _ _) => fst r = true ∧ i = id ∧ n = nonce ∧ t = timestamp ∧ sig = signature
    | Some (Refused _ _ _ _ _) | None => fst r = false
    | _ => False
    end) s.
Proof.
  intros H [b e] s' Hrun. cbn [fst].
  assert (srv s' = srv s → b = false → trace (wrld s') = trace (wrld s) ∧ later (wrld s) (wrld s') → ∃ oe a',
    prun valid_signature a (option_list oe) a' ∧ represents a' (srv s') ∧ trace (wrld s') = trace (wrld s) ∧
    clock (wrld s') = clock (wrld s) ∧
    stamped (clock (wrld s)) (clock_reads (wrld s)) (option_list oe) (clock_reads (wrld s')) ∧
    match oe with
    | Some (Authorized i key n t sig _ _) => b = true ∧ i = id ∧ n = nonce ∧ t = timestamp ∧ sig = signature
    | Some (Refused _ _ _ _ _) | None => b = false
    | _ => False
    end) as Hnone.
  { intros -> -> [Et [Ec Hl]]. exists None, a. split_and!; [constructor|done..]. }
  apply authorize_inv in Hrun as [(_ & -> & ->)|(key & acc & g & w1 & Hk & Ha & Hsrv & Hb)]; [by apply Hnone|].
  destruct (accept_quiet _ _ _ _ _ _ Ha) as [Et Hl].
  apply accept_inv in Ha as [(-> & -> & -> & ->)|[(Hn & Hf & -> & -> & ->)|(Hn & Hf & Hr & ->)]].
  - destruct Hb as [(_ & -> & Ew)|[? _]]; [|done]. apply Hnone; [rewrite Hsrv; by destruct (srv s)|done|by rewrite Ew].
  - destruct Hb as [(_ & -> & Ew)|[? _]]; [|done]. apply Hnone; [rewrite Hsrv; by destruct (srv s)|done|by rewrite Ew].
  - destruct Hb as [(-> & -> & Ew)|(-> & err & Hv)].
    { apply locked_refuses in Hr as ->. apply Hnone; [rewrite Hsrv; by destruct (srv s)|done|by rewrite Ew]. }
    apply verifyEd25519_result in Hv as [Hv Ew]. apply isFreshTimestamp_true in Hf.
    destruct (rep_spend _ _ _ _ _ _ H Hr) as [Hns Hrep].
    assert (spendable nonce timestamp (reading (wrld s) 0) (reading (wrld s) 1) a) as Hsp by done.
    rewrite <- (rep_keys _ _ H) in Hk.
    exists (Some (if b then Authorized id key nonce timestamp signature (reading (wrld s) 0) (reading (wrld s) 1)
                  else Refused id nonce timestamp (reading (wrld s) 0) (reading (wrld s) 1))),
      (spend nonce timestamp (reading (wrld s) 1) a).
    rewrite Hsrv, Ew. split_and!; [|done..| |by destruct b].
    + apply prun_one. destruct b; [apply (step_Authorized _ _ _ key)|apply step_Refused]; try done. by apply Hv.
    + exists (clock_reads (wrld s) + 0), (clock_reads (wrld s) + 1). split_and!; [lia..|by destruct b|cbn; lia].
Qed.

Lemma authorized_text_arg id : arg (QStringLiteral "device %1 authorized") id = authorized_text id.
Proof. apply (arg_marker device_prefix (QStringLiteral " authorized") id); marked_text. Qed.

Lemma handleVerify_answers id decrypted s : answers (handleVerify id decrypted)
  (Granted id (hexField decrypted "nonce") (toLongLong (value decrypted (QStringLiteral "timestamp")))
     (hexField decrypted "signature")) s.
Proof.
  intros a H. unfold handleVerify. apply wlp_bind. eapply wlp_mono; [|by apply authorize_event].
  intros [b e] s1 (oe & a1 & Hrun & Hrep & Et & Ec & Hst & Hoe). cbn [fst] in Hoe.
  apply wlp_bind. eapply wlp_mono; [|apply encryptedResponse_reads]. cbn. intros response s2 (Es & Et2 & Ec2 & Hl2).
  apply wlp_bind, wlp_in_world. intros [] w3 [= <-]. apply wlp_ret. exists oe, a1.
  split; [|destruct oe as [[]|]; try done; [left|by right]; by destruct Hoe as (_ & -> & -> & -> & ->)].
  split_and!; cbn [srv wrld trace clock set_trace clock_reads]; [done|by rewrite Es| |congruence|by eapply stamped_weaken].
  rewrite observe_app, observe_one, Et2, Et, shown_option. f_equal. destruct oe as [[]|]; try done.
  - destruct Hoe as (-> & -> & _). rewrite authorized_text_arg. cbn [observed]. by rewrite decide_True by (by eexists).
  - rewrite Hoe. apply (observed_log_arg "authorization rejected: " ""). marked_text.
  - rewrite Hoe. apply (observed_log_arg "authorization rejected: " ""). marked_text.
Qed.

(** *** Lines *)

Lemma observe_paired t id : Emit (deviceChanged id true) ∈ t ↔ SawPaired id ∈ observe t.
Proof.
  unfold observe. rewrite list_elem_of_bind. split.
  - intros H. exists (Emit (deviceChanged id true)). split; [by left|done].
  - intros (e & He & Hin). destruct e as [[text|status|i [|]]| | | | | | | | | |]; cbn in He; try by apply not_elem_of_nil in He.
    + case_decide; [by apply list_elem_of_singleton in He|by apply not_elem_of_nil in He].
    + by apply list_elem_of_singleton in He as [= ->].
Qed.

Lemma observe_authorized t id :
  Emit (logMessage (authorized_text id)) ∈ t ↔ SawLog (authorized_text id) ∈ observe t.
Proof.
  unfold observe. rewrite list_elem_of_bind. split.
  - intros H. exists (Emit (logMessage (authorized_text id))). split; [|done]. cbn.
    rewrite decide_True by (by eexists). by left.
  - intros (e & He & Hin). destruct e as [[text|status|i [|]]| | | | | | | | | |]; cbn in He; try by apply not_elem_of_nil in He.
    + case_decide; [by apply list_elem_of_singleton in He as [= <-]|by apply not_elem_of_nil in He].
    + by apply list_elem_of_singleton in He.
Qed.

(** What a line reports is what its event shows. *)
Lemma processLine_said socket line s s' evs :
  processLine socket line s = Some (tt, s') →
  observe (trace (wrld s')) = observe (trace (wrld s)) ++ shown evs → observe (said s s') = shown evs.
Proof.
  intros Hrun E. destruct (processLine_typed (pcId_ (srv s)) socket line s eq_refl _ _ Hrun) as (_ & new & Et & _).
  unfold said. rewrite Et, drop_app_length in *. rewrite observe_app in E. by apply app_inv_head in E.
Qed.

Lemma stamped_span clk i e j :
  stamped clk i [e] j → ∃ k1 k2, i ≤ k1 ≤ k2 ∧ k2 < j ∧ span e = (clk k1, clk k2).
Proof. intros (k1 & k2 & Hk & E & Hj). cbn in Hj. exists k1, k2. split_and!; [lia..|done]. Qed.

(** What a deed shows. *)
Definition sight (d : Deed) : list Observation :=
  match d with
  | Issued _ _ => []
  | Enrolled id _ _ => [SawPaired id]
  | Granted id _ _ _ => [SawLog (authorized_text id)]
  end.

Lemma shows_deed e : shows e = from_option sight [] (deed_of e).
Proof. by destruct e. Qed.

(** If the deed computed from the request is what [m] answers, and is seen exactly when its
    sight is, the line is the event. *)
Lemma line_item (m : M Sys QJsonObject) d o socket line s a s' :
  answers m d s → sight d = [o] → represents a (srv s) →
  processLine socket line s = Some (tt, s') → processLine socket line s = (m ≫= reply socket) s →
  deed (Line line s s') = (if bool_decide (o ∈ observe (said s s')) then Some d else None) →
  ∃ oe a', follows s a (option_list oe) s' a' ∧ in_item (Line line s s') oe.
Proof.
  intros Hm Ho H Hrun E Hd. rewrite Hrun in E. symmetry in E. apply M_bind_Some in E as (response & s1 & H1 & H2).
  destruct (Hm a H _ _ H1) as (oe & a' & F1 & Hoe). exists oe, a'.
  assert (follows s a (option_list oe) s' a') as F.
  { rewrite <- (app_nil_r (option_list oe)). eapply follows_trans; [exact F1|].
    destruct (unseen_perform (SocketWrite socket (toJson response ++ [newline])) eq_refl s1 a' ltac:(apply F1) _ _ H2)
      as (R & Ob & L & _). by apply follows_silent. }
  split; [done|]. pose proof F as (_ & _ & Ob & _ & Hst). apply (processLine_said _ _ _ _ _ Hrun) in Ob.
  rewrite Ob, shown_option in Hd. destruct oe as [e|]; cbn [in_item from_option] in *.
  - apply stamped_span in Hst. split; [|by destruct e|exact Hst]. rewrite Hd, shows_deed. destruct e; cbn [deed_of] in *; [done|..];
      destruct Hoe as [Eo|Eo]; try discriminate Eo; try (injection Eo as <-); cbn [from_option sight] in *;
      try (injection Ho as <-); rewrite ?bool_decide_true by (by left); try done;
      by rewrite bool_decide_false by apply not_elem_of_nil.
  - by rewrite Hd, bool_decide_false by apply not_elem_of_nil.
Qed.

(** A line without a deed that only reads is no event. *)
Lemma line_silent_at (m : M Sys QJsonObject) socket line s a s' :
  wlp m (λ _ s1, srv s1 = srv s ∧ trace (wrld s1) = trace (wrld s) ∧ later (wrld s) (wrld s1)) s →
  represents a (srv s) → (m ≫= reply socket) s = Some (tt, s') → deed (Line line s s') = None →
  ∃ oe a', follows s a (option_list oe) s' a' ∧ in_item (Line line s s') oe.
Proof.
  intros Hm H (response & s1 & H1 & H2)%M_bind_Some Hd. exists None, a. split; [|exact Hd].
  destruct (Hm _ _ H1) as (E1 & Et & L). assert (represents a (srv s1)) as H' by by rewrite E1.
  destruct (unseen_perform (SocketWrite socket (toJson response ++ [newline])) eq_refl s1 a H' _ _ H2)
    as (R & Ob & L2 & _). apply follows_silent; [done|by rewrite Ob, Et|by etrans].
Qed.

(** An opened request is a [verify] request, or only reads. *)
Lemma handleVerify_line request s r s1 :
  decryptRequest request s = Some (r, s1) →
  (∃ id decrypted, r = inr (id, decrypted) ∧ field decrypted "type" = QStringLiteral "verify" ∧
     answers (handleSecure request) (Granted id (hexField decrypted "nonce")
       (toLongLong (value decrypted (QStringLiteral "timestamp"))) (hexField decrypted "signature")) s) ∨
  (match r with inr (_, decrypted) => field decrypted "type" ≠ QStringLiteral "verify" | inl _ => True end ∧
   wlp (handleSecure request) (λ _ s', srv s' = srv s ∧ trace (wrld s') = trace (wrld s) ∧ later (wrld s) (wrld s')) s).
Proof.
  intros Ed. destruct (decryptRequest_reads request s _ _ Ed) as (E1 & Et & L).
  assert (∀ m : M Sys QJsonObject, reads m →
    wlp m (λ _ s', srv s' = srv s ∧ trace (wrld s') = trace (wrld s) ∧ later (wrld s) (wrld s')) s1) as Hreads.
  { intros m Hm. eapply wlp_mono; [|apply Hm]. intros _ s2 (E2 & Et2 & L2). split_and!; [congruence..|by etrans]. }
  unfold handleSecure. destruct r as [error|[id decrypted]].
  { right. split; [done|]. apply wlp_bind. intros x s2 E. rewrite Ed in E. injection E as <- <-. apply Hreads, reads_ret. }
  destruct (decide (field decrypted "type" = QStringLiteral "verify")) as [Hv|Hv].
  - left. exists id, decrypted. split_and!; [done..|]. apply answers_after; [apply decryptRequest_reads|].
    intros x s2 E. rewrite Ed in E. injection E as <- <-.
    rewrite Hv, bool_decide_false, bool_decide_true by done. apply handleVerify_answers.
  - right. split; [done|]. apply wlp_bind. intros x s2 E. rewrite Ed in E. injection E as <- <-.
    rewrite (bool_decide_false _ Hv). apply Hreads. unfold handleChallenge.
    destruct (bool_decide _); [|apply encryptedResponse_reads].
    repeat (reads_step || apply encryptedResponse_reads).
Qed.
(** A [pair] line. *)
Lemma pair_item request socket line s a s' :
  fromJson line = Some (DocObject request) → field request "type" = QStringLiteral "pair" →
  represents a (srv s) → processLine socket line s = Some (tt, s') →
  ∃ oe a', follows s a (option_list oe) s' a' ∧ in_item (Line line s s') oe.
Proof.
  intros Hj Ht H Hrun. eapply (line_item (handlePair request) _ (SawPaired (field request "device_id")));
    [apply handlePair_answers|done|done|exact Hrun|..].
  - unfold processLine. by rewrite Hj, bool_decide_true.
  - unfold deed. rewrite Hj, bool_decide_true by done. unfold pair_deed.
    by rewrite (bool_decide_ext _ _ (observe_paired (said s s') (field request "device_id"))).
Qed.

(** Any other request. *)
Lemma secure_item request socket line s a s' :
  fromJson line = Some (DocObject request) → field request "type" ≠ QStringLiteral "pair" →
  represents a (srv s) → processLine socket line s = Some (tt, s') →
  ∃ oe a', follows s a (option_list oe) s' a' ∧ in_item (Line line s s') oe.
Proof.
  intros Hj Ht H Hrun. pose proof Hrun as Hsecure. unfold processLine in Hsecure.
  rewrite Hj, bool_decide_false in Hsecure by done.
  assert (deed (Line line s s') = secure_deed request s s') as Hdeed
    by (unfold deed; by rewrite Hj, bool_decide_false).
  destruct (decryptRequest request s) as [[r s1]|] eqn:Ed.
  2: { exfalso. unfold handleSecure, mbind, M_bind in Hsecure. by rewrite Ed in Hsecure. }
  destruct (decryptRequest_reads request s _ _ Ed) as (Es1 & Et1 & L1).
  assert (deed (Line line s s') = match r with
    | inr (id, decrypted) =>
        if bool_decide (field decrypted "type" = QStringLiteral "verify")
           && bool_decide (Emit (logMessage (authorized_text id)) ∈ said s s')
        then Some (Granted id (hexField decrypted "nonce")
                     (toLongLong (value decrypted (QStringLiteral "timestamp"))) (hexField decrypted "signature"))
        else None
    | inl _ => None
    end) as Hd by (rewrite Hdeed; unfold secure_deed; by rewrite Ed).
  destruct (handleVerify_line request s r s1 Ed) as [(id & decrypted & -> & Hv & Hm)|Hm].
  - eapply (line_item (handleSecure request) _ (SawLog (authorized_text id)));
      [exact Hm|done|done|exact Hrun| |].
    + unfold processLine. by rewrite Hj, bool_decide_false.
    + rewrite Hd, bool_decide_true by done. cbn [andb].
      by rewrite (bool_decide_ext _ _ (observe_authorized (said s s') id)).
  - destruct Hm as [Hv Hm]. eapply line_silent_at; [exact Hm|exact H|exact Hsecure|].
    rewrite Hd. destruct r as [e|[id decrypted]]; [done|]. by rewrite bool_decide_false.
Qed.

Lemma processLine_item socket line s a s' :
  represents a (srv s) → processLine socket line s = Some (tt, s') →
  ∃ oe a', follows s a (option_list oe) s' a' ∧ in_item (Line line s s') oe.
Proof.
  intros H Hrun. destruct (fromJson line) as [[|l|request]|] eqn:Hj.
  1,2,4: eapply (line_silent_at (mret (errorResponse (QStringLiteral "invalid JSON request"))));
    [intros x s1 [= <- <-]; done|exact H| |by unfold deed; rewrite Hj];
    unfold processLine in Hrun; rewrite Hj in Hrun; exact Hrun.
  destruct (decide (field request "type" = QStringLiteral "pair")); [by eapply pair_item|by eapply secure_item].
Qed.

(** *** Input *)

Lemma follows_buffers f s a evs s' a' :
  follows (on_server (set_buffers f) s) a evs s' a' → follows s a evs s' a'.
Proof. done. Qed.

Lemma processBuffer_follows fuel socket s a s' :
  represents a (srv s) → processBuffer fuel socket s = Some (tt, s') →
  ∃ evs a', follows s a evs s' a' ∧ recorded (lines_handled fuel socket s) evs.
Proof.
  induction fuel as [|fuel IH] in s, a |- *; intros H Hrun; [done|]. cbn [processBuffer lines_handled] in *.
  rewrite server_get_bind in Hrun. fold (bufferOf socket s) in Hrun. cbv zeta.
  set (end_ := int_of_qsizetype (indexOf newline (bufferOf socket s))) in *.
  destruct (bool_decide (end_ >= 0)%Z).
  2: { unfold mret, M_ret in Hrun. simplify_eq. exists [], a. split; [by apply follows_refl|constructor]. }
  apply M_bind_Some in Hrun as (n & s1 & Hn & Hrun). unfold defined in Hn.
  destruct (checked 32 (end_ + 1)) as [n'|] eqn:En; [|done]. apply checked_Some in En as [-> _].
  injection Hn as <- <-. rewrite server_set_bind in Hrun.
  fold (on_server (set_buffers <[socket := drop (Z.to_nat (end_ + 1)) (bufferOf socket s)]>) s) in Hrun.
  fold (set_buffer socket (drop (Z.to_nat (end_ + 1)) (bufferOf socket s)) s) in Hrun.
  set (s0 := set_buffer socket (drop (Z.to_nat (end_ + 1)) (bufferOf socket s)) s) in *.
  assert (represents a (srv s0)) as H0 by by destruct H.
  apply M_bind_Some in Hrun as ([] & s2 & Hline & Hrest). destruct (isEmpty _).
  - unfold mret, M_ret in Hline. injection Hline as <-. destruct (IH s0 a H0 Hrest) as (evs & a' & F & Hr). by exists evs, a'.
  - rewrite Hline. destruct (processLine_item _ _ _ _ _ H0 Hline) as (oe & a1 & F1 & Hi).
    destruct (IH s2 a1 ltac:(apply F1) Hrest) as (evs & a' & F & Hr).
    exists (option_list oe ++ evs), a'. split; [by eapply follows_trans|by constructor].
Qed.

Lemma readClient_follows sender arrived s a s' :
  represents a (srv s) → readClient sender arrived s = Some (tt, s') →
  ∃ evs a', follows s a evs s' a' ∧ recorded (lines_of sender arrived s) evs.
Proof.
  intros H Hrun. unfold readClient in Hrun. destruct sender as [socket|].
  2: { unfold mret, M_ret in Hrun. simplify_eq. exists [], a. split; [by apply follows_refl|constructor]. }
  rewrite server_get_bind, server_set_bind in Hrun.
  eapply (processBuffer_follows _ _ (set_buffer socket (bufferOf socket s ++ arrived) s) a) in Hrun; [exact Hrun|by destruct H].
Qed.

(** ** Steps and runs *)

Lemma operation_follows {A} (m : M Sys A) s a x s' :
  operates m → represents a (srv s) → m s = Some (x, s') →
  ∃ evs a', follows s a evs s' a' ∧ recorded [Operation s s'] evs.
Proof.
  intros Hm H Hrun. destruct (Hm s a H _ _ Hrun) as (oe & a' & F & Hi). exists (option_list oe), a'.
  split; [done|by apply recorded_one].
Qed.

Lemma stepped_follows items s s' a :
  represents a (srv s) → stepped items s s' → ∃ evs a', follows s a evs s' a' ∧ recorded items evs.
Proof.
  intros H Hstep. destruct Hstep as
    [net p b s s' Hp Hr|cl s s' Hr|ad h pl s s' Hr|pe s s' Hr|se ar s s' Hr|se s s' Hr|pe s s' Hr|s s' _ Hr].
  - by eapply operation_follows; [apply start_operates| |exact Hr].
  - by eapply operation_follows; [apply operates_unseen, stop_unseen| |exact Hr].
  - by eapply operation_follows; [apply pairingPayload_operates| |exact Hr].
  - by eapply operation_follows; [apply operates_unseen, acceptConnections_unseen| |exact Hr].
  - by eapply readClient_follows.
  - by eapply operation_follows; [apply operates_unseen, clientDisconnected_unseen| |exact Hr].
  - by eapply operation_follows; [apply operates_unseen, readDatagrams_unseen| |exact Hr].
  - by eapply operation_follows; [apply operates_unseen, broadcastDiscovery_unseen| |exact Hr].
Qed.

(** The simulation, for a run with its history. *)
Lemma served_follows items s s' a :
  represents a (srv s) → served s items s' → ∃ evs a', follows s a evs s' a' ∧ recorded items evs.
Proof.
  intros H Hserved. induction Hserved as [s|items1 items2 s s1 s' Hstep _ IH] in a, H |- *.
  { exists [], a. split; [by apply follows_refl|constructor]. }
  destruct (stepped_follows _ _ _ _ H Hstep) as (evs1 & a1 & F1 & R1).
  destruct (IH a1 ltac:(apply F1)) as (evs2 & a2 & F2 & R2). exists (evs1 ++ evs2), a2.
  split; [by eapply follows_trans|by apply recorded_app].
Qed.

Lemma Server_new_represents w v w' : Server_new w = Some (v, w') → represents initial_protocol v.
Proof.
  unfold Server_new. intros (r & w1 & _ & H)%M_bind_Some.
  apply M_bind_Some in H as ([keys err] & w2 & _ & H). unfold mret, M_ret in H. simplify_eq.
  by split.
Qed.

Lemma new_served w v w' items s' :
  Server_new w = Some (v, w') → served (mkSys v w') items s' →
  ∃ evs a, follows (mkSys v w') initial_protocol evs s' a ∧ recorded items evs.
Proof. intros Hnew. apply served_follows. by eapply Server_new_represents. Qed.

Lemma new_run_follows w v w' s' :
  Server_new w = Some (v, w') → rtc server_step (mkSys v w') s' →
  ∃ evs a, follows (mkSys v w') initial_protocol evs s' a.
Proof. intros Hnew [items H]%served_iff. destruct (new_served _ _ _ _ _ Hnew H) as (evs & a & F & _). eauto. Qed.

(** C2: The server refines the protocol: whatever slots, timer events and calls run, in
    whatever order and on whatever input, there is a run of the protocol that ends in a state
    the server represents, shows exactly what the server showed (the devices reported as
    connected, the log lines that begin with [device ]), and whose times are readings of the
    server's clock, in their order. *)
Theorem server_refines_protocol w v w' s' :
  Server_new w = Some (v, w') → rtc server_step (mkSys v w') s' →
  ∃ evs a,
    prun valid_signature initial_protocol evs a ∧ represents a (srv s') ∧
    observe (trace (wrld s')) = observe (trace w) ++ shown evs ∧
    stamped (clock w) (clock_reads w') evs (clock_reads (wrld s')).
Proof.
  intros Hnew Hsteps. destruct (new_run_follows _ _ _ _ Hnew Hsteps) as (evs & a & H1 & H2 & H3 & _ & H5).
  destruct (Server_new_trace _ _ _ Hnew) as [Et Ec]. cbn [wrld] in *. rewrite Et in H3. rewrite Ec in H5.
  exists evs, a. by split_and!.
Qed.

End Operations.

(** ** A complete login over the socket *)

Section Login.
Context `{Q : QtCore} `{O : OpenSSL} {QL : QtLaws Q} {OS : OpenSSLSizes O} {GC : GcmCorrect O}.
Implicit Types (s : Sys).

(** One line of JSON that arrives on a socket with nothing pending is one call of
    [processLine]. *)
Lemma readClient_json socket o s :
  buffers_ (srv s) !! socket = Some [] → (Z.of_nat (length (toJson o)) < 2 ^ 31 - 1)%Z →
  readClient (Some socket) (toJson o ++ [newline]) s = processLine socket (toJson o) s.
Proof.
  intros Hb Hlen. assert (bufferOf socket s = []) as Eb by (unfold bufferOf; by rewrite Hb).
  rewrite readClient_lines; rewrite Eb; [|cbn [app]; rewrite length_app; cbn [length]; lia]. cbn [app].
  rewrite split_lines_newline by apply toJson_one_line. cbn [split_lines fst snd for_each].
  assert (set_buffer socket [] s = s) as ->.
  { pose proof (set_buffer_id socket s) as E. rewrite Eb in E. apply E. by eexists. }
  unfold handleLine. rewrite trimmed_toJson.
  pose proof (proj2 (isEmpty_false _) (toJson_nonempty o)) as ->.
  unfold mbind, M_bind, mret, M_ret. by destruct (processLine socket (toJson o) s) as [[[] s']|].
Qed.

(** A signed answer that arrives as a line is logged as an authorization. *)
Lemma login_logged socket id key signingKey nonce timestamp signature nonce2 e s :
  (∀ iv aad plaintext, is_Some (gcm_seal key iv aad plaintext)) →
  sessionKeys_ (srv s) !! id = Some key → length key = 32 → plain_string id →
  pairedKeys_ (srv s) !! id = Some signingKey → nonce ≠ [] → in_range 64 timestamp →
  (Z.abs (timestamp - reading (wrld s) 0) <= 30)%Z →
  in_range 64 (reading (wrld s) 1 - lastCleanup_ (replayGuard_ (srv s))) →
  token nonce timestamp ∉ seen_ (replayGuard_ (srv s)) →
  signature_ok signingKey (nonce ++ timestampBytes timestamp) signature →
  length nonce2 = 12 → seal id key nonce2 (verify_request nonce timestamp signature) = Some e →
  buffers_ (srv s) !! socket = Some [] → (Z.of_nat (length (toJson e)) < 2 ^ 31 - 1)%Z →
  ∃ s' data, readClient (Some socket) (toJson e ++ [newline]) s = Some (tt, s') ∧
    trace (wrld s') = trace (wrld s) ++ [Emit (logMessage (authorized_text id)); SocketWrite socket data].
Proof.
  intros Hgcm Hs Hk Hid Hp Hn Hr Hf Hr2 Ht Hsig Hn2 He Hb Hlen. rewrite readClient_json by done.
  edestruct (verify_exchange id key signingKey nonce timestamp signature nonce2 e s) as (r & s1 & Hrun & _ & Htr); try done.
  unfold seal in He. apply bind_Some in He as ([ct t] & _ & [= <-]).
  assert (plain_object (secure_envelope id nonce2 ct t)) as Hpl by (apply plain_json; plain_members; by apply Forall_nil).
  unfold processLine. rewrite fromJson_toJson by done.
  destruct (secure_envelope_fields id nonce2 ct t) as (-> & _). rewrite bool_decide_false by done.
  rewrite (bind_run _ _ _ _ _ Hrun). eexists _, _. split; [done|]. cbn. rewrite Htr, <- app_assoc.
  unfold authorized_line. by rewrite authorized_text_arg.
Qed.
End Login.

(** *** Witnesses *)

(** A device pairs over its socket and is then authorized. *)
Definition demo_pair_line : QByteArray := toJson (pair_request demo_code) ++ [newline].
Definition demo_with_phone : Sys := after (readClient (Some demo_socket) demo_pair_line) demo_accepted.
Strategy expand [demo_with_phone].

Lemma demo_pair_line_run : readClient (Some demo_socket) demo_pair_line demo_accepted = Some (tt, demo_with_phone).
Proof.
  assert (fst <$> readClient (Some demo_socket) demo_pair_line demo_accepted = Some tt) as H by vm_eq.
  exact (run_after tt (readClient (Some demo_socket) demo_pair_line) demo_accepted H).
Qed.

Definition demo_login_envelope : QJsonObject :=
  default ∅ (seal demo_id demo_secret demo_nonce2 (verify_request demo_nonce demo_time demo_signature)).

Lemma demo_login : ∃ s' data,
  readClient (Some demo_socket) (toJson demo_login_envelope ++ [newline]) demo_with_phone = Some (tt, s') ∧
  trace (wrld s') = trace (wrld demo_with_phone) ++
    [Emit (logMessage (authorized_text demo_id)); SocketWrite demo_socket data].
Proof.
  apply (login_logged demo_socket demo_id demo_secret demo_signing_key demo_nonce demo_time demo_signature demo_nonce2).
  - apply ref_seal_always.
  - vm_eq.
  - exact demo_secret_length.
  - apply (bool_decide_unpack _). vm_compute. exact I.
  - vm_eq.
  - discriminate.
  - apply (bool_decide_unpack _). vm_compute. exact I.
  - rewrite (still_reading _ 1700000000%Z) by vm_eq. unfold demo_time. lia.
  - apply (bool_decide_unpack _). vm_compute. exact I.
  - apply (bool_decide_unpack _). vm_compute. exact I.
  - exact demo_signature_ok.
  - reflexivity.
  - unfold demo_login_envelope.
    destruct (seal_always demo_id demo_secret demo_nonce2 (verify_request demo_nonce demo_time demo_signature)) as [e ->];
      [apply ref_seal_always|done].
  - vm_eq.
  - vm_compute. reflexivity.
Qed.

Lemma demo_login_steps s' :
  readClient (Some demo_socket) (toJson demo_login_envelope ++ [newline]) demo_with_phone = Some (tt, s') →
  rtc server_step (mkSys (srv demo_new) (wrld demo_new)) s'.
Proof.
  intros H. rewrite sys_eta. eapply rtc_l; [apply (step_start demo_net 43295 true _ demo_started); [lia|exact demo_start_run]|].
  eapply rtc_l; [apply (step_newConnection [(demo_socket, QStringLiteral "127.0.0.1")] _ demo_accepted); exact demo_accept_run|].
  eapply rtc_l; [apply (step_readyRead (Some demo_socket) demo_pair_line); exact demo_pair_line_run|].
  eapply rtc_l; [eapply step_readyRead; exact H|]. apply rtc_refl.
Qed.

Lemma server_refines_protocol_witness :
  ∃ s' evs a,
    prun valid_signature initial_protocol evs a ∧ represents a (srv s') ∧
    observe (trace (wrld s')) = observe (trace demo_world) ++ shown evs ∧
    stamped (clock demo_world) (clock_reads (wrld demo_new)) evs (clock_reads (wrld s')).
Proof.
  destruct demo_login as (s' & _ & Hrun & _). exists s'.
  apply (server_refines_protocol demo_world (srv demo_new) (wrld demo_new)); [exact demo_new_run|].
  by apply demo_login_steps.
Defined.
