(* ===== verification/ServerPromises.v ===== *)
(** * What the histories of the server are worth

    The theorems of [Protocol], carried over to the requests the server received:
    a code admits one device, a message is honoured at most three times, and a log
    line [device X authorized] goes back to a signature that was checked under the
    key X presented when it was paired last. *)
From stdpp Require Import base gmap sets list strings relations.
From Stdlib Require Import ZArith Lia.
From S2P Require Import Prelude Qt World Crypto Reference CryptoTheorems ReplayGuard ReplayTheorems Server Scenario ServerLemmas ServerStream ServerInvariant ServerPairing ServerAuth ServerHistory ServerSession ServerReplies Protocol ServerRefinement.

Section Promises.
Context `{Q : QtCore} `{O : OpenSSL} {QL : QtLaws Q} {OS : OpenSSLSizes O}.
Implicit Types (s : Sys) (a : Protocol) (evs : list PEvent) (items : list Item).

(** ** From the last event to the last item *)

(** The last event of a kind [P] is the last item whose deed is of the kind [D]. *)
Lemma recorded_last (P : PEvent → Prop) (D : Deed → Prop) items evs e :
  recorded items evs → last_such P e evs → (∀ e d, deed_of e = Some d → D d → P e) →
  ∃ items1 i items2, items = items1 ++ i :: items2 ∧ matches i e ∧
    Forall (λ i, ∀ d, deed i = Some d → ¬ D d) items2.
Proof.
  intros Hrec (evs1 & evs2 & -> & _ & Hno) HD.
  destruct (recorded_event _ _ _ _ Hrec) as (items1 & i & items2 & -> & Hi & _ & H2).
  exists items1, i, items2. split_and!; [done..|]. apply Forall_forall. intros j Hj d Hd Hdd.
  destruct (recorded_deed _ _ _ _ H2 Hj Hd) as (e' & He' & Hde). rewrite Forall_forall in Hno.
  exact (Hno _ He' (HD _ _ Hde Hdd)).
Qed.

(** ** One code, one device *)

(** C11: One code, one device: a device that pairs presenting a code presents the one that was
    made last, from a random number drawn by [start] or [pairingPayload], at most 300 seconds
    before by the server's clock; between the two no other code was made and no device paired.
    (A device that pairs without a code does so after such a pairing, see
    [pairing_reopened_by_empty_code].) *)
Theorem pairing_takes_last_code w v w' s' items1 p items2 id key code :
  Server_new w = Some (v, w') → served (mkSys v w') (items1 ++ p :: items2) s' →
  deed p = Some (Enrolled id key code) → code ≠ [] →
  ∃ earlier s1 s2 between made now,
    items1 = earlier ++ Operation s1 s2 :: between ∧ deed (Operation s1 s2) = Some (Issued code made) ∧
    newPairingCode (wrld s1) = Some (code, drawn 1 (wrld s1)) ∧
    Forall (λ i, ∀ d, deed i = Some d → ¬ takes_code d) between ∧
    shown_during (Operation s1 s2) made ∧ shown_during p now ∧ (now - made <= 300)%Z.
Proof.
  intros Hnew Hserved Hd Hcode. destruct (new_served _ _ _ _ _ Hnew Hserved) as (evs & a & (Hrun & _) & Hrec).
  apply recorded_item in Hrec as (evs1 & [e|] & evs2 & -> & Hp & Hrec1); cbn [in_item] in Hp; [|congruence].
  destruct Hp as [Hpd _ (k1 & k2 & Hk1 & Hk2 & Hsp)]. rewrite Hd in Hpd.
  destruct e as [|i k c t|i k t| |]; try discriminate Hpd; cbn [deed_of] in Hpd;
    [|injection Hpd as _ _ ->; done]. injection Hpd as -> -> ->.
  destruct (pairing_uses_last_code _ _ _ _ _ _ _ _ Hrun) as (made & Hlast & Hage).
  destruct (recorded_last _ takes_code _ _ _ Hrec1 Hlast) as (earlier & o & between & -> & Ho & Hno).
  { intros [] d; cbn; intros [= <-]; done. }
  destruct Ho as [Hod Hok (m1 & m2 & Hm1 & Hm2 & Hms)]. destruct o as [|s1 s2]; [done|].
  exists earlier, s1, s2, between, made, t. cbn in Hms, Hsp. injection Hms as -> _. injection Hsp as -> _.
  split_and!; try done; [eexists; split; [|done]; lia..].
Qed.

(** ** How often a message is honoured *)

Lemma times_app nonce ts evs1 evs2 : times nonce ts (evs1 ++ evs2) = times nonce ts evs1 + times nonce ts evs2.
Proof. unfold times. by rewrite filter_app, length_app. Qed.

Lemma recorded_times nonce ts items evs : recorded items evs → times_granted nonce ts items ≤ times nonce ts evs.
Proof.
  induction 1 as [|i oe items evs Hi _ IH]; [done|]. rewrite times_app. unfold times_granted in *.
  change (omap deed (i :: items)) with (match deed i with Some d => d :: omap deed items | None => omap deed items end).
  assert (∀ d, deed i = Some d → grants nonce ts d = true → times nonce ts (option_list oe) = 1) as Hone.
  { intros d Hd Hg. destruct oe as [e|]; cbn [in_item] in Hi; [|congruence]. destruct Hi as [Hde _ _].
    pose proof (times_snoc nonce ts [] e) as Ht. cbn [app] in Ht.
    change (times nonce ts [e] = 1). rewrite Ht. rewrite Hd in Hde.
    destruct e; cbn in Hde; simplify_eq; cbn [spends grants] in *; try done. by rewrite Hg. }
  destruct (deed i) as [d|]; [|lia]. rewrite filter_cons. case_decide as Hg; [|lia].
  cbn [length]. rewrite (Hone d eq_refl Hg). lia.
Qed.

Lemma recorded_prompt items evs : recorded items evs → Forall unhurried items → Forall prompt evs.
Proof.
  induction 1 as [|i oe items evs Hi _ IH]; [done|]. intros [Hu Hus]%Forall_cons. apply Forall_app. split; [|by apply IH].
  destruct oe as [e|]; [|by constructor]. repeat constructor. destruct Hi as [_ Hk (k1 & k2 & H1 & H2 & E)].
  unfold prompt. destruct i as [line s s'|s s'].
  - rewrite E. cbn [fst snd before]. cbn in H1, H2. apply Hu; lia.
  - destruct e; try done. cbn. lia.
Qed.

(** C10: On a clock that does not go back the requests with one nonce and time stamp are
    authorized at most three times, for whatever device, however long the server runs and
    whatever it is sent, and at most twice if the clock moves at most a second during each
    request: the forgetful replay guard does not make replays unbounded. *)
Theorem message_honoured_at_most_thrice w v w' items s' nonce ts :
  Server_new w = Some (v, w') → (∀ m n, m ≤ n → (clock w m <= clock w n)%Z) →
  served (mkSys v w') items s' →
  times_granted nonce ts items ≤ 3 ∧ (Forall unhurried items → times_granted nonce ts items ≤ 2).
Proof.
  intros Hnew Hmono Hserved. destruct (new_served _ _ _ _ _ Hnew Hserved) as (evs & a & (Hrun & _ & _ & _ & Hst) & Hrec).
  destruct (Server_new_trace _ _ _ Hnew) as [_ Ec]. cbn [wrld] in *. rewrite Ec in Hst.
  pose proof (recorded_times nonce ts _ _ Hrec) as Hle.
  destruct (spent_at_most_thrice _ _ (clock w (clock_reads w')) _ nonce ts Hrun) as [H3 H2].
  { by eapply stamped_ordered; [exact Hmono|reflexivity|]. }
  split; [lia|]. intros Hu%(recorded_prompt _ _ Hrec). specialize (H2 Hu). lia.
Qed.

(** ** Authorizations *)

Lemma recorded_granted items evs a id key nonce ts signature fresh locked evs1 evs2 :
  recorded items evs → prun valid_signature initial_protocol evs a →
  evs = evs1 ++ Authorized id key nonce ts signature fresh locked :: evs2 → vouched id items.
Proof.
  intros Hrec Hrun ->. destruct (recorded_event _ _ _ _ Hrec) as (items1 & i & items2 & -> & Hi & Hrec1 & _).
  destruct (authorization_earned _ _ _ _ _ _ _ _ _ _ _ Hrun) as (Hv & Hn & Hf & e & Hlast & He).
  destruct (recorded_last _ (λ d, ∃ key code, d = Enrolled id key code) _ _ _ Hrec1 Hlast)
    as (items11 & p & items12 & -> & Hp & Hno).
  { intros e' d Hde (k & c & ->). destruct e'; cbn in Hde; simplify_eq; by eexists. }
  destruct Hi as [Hid _ (k1 & k2 & Hk1 & Hk2 & Hsp)]. destruct Hp as [Hpd _ _].
  exists (items11 ++ p :: items12), i, items2, key, nonce, ts, signature, fresh.
  injection Hsp as -> _. split_and!; [done|by rewrite Hid| |done|done|eexists; split; [|done]; lia|done].
  assert (∃ code, deed p = Some (Enrolled id key code)) as [code Hcode].
  { rewrite Hpd. destruct e; cbn in He |- *; simplify_eq; eauto. }
  exists items11, p, code, items12. split_and!; [done..|]. eapply Forall_impl; [exact Hno|].
  intros j Hj k c Hd. by eapply Hj; [exact Hd|eexists _, _].
Qed.

(** A line [device X authorized] in the log, and what its history owes for it. *)
Lemma logged_vouched w v w' items s' id :
  Server_new w = Some (v, w') → trace w = [] → served (mkSys v w') items s' →
  Emit (logMessage (authorized_text id)) ∈ trace (wrld s') → vouched id items.
Proof.
  intros Hnew Hw Hserved Hin. destruct (new_served _ _ _ _ _ Hnew Hserved) as (evs & a & (Hrun & _ & Ho & _) & Hrec).
  destruct (Server_new_trace _ _ _ Hnew) as [Et _]. cbn [wrld] in *. rewrite Et, Hw in Ho. cbn [app] in Ho.
  apply observe_authorized in Hin. rewrite Ho in Hin. unfold shown in Hin. apply list_elem_of_bind in Hin as (e & He & Hev).
  apply list_elem_of_split in Hev as (evs1 & evs2 & ->).
  destruct e as [| | |i key nonce ts signature fresh locked|]; cbn in He; try by apply not_elem_of_nil in He.
  1,2: by apply list_elem_of_singleton in He. apply list_elem_of_singleton in He as [= Heq].
  apply app_inv_tail in Heq as ->. by eapply recorded_granted.
Qed.
End Promises.

(** *** Witnesses *)

(** The history of a device that connects, pairs and is authorized. *)
Definition demo_login_line : QByteArray := toJson demo_login_envelope ++ [newline].
Definition demo_paired_items : list Item := lines_of (Some demo_socket) demo_pair_line demo_accepted.
Definition demo_login_items : list Item := lines_of (Some demo_socket) demo_login_line demo_with_phone.
Definition demo_items : list Item :=
  [Operation demo_new demo_started] ++ [Operation demo_started demo_accepted] ++
  demo_paired_items ++ demo_login_items ++ [].

Lemma demo_login_served :
  ∃ s', served (mkSys (srv demo_new) (wrld demo_new)) demo_items s'.
Proof.
  destruct demo_login as (s' & data & Hrun & _). exists s'.
  rewrite sys_eta. eapply served_step; [apply (stepped_start demo_net 43295 true); [lia|exact demo_start_run]|].
  eapply served_step; [apply (stepped_newConnection [(demo_socket, QStringLiteral "127.0.0.1")]); exact demo_accept_run|].
  eapply served_step; [apply (stepped_readyRead (Some demo_socket) demo_pair_line); exact demo_pair_line_run|].
  eapply served_step; [apply (stepped_readyRead (Some demo_socket) demo_login_line); exact Hrun|].
  apply served_nil.
Qed.

(** An item with the deed [d]. *)
Lemma deed_item (items : list Item) d :
  d ∈ omap deed items → ∃ items1 i items2, items = items1 ++ i :: items2 ∧ deed i = Some d.
Proof.
  intros (i & Hi & Hd)%list_elem_of_omap.
  apply list_elem_of_split in Hi as (items1 & items2 & ->). by exists items1, i, items2.
Qed.

Definition demo_pairing_items : list Item :=
  [Operation demo_new demo_started] ++ [Operation demo_started demo_accepted] ++ demo_paired_items ++ [].

Lemma demo_pairing_served :
  served (mkSys (srv demo_new) (wrld demo_new))
    demo_pairing_items demo_with_phone.
Proof.
  rewrite sys_eta. eapply served_step; [apply (stepped_start demo_net 43295 true); [lia|exact demo_start_run]|].
  eapply served_step; [apply (stepped_newConnection [(demo_socket, QStringLiteral "127.0.0.1")]); exact demo_accept_run|].
  eapply served_step; [apply (stepped_readyRead (Some demo_socket) demo_pair_line); exact demo_pair_line_run|].
  apply served_nil.
Qed.

Lemma demo_pair_deed : Enrolled demo_id demo_signing_key demo_code ∈ omap deed demo_pairing_items.
Proof.
  assert (omap deed demo_pairing_items !! 1 = Some (Enrolled demo_id demo_signing_key demo_code)) as H by vm_eq.
  by apply list_elem_of_lookup_2 in H.
Qed.

Lemma pairing_takes_last_code_witness :
  ∃ items1 p items2 earlier s1 s2 between made now,
    deed p = Some (Enrolled demo_id demo_signing_key demo_code) ∧
    served (mkSys (srv demo_new) (wrld demo_new)) (items1 ++ p :: items2) demo_with_phone ∧
    items1 = earlier ++ Operation s1 s2 :: between ∧ deed (Operation s1 s2) = Some (Issued demo_code made) ∧
    newPairingCode (wrld s1) = Some (demo_code, drawn 1 (wrld s1)) ∧
    Forall (λ i, ∀ d, deed i = Some d → ¬ takes_code d) between ∧
    shown_during (Operation s1 s2) made ∧ shown_during p now ∧ (now - made <= 300)%Z.
Proof.
  destruct (deed_item _ _ demo_pair_deed) as (items1 & p & items2 & E & Hp). pose proof demo_pairing_served as Hserved.
  rewrite E in Hserved. exists items1, p, items2.
  destruct (pairing_takes_last_code demo_world (srv demo_new) (wrld demo_new) demo_with_phone items1 p items2 demo_id
    demo_signing_key demo_code demo_new_run Hserved Hp) as (earlier & s1 & s2 & between & made & now & H).
  - vm_compute. discriminate.
  - exists earlier, s1, s2, between, made, now. split; [exact Hp|]. split; [exact Hserved|]. exact H.
Defined.

Lemma message_honoured_at_most_thrice_witness :
  ∃ s', served (mkSys (srv demo_new) (wrld demo_new)) demo_items s' ∧
    times_granted demo_nonce demo_time demo_items = 1 ∧
    times_granted demo_nonce demo_time demo_items ≤ 3 ∧
    (Forall unhurried demo_items → times_granted demo_nonce demo_time demo_items ≤ 2).
Proof.
  destruct demo_login_served as [s' Hserved]. exists s'. split; [exact Hserved|]. split; [vm_eq|].
  apply (message_honoured_at_most_thrice demo_world (srv demo_new) (wrld demo_new) demo_items s');
    [exact demo_new_run|done|exact Hserved].
Defined.
