(* ===== verification/Pam.v ===== *)
(** * The PAM module (src/linux-pam/pam_openbiounlock.c)

    The module runs in the process that logs a user in: it sends one request
    line to the daemon's Unix socket and waits for one response line.  The
    kernel is the parameter [Kernel]: its [n]-th answer is arbitrary.  Arrays
    are byte lists of their declared size, written through [buf_write], so that
    a write out of bounds has no result.  The loops take fuel: [fuel] for the
    iterations of [write_all] and [read_line], [polls] for the [poll] calls of
    one [wait_for_io]; a loop that runs out of fuel has no result either. *)
From stdpp Require Import base gmap sets list strings.
From Stdlib Require Import ZArith Lia.
From S2P Require Import Prelude.

(** ** The kernel and the state of the module *)

(** The last component of every answer is [errno] after the call. *)
Class Kernel : Type := {
  sys_poll : nat → Z → Z → (Z * Z) * Z;          (* result, revents *)
  sys_write : nat → Z → list byte → Z * Z;
  sys_read : nat → Z → (Z * byte) * Z;           (* result, the byte stored *)
  sys_socket : nat → Z * Z;
  sys_connect : nat → Z → list byte → Z * Z;
}.

Definition EINTR : Z := 4.
Definition POLLIN : Z := 1.
Definition POLLOUT : Z := 4.
Definition PAM_SUCCESS : Z := 0.
Definition PAM_SERVICE_ERR : Z := 3.
Definition PAM_AUTH_ERR : Z := 7.

Inductive PamEvent : Type :=
  | Opened (fd : Z)
  | Connected (fd : Z) (path : list byte)
  | Sent (fd : Z) (data : list byte)
  | Received (fd : Z) (b : byte)
  | Closed (fd : Z).

Record PamState : Type := mkPam {
  errno : Z;
  calls : nat;                (* answers of the kernel used so far *)
  socket_path : list byte;    (* the static pointer, as the string it points to *)
  log : list PamEvent;
}.

(** What [socket_path] points to when the module is loaded. *)
Definition initial_socket_path : list byte := bytes "/var/run/openbiounlock.sock".

(** ** C strings *)

(** The string in an array; reading past an array without a NUL is undefined. *)
Definition c_string (array : list byte) : option (list byte) :=
  match index_of nul array with Some i => Some (take i array) | None => None end.

Fixpoint strstr (haystack needle : list byte) : option nat :=
  if decide (needle `prefix_of` haystack) then Some 0
  else match haystack with
       | [] => None
       | _ :: haystack => S <$> strstr haystack needle
       end.

(** The quotation mark, which string literals below cannot contain. *)
Definition quote : list byte := [Init.Byte.x22].

Definition type_authorized : list byte :=
  quote ++ bytes "type" ++ quote ++ bytes ":" ++ quote ++ bytes "authorized" ++ quote.
Definition authorized_true : list byte := quote ++ bytes "authorized" ++ quote ++ bytes ":true".

(** [snprintf(request, 512, ...)]: the text, and the length it returns (negative when it
    does not fit an [int]). *)
Definition request_text (username : list byte) : list byte :=
  bytes "{" ++ quote ++ bytes "type" ++ quote ++ bytes ":" ++ quote ++ bytes "authorize" ++ quote ++
  bytes "," ++ quote ++ bytes "user" ++ quote ++ bytes ":" ++ quote ++ username ++ quote ++ bytes "}" ++ [newline].
Definition snprintf_length (text : list byte) : Z :=
  if bool_decide (Z.of_nat (length text) < 2 ^ 31)%Z then Z.of_nat (length text) else -1.

(** The loop over [argv]: each [socket] is followed by the path it names. *)
Fixpoint parse_args (argv : list (list byte)) (path : list byte) : list byte :=
  match argv with
  | arg :: ((next :: rest) as tail) =>
      if decide (arg = bytes "socket") then parse_args rest next else parse_args tail path
  | _ => path
  end.

(** [strncpy(address.sun_path, socket_path, sizeof(address.sun_path) - 1)] into 108 zero bytes. *)
Definition sun_path (path : list byte) : list byte := take 107 path.

Section Pam.
Context `{K : Kernel}.

Definition syscall {A} (answer : nat → A * Z) : M PamState A := λ s,
  let '(a, e) := answer (calls s) in
  Some (a, mkPam e (S (calls s)) (socket_path s) (log s)).
Definition record (e : PamEvent) : M PamState unit :=
  modify (λ s, mkPam (errno s) (calls s) (socket_path s) (log s ++ [e])).

Fixpoint wait_for_io (polls : nat) (fd events : Z) : M PamState Z :=
  match polls with
  | 0 => undefined
  | S polls =>
      '(result, revents) ← syscall (λ n, sys_poll n fd events);
      error ← gets errno;
      if bool_decide (result < 0)%Z && bool_decide (error = EINTR) then wait_for_io polls fd events
      else mret (if bool_decide (result = 1)%Z && negb (bool_decide (Z.land revents events = 0)%Z)
                 then 0 else -1)%Z
  end.

(** The loop of [write_all], entered at [offset]. *)
Fixpoint write_all (fuel polls : nat) (fd : Z) (data : list byte) (offset : nat) : M PamState Z :=
  if offset <? length data then
    match fuel with
    | 0 => undefined
    | S fuel =>
        ready ← wait_for_io polls fd POLLOUT;
        if negb (bool_decide (ready = 0)%Z) then mret (-1)%Z
        else
          written ← syscall (λ n, sys_write n fd (drop offset data));
          error ← gets errno;
          if bool_decide (written <= 0)%Z then
            if bool_decide (error = EINTR) then write_all fuel polls fd data offset
            else mret (-1)%Z
          else
            record (Sent fd (take (Z.to_nat written) (drop offset data))) ;;
            write_all fuel polls fd data (offset + Z.to_nat written)
    end
  else mret 0%Z.

(** The loop of [read_line], entered at [length]; the array is part of the result. *)
Fixpoint read_line (fuel polls : nat) (fd : Z) (buffer : list byte) (capacity length : nat)
    : M PamState (Z * list byte) :=
  if length + 1 <? capacity then
    match fuel with
    | 0 => undefined
    | S fuel =>
        ready ← wait_for_io polls fd POLLIN;
        if negb (bool_decide (ready = 0)%Z) then mret ((-1)%Z, buffer)
        else
          '(received, byte) ← syscall (λ n, sys_read n fd);
          error ← gets errno;
          if bool_decide (received = 0)%Z then mret ((-1)%Z, buffer)
          else if bool_decide (received < 0)%Z then
            if bool_decide (error = EINTR) then read_line fuel polls fd buffer capacity length
            else mret ((-1)%Z, buffer)
          else
            record (Received fd byte) ;;
            if decide (byte = newline) then
              buffer ← defined (buf_write buffer length [nul]);
              mret (0%Z, buffer)
            else
              buffer ← defined (buf_write buffer length [byte]);
              read_line fuel polls fd buffer capacity (length + 1)
    end
  else mret ((-1)%Z, buffer).

Definition response_is_authorized (response : list byte) : M PamState bool :=
  text ← defined (c_string response);
  mret (bool_decide (is_Some (strstr text type_authorized)) &&
        bool_decide (is_Some (strstr text authorized_true))).

(** [response]: the contents of the uninitialized array. *)
Definition converse (fuel polls : nat) (fd : Z) (username response : list byte) : M PamState Z :=
  let request := request_text username in
  let length := snprintf_length request in
  if negb (bool_decide (0 < length)%Z && bool_decide (length < 512)%Z) then mret (-1)%Z
  else
    sent ← write_all fuel polls fd (take (Z.to_nat length) request) 0;
    if negb (bool_decide (sent = 0)%Z) then mret (-1)%Z
    else
      '(received, response) ← read_line fuel polls fd response 1024 0;
      if negb (bool_decide (received = 0)%Z) then mret (-1)%Z
      else
        authorized ← response_is_authorized response;
        mret (if authorized : bool then 0 else -1)%Z.

(** [user]: what [pam_get_user] returns and stores. *)
Definition pam_sm_authenticate (fuel polls : nat) (user : Z * option (list byte))
    (argv : list (list byte)) (response : list byte) : M PamState Z :=
  match user with
  | (0%Z, Some username) =>
      modify (λ s, mkPam (errno s) (calls s) (parse_args argv (socket_path s)) (log s)) ;;
      fd ← syscall sys_socket;
      if bool_decide (fd < 0)%Z then mret PAM_AUTH_ERR
      else
        record (Opened fd) ;;
        path ← gets socket_path;
        result ← syscall (λ n, sys_connect n fd (sun_path path));
        result ← (if bool_decide (result = 0)%Z
                  then record (Connected fd (sun_path path)) ;; converse fuel polls fd username response
                  else mret result);
        record (Closed fd) ;;
        mret (if bool_decide (result = 0)%Z then PAM_SUCCESS else PAM_AUTH_ERR)
  | _ => mret PAM_AUTH_ERR
  end.

Definition pam_sm_setcred : Z := PAM_SUCCESS.
Definition pam_sm_acct_mgmt : Z := PAM_SUCCESS.
Definition pam_sm_open_session : Z := PAM_SUCCESS.
Definition pam_sm_close_session : Z := PAM_SUCCESS.
Definition pam_sm_chauthtok : Z := PAM_SERVICE_ERR.
End Pam.
