(* ===== verification/PamTheorems.v ===== *)
(** * What the PAM module guarantees

    When it reports success, what it sends, that it closes its socket, that it
    returns, and three inputs on which textual matching of JSON goes wrong. *)
From stdpp Require Import base gmap sets list strings.
From Stdlib Require Import ZArith Lia.
From S2P Require Import Prelude Pam.

(** ** Strings *)

Lemma strstr_spec haystack needle :
  is_Some (strstr haystack needle) ↔ ∃ a b, haystack = a ++ needle ++ b.
Proof.
  induction haystack as [|x haystack IH]; simpl; case_decide as Hp.
  - split; [|by eexists]. intros _. destruct Hp as [k Hk]. by exists [], k.
  - split; [by intros [? [=]]|]. intros ([|y a] & b & E); [|done]. exfalso. apply Hp. by exists b.
  - split; [|by eexists]. intros _. destruct Hp as [k ->]. by exists [], k.
  - rewrite fmap_is_Some, IH. split.
    + intros (a & b & ->). by exists (x :: a), b.
    + intros ([|y a] & b & E); [exfalso; apply Hp; by exists b|].
      injection E as -> ->. by exists a, b.
Qed.

Lemma c_string_line line rest : c_string (line ++ nul :: rest) = Some (c_str line).
Proof.
  unfold c_string, c_str. destruct (index_of nul line) as [i|] eqn:E.
  - rewrite (index_of_app_l _ _ _ _ E). rewrite take_app_le; [done|].
    apply index_of_lt in E. lia.
  - apply index_of_None in E.
    assert (index_of nul (line ++ nul :: rest) = Some (length line)) as ->.
    { apply index_of_Some. by exists line, rest. }
    by rewrite take_app_length.
Qed.

(** The text check, on the c_str part of the line. *)
Definition says_authorized (line : list byte) : Prop :=
  (∃ a b, c_str line = a ++ type_authorized ++ b) ∧ (∃ a b, c_str line = a ++ authorized_true ++ b).

(** ** What the loops do, whatever the kernel answers *)

Section Loops.
Context `{K : Kernel}.
Implicit Types (s : PamState).

Definition same_log (s s' : PamState) : Prop := log s' = log s ∧ socket_path s' = socket_path s.

(** One more event sequence in the log, the path unchanged. *)
Definition logged (evs : list PamEvent) (s s' : PamState) : Prop :=
  log s' = log s ++ evs ∧ socket_path s' = socket_path s.

Lemma wlp_syscall {A} (answer : nat → A * Z) (P : A → PamState → Prop) s :
  (∀ a s', same_log s s' → P a s') → wlp (syscall answer) P s.
Proof.
  intros H a s'. unfold syscall. destruct (answer (calls s)) as [a' e]. intros [= <- <-]. by apply H.
Qed.

Lemma wait_for_io_spec polls fd events s :
  wlp (wait_for_io polls fd events) (λ r s', (r = 0%Z ∨ r = (-1)%Z) ∧ same_log s s') s.
Proof.
  induction polls as [|polls IH] in s |- *; [done|]. cbn [wait_for_io].
  apply wlp_bind, wlp_syscall. intros [result revents] s1 [H1 H2].
  apply wlp_bind, wlp_gets, wlp_if; intros _.
  - eapply wlp_mono; [|apply IH]. unfold same_log. intros r s'. rewrite H1, H2. tauto.
  - apply wlp_ret. split; [|done]. destruct (_ && _); tauto.
Qed.

(** [write_all] sends a prefix of the data, in order, and all of it exactly when it
    returns 0. *)
Lemma write_all_spec fuel polls fd data offset s :
  wlp (write_all fuel polls fd data offset) (λ r s', ∃ chunks,
    logged (Sent fd <$> chunks) s s' ∧ concat chunks `prefix_of` drop offset data ∧
    (r = 0%Z ↔ concat chunks = drop offset data)) s.
Proof.
  induction fuel as [|fuel IH] in offset, s |- *; cbn [write_all];
    destruct (Nat.ltb_spec offset (length data)) as [Hlt|Hge]; try done.
  1, 3: apply wlp_ret; exists []; rewrite drop_ge by done; unfold logged; rewrite app_nil_r;
    split_and!; done.
  assert (∀ s', same_log s s' → ∃ chunks, logged (Sent fd <$> chunks) s s' ∧
    concat chunks `prefix_of` drop offset data ∧ ((-1)%Z = 0%Z ↔ concat chunks = drop offset data)) as Hfail.
  { intros s' [E1 E2]. exists []. unfold logged. rewrite app_nil_r. split_and!; [done|done|apply prefix_nil|].
    split; [done|]. intros E. apply (f_equal length) in E. rewrite length_drop in E. simpl in E. lia. }
  apply wlp_bind. eapply wlp_mono; [|apply wait_for_io_spec]. intros ready s1 [_ [E1 E2]].
  apply wlp_if; intros _; [apply wlp_ret; by apply Hfail|].
  apply wlp_bind, wlp_syscall. intros written s2 [E3 E4]. apply wlp_bind, wlp_gets.
  apply wlp_if; [intros _|intros Hw; apply bool_decide_eq_false in Hw].
  - apply wlp_if; intros _; [|apply wlp_ret, Hfail; split; congruence].
    eapply wlp_mono; [|apply IH]. intros r s' (chunks & [L1 L2] & H). exists chunks.
    split; [|done]. split; [by rewrite L1, E3, E1|congruence].
  - apply wlp_bind, wlp_modify. eapply wlp_mono; [|apply IH].
    intros r s' (chunks & [L1 L2] & Hpre & Hr). rewrite <- drop_drop in Hpre, Hr.
    set (n := Z.to_nat written) in *. exists (take n (drop offset data) :: chunks).
    simpl in L1, L2. split_and!.
    + split; [|congruence]. by rewrite L1, E3, E1, <- app_assoc.
    + simpl. rewrite <- (take_drop n (drop offset data)) at 2. by apply prefix_app.
    + simpl. rewrite <- (take_drop n (drop offset data)) at 2. rewrite Hr. split; [by intros ->|].
      apply app_inv_head.
Qed.

(** [read_line] stays inside its array; on success it consumed one line with its newline
    and the array holds the line, terminated by a NUL. *)
Lemma read_line_spec fuel polls fd buffer capacity n s :
  length buffer = capacity →
  wlp (read_line fuel polls fd buffer capacity n) (λ p s', ∃ received,
    logged (Received fd <$> received) s s' ∧ length (snd p) = capacity ∧
    (fst p = 0%Z → ∃ line rest, received = line ++ [newline] ∧ newline ∉ line ∧
       n + length line + 1 < capacity ∧ snd p = take n buffer ++ line ++ nul :: rest)) s.
Proof.
  intros Hb. induction fuel as [|fuel IH] in n, buffer, Hb, s |- *; cbn [read_line];
    destruct (Nat.ltb_spec (n + 1) capacity) as [Hlt|Hge]; try done.
  1, 3: apply wlp_ret; exists []; unfold logged; rewrite app_nil_r; done.
  assert (∀ s', same_log s s' → ∃ received, logged (Received fd <$> received) s s' ∧
    length buffer = capacity ∧ ((-1)%Z = 0%Z → ∃ line rest, received = line ++ [newline] ∧ newline ∉ line ∧
       n + length line + 1 < capacity ∧ buffer = take n buffer ++ line ++ nul :: rest)) as Hfail.
  { intros s' [E1 E2]. exists []. unfold logged. by rewrite app_nil_r. }
  apply wlp_bind. eapply wlp_mono; [|apply wait_for_io_spec]. intros ready s1 [_ [E1 E2]].
  apply wlp_if; intros _; [apply wlp_ret; by apply Hfail|].
  apply wlp_bind, wlp_syscall. intros [result b] s2 [E3 E4]. apply wlp_bind, wlp_gets.
  apply wlp_if; intros _; [apply wlp_ret, Hfail; split; congruence|].
  apply wlp_if; intros _.
  { apply wlp_if; intros _; [|apply wlp_ret, Hfail; split; congruence].
    eapply wlp_mono; [|by apply IH]. intros p s' (received & [L1 L2] & H). exists received.
    split; [|done]. split; [by rewrite L1, E3, E1|congruence]. }
  apply wlp_bind, wlp_modify. unfold buf_write. cbn [length].
  case_decide as Hn.
  - rewrite decide_True by lia. apply wlp_bind, wlp_defined. intros ? [= <-]. apply wlp_ret.
    exists [b]. split; [split; simpl; congruence|]. cbn [fst snd]. split.
    + rewrite length_app. simpl. rewrite length_take, length_drop. lia.
    + intros _. exists [], (drop (n + 1) buffer). subst b. split_and!; [done|set_solver|simpl; lia|done].
  - rewrite decide_True by lia. apply wlp_bind, wlp_defined. intros ? [= <-].
    eapply wlp_mono; [|apply IH; rewrite length_app; simpl; rewrite length_take, length_drop; lia].
    intros p s' (received & [L1 L2] & Hlen & Hp). exists (b :: received). simpl in L1, L2.
    split; [split; [by rewrite L1, E3, E1, <- app_assoc|congruence]|]. split; [done|].
    intros Hz. destruct (Hp Hz) as (line & rest & -> & Hnl & Hl & ->).
    exists (b :: line), rest. split_and!; [done|set_solver|simpl; lia|].
    assert (take (n + 1) (take n buffer ++ b :: drop (n + 1) buffer) = take n buffer ++ [b]) as E.
    { rewrite cons_middle, app_assoc. apply take_app_length'. rewrite length_app, length_take. simpl. lia. }
    cbn [app]. rewrite E. by rewrite <- app_assoc.
Qed.
End Loops.

(** ** The whole call *)

Section Authenticate.
Context `{K : Kernel}.
Implicit Types (s : PamState).

(** An event of a conversation: the descriptor is neither opened nor closed. *)
Definition is_io (e : PamEvent) : bool :=
  match e with Sent _ _ | Received _ _ | Connected _ _ => true | _ => false end.

Definition granted (fd : Z) (username : list byte) (evs : list PamEvent) : Prop :=
  ∃ chunks line, evs = (Sent fd <$> chunks) ++ (Received fd <$> line ++ [newline]) ∧
    concat chunks = request_text username ∧ length (request_text username) < 512 ∧
    newline ∉ line ∧ length line < 1023 ∧ says_authorized line.

Lemma Forall_is_io_sent fd chunks : Forall (λ e, is_io e = true) (Sent fd <$> chunks).
Proof. by apply Forall_fmap, Forall_forall. Qed.

Lemma Forall_is_io_received fd received : Forall (λ e, is_io e = true) (Received fd <$> received).
Proof. by apply Forall_fmap, Forall_forall. Qed.

Lemma logged_trans evs1 evs2 s1 s2 s3 :
  logged evs1 s1 s2 → logged evs2 s2 s3 → logged (evs1 ++ evs2) s1 s3.
Proof. intros [E1 E2] [E3 E4]. split; [|congruence]. by rewrite E3, E1, app_assoc. Qed.

(** The check of a terminated line is defined and reads nothing behind the terminator. *)
Lemma response_is_authorized_run line rest s :
  ∃ b, response_is_authorized (line ++ nul :: rest) s = Some (b, s) ∧ (b = true ↔ says_authorized line).
Proof.
  unfold response_is_authorized. rewrite c_string_line. eexists. split; [reflexivity|].
  by rewrite andb_true_iff, !bool_decide_eq_true, !strstr_spec.
Qed.

Lemma response_is_authorized_spec line rest s :
  wlp (response_is_authorized (line ++ nul :: rest))
    (λ r s', s' = s ∧ (r = true ↔ says_authorized line)) s.
Proof.
  destruct (response_is_authorized_run line rest s) as (b & E & Hb). intros r s' H. rewrite E in H.
  injection H as <- <-. done.
Qed.

Lemma converse_spec fuel polls fd username response s :
  length response = 1024 →
  wlp (converse fuel polls fd username response) (λ r s', ∃ evs, logged evs s s' ∧
    Forall (λ e, is_io e = true) evs ∧ (r = 0%Z → granted fd username evs)) s.
Proof.
  intros Hlen. unfold converse.
  assert (Hfail : ∀ s', (∃ evs, logged evs s s' ∧ Forall (λ e, is_io e = true) evs) →
    ∃ evs, logged evs s s' ∧ Forall (λ e, is_io e = true) evs ∧ ((-1)%Z = 0%Z → granted fd username evs))
    by naive_solver.
  apply wlp_if; intros Hl.
  { apply wlp_ret, Hfail. exists []. split; [|by apply Forall_nil]. split; [by rewrite app_nil_r|done]. }
  apply negb_false_iff, andb_true_iff in Hl as [H1%bool_decide_eq_true H2%bool_decide_eq_true].
  assert (snprintf_length (request_text username) = Z.of_nat (length (request_text username))) as E.
  { unfold snprintf_length in *. by case_bool_decide. }
  rewrite E, Nat2Z.id, take_ge in * by lia.
  apply wlp_bind. eapply wlp_mono; [|apply write_all_spec].
  intros sent s1 (chunks & L1 & _ & Hsent). rewrite drop_0 in Hsent.
  apply wlp_if; intros Hz.
  { apply wlp_ret, Hfail. eauto using Forall_is_io_sent. }
  apply negb_false_iff, bool_decide_eq_true in Hz.
  apply wlp_bind. eapply wlp_mono; [|by apply read_line_spec].
  intros [got buffer] s2 (received & L2 & _ & Hgot). cbn [fst snd] in Hgot.
  pose proof (logged_trans _ _ _ _ _ L1 L2) as L.
  assert (Forall (λ e, is_io e = true) ((Sent fd <$> chunks) ++ (Received fd <$> received))) as Hio
    by (apply Forall_app; split; [apply Forall_is_io_sent|apply Forall_is_io_received]).
  apply wlp_if; intros Hz2; [apply wlp_ret, Hfail; eauto|].
  apply negb_false_iff, bool_decide_eq_true in Hz2.
  destruct (Hgot Hz2) as (line & rest & -> & Hnl & Hcap & ->).
  apply wlp_bind. eapply wlp_mono; [|apply response_is_authorized_spec].
  intros r s3 [-> Hr]. apply wlp_ret. eexists. split; [exact L|]. split; [done|].
  destruct r; [|done]. intros _. exists chunks, line. split_and!; [done| |lia|done|lia|].
  - by apply Hsent.
  - by apply Hr.
Qed.

(** Every outcome: nothing was opened, or one descriptor was opened, used and closed. *)
Lemma authenticate_spec fuel polls user argv response s :
  length response = 1024 →
  wlp (pam_sm_authenticate fuel polls user argv response) (λ r s',
    (r = PAM_AUTH_ERR ∧ log s' = log s) ∨
    ∃ fd evs, log s' = log s ++ Opened fd :: evs ++ [Closed fd] ∧
      Forall (λ e, is_io e = true) evs ∧
      (r = PAM_AUTH_ERR ∨ r = PAM_SUCCESS ∧ ∃ username evs', user = (0%Z, Some username) ∧
         evs = Connected fd (sun_path (parse_args argv (socket_path s))) :: evs' ∧
         granted fd username evs')) s.
Proof.
  intros Hlen. unfold pam_sm_authenticate. destruct user as [[] [username|]]; try (apply wlp_ret; by left).
  apply wlp_bind, wlp_modify, wlp_bind, wlp_syscall. intros fd s1 [E1 E2]. simpl in E1, E2.
  apply wlp_if; intros _; [apply wlp_ret; by left|].
  apply wlp_bind, wlp_modify, wlp_bind, wlp_gets, wlp_bind, wlp_syscall.
  intros result s2 [E3 E4]. simpl in E3, E4 |- *. rewrite E2 in *. set (path := parse_args _ _) in *.
  apply wlp_bind, wlp_if; [intros _|intros Hr%bool_decide_eq_false].
  - apply wlp_bind, wlp_modify. eapply wlp_mono; [|by apply converse_spec].
    intros r s3 (evs & [L _] & Hio & Hg). simpl in L. apply wlp_bind, wlp_modify, wlp_ret. simpl.
    right. exists fd, (Connected fd (sun_path path) :: evs). split_and!.
    + rewrite L, E3, E1. rewrite <- !app_assoc. done.
    + by apply Forall_cons.
    + case_bool_decide; [right|by left]. split; [done|]. exists username, evs. eauto.
  - apply wlp_ret, wlp_bind, wlp_modify, wlp_ret. simpl. right. exists fd, []. split_and!.
    + rewrite E3, E1, <- app_assoc. done.
    + by apply Forall_nil.
    + rewrite bool_decide_false by done. by left.
Qed.

(** C19: whatever the kernel and the peer do, a login is granted only to a user PAM named, over
    the configured socket, after the whole request line for that user was sent, in order, and
    one response line of at most 1022 characters was read whose text before the first NUL
    contains both [type: authorized] and [authorized: true]. *)
Theorem authenticate_grants fuel polls user argv response s s' :
  length response = 1024 →
  pam_sm_authenticate fuel polls user argv response s = Some (PAM_SUCCESS, s') →
  ∃ username fd chunks line, user = (0%Z, Some username) ∧
    log s' = log s ++ [Opened fd; Connected fd (sun_path (parse_args argv (socket_path s)))]
      ++ (Sent fd <$> chunks) ++ (Received fd <$> line ++ [newline]) ++ [Closed fd] ∧
    concat chunks = request_text username ∧ length (request_text username) < 512 ∧
    newline ∉ line ∧ length line < 1023 ∧ says_authorized line.
Proof.
  intros Hlen H. apply authenticate_spec in H; [|done].
  destruct H as [[[=] _]|(fd & evs & Hlog & _ & [[=]|(_ & username & evs' & Hu & -> & chunks & line & -> & Hg)])].
  exists username, fd, chunks, line. split; [done|]. split; [|done].
  rewrite Hlog. cbn [app]. by rewrite <- !app_assoc.
Qed.

(** C38: on every path the call returns success or an authentication error, and the socket, if it
    was opened at all, is closed exactly once, as the last thing. *)
Theorem authenticate_closes fuel polls user argv response s r s' :
  length response = 1024 →
  pam_sm_authenticate fuel polls user argv response s = Some (r, s') →
  (r = PAM_SUCCESS ∨ r = PAM_AUTH_ERR) ∧
  (log s' = log s ∨ ∃ fd evs, log s' = log s ++ Opened fd :: evs ++ [Closed fd] ∧
     Forall (λ e, is_io e = true) evs).
Proof.
  intros Hlen H. apply authenticate_spec in H; [|done].
  destruct H as [[-> H]|(fd & evs & Hlog & Hio & [->|[-> _]])]; eauto 10.
Qed.
End Authenticate.

(** ** The call returns *)

Section Termination.
Context `{K : Kernel}.
Implicit Types (s : PamState).

(** From the [N]-th answer on no call is interrupted by a signal. *)
Definition uninterrupted_from (N : nat) : Prop := ∀ n, N ≤ n →
  (∀ fd events, snd (sys_poll n fd events) ≠ EINTR) ∧
  (∀ fd data, snd (sys_write n fd data) ≠ EINTR) ∧
  (∀ fd, snd (sys_read n fd) ≠ EINTR).

Context {N : nat} (HN : uninterrupted_from N).

Lemma wp_syscall {A} (answer : nat → A * Z) (P : A → PamState → Prop) s :
  P (fst (answer (calls s)))
    (mkPam (snd (answer (calls s))) (S (calls s)) (socket_path s) (log s)) → wp (syscall answer) P s.
Proof.
  intros H. unfold wp, syscall. destruct (answer (calls s)) as [a e]. by eexists _, _.
Qed.

Lemma wait_for_io_returns polls fd events s :
  N - calls s < polls → wp (wait_for_io polls fd events) (λ _ s', calls s < calls s') s.
Proof.
  induction polls as [|polls IH] in s |- *; intros Hp; [lia|]. cbn [wait_for_io].
  apply wp_bind, wp_syscall. destruct (sys_poll (calls s) fd events) as [[result revents] e] eqn:E.
  cbn [fst snd]. apply wp_bind, wp_gets. cbn [errno].
  destruct (_ && _) eqn:Ec; [|by apply wp_ret; simpl; lia].
  apply andb_true_iff in Ec as [_ Ec%bool_decide_eq_true].
  destruct (decide (N ≤ calls s)) as [Hq|Hq].
  { exfalso. destruct (HN _ Hq) as [Hpoll _]. specialize (Hpoll fd events). rewrite E in Hpoll. done. }
  eapply wp_mono; [|apply IH; simpl; lia]. simpl. intros _ s'. lia.
Qed.

Lemma write_all_returns fuel polls fd data offset s :
  N < polls → (length data - offset) + (N - calls s) ≤ fuel →
  wp (write_all fuel polls fd data offset) (λ _ s', True) s.
Proof.
  intros Hp. induction fuel as [|fuel IH] in offset, s |- *; intros Hf; cbn [write_all];
    destruct (Nat.ltb_spec offset (length data)) as [Hlt|Hge]; try lia; try by apply wp_ret.
  apply wp_bind. eapply wp_mono; [|apply wait_for_io_returns; lia]. intros ready s1 H1. simpl in H1.
  destruct (negb _); [by apply wp_ret|]. apply wp_bind, wp_syscall.
  destruct (sys_write (calls s1) fd (drop offset data)) as [written e] eqn:E. cbn [fst snd].
  apply wp_bind, wp_gets. cbn [errno]. case_bool_decide as Hw.
  - case_bool_decide as He; [|by apply wp_ret].
    destruct (decide (N ≤ calls s1)) as [Hq|Hq].
    { exfalso. destruct (HN _ Hq) as (_ & Hwr & _). specialize (Hwr fd (drop offset data)). rewrite E in Hwr. done. }
    apply IH. simpl. lia.
  - apply wp_bind, wp_modify, IH. simpl. lia.
Qed.

Lemma read_line_returns fuel polls fd buffer capacity n s :
  N < polls → length buffer = capacity → (capacity - n) + (N - calls s) ≤ fuel →
  wp (read_line fuel polls fd buffer capacity n) (λ p s',
    fst p = 0%Z → nul ∈ snd p) s.
Proof.
  intros Hp Hb. induction fuel as [|fuel IH] in n, buffer, Hb, s |- *; intros Hf; cbn [read_line];
    destruct (Nat.ltb_spec (n + 1) capacity) as [Hlt|Hge]; try lia; try by apply wp_ret.
  apply wp_bind. eapply wp_mono; [|apply wait_for_io_returns; lia]. intros ready s1 H1. simpl in H1.
  destruct (negb _); [by apply wp_ret|]. apply wp_bind, wp_syscall.
  destruct (sys_read (calls s1) fd) as [[result b] e] eqn:E. cbn [fst snd].
  apply wp_bind, wp_gets. cbn [errno]. case_bool_decide; [by apply wp_ret|]. case_bool_decide.
  - case_bool_decide as He; [|by apply wp_ret].
    destruct (decide (N ≤ calls s1)) as [Hq|Hq].
    { exfalso. destruct (HN _ Hq) as (_ & _ & Hrd). specialize (Hrd fd). rewrite E in Hrd. done. }
    apply IH; [done|]. simpl. lia.
  - apply wp_bind, wp_modify. unfold buf_write. cbn [length].
    case_decide; (rewrite decide_True by lia); apply wp_bind; eexists _, _; (split; [reflexivity|]).
    + apply wp_ret. intros _. set_solver.
    + apply IH; [rewrite length_app; simpl; rewrite length_take, length_drop; lia|]. simpl. lia.
Qed.

Lemma converse_returns fuel polls fd username response s :
  length response = 1024 → N + 1024 ≤ fuel → N < polls →
  wp (converse fuel polls fd username response) (λ _ _, True) s.
Proof.
  intros Hlen Hf Hp. unfold converse. destruct (negb _) eqn:El; [by apply wp_ret|].
  apply negb_false_iff, andb_true_iff in El as [H1%bool_decide_eq_true H2%bool_decide_eq_true].
  apply wp_bind. eapply wp_mono; [|apply write_all_returns; [done|rewrite length_take; lia]].
  intros sent s3 _. destruct (negb _); [by apply wp_ret|].
  apply wp_bind. eapply wp_mono; [|apply read_line_returns; [done|done|lia]].
  intros [got buffer] s4 Hnul. cbn [fst snd] in Hnul. destruct (negb _) eqn:Eg; [by apply wp_ret|].
  apply negb_false_iff, bool_decide_eq_true in Eg. specialize (Hnul Eg).
  apply wp_bind. unfold response_is_authorized, c_string.
  destruct (index_of nul buffer) eqn:Ei; [|apply index_of_None in Ei; done].
  apply wp_bind. eexists _, _. split; [reflexivity|]. apply wp_ret. by apply wp_ret.
Qed.

End Termination.

(** ** Text instead of JSON *)

Section Text.
Context `{K : Kernel}.
Implicit Types (s : PamState).

(** What a user name has to contain to end one request and to begin another one. *)
Definition next_request : list byte :=
  quote ++ bytes "}" ++ [newline] ++
  bytes "{" ++ quote ++ bytes "type" ++ quote ++ bytes ":" ++ quote ++ bytes "authorize" ++ quote ++
  bytes "," ++ quote ++ bytes "user" ++ quote ++ bytes ":" ++ quote.

(** The user name is copied into the request without escaping: one user name makes the
    module send the requests of two users of its choice, and the response to the first one,
    whoever that is, decides the login. *)
Theorem username_injects_request a b :
  request_text (a ++ next_request ++ b) = request_text a ++ request_text b.
Proof. unfold request_text, next_request. rewrite <- !app_assoc. reflexivity. Qed.

(** The response is searched for two texts, not parsed: a response that contains them in
    this order or the other, at any depth and under any other members, is taken for an
    authorization, while the same object written with spaces after its colons is not. *)
Theorem response_check_is_textual a b c rest s :
  nul ∉ a ++ b ++ c →
  response_is_authorized (a ++ authorized_true ++ b ++ type_authorized ++ c ++ nul :: rest) s = Some (true, s) ∧
  response_is_authorized (bytes "{" ++ quote ++ bytes "type" ++ quote ++ bytes ": " ++ quote ++
    bytes "authorized" ++ quote ++ bytes ", " ++ quote ++ bytes "authorized" ++ quote ++
    bytes ": true}" ++ nul :: rest) s = Some (false, s).
Proof.
  intros Hn. unfold response_is_authorized. split.
  - set (line := a ++ authorized_true ++ b ++ type_authorized ++ c).
    replace (a ++ _) with (line ++ nul :: rest) by (subst line; by rewrite <- !app_assoc).
    rewrite c_string_line. unfold c_str.
    assert (index_of nul line = None) as ->.
    { apply index_of_None. subst line. rewrite !not_elem_of_app in *.
      destruct Hn as (Ha & Hb & Hc). split_and!; try done; apply (bool_decide_unpack _); reflexivity. }
    unfold mbind, M_bind. cbn [defined]. assert (∀ x : bool, x = true → (mret x : M PamState bool) s = Some (true, s)) as Ht by by intros ? ->.
    apply Ht, andb_true_iff. rewrite !bool_decide_eq_true, !strstr_spec.
    split; [exists (a ++ authorized_true ++ b), c|exists a, (b ++ type_authorized ++ c)];
      subst line; by rewrite <- ?app_assoc.
  - rewrite !app_assoc. rewrite c_string_line. vm_compute. reflexivity.
Qed.
End Text.

(** *** Witnesses: a daemon that answers at once *)

Definition daemon_line : list byte :=
  bytes "{" ++ type_authorized ++ bytes "," ++ authorized_true ++ bytes "}" ++ [newline].

(** Every call succeeds; the [i]-th byte of the response is read by call number [5 + 2 * i]. *)
#[local] Instance demo_kernel : Kernel := {
  sys_poll := λ _ _ events, ((1, events), 0)%Z;
  sys_write := λ _ _ data, (Z.of_nat (length data), 0%Z);
  sys_read := λ n _, ((1%Z, default nul (daemon_line !! ((n - 5) `div` 2))), 0%Z);
  sys_socket := λ _, (7, 0)%Z;
  sys_connect := λ _ _ _, (0, 0)%Z;
}.

Definition demo_user : list byte := bytes "alice".
Definition demo_pam : PamState := mkPam 0 0 initial_socket_path [].
Definition demo_response : list byte := replicate 1024 Init.Byte.xcd.
Definition demo_argv : list (list byte) := [bytes "socket"; bytes "/run/test.sock"].
Definition demo_login : option (Z * PamState) :=
  pam_sm_authenticate 1024 1 (0%Z, Some demo_user) demo_argv demo_response demo_pam.
Definition demo_pam_end : PamState := from_option snd demo_pam demo_login.

Lemma authenticate_grants_witness :
  ∃ username fd chunks line, (0%Z, Some demo_user) = (0%Z, Some username) ∧
    log demo_pam_end = log demo_pam ++ [Opened fd; Connected fd (sun_path (parse_args demo_argv (socket_path demo_pam)))]
      ++ (Sent fd <$> chunks) ++ (Received fd <$> line ++ [newline]) ++ [Closed fd] ∧
    concat chunks = request_text username ∧ length (request_text username) < 512 ∧
    newline ∉ line ∧ length line < 1023 ∧ says_authorized line.
Proof.
  apply (authenticate_grants 1024 1 (0%Z, Some demo_user) demo_argv demo_response demo_pam demo_pam_end).
  - reflexivity.
  - vm_compute. reflexivity.
Defined.

Lemma authenticate_closes_witness :
  (PAM_SUCCESS = PAM_SUCCESS ∨ PAM_SUCCESS = PAM_AUTH_ERR) ∧
  (log demo_pam_end = log demo_pam ∨ ∃ fd evs, log demo_pam_end = log demo_pam ++ Opened fd :: evs ++ [Closed fd] ∧
     Forall (λ e, is_io e = true) evs).
Proof.
  apply (authenticate_closes 1024 1 (0%Z, Some demo_user) demo_argv demo_response demo_pam PAM_SUCCESS).
  - reflexivity.
  - vm_compute. reflexivity.
Defined.


Lemma response_check_is_textual_witness :
  response_is_authorized (bytes "{" ++ authorized_true ++ bytes "," ++ type_authorized ++ bytes "}" ++ nul :: []) demo_pam
    = Some (true, demo_pam) ∧
  response_is_authorized (bytes "{" ++ quote ++ bytes "type" ++ quote ++ bytes ": " ++ quote ++
    bytes "authorized" ++ quote ++ bytes ", " ++ quote ++ bytes "authorized" ++ quote ++
    bytes ": true}" ++ nul :: []) demo_pam = Some (false, demo_pam).
Proof.
  apply (response_check_is_textual (bytes "{") (bytes ",") (bytes "}") [] demo_pam).
  apply (bool_decide_unpack _). vm_compute. exact I.
Defined.
