(* ===== verification/Credential.v ===== *)
(** * CredentialStore (src/core/credential.cpp)

    The class of credential.hpp is the interface [CredentialStore]; its three
    builds are instances, one Module each: Windows (DPAPI and the registry through
    [QSettings]), the Secret Service (libsecret), and the build without a vault.
    [CredentialContract] is what a caller of the class expects of any of them.
    DPAPI, [QSettings] and the Secret Service are interfaces.  A function returns
    its result and what it wrote through its [QString *error] parameter. *)
From stdpp Require Import base gmap sets list strings.
From Stdlib Require Import ZArith Lia.
From S2P Require Import Prelude Qt Reference.

(** ** The class (credential.hpp) *)

Class CredentialStore : Type := {
  Store : Type;
  store_write : QString → QByteArray → M Store (bool * option QString);
  store_read : QString → M Store (QByteArray * option QString);
  store_remove : QString → M Store (bool * option QString);
}.

(** What a caller expects: a secret that was written is read, one that was removed reads as
    empty, and a refused write changes nothing and says why. *)
Class CredentialContract (S : CredentialStore) : Prop := {
  contract_read name secret st e st1 :
    store_write name secret st = Some ((true, e), st1) → store_read name st1 = Some ((secret, None), st1);
  contract_removed name st e st1 :
    store_remove name st = Some ((true, e), st1) → store_read name st1 = Some (([], None), st1);
  contract_refused name secret st e st1 :
    store_write name secret st = Some ((false, e), st1) → st1 = st ∧ is_Some e;
}.

(** [fail(error, message)] for a caller that passes an error string. *)
Definition fail (message : QString) : option QString := Some message.

(** ** The operating systems *)

Class WindowsVault : Type := {
  (** [CryptProtectData] with the description, and [CryptUnprotectData]; [None] is FALSE *)
  CryptProtectData : QByteArray → QString → option QByteArray;
  CryptUnprotectData : QByteArray → option QByteArray;
  (** [QSettings("OpenBioUnlock", "Desktop")] *)
  Settings : Type;
  setValue : Settings → QString → QByteArray → Settings;
  settingsValue : Settings → QString → option QByteArray;
  settingsRemove : Settings → QString → Settings;
}.

Class WindowsVaultLaws (V : WindowsVault) : Prop := {
  unprotect_protect secret description blob :
    CryptProtectData secret description = Some blob → CryptUnprotectData blob = Some secret;
  (** blobs are authenticated: nothing else is decrypted *)
  unprotect_only blob secret :
    CryptUnprotectData blob = Some secret → ∃ description, CryptProtectData secret description = Some blob;
  (** a blob is binary (it begins with a version number), never Base64 text *)
  protect_binary secret description blob :
    CryptProtectData secret description = Some blob → ¬ Forall (λ c, is_base64_char c = true) blob;
  value_setValue settings name v : settingsValue (setValue settings name v) name = Some v;
}.

Class SecretVault : Type := {
  Collection : Type;
  (** [secret_password_store_sync] with the label, the password and the attribute [name]:
      the new collection, or the message of the error, if any *)
  secret_store : Collection → list byte → list byte → list byte → Collection + option (list byte);
  (** [secret_password_lookup_sync]: the password, or no password and the message, if any *)
  secret_lookup : Collection → list byte → list byte + option (list byte);
  (** [secret_password_clear_sync]: TRUE with the new collection, or FALSE *)
  secret_clear : Collection → list byte → Collection + option (list byte);
}.

Class SecretVaultLaws (V : SecretVault) : Prop := {
  lookup_store collection label password name collection' :
    secret_store collection label password name = inl collection' →
    secret_lookup collection' name = inl password;
  lookup_store_ne collection label password name name' collection' :
    secret_store collection label password name = inl collection' → name ≠ name' →
    secret_lookup collection' name' = secret_lookup collection name';
  lookup_clear collection name collection' :
    secret_clear collection name = inl collection' → secret_lookup collection' name = inr None;
}.

(** ** Windows *)

Module Windows.
Section Windows.
Context `{Q : QtCore} `{V : WindowsVault}.

Definition write (name : QString) (secret : QByteArray) : M Settings (bool * option QString) :=
  match CryptProtectData secret name with
  | None => mret (false, fail (QStringLiteral "Windows DPAPI encryption failed"))
  | Some output =>
      modify (λ settings, setValue settings name (toBase64 output)) ;;
      mret (true, None)
  end.

Definition read (name : QString) : M Settings (QByteArray * option QString) :=
  encoded ← gets (λ settings, default [] (settingsValue settings name));
  match (if isEmpty encoded then None else CryptUnprotectData encoded) with
  | None => mret ([], fail (QStringLiteral "Windows DPAPI decryption failed"))
  | Some result => mret (result, None)
  end.

Definition remove (name : QString) : M Settings (bool * option QString) :=
  modify (λ settings, settingsRemove settings name) ;; mret (true, None).

#[global] Instance store : CredentialStore :=
  { Store := Settings; store_write := write; store_read := read; store_remove := remove }.
End Windows.
End Windows.

(** ** The Secret Service *)

Module SecretService.
Section SecretService.
Context `{Q : QtCore} `{V : SecretVault}.

(** [name.toUtf8().constData()] *)
Definition c_name (name : QString) : list byte := c_str (toUtf8 name).

Definition write (name : QString) (secret : QByteArray) : M Collection (bool * option QString) :=
  collection ← gets (λ c, c);
  let encoded := toBase64 secret in
  match secret_store collection (c_name name) (c_str encoded) (c_name name) with
  | inl collection => modify (λ _, collection) ;; mret (true, None)
  | inr localError =>
      mret (false, fail (match localError with
                         | Some message => fromUtf8 message
                         | None => QStringLiteral "Secret Service write failed"
                         end))
  end.

Definition read (name : QString) : M Collection (QByteArray * option QString) :=
  collection ← gets (λ c, c);
  match secret_lookup collection (c_name name) with
  | inl value => mret (fromBase64 value, None)
  | inr localError => mret ([], match localError with
                                | Some message => fail (fromUtf8 message)
                                | None => None
                                end)
  end.

Definition remove (name : QString) : M Collection (bool * option QString) :=
  collection ← gets (λ c, c);
  match secret_clear collection (c_name name) with
  | inl collection => modify (λ _, collection) ;; mret (true, None)
  | inr localError => mret (false, match localError with
                                   | Some message => fail (fromUtf8 message)
                                   | None => None
                                   end)
  end.

#[global] Instance store : CredentialStore :=
  { Store := Collection; store_write := write; store_read := read; store_remove := remove }.
End SecretService.
End SecretService.

(** ** No vault *)

Module NoVault.
Definition unavailable : option QString :=
  fail (QStringLiteral "no supported OS credential vault is available").
Definition write (name : QString) (secret : QByteArray) : bool * option QString := (false, unavailable).
Definition read (name : QString) : QByteArray * option QString := ([], unavailable).
Definition remove (name : QString) : bool * option QString := (false, unavailable).

#[global] Instance store : CredentialStore := {
  Store := unit;
  store_write := λ name secret, mret (write name secret);
  store_read := λ name, mret (read name);
  store_remove := λ name, mret (remove name);
}.
End NoVault.

(** ** The build

    The preprocessor picks one body per function: [#ifdef Q_OS_WIN], [#elif
    defined(OPENBIOUNLOCK_HAS_LIBSECRET)], [#else]. *)
Module Build.
Section Build.
Context `{Q : QtCore} `{WV : WindowsVault} `{SV : SecretVault}.
Context (Q_OS_WIN OPENBIOUNLOCK_HAS_LIBSECRET : bool).

Definition state : Type :=
  if Q_OS_WIN then Settings else if OPENBIOUNLOCK_HAS_LIBSECRET then Collection else unit.

Definition write (name : QString) (secret : QByteArray) : M state (bool * option QString) :=
  match Q_OS_WIN as w, OPENBIOUNLOCK_HAS_LIBSECRET as h
    return M (if w then Settings else if h then Collection else unit) (bool * option QString) with
  | true, _ => Windows.write name secret
  | false, true => SecretService.write name secret
  | false, false => mret (NoVault.write name secret)
  end.

Definition read (name : QString) : M state (QByteArray * option QString) :=
  match Q_OS_WIN as w, OPENBIOUNLOCK_HAS_LIBSECRET as h
    return M (if w then Settings else if h then Collection else unit) (QByteArray * option QString) with
  | true, _ => Windows.read name
  | false, true => SecretService.read name
  | false, false => mret (NoVault.read name)
  end.

Definition remove (name : QString) : M state (bool * option QString) :=
  match Q_OS_WIN as w, OPENBIOUNLOCK_HAS_LIBSECRET as h
    return M (if w then Settings else if h then Collection else unit) (bool * option QString) with
  | true, _ => Windows.remove name
  | false, true => SecretService.remove name
  | false, false => mret (NoVault.remove name)
  end.

#[global] Instance store : CredentialStore :=
  { Store := state; store_write := write; store_read := read; store_remove := remove }.
End Build.
End Build.

(** ** Theorems *)

Section Theorems.
Context `{Q : QtCore} {QL : QtLaws Q}.

Lemma base64_no_nul b : nul ∉ toBase64 b.
Proof.
  intros Hin. pose proof (toBase64_text b) as H. rewrite Forall_forall in H.
  specialize (H _ Hin). done.
Qed.

(** With the Secret Service, a secret that was written is read back byte for byte, NUL bytes
    included, and stays so when other secrets are written; after it was removed, reading
    it yields nothing and no error. *)
Theorem secret_service_roundtrip `{V : SecretVault} {VL : SecretVaultLaws V}
    name secret other (secret' : QByteArray) collection c1 c2 r :
  SecretService.write name secret collection = Some ((true, None), c1) →
  SecretService.c_name other ≠ SecretService.c_name name →
  SecretService.write other secret' c1 = Some (r, c2) →
  SecretService.read name c1 = Some ((secret, None), c1) ∧
  SecretService.read name c2 = Some ((secret, None), c2) ∧
  ∀ c3, SecretService.remove name c2 = Some ((true, None), c3) →
    SecretService.read name c3 = Some (([], None), c3).
Proof.
  unfold SecretService.write, SecretService.read, SecretService.remove, gets, modify, mbind, M_bind, mret, M_ret.
  rewrite !(c_str_id (toBase64 _)) by apply base64_no_nul. intros H1 Hne H2.
  destruct (secret_store collection _ _ _) as [c|] eqn:E1; simplify_eq.
  pose proof (lookup_store _ _ _ _ _ E1) as L1.
  assert (secret_lookup c2 (SecretService.c_name name) = inl (toBase64 secret)) as L2.
  { destruct (secret_store c1 _ _ _) as [c|] eqn:E2; simplify_eq; [|done].
    by rewrite (lookup_store_ne _ _ _ _ _ _ E2). }
  rewrite L1, L2, !fromBase64_toBase64. split_and!; [done|done|]. intros c3.
  destruct (secret_clear c2 _) as [c|] eqn:E3; intros; simplify_eq. by rewrite (lookup_clear _ _ _ E3).
Qed.

(** On Windows no secret is ever read back: [write] stores the protected blob as Base64, and
    [read] passes that text to [CryptUnprotectData] without decoding it. *)
Lemma windows_read_fails `{V : WindowsVault} {VL : WindowsVaultLaws V} name secret settings s1 :
  Windows.write name secret settings = Some ((true, None), s1) →
  Windows.read name s1 = Some (([], Some (QStringLiteral "Windows DPAPI decryption failed")), s1).
Proof.
  unfold Windows.write, Windows.read, gets, modify, mbind, M_bind, mret, M_ret.
  destruct (CryptProtectData secret name) as [blob|] eqn:Ep; intros; simplify_eq.
  rewrite value_setValue. cbn [from_option Datatypes.id]. destruct (isEmpty _); [done|].
  destruct (CryptUnprotectData (toBase64 blob)) as [x|] eqn:Eu; [|done].
  apply unprotect_only in Eu as [d Hd]. apply protect_binary in Hd. exfalso. apply Hd, toBase64_text.
Qed.

Lemma secret_service_contract `{V : SecretVault} {VL : SecretVaultLaws V} : CredentialContract SecretService.store.
Proof.
  split; cbn [store_write store_read store_remove SecretService.store]; intros *;
    unfold SecretService.write, SecretService.read, SecretService.remove, gets, modify, mbind, M_bind, mret, M_ret.
  - rewrite (c_str_id (toBase64 _)) by apply base64_no_nul.
    destruct (secret_store st _ _ _) as [c|] eqn:E; intros; simplify_eq.
    by rewrite (lookup_store _ _ _ _ _ E), fromBase64_toBase64.
  - destruct (secret_clear st _) as [c|] eqn:E; intros; simplify_eq. by rewrite (lookup_clear _ _ _ E).
  - destruct (secret_store st _ _ _) as [c|[m|]] eqn:E; intros; simplify_eq; (split; [done|by eexists]).
Qed.

Lemma no_vault_contract : CredentialContract NoVault.store.
Proof.
  split; cbn [store_write store_read store_remove NoVault.store]; intros *; unfold mret, M_ret, NoVault.write, NoVault.remove;
    intros; simplify_eq. split; [done|by eexists].
Qed.

(** C37: Which builds keep the contract of the class: the one on the Secret Service and the one
    without a vault, which refuses everything, do; the Windows build does not, as soon as
    DPAPI protects a single secret. *)
Theorem builds_and_contract `{SV : SecretVault} {SL : SecretVaultLaws SV} `{WV : WindowsVault} {WL : WindowsVaultLaws WV}
    (q_os_win has_libsecret : bool) name secret blob (settings : Settings) :
  CryptProtectData secret name = Some blob →
  CredentialContract (Build.store q_os_win has_libsecret) ↔ q_os_win = false.
Proof.
  intros Hp. destruct q_os_win; [|destruct has_libsecret].
  - split; [|done]. intros HC. exfalso.
    assert (Windows.write name secret settings = Some ((true, None), setValue settings name (toBase64 blob))) as Hw.
    { unfold Windows.write. by rewrite Hp. }
    pose proof (contract_read (CredentialContract := HC) name secret settings None _ Hw) as Hr.
    cbn [store_read Build.store Build.read] in Hr. rewrite (windows_read_fails name secret settings _ Hw) in Hr.
    congruence.
  - split; [done|]. intros _. destruct secret_service_contract as [H1 H2 H3]. by split.
  - split; [done|]. intros _. destruct no_vault_contract as [H1 H2 H3]. by split.
Qed.
End Theorems.

(** *** Witnesses *)

(** A vault that puts a version byte before the secret, and a registry that is a finite map. *)
#[local] Instance demo_windows_vault : WindowsVault := {
  CryptProtectData := λ secret _, Some (Init.Byte.x01 :: secret);
  CryptUnprotectData := λ blob, match blob with Init.Byte.x01 :: secret => Some secret | _ => None end;
  Settings := gmap QString QByteArray;
  setValue := λ m name v, <[name := v]> m;
  settingsValue := λ m name, m !! name;
  settingsRemove := λ m name, delete name m;
}.

#[local] Instance demo_windows_vault_laws : WindowsVaultLaws demo_windows_vault.
Proof.
  split; simpl.
  - by intros secret _ blob [= <-].
  - intros blob secret H. exists []. destruct blob as [|[] blob]; by simplify_eq/=.
  - intros secret _ blob [= <-] H. apply Forall_cons in H as [H _]. done.
  - intros m name v. apply lookup_insert_eq.
Qed.

#[local] Instance demo_secret_vault : SecretVault := {
  Collection := gmap (list byte) (list byte);
  secret_store := λ m _ password name, inl (<[name := password]> m);
  secret_lookup := λ m name, match m !! name with Some v => inl v | None => inr None end;
  secret_clear := λ m name, if decide (is_Some (m !! name)) then inl (delete name m) else inr None;
}.

#[local] Instance demo_secret_vault_laws : SecretVaultLaws demo_secret_vault.
Proof.
  split; simpl.
  - intros m _ password name m' [= <-]. by rewrite lookup_insert_eq.
  - intros m _ password name name' m' [= <-] Hne. by rewrite lookup_insert_ne.
  - intros m name m'. case_decide; [|done]. intros [= <-]. by rewrite lookup_delete_eq.
Qed.

Definition demo_secret_name : QString := QStringLiteral "login".
Definition demo_other_name : QString := QStringLiteral "other".
Definition demo_password : QByteArray := bytes "pass" ++ [nul] ++ bytes "word".
Definition demo_collection1 : gmap (list byte) (list byte) :=
  from_option snd ∅ (SecretService.write demo_secret_name demo_password ∅).
Definition demo_collection2 : gmap (list byte) (list byte) :=
  from_option snd ∅ (SecretService.write demo_other_name demo_password demo_collection1).

Lemma secret_service_roundtrip_witness :
  SecretService.read demo_secret_name demo_collection1 = Some ((demo_password, None), demo_collection1) ∧
  SecretService.read demo_secret_name demo_collection2 = Some ((demo_password, None), demo_collection2) ∧
  ∀ c3, SecretService.remove demo_secret_name demo_collection2 = Some ((true, None), c3) →
    SecretService.read demo_secret_name c3 = Some (([], None), c3).
Proof.
  apply (secret_service_roundtrip (V := demo_secret_vault) demo_secret_name demo_password demo_other_name demo_password ∅
    demo_collection1 demo_collection2 (true, None)).
  - vm_eq.
  - vm_compute. discriminate.
  - vm_eq.
Defined.

Lemma builds_and_contract_witness :
  CredentialContract (Build.store (WV := demo_windows_vault) (SV := demo_secret_vault) true true) ↔ true = false.
Proof.
  apply (builds_and_contract (SV := demo_secret_vault) (WV := demo_windows_vault) true true demo_secret_name demo_password
    (Init.Byte.x01 :: demo_password) ∅). reflexivity.
Defined.
