(* ===== verification/MainWindow.v ===== *)
(** * The dashboard (src/ui/main_window.cpp) and its Bluetooth scanner (src/core/ble_discovery.cpp)

    The widgets are modelled by what the program stores in them: the status
    texts, the entries of the two lists and the values of the two spin boxes.
    [QSpinBox::setValue] emits [valueChanged] before it returns when the value
    changes, so [proximityChanged] re-enters itself; its fuel counts the nested
    calls.  [now] is the formatted time of day of a log entry. *)
From stdpp Require Import base gmap sets list strings relations.
From Stdlib Require Import ZArith Lia.
From S2P Require Import Prelude Qt World Reference.

(** ** BleDiscovery *)

Record QBluetoothDeviceInfo : Type := mkDevice {
  lowEnergy : bool;       (* coreConfigurations() has LowEnergyCoreConfiguration *)
  deviceUuid : QString;
  deviceName : QString;
  rssi : Z;
}.

(** What [QBluetoothDeviceDiscoveryAgent::errorString()] may say. *)
Class QtBluetooth : Type := { error_text : QString → Prop }.

Inductive BleSignal : Type :=
  | deviceFound (identifier name : QString) (signalStrength : Z)
  | discoveryError (message : QString).

Inductive AgentCall : Type := AgentStart | AgentStop.

Section BleDiscovery.
Context `{Q : QtCore}.

(** The scanner: what it asked of its discovery agent.  [isActive]: what the agent answers. *)
Record BleDiscovery : Type := mkBle { agent_ : list AgentCall }.

Definition BleDiscovery_new : BleDiscovery := mkBle [].
Definition ble_start (isActive : bool) (b : BleDiscovery) : BleDiscovery :=
  if negb isActive then mkBle (agent_ b ++ [AgentStart]) else b.
Definition ble_stop (isActive : bool) (b : BleDiscovery) : BleDiscovery :=
  if isActive then mkBle (agent_ b ++ [AgentStop]) else b.

Definition discovered (device : QBluetoothDeviceInfo) : list BleSignal :=
  if lowEnergy device then [deviceFound (deviceUuid device) (deviceName device) (rssi device)] else [].
Definition finished : list BleSignal := [].
Definition ble_error (errorString : QString) (error : Z) : list BleSignal :=
  [discoveryError (if isEmpty errorString
                   then argInt (QStringLiteral "Bluetooth discovery failed: %1") error
                   else errorString)].
End BleDiscovery.

(** ** MainWindow *)

Record DeviceItem : Type := mkDeviceItem { itemText : QString; userRole : QString }.

Record Window : Type := mkWindow {
  statusLabel : QString;
  statusBarMessage : QString;
  deviceList : list DeviceItem;
  logList : list QString;        (* index 0 first *)
  nearThreshold : Z;
  farThreshold : Z;
}.

(** [QSpinBox] with the range -100 .. -1. *)
Definition spin_range (v : Z) : Z := Z.max (-100) (Z.min v (-1)).

Section MainWindow.
Context `{Q : QtCore}.

(** The constructor; the thresholds are set before their signals are connected. *)
Definition MainWindow_new : Window :=
  mkWindow (QStringLiteral "Starting") (QStringLiteral "Initializing server") [] []
    (spin_range (-70)) (spin_range (-82)).

(** [while (logList_->count() > 500) delete logList_->takeItem(logList_->count() - 1)] *)
Fixpoint trimLog (fuel : nat) (l : list QString) : option (list QString) :=
  if 500 <? length l then
    match fuel with
    | 0 => None
    | S fuel => trimLog fuel (removelast l)
    end
  else Some l.

Definition appendLog (now message : QString) (w : Window) : option Window :=
  let l := arg2 (QStringLiteral "[%1] %2") now message :: logList w in
  l ← trimLog (length l) l;
  Some (mkWindow (statusLabel w) (statusBarMessage w) (deviceList w) l (nearThreshold w) (farThreshold w)).

Definition setStatus (status : QString) (w : Window) : Window :=
  mkWindow status status (deviceList w) (logList w) (nearThreshold w) (farThreshold w).

Definition set_devices (l : list DeviceItem) (w : Window) : Window :=
  mkWindow (statusLabel w) (statusBarMessage w) l (logList w) (nearThreshold w) (farThreshold w).

(** The loop: the list after an early return, or [None] when the loop ends. *)
Fixpoint setDevice_loop (deviceId : QString) (connected : bool) (l : list DeviceItem)
    : option (list DeviceItem) :=
  match l with
  | [] => None
  | item :: rest =>
      if decide (userRole item = deviceId) then Some (if connected then item :: rest else rest)
      else cons item <$> setDevice_loop deviceId connected rest
  end.

Definition setDevice (deviceId : QString) (connected : bool) (w : Window) : Window :=
  match setDevice_loop deviceId connected (deviceList w) with
  | Some l => set_devices l w
  | None =>
      if connected then
        set_devices (deviceList w ++ [mkDeviceItem (arg (QStringLiteral "%1  |  paired") deviceId) deviceId]) w
      else w
  end.

Definition set_near (v : Z) (w : Window) : Window :=
  mkWindow (statusLabel w) (statusBarMessage w) (deviceList w) (logList w) (spin_range v) (farThreshold w).
Definition set_far (v : Z) (w : Window) : Window :=
  mkWindow (statusLabel w) (statusBarMessage w) (deviceList w) (logList w) (nearThreshold w) (spin_range v).

(** [near->setValue(far->value())] runs [proximityChanged] when it changes the value. *)
Fixpoint proximityChanged (fuel : nat) (now : QString) (w : Window) : option Window :=
  match fuel with
  | 0 => None
  | S fuel =>
      w ← (if bool_decide (nearThreshold w < farThreshold w)%Z then
             let w' := set_near (farThreshold w) w in
             if bool_decide (nearThreshold w' = nearThreshold w) then Some w'
             else proximityChanged fuel now w'
           else Some w);
      appendLog now
        (argInt (argInt (QStringLiteral "proximity thresholds set to %1 / %2 dBm") (nearThreshold w))
           (farThreshold w)) w
  end.

(** The user turns a spin box to [v]. *)
Definition nearEdited (fuel : nat) (now : QString) (v : Z) (w : Window) : option Window :=
  let w' := set_near v w in
  if bool_decide (nearThreshold w' = nearThreshold w) then Some w' else proximityChanged fuel now w'.
Definition farEdited (fuel : nat) (now : QString) (v : Z) (w : Window) : option Window :=
  let w' := set_far v w in
  if bool_decide (farThreshold w' = farThreshold w) then Some w' else proximityChanged fuel now w'.

(** The lambda connected to [deviceFound], and the connection of [discoveryError]. *)
Definition onBle (now : QString) (s : BleSignal) (w : Window) : option Window :=
  match s with
  | deviceFound identifier name signalStrength =>
      w ← appendLog now
            (argInt (arg2 (QStringLiteral "BLE device %1 (%2) at %3 dBm") name identifier) signalStrength) w;
      Some (setDevice identifier (bool_decide (nearThreshold w <= signalStrength)%Z) w)
  | discoveryError message => appendLog now message w
  end.

(** The connections to the server's signals. *)
Definition onServer (now : QString) (s : Signal) (w : Window) : option Window :=
  match s with
  | logMessage message => appendLog now message w
  | statusChanged status => Some (setStatus status w)
  | deviceChanged deviceId connected => Some (setDevice deviceId connected w)
  end.

(** The text of [currentDateTime().toString("HH:mm:ss")]. *)
Definition time_text (now : QString) : Prop := length now = 8.

(** What reaches a window from its scanner and its spin boxes. *)
Inductive window_event `{BT : QtBluetooth} : Window → Window → Prop :=
  | step_device now device s w w' :
      time_text now → s ∈ discovered device → onBle now s w = Some w' → window_event w w'
  | step_bleError now text code s w w' :
      time_text now → error_text text → s ∈ ble_error text code → onBle now s w = Some w' → window_event w w'
  | step_near fuel now v w w' : time_text now → nearEdited fuel now v w = Some w' → window_event w w'
  | step_far fuel now v w w' : time_text now → farEdited fuel now v w = Some w' → window_event w w'.

(** Everything that reaches a window. *)
Inductive window_step `{BT : QtBluetooth} : Window → Window → Prop :=
  | step_server now s w w' : time_text now → onServer now s w = Some w' → window_step w w'
  | step_own w w' : window_event w w' → window_step w w'.
End MainWindow.

(** ** Invariant *)

Record window_ok (w : Window) : Prop := {
  ok_log : length (logList w) ≤ 500;
  ok_devices : NoDup (userRole <$> deviceList w);
  ok_near : (-100 <= nearThreshold w <= -1)%Z;
  ok_far : (-100 <= farThreshold w <= -1)%Z;
  ok_order : (farThreshold w <= nearThreshold w)%Z;
}.

Section Lemmas.
Context `{Q : QtCore}.
Implicit Types (w : Window).

(** The loop of [appendLog] keeps the first 500 entries. *)
Lemma trimLog_take fuel l : length l ≤ 500 + fuel → trimLog fuel l = Some (take 500 l).
Proof.
  induction fuel as [|fuel IH] in l |- *; intros Hl; cbn [trimLog];
    destruct (Nat.ltb_spec 500 (length l)) as [Hlt|Hge]; try lia; try by rewrite take_ge.
  destruct (exists_last (l := l)) as (k & x & ->); [intros ->; simpl in *; lia|].
  rewrite removelast_last. rewrite length_app in Hl, Hlt. simpl in Hl, Hlt.
  rewrite IH by lia. f_equal. by rewrite take_app_le by lia.
Qed.

Definition entry (now message : QString) : QString := arg2 (QStringLiteral "[%1] %2") now message.

Definition with_log (l : list QString) w : Window :=
  mkWindow (statusLabel w) (statusBarMessage w) (deviceList w) l (nearThreshold w) (farThreshold w).

Lemma appendLog_run now message w :
  appendLog now message w = Some (with_log (take 500 (entry now message :: logList w)) w).
Proof. unfold appendLog. rewrite trimLog_take by lia. done. Qed.

Lemma setDevice_loop_None id connected l :
  setDevice_loop id connected l = None ↔ id ∉ userRole <$> l.
Proof.
  induction l as [|item l IH]; simpl; [set_solver|].
  case_decide as Hi; [set_solver|]. rewrite fmap_None, IH. set_solver.
Qed.

Lemma setDevice_loop_Some id connected l l' :
  setDevice_loop id connected l = Some l' →
  if connected then l' = l
  else ∃ l1 item l2, l = l1 ++ item :: l2 ∧ userRole item = id ∧ l' = l1 ++ l2.
Proof.
  induction l as [|item l IH] in l' |- *; simpl; [done|]. case_decide as Hi.
  - intros [= <-]. destruct connected; [done|]. by exists [], item, l.
  - intros (k & Hk & ->)%fmap_Some. specialize (IH _ Hk). destruct connected; [by rewrite IH|].
    destruct IH as (l1 & it & l2 & -> & Hid & ->). by exists (item :: l1), it, l2.
Qed.

(** The device list is an ordered set of identifiers: connecting a device appends it unless
    it is listed, disconnecting it takes it out, and nothing else in the window changes. *)
Theorem setDevice_ordered_set id connected w :
  NoDup (userRole <$> deviceList w) →
  userRole <$> deviceList (setDevice id connected w) =
    (if connected then (userRole <$> deviceList w) ++ (if decide (id ∈ userRole <$> deviceList w) then [] else [id])
     else filter (λ i, i ≠ id) (userRole <$> deviceList w)) ∧
  setDevice id connected w = set_devices (deviceList (setDevice id connected w)) w.
Proof.
  intros Hnd. unfold setDevice. destruct (setDevice_loop id connected (deviceList w)) as [l|] eqn:El.
  - assert (id ∈ userRole <$> deviceList w) as Hin.
    { apply dec_stable. intros Hn. apply (setDevice_loop_None id connected) in Hn. congruence. }
    split; [|done]. apply setDevice_loop_Some in El. cbn [deviceList set_devices].
    destruct connected; [subst; by rewrite decide_True, app_nil_r by done|].
    destruct El as (l1 & item & l2 & E & <- & ->). rewrite E in *. rewrite !fmap_app in *. cbn [fmap list_fmap] in *.
    apply NoDup_app in Hnd as (H1 & H2 & [H3 H4]%NoDup_cons). rewrite filter_app.
    rewrite !filter_cons_False by tauto. f_equal; symmetry; apply filter_all.
    + intros i Hi ->. by apply (H2 (userRole item)); [|left].
    + intros i Hi ->. done.
  - apply setDevice_loop_None in El. destruct connected.
    + cbn [deviceList set_devices]. rewrite fmap_app, decide_False by done. done.
    + split; [|by destruct w]. symmetry. apply filter_all. intros i Hi ->. done.
Qed.

(** ** The spin boxes *)

Lemma spin_range_id v : (-100 <= v <= -1)%Z → spin_range v = v.
Proof. unfold spin_range. lia. Qed.

Lemma spin_range_bounds v : (-100 <= spin_range v <= -1)%Z.
Proof. unfold spin_range. lia. Qed.

Definition thresholds (n f : Z) w : Prop := nearThreshold w = n ∧ farThreshold w = f.

(** The fields a log entry leaves alone. *)
Definition same_but_log w w' : Prop := w' = with_log (logList w') w ∧ length (logList w') ≤ 500.

Lemma appendLog_same now message w w' : appendLog now message w = Some w' → same_but_log w w'.
Proof.
  rewrite appendLog_run. intros H.
  assert (w' = with_log (take 500 (entry now message :: logList w)) w) as -> by congruence.
  split; [done|]. apply (firstn_le_length 500).
Qed.

Lemma proximity_ordered fuel now w :
  (farThreshold w <= nearThreshold w)%Z →
  ∃ w', proximityChanged (S fuel) now w = Some w' ∧ same_but_log w w'.
Proof.
  intros H. cbn [proximityChanged]. rewrite bool_decide_false by lia.
  cbn [mbind option_bind]. rewrite appendLog_run. eexists. split; [done|].
  eapply appendLog_same, appendLog_run.
Qed.

(** Two nested calls are enough: the inner one finds the thresholds in order. *)
Lemma proximity_settles fuel now w :
  (-100 <= nearThreshold w <= -1)%Z → (-100 <= farThreshold w <= -1)%Z →
  ∃ l, length l ≤ 500 ∧ proximityChanged (S (S fuel)) now w =
    Some (with_log l (set_near (Z.max (nearThreshold w) (farThreshold w)) w)).
Proof.
  intros Hn Hf. destruct (decide (farThreshold w <= nearThreshold w)%Z) as [Hle|Hgt].
  - destruct (proximity_ordered (S fuel) now w Hle) as (w' & E & [Hw Hl]).
    exists (logList w'). split; [done|]. rewrite E, Hw. unfold with_log, set_near. cbn.
    by rewrite Z.max_l, spin_range_id.
  - remember (S fuel) as k eqn:Ek. cbn [proximityChanged]. rewrite bool_decide_true by lia.
    cbn [nearThreshold set_near]. rewrite (spin_range_id (farThreshold w)) by done.
    rewrite bool_decide_false by lia. subst k.
    destruct (proximity_ordered fuel now (set_near (farThreshold w) w)) as (w1 & E1 & [Hw1 _]).
    { cbn [set_near nearThreshold farThreshold]. rewrite spin_range_id; lia. }
    rewrite E1. cbn [mbind option_bind].
    match goal with |- context [appendLog now ?m w1] => pose proof (appendLog_run now m w1) as Er end.
    pose proof (appendLog_same _ _ _ _ Er) as [_ Hl]. rewrite Er.
    eexists. split; [exact Hl|]. rewrite Hw1. unfold with_log, set_near. cbn. by rewrite Z.max_r by lia.
Qed.

Ltac window_fields :=
  split; cbn [with_log set_near set_far set_devices logList deviceList nearThreshold farThreshold];
  rewrite ?(spin_range_id (Z.max _ _)) by lia; try done; try lia.

(** Turning either spin box ends after at most one nested call of [proximityChanged]: the far
    threshold is what the user chose (within the range of the box), and the near threshold is
    raised to it when it would lie below. *)
Theorem thresholds_edited fuel now v w :
  window_ok w →
  (∃ w', nearEdited (S (S fuel)) now v w = Some w' ∧ window_ok w' ∧
     farThreshold w' = farThreshold w ∧ nearThreshold w' = Z.max (spin_range v) (farThreshold w) ∧
     deviceList w' = deviceList w) ∧
  (∃ w', farEdited (S (S fuel)) now v w = Some w' ∧ window_ok w' ∧
     farThreshold w' = spin_range v ∧ nearThreshold w' = Z.max (nearThreshold w) (spin_range v) ∧
     deviceList w' = deviceList w).
Proof.
  intros [Hlog Hdev Hn Hf Ho]. pose proof (spin_range_bounds v) as Hv. unfold nearEdited, farEdited. split.
  - case_bool_decide as E.
    + eexists. split; [done|]. cbn [with_log set_near set_far logList deviceList nearThreshold farThreshold] in E |- *.
      split_and!; try done; [window_fields|lia].
    + destruct (proximity_settles fuel now (set_near v w)) as (l & Hl & ->); [done..|].
      eexists. split; [done|]. cbn [with_log set_near set_far logList deviceList nearThreshold farThreshold].
      rewrite (spin_range_id (Z.max _ _)) by lia. split_and!; try done. window_fields.
  - case_bool_decide as E.
    + eexists. split; [done|]. cbn [with_log set_near set_far logList deviceList nearThreshold farThreshold] in E |- *.
      split_and!; try done; [window_fields|lia].
    + destruct (proximity_settles fuel now (set_far v w)) as (l & Hl & ->); [done..|].
      eexists. split; [done|]. cbn [with_log set_near set_far logList deviceList nearThreshold farThreshold].
      rewrite (spin_range_id (Z.max _ _)) by lia. split_and!; try done. window_fields.
Qed.

(** ** Every step keeps the invariant *)

Lemma window_ok_with_log l w : length l ≤ 500 → window_ok w → window_ok (with_log l w).
Proof. intros Hl []. by split. Qed.

Lemma appendLog_ok now message w w' : window_ok w → appendLog now message w = Some w' → window_ok w'.
Proof. intros Hw H. apply appendLog_same in H as [-> Hl]. by apply window_ok_with_log. Qed.

Lemma setDevice_ok id connected w : window_ok w → window_ok (setDevice id connected w).
Proof.
  intros [Hlog Hdev Hn Hf Ho]. unfold setDevice.
  destruct (setDevice_loop id connected (deviceList w)) as [l|] eqn:El.
  - split; cbn [set_devices logList deviceList nearThreshold farThreshold]; try done.
    apply setDevice_loop_Some in El. destruct connected; [by subst|].
    destruct El as (l1 & item & l2 & E & _ & ->). rewrite E, fmap_app in Hdev. rewrite fmap_app.
    eapply sublist_NoDup; [exact Hdev|]. apply sublist_app; [done|]. by apply sublist_cons.
  - apply setDevice_loop_None in El. destruct connected; [|by split].
    split; cbn [set_devices logList deviceList nearThreshold farThreshold]; try done.
    rewrite fmap_app. apply NoDup_app. split_and!; [done| |apply NoDup_singleton]. set_solver.
Qed.

Lemma proximityChanged_ok fuel now w w' :
  (-100 <= nearThreshold w <= -1)%Z → (-100 <= farThreshold w <= -1)%Z →
  NoDup (userRole <$> deviceList w) →
  proximityChanged fuel now w = Some w' → window_ok w'.
Proof.
  induction fuel as [|fuel IH] in w, w' |- *; intros Hn Hf Hd; [done|]. cbn [proximityChanged].
  case_bool_decide as Hlt.
  - cbn [nearThreshold set_near]. rewrite (spin_range_id (farThreshold w)) by done.
    rewrite bool_decide_false by lia. intros (w1 & H1 & H2)%bind_Some.
    eapply appendLog_ok; [|exact H2]. eapply IH; [| | |exact H1]; cbn; rewrite ?spin_range_id; done.
  - cbn [mbind option_bind]. intros H. apply appendLog_same in H as [-> Hl].
    split; cbn [with_log logList deviceList nearThreshold farThreshold]; try done. lia.
Qed.

Lemma onServer_ok now sg w w' : window_ok w → onServer now sg w = Some w' → window_ok w'.
Proof.
  intros Hw. destruct sg; cbn [onServer]; intros H.
  - by eapply appendLog_ok.
  - injection H as <-. by destruct Hw.
  - injection H as <-. by apply setDevice_ok.
Qed.

Lemma onBle_ok now sg w w' : window_ok w → onBle now sg w = Some w' → window_ok w'.
Proof.
  intros Hw. destruct sg; cbn [onBle]; [|by apply appendLog_ok].
  intros (w1 & H1 & [= <-])%bind_Some. eapply setDevice_ok, appendLog_ok; [exact Hw|exact H1].
Qed.

Lemma edited_ok fuel now v w w' :
  window_ok w → nearEdited fuel now v w = Some w' ∨ farEdited fuel now v w = Some w' → window_ok w'.
Proof.
  intros [Hlog Hdev Hn Hf Ho] H. pose proof (spin_range_bounds v).
  unfold nearEdited, farEdited in H. destruct H as [H|H]; case_bool_decide as E.
  - injection H as <-. cbn in E. split; cbn; try done; unfold spin_range in *; lia.
  - by eapply proximityChanged_ok; [| | |exact H].
  - injection H as <-. cbn in E. split; cbn; try done; unfold spin_range in *; lia.
  - by eapply proximityChanged_ok; [| | |exact H].
Qed.

Context `{BT : QtBluetooth}.

Lemma window_event_ok w w' : window_ok w → window_event w w' → window_ok w'.
Proof.
  intros Hw Hs. destruct Hs as [now d sg w w' _ _ H|now t c sg w w' _ _ _ H|fu now v w w' _ H|fu now v w w' _ H].
  - by eapply onBle_ok.
  - by eapply onBle_ok.
  - eapply edited_ok; [done|by left].
  - eapply edited_ok; [done|by right].
Qed.

Lemma window_step_ok w w' : window_ok w → window_step w w' → window_ok w'.
Proof. intros Hw Hs. destruct Hs as [now sg w w' _ H|w w' H]; [by eapply onServer_ok|by eapply window_event_ok]. Qed.

Lemma MainWindow_new_ok : window_ok MainWindow_new.
Proof. split; apply (bool_decide_unpack _); vm_compute; exact I. Qed.

(** In every state of the window that signals of the server, Bluetooth devices and the user
    can lead to, the log has at most 500 entries, no device is listed twice, both thresholds
    are in the range of their boxes and the near threshold is not below the far one. *)
Theorem reachable_window_ok w : rtc window_step MainWindow_new w → window_ok w.
Proof.
  intros H. pose proof MainWindow_new_ok as H0. revert H0. induction H; eauto using window_step_ok.
Qed.
End Lemmas.

(** *** Witnesses *)

Definition demo_now : QString := QStringLiteral "12:00:00".

(** A Bluetooth stack that always says the same. *)
#[global] Instance demo_bluetooth : QtBluetooth := { error_text := λ t, t = QStringLiteral "Cannot find a local adapter" }.

Lemma setDevice_ordered_set_witness :
  userRole <$> deviceList (setDevice (QStringLiteral "a") true MainWindow_new) =
    (userRole <$> deviceList MainWindow_new) ++
      (if decide (QStringLiteral "a" ∈ userRole <$> deviceList MainWindow_new) then [] else [QStringLiteral "a"]) ∧
  setDevice (QStringLiteral "a") true MainWindow_new =
    set_devices (deviceList (setDevice (QStringLiteral "a") true MainWindow_new)) MainWindow_new.
Proof. apply (setDevice_ordered_set (QStringLiteral "a") true MainWindow_new). constructor. Defined.

Lemma thresholds_edited_witness :
  (∃ w', nearEdited 2 demo_now (-90) MainWindow_new = Some w' ∧ window_ok w' ∧
     farThreshold w' = farThreshold MainWindow_new ∧
     nearThreshold w' = Z.max (spin_range (-90)) (farThreshold MainWindow_new) ∧
     deviceList w' = deviceList MainWindow_new) ∧
  (∃ w', farEdited 2 demo_now (-90) MainWindow_new = Some w' ∧ window_ok w' ∧
     farThreshold w' = spin_range (-90) ∧
     nearThreshold w' = Z.max (nearThreshold MainWindow_new) (spin_range (-90)) ∧
     deviceList w' = deviceList MainWindow_new).
Proof. apply (thresholds_edited 0 demo_now (-90) MainWindow_new), MainWindow_new_ok. Defined.

Lemma reachable_window_ok_witness : window_ok (setDevice (QStringLiteral "a") true MainWindow_new).
Proof.
  apply (reachable_window_ok (setDevice (QStringLiteral "a") true MainWindow_new)). apply rtc_once.
  by apply (step_server demo_now (deviceChanged (QStringLiteral "a") true)).
Defined.
