(* ===== verification/PairingDialog.v ===== *)
(** * The pairing dialog (src/ui/pairing_dialog.cpp)

    What the dialog shows: the payload text and the QR code as an image.  The
    encoder is the third-party library qrcodegen; the raster is the program's. *)
From stdpp Require Import base gmap sets list strings.
From Stdlib Require Import ZArith Lia.
From S2P Require Import Prelude Qt Reference.

Record QrCode : Type := mkQrCode { getSize : nat; getModule : nat → nat → bool }.

(** [QrCode::encodeText(text, MEDIUM)]; [None]: the exception for a text that is too long. *)
Class QrCodegen : Type := { encodeText : list byte → option QrCode }.

(** A [QImage] with white pixels, except for the black ones. *)
Record QImage : Type := mkImage { width : nat; height : nat; black : gset (nat * nat) }.

(** [painter.drawRect(x, y, 1, 1)] with a black brush and no pen, clipped to the image. *)
Definition drawModule (image : QImage) (x y : nat) : QImage :=
  if (x <? width image) && (y <? height image)
  then mkImage (width image) (height image) ({[(x, y)]} ∪ black image) else image.

Definition border : nat := 4.

(** [for (y) for (x) if (code.getModule(x, y)) painter.drawRect(x + border, y + border, 1, 1)] *)
Definition paintRow (code : QrCode) (image : QImage) (y : nat) : QImage :=
  foldl (λ image x, if getModule code x y then drawModule image (x + border) (y + border) else image)
    image (seq 0 (getSize code)).

Definition paintCode (code : QrCode) : QImage :=
  let modules := getSize code + border * 2 in
  foldl (paintRow code) (mkImage modules modules ∅) (seq 0 (getSize code)).

Section Dialog.
Context `{Q : QtCore} `{G : QrCodegen}.

Definition renderCode (payload : QString) : option QImage :=
  paintCode <$> encodeText (c_str (toUtf8 payload)).

Record PairingDialog : Type := mkDialog { payloadView : QString; codeView : QImage }.

Definition PairingDialog_new (payloadBytes : QByteArray) : option PairingDialog :=
  let payload := fromUtf8 payloadBytes in
  image ← renderCode payload;
  Some (mkDialog payload image).

(** The action of the button [Copy payload]: the new text of the clipboard, if there is one. *)
Definition copyPayload (payload : QString) (clipboard : option QString) : option QString :=
  match clipboard with Some _ => Some payload | None => None end.
End Dialog.

(** ** The raster *)

Section Raster.
Implicit Types (code : QrCode) (image : QImage).

Lemma drawModule_inside image x y :
  x < width image → y < height image →
  drawModule image x y = mkImage (width image) (height image) ({[(x, y)]} ∪ black image).
Proof. intros Hx Hy. unfold drawModule. by apply Nat.ltb_lt in Hx as ->, Hy as ->. Qed.

(** A run of the inner loop over the columns [l]. *)
Lemma paintRow_columns code image y l :
  y + border < height image → (∀ x, x ∈ l → x + border < width image) →
  let image' := foldl (λ image x, if getModule code x y then drawModule image (x + border) (y + border) else image) image l in
  width image' = width image ∧ height image' = height image ∧
  ∀ i j, (i, j) ∈ black image' ↔ (i, j) ∈ black image ∨
    j = y + border ∧ ∃ x, x ∈ l ∧ i = x + border ∧ getModule code x y = true.
Proof.
  intros Hy. induction l as [|x l IH] in image, Hy |- *; intros Hl; simpl.
  - split_and!; try done. intros i j. split; [by left|]. intros [?|(_ & x & Hx & _)]; [done|].
    by apply not_elem_of_nil in Hx.
  - assert (x + border < width image) as Hx by (apply Hl; left).
    destruct (getModule code x y) eqn:Em.
    + rewrite drawModule_inside by done.
      destruct (IH (mkImage (width image) (height image) ({[(x + border, y + border)]} ∪ black image)))
        as (Hw & Hh & Hb); [done|intros; apply Hl; by right|].
      simpl in Hw, Hh, Hb. split_and!; [done|done|]. intros i j. rewrite Hb. set_solver.
    + destruct (IH image Hy) as (Hw & Hh & Hb); [intros; apply Hl; by right|].
      split_and!; [done|done|]. intros i j. rewrite Hb. split; [set_solver|].
      intros [?|(-> & x' & [->|Hx']%elem_of_cons & -> & Hm)]; [by left|congruence|right; eauto].
Qed.

Lemma paintCode_rows code image l :
  (∀ y, y ∈ l → y + border < height image) → getSize code + border ≤ width image →
  let image' := foldl (paintRow code) image l in
  width image' = width image ∧ height image' = height image ∧
  ∀ i j, (i, j) ∈ black image' ↔ (i, j) ∈ black image ∨
    ∃ x y, y ∈ l ∧ x < getSize code ∧ i = x + border ∧ j = y + border ∧ getModule code x y = true.
Proof.
  induction l as [|y l IH] in image |- *; intros Hl Hw; simpl.
  - split_and!; try done. intros i j. split; [by left|]. intros [?|(x & y & Hy & _)]; [done|].
    by apply not_elem_of_nil in Hy.
  - destruct (paintRow_columns code image y (seq 0 (getSize code))) as (W1 & H1 & B1).
    { apply Hl. left. }
    { intros x Hx%elem_of_seq. lia. }
    fold (paintRow code image y) in W1, H1, B1.
    destruct (IH (paintRow code image y)) as (W2 & H2 & B2).
    { intros y' Hy'. rewrite H1. apply Hl. by right. }
    { by rewrite W1. }
    split_and!; [congruence|congruence|]. intros i j. rewrite B2, B1. split.
    + intros [[?|(-> & x & Hx%elem_of_seq & -> & Hm)]|(x & y' & Hy' & H)]; [by left|right..].
      * exists x, y. split_and!; try done; [left|lia].
      * exists x, y'. split; [by right|done].
    + intros [?|(x & y' & [->|Hy']%elem_of_cons & Hx & -> & -> & Hm)]; [by left; left| |].
      * left. right. split; [done|]. exists x. split; [apply elem_of_seq; lia|done].
      * right. eauto 10.
Qed.

(** The image is the QR code with its quiet zone: it is square, four modules wider than the
    code on every side, and a pixel is black exactly when it is a dark module of the code,
    moved by the border; so all four margins stay white. *)
Theorem paintCode_exact code :
  width (paintCode code) = getSize code + 8 ∧ height (paintCode code) = getSize code + 8 ∧
  ∀ i j, (i, j) ∈ black (paintCode code) ↔
    4 ≤ i < getSize code + 4 ∧ 4 ≤ j < getSize code + 4 ∧ getModule code (i - 4) (j - 4) = true.
Proof.
  unfold paintCode.
  destruct (paintCode_rows code (mkImage (getSize code + border * 2) (getSize code + border * 2) ∅)
    (seq 0 (getSize code))) as (W & H & B).
  { intros y Hy%elem_of_seq. cbn [height]. unfold border. lia. }
  { cbn [width]. unfold border. lia. }
  split_and!; [rewrite W; done|rewrite H; done|]. intros i j. rewrite B. cbn [black]. unfold border. split.
  - intros [?|(x & y & Hy%elem_of_seq & Hx & -> & -> & Hm)]; [set_solver|].
    rewrite !Nat.add_sub. split_and!; try lia. done.
  - intros (Hi & Hj & Hm). right. exists (i - 4), (j - 4). rewrite elem_of_seq.
    split_and!; try lia. done.
Qed.
End Raster.
