(* ===== verification/Desktop.v ===== *)
(** * The desktop program (src/main.cpp)

    [main] builds the server, starts it, and only then builds the window that
    listens to its signals; the tray menu shows the window again and quits.  A
    running program is the server, the window with its scanner, the open pairing
    dialog and the clipboard.  What the server emits in a step is delivered to
    the window in order (both live in the same thread and no slot of the window
    calls the server back).  [exitCode] is set when the event loop has ended. *)
From stdpp Require Import base gmap sets list strings relations.
From Stdlib Require Import ZArith Lia.
From S2P Require Import Prelude Qt World Crypto Reference CryptoTheorems ReplayGuard ReplayTheorems Server Scenario ServerLemmas ServerFrame ServerStream ServerInvariant ServerPairing ServerLifecycle MainWindow PairingDialog.

Section Desktop.
Context `{Q : QtCore} `{O : OpenSSL} `{G : QrCodegen} `{BT : QtBluetooth}.
Implicit Types (s : Sys) (w : Window).

Record Desktop : Type := mkDesktop {
  backend : Sys;
  window : Window;
  scanner : BleDiscovery;
  dialog : option PairingDialog;       (* the modal dialog, while it is open *)
  clipboard : option QString;          (* [None]: the platform has no clipboard *)
  windowVisible : bool;
  exitCode : option Z;                 (* what [application.exec()] returned *)
}.

Definition set_backend s w d := mkDesktop s w (scanner d) (dialog d) (clipboard d) (windowVisible d) (exitCode d).
Definition set_window w d := mkDesktop (backend d) w (scanner d) (dialog d) (clipboard d) (windowVisible d) (exitCode d).
Definition set_dialog g d := mkDesktop (backend d) (window d) (scanner d) g (clipboard d) (windowVisible d) (exitCode d).
Definition set_clipboard t d := mkDesktop (backend d) (window d) (scanner d) (dialog d) t (windowVisible d) (exitCode d).
Definition set_visible b d := mkDesktop (backend d) (window d) (scanner d) (dialog d) (clipboard d) b (exitCode d).
Definition set_exit c d := mkDesktop (backend d) (window d) (scanner d) (dialog d) (clipboard d) (windowVisible d) (Some c).

(** What [main] reaches: [inl] of the exit code, or [inr] of the program in its event loop. *)
Definition main (net : NetAnswers) (clipboard : option QString) (w : World) : option (Z + Desktop) :=
  '(server, w) ← Server_new w;
  '(started, s) ← start net 43295 (mkSys server w);
  if negb started then Some (inl 1%Z)
  else Some (inr (mkDesktop s MainWindow_new (ble_start false BleDiscovery_new) None clipboard true None)).

(** The signals among the events of a step, and their delivery; [now n] is the time text
    of the [n]-th of them. *)
Definition signals (evs : list Event) : list Signal :=
  omap (λ e, match e with Emit sg => Some sg | _ => None end) evs.

Definition emitted (s s' : Sys) : list Signal :=
  signals (drop (length (trace (wrld s))) (trace (wrld s'))).

Fixpoint deliver (now : nat → QString) (sgs : list Signal) (w : Window) : option Window :=
  match sgs with
  | [] => Some w
  | sg :: sgs => w ← onServer (now 0) sg w; deliver (λ n, now (S n)) sgs w
  end.

(** [showPairing]: the dialog it opens.  The exception of a text too long for a QR code ends
    the program and has no result. *)
Definition showPairing (addresses : list HostAddress) : M Sys PairingDialog :=
  payload ← pairingPayload addresses [];
  defined (PairingDialog_new payload).

(** The three connections of the tray menu and of the application. *)
Definition openDashboard (d : Desktop) : Desktop := set_visible true d.
Definition quit (closes_now : QTcpSocket → bool) (now : nat → QString) (d : Desktop) : option Desktop :=
  '(_, s) ← stop closes_now (backend d);
  w ← deliver now (emitted (backend d) s) (window d);
  Some (set_exit 0 (set_backend s w d)).

(** One event of a running program. *)
Inductive event (d : Desktop) : Desktop → Prop :=
  | event_slot now s' w' :
      (∀ n, time_text (now n)) → slot (backend d) s' → deliver now (emitted (backend d) s') (window d) = Some w' →
      event d (set_backend s' w' d)
  | event_window w' : window_event (window d) w' → event d (set_window w' d)
  | event_pairDevice addresses g s' :
      dialog d = None → showPairing addresses (backend d) = Some (g, s') →
      event d (set_dialog (Some g) (set_backend s' (window d) d))
  | event_copyPayload g :
      dialog d = Some g → event d (set_clipboard (copyPayload (payloadView g) (clipboard d)) d)
  | event_closeDialog : event d (set_dialog None d)
  | event_openAction : event d (openDashboard d)
  | event_windowClosed : event d (set_visible false d)
  | event_quitAction closes_now now d' : (∀ n, time_text (now n)) → quit closes_now now d = Some d' → event d d'.

(** The event loop runs until it was told to quit; [setQuitOnLastWindowClosed(false)]. *)
Inductive desktop_step (d : Desktop) : Desktop → Prop :=
  | step_event d' : exitCode d = None → event d d' → desktop_step d d'.

(** ** Delivery *)

Lemma deliver_ok now sgs w w' : window_ok w → deliver now sgs w = Some w' → window_ok w'.
Proof.
  induction sgs as [|sg sgs IH] in now, w |- *; cbn [deliver]; intros Hw H; [by injection H as <-|].
  apply bind_Some in H as (w1 & H1 & H2). eapply IH; [|exact H2]. by eapply onServer_ok.
Qed.

Lemma onServer_total now sg w : is_Some (onServer now sg w).
Proof. destruct sg; cbn [onServer]; rewrite ?appendLog_run; by eexists. Qed.

Lemma deliver_total now sgs w : is_Some (deliver now sgs w).
Proof.
  induction sgs as [|sg sgs IH] in now, w |- *; cbn [deliver]; [by eexists|].
  destruct (onServer_total (now 0) sg w) as [w1 ->]. apply IH.
Qed.

(** What the window shows. *)
Definition shown (w : Window) : list QString := userRole <$> deviceList w.

Lemma onServer_shown now sg w w' id :
  (∀ id', sg ≠ deviceChanged id' false) → onServer now sg w = Some w' →
  id ∈ shown w ∨ sg = deviceChanged id true → id ∈ shown w'.
Proof.
  intros Hne. destruct sg as [m|m|id' []]; cbn [onServer]; intros H.
  - apply appendLog_same in H as [-> _]. intros [H|[=]]. exact H.
  - injection H as <-. intros [H|[=]]. exact H.
  - injection H as <-. unfold setDevice.
    destruct (setDevice_loop id' true (deviceList w)) as [l|] eqn:El.
    + assert (id' ∈ shown w) as Hin.
      { apply dec_stable. intros Hn. apply (setDevice_loop_None id' true) in Hn. congruence. }
      apply setDevice_loop_Some in El as ->. by intros [H|[= ->]].
    + unfold shown. cbn [deviceList set_devices]. rewrite fmap_app.
      intros [H|[= ->]]; apply elem_of_app; [by left|right]. simpl. set_solver.
  - by destruct (Hne id').
Qed.

Lemma deliver_shown now sgs w w' id :
  Forall (λ sg, ∀ id', sg ≠ deviceChanged id' false) sgs → deliver now sgs w = Some w' →
  id ∈ shown w ∨ deviceChanged id true ∈ sgs → id ∈ shown w'.
Proof.
  induction sgs as [|sg sgs IH] in now, w |- *; cbn [deliver]; intros Hf H Hin.
  - injection H as <-. destruct Hin as [?|Hin]; [done|]. by apply not_elem_of_nil in Hin.
  - apply Forall_cons in Hf as [Hsg Hf]. apply bind_Some in H as (w1 & H1 & H2).
    apply (IH _ w1 Hf H2). destruct Hin as [Hin|Hin].
    + left. eapply onServer_shown; eauto.
    + apply elem_of_cons in Hin as [<-|Hin]; [left; eapply onServer_shown; eauto|by right].
Qed.

Context {QL : QtLaws Q} {OS : OpenSSLSizes O}.

(** ** The invariant of the program *)

(** What the dialog shows is the QR code of its own text. *)
Definition dialog_ok (g : PairingDialog) : Prop :=
  ∃ code, encodeText (c_str (toUtf8 (payloadView g))) = Some code ∧ codeView g = paintCode code.

Record desktop_ok (d : Desktop) : Prop := {
  dt_server : server_ok (srv (backend d));
  dt_window : window_ok (window d);
  (** the server listens exactly as long as the program runs, on the port of [main] *)
  dt_running : exitCode d = None → listening (srv (backend d)) = true;
  dt_port : port_ (srv (backend d)) = 43295%Z;
  dt_exited : ∀ c, exitCode d = Some c → c = 0%Z ∧ listening (srv (backend d)) = false;
  (** the scanner was started once and is never started again *)
  dt_scanner : agent_ (scanner d) = [AgentStart];
  dt_dialog : ∀ g, dialog d = Some g → dialog_ok g;
}.

Lemma slot_server_step s s' : slot s s' → server_step s s'.
Proof.
  intros [p s0 s1 H|se a s0 s1 H|se s0 s1 H|p s0 s1 H|s0 s1 Ht H].
  - by eapply step_newConnection.
  - by eapply step_readyRead.
  - by eapply step_disconnected.
  - by eapply step_datagrams.
  - by eapply step_timeout.
Qed.

Lemma service_eq v v' : service v = service v' → listening v = listening v' ∧ port_ v = port_ v'.
Proof. unfold service. intros. by simplify_eq. Qed.

Lemma showPairing_inv addresses s g s' :
  showPairing addresses s = Some (g, s') →
  ∃ payload, pairingPayload addresses [] s = Some (payload, s') ∧ PairingDialog_new payload = Some g.
Proof.
  unfold showPairing. intros (payload & s1 & H1 & H)%M_bind_Some. exists payload. unfold defined in H.
  destruct (PairingDialog_new payload); by simplify_eq.
Qed.

Lemma PairingDialog_new_inv payload g :
  PairingDialog_new payload = Some g → payloadView g = fromUtf8 payload ∧ dialog_ok g.
Proof.
  unfold PairingDialog_new, renderCode, dialog_ok. intros (image & H & [= <-])%bind_Some.
  apply fmap_Some in H as (code & Hc & ->). split; [done|]. by exists code.
Qed.

Lemma quit_ok closes_now now d d' : desktop_ok d → quit closes_now now d = Some d' → desktop_ok d'.
Proof.
  intros [Hs Hw _ Hp _ Hb Hd] H. unfold quit in H. apply bind_Some in H as ([[] s] & Hstop & H).
  apply bind_Some in H as (w & Hdel & [= <-]).
  pose proof (stop_ok closes_now _ Hs _ _ Hstop) as Hok.
  destruct (stop_run closes_now (backend d)) as [w' E]. rewrite E in Hstop. injection Hstop as <-.
  split; cbn [backend window exitCode scanner dialog set_exit set_backend]; try done.
  - by eapply deliver_ok.
  - by intros c [= <-].
Qed.

Lemma event_ok d d' : exitCode d = None → desktop_ok d → event d d' → desktop_ok d'.
Proof.
  intros Hrun Hok He. pose proof Hok as [Hs Hw Hl Hp Hx Hb Hd]. specialize (Hl Hrun).
  destruct He as [now s' w' _ Hslot Hdel|w' Hw'|addresses g s' Hnone Hshow|g Hg| | | |closes_now now d' _ Hq].
  - apply slot_service in Hslot as Hserv. apply service_eq in Hserv as [El Ep]. apply slot_server_step in Hslot.
    split; cbn [backend window exitCode scanner dialog set_backend]; try done; try congruence.
    + by eapply server_step_ok.
    + by eapply deliver_ok.
  - split; try done. by eapply window_event_ok.
  - apply showPairing_inv in Hshow as (payload & Hpay & Hg).
    assert (service (srv s') = service (srv (backend d))) as [El Ep]%service_eq
      by (eapply unchanged_run; [apply pairingPayload_service|exact Hpay]).
    split; cbn [backend window exitCode scanner dialog set_backend set_dialog]; try done; try congruence.
    + by eapply pairingPayload_ok.
    + intros g' [= <-]. by eapply PairingDialog_new_inv.
  - by split.
  - by split.
  - by split.
  - by split.
  - by eapply quit_ok.
Qed.

Lemma main_ok net clip (w : World) d : main net clip w = Some (inr d) → desktop_ok d ∧ exitCode d = None.
Proof.
  unfold main. intros H. apply bind_Some in H as ([server w1] & H1 & H2).
  apply bind_Some in H2 as ([started s] & H2 & H3). destruct started; [|done]. injection H3 as <-.
  assert (server_ok (srv s)) as Hok.
  { eapply (start_ok net 43295); [lia| |exact H2]. by eapply Server_new_ok. }
  assert (listening server = false) as El.
  { unfold Server_new in H1. apply M_bind_Some in H1 as (r & w2 & _ & H1).
    apply M_bind_Some in H1 as ([keys e] & w3 & _ & H1). unfold mret, M_ret in H1. by simplify_eq. }
  rewrite start_run in H2. cbn [srv] in H2. rewrite El in H2.
  repeat (destruct (negb _); [done|]). injection H2 as <-. split; [|done].
  split; cbn [backend window exitCode scanner dialog]; try done. apply MainWindow_new_ok.
Qed.

(** C39: The whole program keeps the invariants of its parts: from a successful start on, no
    sequence of network events, timer events, signals, Bluetooth devices and user actions
    breaks the invariant of the server or of the window, stops the server while the program
    runs, leaves it listening afterwards, restarts the Bluetooth scan, or shows a QR code of
    anything but the text next to it. *)
Theorem reachable_desktop_ok net clip (w : World) d d' :
  main net clip w = Some (inr d) → rtc desktop_step d d' → desktop_ok d'.
Proof.
  intros [Hok _]%main_ok Hsteps. revert Hok. induction Hsteps as [|d1 d2 d3 [d2' Hrun He] _ IH]; [done|].
  intros Hok. apply IH. by eapply event_ok.
Qed.

(** Quitting works from everywhere: while the program runs, also with the dialog open, the tray's
    [Quit] ends the event loop with code 0; afterwards nothing listens, no timer and no buffer is
    left, the paired devices stay until the process ends, and no further step is possible.
    Closing the window does none of this: the server runs on. *)
Theorem quit_ends_program d closes_now now :
  exitCode d = None → (∀ n, time_text (now n)) →
  (∃ d1, quit closes_now now d = Some d1 ∧ desktop_step d d1 ∧ exitCode d1 = Some 0%Z ∧
     listening (srv (backend d1)) = false ∧ udpBound (srv (backend d1)) = false ∧
     discoveryTimer_ (srv (backend d1)) = None ∧ buffers_ (srv (backend d1)) = ∅ ∧
     pairedKeys_ (srv (backend d1)) = pairedKeys_ (srv (backend d)) ∧ ∀ d2, ¬ desktop_step d1 d2) ∧
  ∃ d1, desktop_step d d1 ∧ windowVisible d1 = false ∧ backend d1 = backend d ∧ exitCode d1 = None.
Proof.
  intros Hrun Hnow. split.
  - destruct (stop_run closes_now (backend d)) as [w1 Hstop].
    match type of Hstop with _ = Some (_, ?x) => set (s1 := x) in Hstop end.
    destruct (deliver_total now (emitted (backend d) s1) (window d)) as [w2 Hw2].
    assert (quit closes_now now d = Some (set_exit 0 (set_backend s1 w2 d))) as Hq.
    { unfold quit. rewrite Hstop. cbn [mbind option_bind]. by rewrite Hw2. }
    eexists. split; [exact Hq|]. split; [by apply step_event; [|eapply event_quitAction]|].
    split_and!; try done. by intros d2 [d3 He _].
  - exists (set_visible false d). split; [apply step_event; [done|apply event_windowClosed]|done].
Qed.

(** ** The pairing ceremony *)

Lemma c_str_json o : c_str (toUtf8 (fromUtf8 (toJson o))) = toJson o.
Proof. rewrite toUtf8_toJson. apply c_str_id, toJson_no_nul. Qed.

(** C27: The QR ceremony works: the dialog that [showPairing] opens shows the QR code of a text; a
    device that scans that code and sends the pairing code it finds in the text, within 300
    seconds and with a non-empty identifier and two 32-byte keys, is paired, whenever the key
    agreement succeeds. *)
Theorem scanned_code_pairs addresses s g s1 :
  in_range 64 (window_age s) →
  plain_string (endpoint_of addresses []) → plain_string (pairingCode_ (srv s)) →
  (0 <= port_ (srv s) < 2 ^ 16)%Z → length (privateKey (x25519KeyPair_ (srv s))) = 32 →
  showPairing addresses s = Some (g, s1) →
  ∃ text code, encodeText text = Some code ∧ codeView g = paintCode code ∧
    ∃ o, fromJson text = Some (DocObject o) ∧ field o "host" = endpoint_of addresses [] ∧
      ∀ request (w2 : World), field request "pairing_code" = field o "pairing_code" →
        field request "device_id" ≠ [] → length (hexField request "public_key") = 32 →
        length (hexField request "x25519_public_key") = 32 →
        in_range 64 (window_age (mkSys (srv s1) w2)) → (window_age (mkSys (srv s1) w2) <= 300)%Z →
        is_Some (agreed_secret request (srv s1)) →
        ∃ s3, handlePair request (mkSys (srv s1) w2) = Some (pairedResponse (srv s1), s3) ∧
          pairedKeys_ (srv s3) !! field request "device_id" = Some (hexField request "public_key").
Proof.
  intros Hr Hhost Hcode Hport Hk (payload & Hpay & Hg)%showPairing_inv.
  apply PairingDialog_new_inv in Hg as [Hview (code & Henc & Hcv)].
  destruct (pairingPayload_plain addresses [] s payload s1) as (-> & Hplain & _); try done.
  rewrite Hview, c_str_json in Henc. eexists _, code. split; [exact Henc|]. split; [done|].
  eexists. split; [by apply fromJson_toJson|]. split; [unfold payload_object; by json_field|].
  intros request w2 Hreq. intros. eapply (payload_code_pairs addresses [] s); try done. by apply fromJson_toJson.
Qed.

(** A device that pairs appears in the window: whenever a [pair] request registers a device,
    the signals of that request, delivered to any window, leave the device in its list. *)
Theorem paired_device_shown request s response s' now w :
  in_range 64 (window_age s) → length (privateKey (x25519KeyPair_ (srv s))) = 32 →
  handlePair request s = Some (response, s') → srv s' ≠ srv s →
  ∃ evs w', trace (wrld s') = trace (wrld s) ++ evs ∧ deliver now (signals evs) w = Some w' ∧
    field request "device_id" ∈ dom (pairedKeys_ (srv s')) ∧ field request "device_id" ∈ shown w'.
Proof.
  intros Hr Hk H Hne. destruct (decide (pair_valid request (srv s) (reading (wrld s) 0))) as [Hv|Hv].
  2: { destruct (handlePair_refused request s Hr Hv) as (n & E). rewrite E in H. by simplify_eq. }
  rewrite handlePair_valid in H by done.
  destruct (agreed_secret request (srv s)) as [shared|]; [|by simplify_eq].
  set (id := field request "device_id") in *.
  set (evs := [Emit (deviceChanged id true); Emit (logMessage (arg (QStringLiteral "paired device %1") id))]).
  destruct (deliver_total now (signals evs) w) as [w' Hw]. exists evs, w'.
  injection H as <- <-. cbn [wrld srv]. split_and!; [cbn; by rewrite <- app_assoc|done| |].
  - cbn. rewrite dom_insert_L. set_solver.
  - eapply deliver_shown; [|exact Hw|right; cbn; set_solver].
    subst evs. cbn. repeat constructor; done.
Qed.

Lemma main_started net clip (w : World) server (w1 : World) s :
  Server_new w = Some (server, w1) → start net 43295 (mkSys server w1) = Some (true, s) →
  main net clip w = Some (inr (mkDesktop s MainWindow_new (mkBle [AgentStart]) None clip true None)).
Proof. intros H1 H2. unfold main. rewrite H1. cbn [mbind option_bind]. by rewrite H2. Qed.

(** The window never learns that the server is up: the signals of a successful start are
    emitted before the window exists, so the dashboard opens with the status [Starting] and an
    empty log over a server that listens. *)
Theorem startup_signals_lost net clip (w : World) d :
  main net clip w = Some (inr d) →
  listening (srv (backend d)) = true ∧
  Emit (statusChanged (argInt (QStringLiteral "Listening on TCP/UDP %1") 43295)) ∈ trace (wrld (backend d)) ∧
  statusLabel (window d) = QStringLiteral "Starting" ∧ logList (window d) = [].
Proof.
  unfold main. intros H. apply bind_Some in H as ([server w1] & H1 & H2).
  apply bind_Some in H2 as ([started s] & H2 & H3). destruct started; [|done]. injection H3 as <-.
  cbn [backend window].
  assert (listening server = false) as El.
  { unfold Server_new in H1. apply M_bind_Some in H1 as (r & w2 & _ & H1).
    apply M_bind_Some in H1 as ([keys e] & w3 & _ & H1). unfold mret, M_ret in H1. by simplify_eq. }
  rewrite start_run in H2. cbn [srv] in H2. rewrite El in H2.
  repeat (destruct (negb _); [done|]). injection H2 as <-. cbn [srv wrld].
  split; [done|]. split; [|done]. cbn. set_solver.
Qed.
End Desktop.

(** *** Witnesses *)

#[local] Instance demo_QrCodegen : QrCodegen := { encodeText := λ _, Some (mkQrCode 21 (λ x y, Nat.even (x + y))) }.

Definition demo_desktop : Desktop := mkDesktop demo_started MainWindow_new (mkBle [AgentStart]) None (Some []) true None.

Lemma demo_main : main demo_net (Some []) demo_world = Some (inr demo_desktop).
Proof.
  apply (main_started demo_net (Some []) demo_world (srv demo_new) (wrld demo_new)); [exact demo_new_run|].
  rewrite sys_eta. exact demo_start_run.
Qed.

Lemma paired_device_shown_witness :
  ∃ evs w', trace (wrld demo_paired) = trace (wrld demo_accepted) ++ evs ∧
    deliver (λ _, demo_now) (signals evs) MainWindow_new = Some w' ∧
    field (pair_request demo_code) "device_id" ∈ dom (pairedKeys_ (srv demo_paired)) ∧
    field (pair_request demo_code) "device_id" ∈ shown w'.
Proof.
  apply (paired_device_shown (pair_request demo_code) demo_accepted demo_reply demo_paired (λ _, demo_now)).
  - apply (bool_decide_unpack _). vm_compute. exact I.
  - vm_compute. reflexivity.
  - exact demo_pair_run.
  - exact demo_paired_changed.
Defined.

Lemma startup_signals_lost_witness :
  listening (srv (backend demo_desktop)) = true ∧
  Emit (statusChanged (argInt (QStringLiteral "Listening on TCP/UDP %1") 43295)) ∈ trace (wrld (backend demo_desktop)) ∧
  statusLabel (window demo_desktop) = QStringLiteral "Starting" ∧ logList (window demo_desktop) = [].
Proof. apply (startup_signals_lost demo_net (Some []) demo_world). exact demo_main. Defined.

Lemma quit_ends_program_witness :
  (∃ d1, quit (λ _, true) (λ _, demo_now) demo_desktop = Some d1 ∧ desktop_step demo_desktop d1 ∧ exitCode d1 = Some 0%Z ∧
     listening (srv (backend d1)) = false ∧ udpBound (srv (backend d1)) = false ∧
     discoveryTimer_ (srv (backend d1)) = None ∧ buffers_ (srv (backend d1)) = ∅ ∧
     pairedKeys_ (srv (backend d1)) = pairedKeys_ (srv (backend demo_desktop)) ∧ ∀ d2, ¬ desktop_step d1 d2) ∧
  ∃ d1, desktop_step demo_desktop d1 ∧ windowVisible d1 = false ∧ backend d1 = backend demo_desktop ∧ exitCode d1 = None.
Proof. by apply (quit_ends_program demo_desktop (λ _, true) (λ _, demo_now)). Defined.

Definition demo_dialog : PairingDialog :=
  mkDialog (fromUtf8 demo_payload) (paintCode (mkQrCode 21 (λ x y, Nat.even (x + y)))).

Lemma demo_show : showPairing [] demo_accepted = Some (demo_dialog, demo_displayed).
Proof. unfold showPairing. rewrite (bind_run _ _ _ _ _ demo_displayed_run). reflexivity. Qed.

(** A device connects, the pairing dialog is opened and closed, and the tray menu quits. *)
Lemma demo_desktop_run : ∃ d', rtc desktop_step demo_desktop d' ∧ exitCode d' = Some 0%Z.
Proof.
  destruct (deliver_total (λ _, demo_now) (emitted demo_started demo_accepted) MainWindow_new) as [w1 Hw1].
  set (d1 := set_backend demo_accepted w1 demo_desktop).
  set (d2 := set_dialog (Some demo_dialog) (set_backend demo_displayed w1 d1)).
  destruct (quit_ends_program (set_dialog None d2) (λ _, false) (λ _, demo_now) eq_refl (λ _, eq_refl))
    as ((d' & _ & Hstep & Hexit & _) & _).
  exists d'. split; [|exact Hexit].
  eapply rtc_l.
  { apply step_event; [reflexivity|]. apply (event_slot demo_desktop (λ _, demo_now)); [done| |exact Hw1].
    eapply slot_newConnection. exact demo_accept_run. }
  eapply rtc_l. { apply step_event; [reflexivity|]. apply (event_pairDevice d1 []); [reflexivity|exact demo_show]. }
  eapply rtc_l. { apply step_event; [reflexivity|]. apply event_closeDialog. }
  by apply rtc_once.
Qed.

Lemma reachable_desktop_ok_witness : ∃ d', rtc desktop_step demo_desktop d' ∧ exitCode d' = Some 0%Z ∧ desktop_ok d'.
Proof.
  destruct demo_desktop_run as (d' & Hsteps & Hexit). exists d'. split; [exact Hsteps|]. split; [exact Hexit|].
  apply (reachable_desktop_ok demo_net (Some []) demo_world demo_desktop d').
  - exact demo_main.
  - exact Hsteps.
Defined.

Lemma scanned_code_pairs_witness :
  ∃ text code, encodeText text = Some code ∧ codeView demo_dialog = paintCode code ∧
    ∃ o, fromJson text = Some (DocObject o) ∧ field o "host" = endpoint_of [] [] ∧
      ∀ request (w2 : World), field request "pairing_code" = field o "pairing_code" →
        field request "device_id" ≠ [] → length (hexField request "public_key") = 32 →
        length (hexField request "x25519_public_key") = 32 →
        in_range 64 (window_age (mkSys (srv demo_displayed) w2)) →
        (window_age (mkSys (srv demo_displayed) w2) <= 300)%Z →
        is_Some (agreed_secret request (srv demo_displayed)) →
        ∃ s3, handlePair request (mkSys (srv demo_displayed) w2) = Some (pairedResponse (srv demo_displayed), s3) ∧
          pairedKeys_ (srv s3) !! field request "device_id" = Some (hexField request "public_key").
Proof.
  apply (scanned_code_pairs [] demo_accepted demo_dialog demo_displayed).
  - apply (bool_decide_unpack _). vm_compute. exact I.
  - apply (bool_decide_unpack _). vm_compute. exact I.
  - apply (bool_decide_unpack _). vm_compute. exact I.
  - vm_compute. split; congruence.
  - vm_compute. reflexivity.
  - exact demo_show.
Defined.
