(* ===== verification/Program.v ===== *)
(** * The whole desktop program

    The server inside a running program makes only steps of [server_step], so
    that what [ServerRefinement] and [ServerPromises] show of the server holds of the
    program with its window, its dialog, the scanner and the tray menu around it; and the entries of
    the window's log are what the server emitted. *)
From stdpp Require Import base gmap sets list strings relations.
From Stdlib Require Import ZArith Lia.
From S2P Require Import Prelude Qt World Crypto Reference CryptoTheorems ReplayGuard ReplayTheorems Server Scenario ServerLemmas ServerFrame ServerStream ServerInvariant ServerPairing ServerAuth ServerSession ServerReplies Protocol ServerHistory ServerRefinement ServerPromises MainWindow PairingDialog Desktop.

Section Program.
Context `{Q : QtCore} `{O : OpenSSL} `{G : QrCodegen} `{BT : QtBluetooth} {QL : QtLaws Q} {OS : OpenSSLSizes O}.
Implicit Types (s : Sys) (d : Desktop) (w : Window).

(** ** The server of the program *)

Lemma event_backend d d' : event d d' → rtc server_step (backend d) (backend d').
Proof.
  intros [now s' w' _ Hslot _|w' _|addresses g s' _ Hshow|g _| | | |closes_now now d'' _ Hq]; try apply rtc_refl.
  - by apply rtc_once, slot_server_step.
  - apply showPairing_inv in Hshow as (payload & Hpay & _). by eapply rtc_once, step_pairingPayload.
  - unfold quit in Hq. apply bind_Some in Hq as ([[] s] & Hstop & Hq). apply bind_Some in Hq as (w & _ & [= <-]).
    by eapply rtc_once, step_stop.
Qed.

Lemma main_backend net clip (wd : World) d :
  main net clip wd = Some (inr d) → ∃ v wd', Server_new wd = Some (v, wd') ∧ rtc server_step (mkSys v wd') (backend d).
Proof.
  unfold main. intros ([v wd'] & H1 & H)%bind_Some. apply bind_Some in H as ([started s] & H2 & H).
  destruct started; [|done]. injection H as <-. exists v, wd'. split; [done|].
  apply rtc_once. eapply step_start; [|exact H2]. lia.
Qed.

Lemma desktop_backend d d' : rtc desktop_step d d' → rtc server_step (backend d) (backend d').
Proof.
  intros Hsteps. induction Hsteps as [|d1 d2 d3 [d2' _ He] _ IH]; [apply rtc_refl|].
  etrans; [by apply event_backend|done].
Qed.

Lemma program_backend net clip (wd : World) d d' :
  main net clip wd = Some (inr d) → rtc desktop_step d d' →
  ∃ v wd', Server_new wd = Some (v, wd') ∧ rtc server_step (mkSys v wd') (backend d').
Proof.
  intros (v & wd' & H1 & H2)%main_backend H3%desktop_backend. exists v, wd'. split; [done|]. by etrans.
Qed.

(** ** The log of the window *)

Lemma entry_text now message : entry now message = QStringLiteral "[" ++ now ++ QStringLiteral "] " ++ message.
Proof.
  unfold entry.
  assert (arg2 (QStringLiteral "[" ++ QStringLiteral "%1" ++ QStringLiteral "] " ++ QStringLiteral "%2" ++ []) now message =
    QStringLiteral "[" ++ now ++ QStringLiteral "] " ++ message ++ []) as E
    by (apply arg2_markers; apply (bool_decide_unpack _); vm_compute; exact I).
  rewrite !app_nil_r in E. exact E.
Qed.

Lemma entry_inj now1 now2 m1 m2 : time_text now1 → time_text now2 → entry now1 m1 = entry now2 m2 → m1 = m2.
Proof.
  unfold time_text. rewrite !entry_text. intros H1 H2 E. apply app_inv_head in E.
  apply app_inj_1 in E as [_ E]; [|congruence]. by apply app_inv_head in E.
Qed.

(** An entry is a message of the server, or does not begin like one about a device. *)
Definition entry_ok (t : list Event) (e : QString) : Prop :=
  ∃ now message, e = entry now message ∧ time_text now ∧
    (Emit (logMessage message) ∈ t ∨ ¬ device_prefix `prefix_of` message).

Definition log_ok (t : list Event) w : Prop := Forall (entry_ok t) (logList w).

Lemma log_ok_more t evs w : log_ok t w → log_ok (t ++ evs) w.
Proof.
  intros H. eapply Forall_impl; [exact H|]. intros e (now & m & E & Hn & Hm). exists now, m.
  split_and!; [done..|]. rewrite elem_of_app. tauto.
Qed.

Lemma appendLog_log_ok t now message w w' :
  time_text now → Emit (logMessage message) ∈ t ∨ ¬ device_prefix `prefix_of` message →
  log_ok t w → appendLog now message w = Some w' → log_ok t w'.
Proof.
  intros Hn Hm Hw. rewrite appendLog_run. intros E. injection E as <-. unfold log_ok.
  change (Forall (entry_ok t) (take 500 (entry now message :: logList w))).
  apply Forall_take. constructor; [|done]. by exists now, message.
Qed.

Lemma setDevice_log id connected w : logList (setDevice id connected w) = logList w.
Proof. unfold setDevice. destruct (setDevice_loop _ _ _), connected; done. Qed.

Lemma onServer_log_ok t now sg w w' :
  time_text now → Emit sg ∈ t → log_ok t w → onServer now sg w = Some w' → log_ok t w'.
Proof.
  intros Hn Hsg Hw. destruct sg as [m|m|id b]; cbn [onServer].
  - apply appendLog_log_ok; [done|by left|done].
  - by intros [= <-].
  - intros [= <-]. unfold log_ok. by rewrite setDevice_log.
Qed.

Lemma deliver_log_ok t now sgs w w' :
  (∀ n, time_text (now n)) → (∀ sg, sg ∈ sgs → Emit sg ∈ t) → log_ok t w → deliver now sgs w = Some w' → log_ok t w'.
Proof.
  induction sgs as [|sg sgs IH] in now, w |- *; cbn [deliver]; intros Hn Hin Hw H; [by simplify_eq|].
  apply bind_Some in H as (w1 & H1 & H2). 
  apply (IH (λ n, now (S n)) w1); [by intros n|intros sg' ?; apply Hin; by right| |exact H2].
  eapply onServer_log_ok; [apply Hn|apply Hin; by left|exact Hw|exact H1].
Qed.

Lemma elem_of_signals sg evs : sg ∈ signals evs → Emit sg ∈ evs.
Proof. unfold signals. rewrite list_elem_of_omap. intros (e & He & E). destruct e; by simplify_eq. Qed.

(** The texts the window logs by itself. *)
Lemma not_device_text pre rest : marked pre "" → ¬ device_prefix `prefix_of` (QStringLiteral pre ++ rest).
Proof. intros (_ & _ & _ & H1 & H2). by apply not_device. Qed.

Lemma argInt_not_device pre rest (text : QString) z :
  marked pre "" → text = QStringLiteral pre ++ rest →
  ∃ rest', argInt text z = QStringLiteral pre ++ rest'.
Proof. intros (Hp & _) ->. by apply argInt_prefix. Qed.

Ltac marked_text := apply (bool_decide_unpack _); vm_compute; exact I.

Lemma ble_text name identifier strength :
  ¬ device_prefix `prefix_of` (argInt (arg2 (QStringLiteral "BLE device %1 (%2) at %3 dBm") name identifier) strength).
Proof.
  assert (marked "BLE device " "") as Hm by marked_text.
  destruct (arg2_prefix (QStringLiteral "BLE device ") (QStringLiteral "%1 (%2) at %3 dBm") name identifier) as [r1 E1]; [apply Hm|].
  destruct (argInt_not_device "BLE device " r1 (arg2 (QStringLiteral "BLE device %1 (%2) at %3 dBm") name identifier) strength Hm E1) as [r2 ->].
  by apply not_device_text.
Qed.

Lemma thresholds_text n f :
  ¬ device_prefix `prefix_of` (argInt (argInt (QStringLiteral "proximity thresholds set to %1 / %2 dBm") n) f).
Proof.
  assert (marked "proximity thresholds set to " "") as Hm by marked_text.
  destruct (argInt_not_device "proximity thresholds set to " (QStringLiteral "%1 / %2 dBm") (QStringLiteral "proximity thresholds set to %1 / %2 dBm") n Hm eq_refl) as [r1 E1].
  destruct (argInt_not_device _ r1 _ f Hm E1) as [r2 ->]. by apply not_device_text.
Qed.

Lemma proximityChanged_log_ok t fuel now w w' :
  time_text now → log_ok t w → proximityChanged fuel now w = Some w' → log_ok t w'.
Proof.
  intros Hn. induction fuel as [|fuel IH] in w, w' |- *; intros Hw; [done|]. cbn [proximityChanged].
  intros (w1 & H1 & H2)%bind_Some. eapply appendLog_log_ok; [done|right; apply thresholds_text| |exact H2].
  case_bool_decide; [|by simplify_eq]. case_bool_decide; [by simplify_eq|]. eapply IH; [|exact H1]. done.
Qed.

(** The messages of the scanner do not look like messages of the server. *)
Definition ble_harmless (sg : BleSignal) : Prop :=
  match sg with
  | deviceFound _ _ _ => True
  | discoveryError text => ¬ device_prefix `prefix_of` text
  end.

Lemma onBle_log_ok t now sg w w' :
  ble_harmless sg → time_text now → log_ok t w → onBle now sg w = Some w' → log_ok t w'.
Proof.
  intros Hsg Hn Hw. destruct sg as [id name strength|text]; cbn [onBle].
  - intros (w1 & H1 & [= <-])%bind_Some. unfold log_ok. rewrite setDevice_log.
    eapply appendLog_log_ok; [done|right; apply ble_text|exact Hw|exact H1].
  - apply appendLog_log_ok; [done|by right|done].
Qed.

Lemma discovered_harmless device sg : sg ∈ discovered device → ble_harmless sg.
Proof.
  unfold discovered. destruct (lowEnergy device); [|by intros ?%not_elem_of_nil].
  by intros ->%list_elem_of_singleton.
Qed.

Lemma ble_error_harmless text code sg :
  ¬ device_prefix `prefix_of` text → sg ∈ ble_error text code → ble_harmless sg.
Proof.
  intros Ht ->%list_elem_of_singleton. cbn [ble_harmless]. destruct (isEmpty text); [|done].
  assert (marked "Bluetooth discovery failed: " "") as Hm by marked_text.
  destruct (argInt_not_device _ (QStringLiteral "%1") (QStringLiteral "Bluetooth discovery failed: %1") code Hm eq_refl) as [r ->].
  by apply not_device_text.
Qed.

Lemma window_event_log_ok t w w' :
  (∀ text, error_text text → ¬ device_prefix `prefix_of` text) → log_ok t w → window_event w w' → log_ok t w'.
Proof.
  intros Hbt Hw Hs.
  destruct Hs as [now d sg w w' Hn Hsg H|now text c sg w w' Hn Ht Hsg H|fu now v w w' Hn H|fu now v w w' Hn H].
  - eapply onBle_log_ok; [by eapply discovered_harmless|exact Hn|exact Hw|exact H].
  - eapply onBle_log_ok; [by eapply ble_error_harmless; [apply Hbt|]|exact Hn|exact Hw|exact H].
  - unfold nearEdited in H. case_bool_decide; [by simplify_eq|]. by eapply proximityChanged_log_ok; [..|exact H].
  - unfold farEdited in H. case_bool_decide; [by simplify_eq|]. by eapply proximityChanged_log_ok; [..|exact H].
Qed.

(** ** The program *)

(** What is emitted in a run of the server is in its trace. *)
Lemma emitted_in_trace s s' sg : rtc server_step s s' → sg ∈ emitted s s' → Emit sg ∈ trace (wrld s').
Proof.
  intros Hsteps. destruct (server_run_typed _ _ _ eq_refl Hsteps) as (_ & evs & E & _).
  unfold emitted. rewrite E, drop_app_length. intros H%elem_of_signals. apply elem_of_app. by right.
Qed.

Lemma log_ok_backend s s' w : rtc server_step s s' → log_ok (trace (wrld s)) w → log_ok (trace (wrld s')) w.
Proof. intros Hsteps. destruct (server_run_typed _ _ _ eq_refl Hsteps) as (_ & evs & -> & _). apply log_ok_more. Qed.

Lemma event_log_ok d d' :
  (∀ text, error_text text → ¬ device_prefix `prefix_of` text) → event d d' →
  log_ok (trace (wrld (backend d))) (window d) → log_ok (trace (wrld (backend d'))) (window d').
Proof.
  intros Hbt He Hlog. apply event_backend in He as Hsteps. pose proof (log_ok_backend _ _ _ Hsteps Hlog) as Hlog'.
  destruct He as [now s' w' Hn Hslot Hdel|w' Hw|addresses g s' _ Hshow|g _| | | |closes_now now d'' Hn Hq]; try done.
  - cbn [backend window set_backend] in *. eapply deliver_log_ok; [exact Hn| |exact Hlog'|exact Hdel].
    intros sg. by apply emitted_in_trace.
  - cbn [backend window set_window] in *. by eapply window_event_log_ok.
  - unfold quit in Hq. apply bind_Some in Hq as ([[] s] & Hstop & Hq). apply bind_Some in Hq as (w & Hdel & [= <-]).
    cbn [backend window set_backend set_exit] in *. eapply deliver_log_ok; [exact Hn| |exact Hlog'|exact Hdel].
    intros sg. by apply emitted_in_trace.
Qed.

Lemma program_log_ok net clip (wd : World) d d' :
  (∀ text, error_text text → ¬ device_prefix `prefix_of` text) →
  main net clip wd = Some (inr d) → rtc desktop_step d d' → log_ok (trace (wrld (backend d'))) (window d').
Proof.
  intros Hbt Hmain Hsteps. assert (log_ok (trace (wrld (backend d))) (window d)) as H0.
  { unfold main in Hmain. apply bind_Some in Hmain as ([v wd'] & _ & H). apply bind_Some in H as ([started s] & _ & H).
    destruct started; [|done]. injection H as <-. constructor. }
  revert H0. clear Hmain. induction Hsteps as [|d1 d2 d3 [d2' _ He] _ IH]; [done|].
  intros H0. apply IH. by eapply event_log_ok.
Qed.

(** The running program refines the protocol too: its server makes no step that is not one of
    [server_step], whatever the network, the user and the tray menu do. *)
Theorem program_refines_protocol net clip (wd : World) d d' :
  main net clip wd = Some (inr d) → rtc desktop_step d d' →
  ∃ evs a, prun valid_signature initial_protocol evs a ∧ represents a (srv (backend d')) ∧
    observe (trace (wrld (backend d'))) = observe (trace wd) ++ ServerRefinement.shown evs.
Proof.
  intros Hmain Hsteps. destruct (program_backend _ _ _ _ _ Hmain Hsteps) as (v & wd' & Hnew & Hrun).
  destruct (new_run_follows _ _ _ _ Hnew Hrun) as (evs & a & H1 & H2 & H3 & _).
  destruct (Server_new_trace _ _ _ Hnew) as [Et _]. cbn [wrld] in H3. rewrite Et in H3. by exists evs, a.
Qed.

(** C3: The security log on the screen can be trusted: when it has an entry, with any time, that
    says [device X authorized], then in the history of the server, that is in the requests it
    received, there is a [verify] request from X that the server granted: the signature it
    presents is valid over the nonce and the time stamp it presents, a reading of the clock
    during that request is at most 30 seconds off this time stamp, and the key is the one X
    presented in the last request that paired it before.  Assumed of the Bluetooth stack: its
    error texts do not begin with [device ]. *)
Theorem security_log_genuine net clip (wd : World) d d' now id :
  (∀ text, error_text text → ¬ device_prefix `prefix_of` text) →
  main net clip wd = Some (inr d) → trace wd = [] → rtc desktop_step d d' →
  time_text now → entry now (authorized_text id) ∈ logList (window d') →
  ∃ v wd', Server_new wd = Some (v, wd') ∧ (∃ items, served (mkSys v wd') items (backend d')) ∧
    ∀ items, served (mkSys v wd') items (backend d') → vouched id items.
Proof.
  intros Hbt Hmain Hwd Hsteps Hn Hin. pose proof (program_log_ok _ _ _ _ _ Hbt Hmain Hsteps) as Hlog.
  unfold log_ok in Hlog. rewrite Forall_forall in Hlog. destruct (Hlog _ Hin) as (now' & m & E & Hn' & Hm).
  apply entry_inj in E as <-; [|done..]. destruct Hm as [Hm|Hm]; [|destruct Hm; by eexists].
  destruct (program_backend _ _ _ _ _ Hmain Hsteps) as (v & wd' & Hnew & Hrun).
  exists v, wd'. split_and!; [done|by apply served_iff|]. intros items Hserved. by eapply logged_vouched.
Qed.
End Program.

(** *** Witnesses *)

#[local] Instance demo_qr : QrCodegen := { encodeText := λ _, Some (mkQrCode 21 (λ x y, Nat.even (x + y))) }.

(** A slot is a step of the program, whatever the window shows. *)
Lemma slot_desktop_step d s' :
  exitCode d = None → slot (backend d) s' →
  ∃ w', deliver (λ _, demo_now) (emitted (backend d) s') (window d) = Some w' ∧ desktop_step d (set_backend s' w' d).
Proof.
  intros Hrun Hslot. destruct (deliver_total (λ _, demo_now) (emitted (backend d) s') (window d)) as [w' Hw].
  exists w'. split; [done|]. apply step_event; [done|]. by apply (event_slot d (λ _, demo_now)).
Qed.

(** The program after a device connected, paired and was authorized. *)
Lemma demo_program :
  ∃ d', rtc desktop_step demo_desktop d' ∧ entry demo_now (authorized_text demo_id) ∈ logList (window d').
Proof.
  destruct demo_login as (s' & data & Hlogin & Htr).
  destruct (slot_desktop_step demo_desktop demo_accepted) as (w1 & _ & H1);
    [done|by eapply slot_newConnection; exact demo_accept_run|].
  destruct (slot_desktop_step (set_backend demo_accepted w1 demo_desktop) demo_with_phone) as (w2 & _ & H2);
    [done|by eapply slot_readyRead; exact demo_pair_line_run|].
  destruct (slot_desktop_step (set_backend demo_with_phone w2 (set_backend demo_accepted w1 demo_desktop)) s') as (w3 & Hdel & H3);
    [done|by eapply slot_readyRead; exact Hlogin|].
  eexists. split; [eapply rtc_l; [exact H1|]; eapply rtc_l; [exact H2|]; by apply rtc_once|].
  cbn [window set_backend backend] in *. unfold emitted in Hdel. rewrite Htr, drop_app_length in Hdel.
  cbn [signals omap list_omap deliver mbind option_bind onServer] in Hdel. rewrite appendLog_run in Hdel.
  injection Hdel as <-. left.
Qed.

Lemma program_refines_protocol_witness :
  ∃ d' evs a, prun valid_signature initial_protocol evs a ∧ represents a (srv (backend d')) ∧
    observe (trace (wrld (backend d'))) = observe (trace demo_world) ++ ServerRefinement.shown evs.
Proof.
  destruct demo_program as (d' & Hsteps & _). exists d'.
  exact (program_refines_protocol demo_net (Some []) demo_world demo_desktop d' demo_main Hsteps).
Defined.

Lemma security_log_genuine_witness :
  ∃ d' v wd', Server_new demo_world = Some (v, wd') ∧ (∃ items, served (mkSys v wd') items (backend d')) ∧
    ∀ items, served (mkSys v wd') items (backend d') → vouched demo_id items.
Proof.
  destruct demo_program as (d' & Hsteps & Hin). exists d'.
  apply (security_log_genuine demo_net (Some []) demo_world demo_desktop d' demo_now demo_id).
  - intros text ->. apply (bool_decide_unpack _). vm_compute. exact I.
  - exact demo_main.
  - reflexivity.
  - exact Hsteps.
  - reflexivity.
  - exact Hin.
Defined.
