(* ===== verification/Com.v ===== *)
(** * The Windows credential provider (src/windows-cp/CredentialProvider.cpp, dllmain.cpp)

    A COM server: three classes with reference counts, the class factory, the
    entry points of the DLL and the pipe to the service.  Objects live in a heap
    that a method reads through its [this] pointer: a call on a deleted object
    has no result.  [new] answers from [memory]; the exception of the throwing
    [new] in the provider's constructor leaves a COM method and has no result
    either.  Output parameters are part of the result: [None] when the method
    does not store through them. *)
From stdpp Require Import base gmap sets list strings.
From Stdlib Require Import ZArith Lia.
From S2P Require Import Prelude.

Inductive IID : Type :=
  | IID_IUnknown | IID_IClassFactory | IID_ICredentialProvider | IID_ICredentialProviderCredential
  | IID_other (n : N).

Inductive HRESULT : Type :=
  | S_OK | S_FALSE | E_POINTER | E_NOINTERFACE | E_NOTIMPL | E_BOUNDS | E_FAIL | E_OUTOFMEMORY
  | CLASS_E_NOAGGREGATION | CLASS_E_CLASSNOTAVAILABLE | HRESULT_FROM_WIN32 (error : Z).

#[export] Instance IID_eq_dec : EqDecision IID.
Proof. solve_decision. Defined.
#[export] Instance HRESULT_eq_dec : EqDecision HRESULT.
Proof. solve_decision. Defined.

(** An interface pointer; [None] is null. *)
Abbreviation ptr := (option positive).

Inductive ComObject : Type :=
  | OpenBioCredential (references_ : Z)
  | OpenBioCredentialProvider (references_ : Z) (credential_ : positive)
  | OpenBioClassFactory (references_ : Z).

Definition references (o : ComObject) : Z :=
  match o with
  | OpenBioCredential r | OpenBioCredentialProvider r _ | OpenBioClassFactory r => r
  end.

Definition set_references (r : Z) (o : ComObject) : ComObject :=
  match o with
  | OpenBioCredential _ => OpenBioCredential r
  | OpenBioCredentialProvider _ c => OpenBioCredentialProvider r c
  | OpenBioClassFactory _ => OpenBioClassFactory r
  end.

(** The interfaces [QueryInterface] of each class answers. *)
Definition credential_implements (riid : IID) : bool :=
  bool_decide (riid = IID_IUnknown) || bool_decide (riid = IID_ICredentialProviderCredential).
Definition provider_implements (riid : IID) : bool :=
  bool_decide (riid = IID_IUnknown) || bool_decide (riid = IID_ICredentialProvider).
Definition factory_implements (riid : IID) : bool :=
  bool_decide (riid = IID_IUnknown) || bool_decide (riid = IID_IClassFactory).

Definition implements (o : ComObject) (riid : IID) : bool :=
  match o with
  | OpenBioCredential _ => credential_implements riid
  | OpenBioCredentialProvider _ _ => provider_implements riid
  | OpenBioClassFactory _ => factory_implements riid
  end.

(** The constructors without members to build. *)
Definition construct_credential : ComObject := OpenBioCredential 1.
Definition construct_factory : ComObject := OpenBioClassFactory 1.

Inductive PipeEvent : Type :=
  | PipeOpened (name : list byte) | PipeWritten (data : list byte) | PipeClosed.

Record ComState : Type := mkCom {
  objects : gmap positive ComObject;
  module_locks : Z;
  memory : nat → bool;      (* whether the n-th allocation succeeds *)
  allocations : nat;
  pipe : list PipeEvent;
}.

Definition set_objects (f : gmap positive ComObject → gmap positive ComObject) (s : ComState) : ComState :=
  mkCom (f (objects s)) (module_locks s) (memory s) (allocations s) (pipe s).
Definition set_module_locks (z : Z) (s : ComState) : ComState :=
  mkCom (objects s) z (memory s) (allocations s) (pipe s).
Definition add_pipe (e : PipeEvent) (s : ComState) : ComState :=
  mkCom (objects s) (module_locks s) (memory s) (allocations s) (pipe s ++ [e]).

(** [InterlockedIncrement] and [InterlockedDecrement] on a [LONG], and the [ULONG] made of it. *)
Definition interlocked (delta z : Z) : Z := swrap 32 (z + delta).
Definition ULONG (z : Z) : Z := (z mod 2 ^ 32)%Z.

(** [new (std::nothrow)]: the address, or null. *)
Definition allocate : M ComState ptr := λ s,
  let s' := mkCom (objects s) (module_locks s) (memory s) (S (allocations s)) (pipe s) in
  Some (if memory s (allocations s) then Some (fresh (dom (objects s))) else None, s').

Definition this (p : positive) : M ComState ComObject := λ s,
  match objects s !! p with Some o => Some (o, s) | None => None end.
Definition put (p : positive) (o : ComObject) : M ComState unit := modify (set_objects <[p := o]>).

(** ** IUnknown, the same code in all three classes *)

Definition AddRef (p : positive) : M ComState Z :=
  o ← this p;
  let value := interlocked 1 (references o) in
  put p (set_references value o) ;; mret (ULONG value).

Definition Release (p : positive) : M ComState Z :=
  o ← this p;
  let value := interlocked (-1) (references o) in
  put p (set_references value o) ;;
  if bool_decide (ULONG value = 0)%Z then modify (set_objects (delete p)) ;; mret (ULONG value)
  else mret (ULONG value).

(** [object]: whether the output pointer is not null. *)
Definition QueryInterface (p : positive) (riid : IID) (object : bool) : M ComState (HRESULT * option ptr) :=
  if negb object then mret (E_POINTER, None)
  else
    o ← this p;
    if implements o riid then AddRef p ;; mret (S_OK, Some (Some p))
    else mret (E_NOINTERFACE, Some None).

(** ** OpenBioCredentialProvider *)

(** The constructor; [p] is where the object was allocated.  The first [put] keeps the address
    taken while the credential is allocated. *)
Definition construct_provider (p : positive) : M ComState unit :=
  put p (OpenBioCredentialProvider 1 p) ;;
  credential ← allocate;
  match credential with
  | None => undefined
  | Some c => put c construct_credential ;; put p (OpenBioCredentialProvider 1 c)
  end.

Definition GetFieldDescriptorCount (count : bool) : HRESULT * option Z :=
  if negb count then (E_POINTER, None) else (S_OK, Some 0%Z).

Definition GetCredentialCount (count default_index auto_logon : bool) : HRESULT * option (Z * Z * bool) :=
  if negb count || negb default_index || negb auto_logon then (E_POINTER, None)
  else (S_OK, Some (1, 0, false)%Z).

Definition GetCredentialAt (p : positive) (index : Z) (credential : bool) : M ComState (HRESULT * option ptr) :=
  if negb (bool_decide (index = 0)%Z) || negb credential then mret (E_BOUNDS, None)
  else
    o ← this p;
    match o with
    | OpenBioCredentialProvider _ c => AddRef c ;; mret (S_OK, Some (Some c))
    | _ => undefined
    end.

(** The methods that only return a constant. *)
Definition Provider_SetUsageScenario : HRESULT := S_OK.
Definition Provider_SetSerialization : HRESULT := E_NOTIMPL.
Definition Provider_Advise : HRESULT := S_OK.
Definition Provider_UnAdvise : HRESULT := S_OK.
Definition Provider_GetFieldDescriptorAt : HRESULT := E_BOUNDS.

(** ** OpenBioCredential *)

Inductive CREDENTIAL_PROVIDER_FIELD_STATE : Type := CPFS_DISPLAY_IN_SELECTED_TILE.
Inductive CREDENTIAL_PROVIDER_FIELD_INTERACTIVE_STATE : Type := CPFIS_NONE.
Inductive GetSerializationResponse : Type := CPGSR_NO_CREDENTIAL_NOT_FINISHED.

Definition SetSelected (autoLogon : bool) : HRESULT * option bool :=
  if negb autoLogon then (E_POINTER, None) else (S_OK, Some false).
Definition GetFieldState (state interactive : bool)
    : HRESULT * option (CREDENTIAL_PROVIDER_FIELD_STATE * CREDENTIAL_PROVIDER_FIELD_INTERACTIVE_STATE) :=
  if negb state || negb interactive then (E_POINTER, None)
  else (S_OK, Some (CPFS_DISPLAY_IN_SELECTED_TILE, CPFIS_NONE)).
Definition Credential_Advise : HRESULT := S_OK.
Definition Credential_UnAdvise : HRESULT := S_OK.
Definition SetDeselected : HRESULT := S_OK.
Definition GetBitmapValue : HRESULT := E_NOTIMPL.
Definition GetCheckboxValue : HRESULT := E_NOTIMPL.
Definition GetSubmitButtonValue : HRESULT := E_NOTIMPL.
Definition GetComboBoxValueCount : HRESULT := E_NOTIMPL.
Definition GetComboBoxValueAt : HRESULT := E_NOTIMPL.
Definition ReportResult : HRESULT := S_OK.
Definition GetStringValue (value : bool) : HRESULT * option ptr :=
  if negb value then (E_POINTER, None) else (E_NOTIMPL, Some None).

Definition backslash : byte := Init.Byte.x5c.
(** The pipe of the service: two backslashes, a dot, [pipe] and its name. *)
Definition kPipe : list byte :=
  [backslash; backslash] ++ bytes "." ++ [backslash] ++ bytes "pipe" ++ [backslash] ++ bytes "OpenBioUnlockPipe".

(** [char request[]]: the text the module sends. *)
Definition challenge_text : list byte :=
  bytes "{" ++ [Init.Byte.x22] ++ bytes "type" ++ [Init.Byte.x22] ++ bytes ":" ++ [Init.Byte.x22] ++
  bytes "challenge" ++ [Init.Byte.x22] ++ bytes "}" ++ [newline].

(** [opened]: the result of [CreateFileW] (an error code, or a handle); [result], [written]: what
    [WriteFile] returns and stores. *)
Definition PipeApproval (opened : option Z) (result : bool) (written : Z) : M ComState HRESULT :=
  match opened with
  | Some error => mret (HRESULT_FROM_WIN32 error)
  | None =>
      modify (add_pipe (PipeOpened kPipe)) ;;
      modify (add_pipe (PipeWritten (take (Z.to_nat written) challenge_text))) ;;
      modify (add_pipe PipeClosed) ;;
      mret (if result && bool_decide (written = Z.of_nat (length challenge_text)) then S_OK else E_FAIL)
  end.

Definition GetSerialization (response : bool) (opened : option Z) (result : bool) (written : Z)
    : M ComState (HRESULT * option GetSerializationResponse) :=
  if negb response then mret (E_POINTER, None)
  else
    hr ← PipeApproval opened result written;
    mret (hr, Some CPGSR_NO_CREDENTIAL_NOT_FINISHED).

(** ** OpenBioClassFactory and the DLL *)

Definition CreateInstance (p : positive) (outer object : bool) (riid : IID) : M ComState (HRESULT * option ptr) :=
  if outer || negb object then mret (CLASS_E_NOAGGREGATION, None)
  else
    memory ← allocate;
    match memory with
    | None => mret (E_OUTOFMEMORY, Some None)
    | Some provider =>
        construct_provider provider ;;
        '(result, object) ← QueryInterface provider riid true;
        Release provider ;;
        mret (result, object)
    end.

Definition LockServer (lock : bool) : M ComState HRESULT :=
  modify (λ s, set_module_locks (interlocked (if lock then 1 else -1) (module_locks s)) s) ;;
  mret S_OK.

(** [DllMain]: its result and the new value of [module_handle], which nothing reads. *)
Definition DllMain (process_attach : bool) (instance module_handle : Z) : bool * Z :=
  (true, if process_attach then instance else module_handle).

(** [clsid_open_bio] as one number. *)
Definition clsid_open_bio : N := 0xd1aa6d256f494a52a2cf6f22d9d19001.

Definition DllGetClassObject (clsid : N) (riid : IID) (object : bool) : M ComState (HRESULT * option ptr) :=
  if negb (bool_decide (clsid = clsid_open_bio)) then mret (CLASS_E_CLASSNOTAVAILABLE, None)
  else
    memory ← allocate;
    match memory with
    | None => mret (E_OUTOFMEMORY, None)
    | Some factory =>
        put factory construct_factory ;;
        '(result, object) ← QueryInterface factory riid object;
        Release factory ;;
        mret (result, object)
    end.

Definition DllCanUnloadNow : M ComState HRESULT :=
  locks ← gets module_locks;
  mret (if bool_decide (locks = 0)%Z then S_OK else S_FALSE).
