(* ===== verification/ComTheorems.v ===== *)
(** * Reference counting in the credential provider

    A client is any sequence of calls through pointers it holds, with one
    [Release] for every pointer it received.  The invariant relates each counter
    to the pointers held by the client and by the provider; it makes every call
    of such a client safe, and it shows what is never freed. *)
From stdpp Require Import base gmap sets list strings relations.
From Stdlib Require Import ZArith Lia.
From S2P Require Import Prelude Com.

(** ** Clients *)

(** How many references the client holds to each object. *)
Definition Held : Type := positive → nat.

Definition hold (p : positive) (h : Held) : Held := λ q, if decide (q = p) then S (h q) else h q.
Definition drop_ref (p : positive) (h : Held) : Held := λ q, if decide (q = p) then h q - 1 else h q.

(** The pointer a call stored, if any, is a reference the client now holds. *)
Definition received (out : option ptr) (h : Held) : Held :=
  match out with Some (Some p) => hold p h | _ => h end.

(** One more reference to the object still fits its counter. *)
Definition room (s : ComState) (p : positive) : Prop :=
  ∀ o, objects s !! p = Some o → (references o < 2 ^ 31 - 1)%Z.

Inductive client_step : ComState * Held → ComState * Held → Prop :=
  | cs_getClassObject clsid riid object hr out s s' h :
      DllGetClassObject clsid riid object s = Some ((hr, out), s') →
      client_step (s, h) (s', received out h)
  | cs_createInstance p outer object riid hr out s s' h :
      0 < h p → CreateInstance p outer object riid s = Some ((hr, out), s') →
      client_step (s, h) (s', received out h)
  | cs_queryInterface p riid object hr out s s' h :
      0 < h p → room s p → QueryInterface p riid object s = Some ((hr, out), s') →
      client_step (s, h) (s', received out h)
  | cs_addRef p n s s' h :
      0 < h p → room s p → AddRef p s = Some (n, s') → client_step (s, h) (s', hold p h)
  | cs_release p n s s' h :
      0 < h p → Release p s = Some (n, s') → client_step (s, h) (s', drop_ref p h)
  | cs_getCredentialAt p index credential hr out s s' h :
      0 < h p → (∀ q, room s q) → GetCredentialAt p index credential s = Some ((hr, out), s') →
      client_step (s, h) (s', received out h)
  | cs_lockServer p lock hr s s' h :
      0 < h p → LockServer lock s = Some (hr, s') → client_step (s, h) (s', h).

(** ** The invariant *)

(** The references held inside the module: each provider holds one to its credential, and
    never gives it back. *)
Definition base (o : ComObject) : Z := match o with OpenBioCredential _ => 1 | _ => 0 end.

Definition counted (h : nat) (o : option ComObject) : Prop :=
  match o with
  | Some o => references o = (Z.of_nat h + base o)%Z ∧ (0 < references o < 2 ^ 31)%Z
  | None => h = 0
  end.

Record com_ok (s : ComState) (h : Held) : Prop := {
  ok_counts p : counted (h p) (objects s !! p);
  ok_credentials p r c :
    objects s !! p = Some (OpenBioCredentialProvider r c) → ∃ r', objects s !! c = Some (OpenBioCredential r');
}.

Section Counting.
Implicit Types (s : ComState) (h : Held) (o : ComObject).

Lemma references_set r o : references (set_references r o) = r.
Proof. by destruct o. Qed.

Lemma base_set r o : base (set_references r o) = base o.
Proof. by destruct o. Qed.

Lemma interlocked_id delta z : in_range 32 (z + delta) → interlocked delta z = (z + delta)%Z.
Proof. intros. by apply swrap_id. Qed.

Lemma AddRef_run p o s :
  objects s !! p = Some o → (0 < references o < 2 ^ 31 - 1)%Z →
  AddRef p s = Some (ULONG (references o + 1), set_objects <[p := set_references (references o + 1) o]> s).
Proof.
  intros Hp Hr. unfold AddRef, this, mbind, M_bind. rewrite Hp.
  rewrite interlocked_id by (unfold in_range; lia). done.
Qed.

Lemma Release_run p o s :
  objects s !! p = Some o → (0 < references o < 2 ^ 31)%Z →
  Release p s = Some (ULONG (references o - 1),
    if decide (references o = 1)%Z then set_objects (delete p) s
    else set_objects <[p := set_references (references o - 1) o]> s).
Proof.
  intros Hp Hr. unfold Release, this, mbind, M_bind. rewrite Hp.
  rewrite interlocked_id by (unfold in_range; lia). change (references o + -1)%Z with (references o - 1)%Z.
  unfold put, modify at 1. unfold ULONG.
  rewrite Z.mod_small by lia. case_decide as H1.
  - rewrite bool_decide_true by lia. unfold modify, mret, M_ret. do 2 f_equal.
    unfold set_objects. simpl. f_equal. apply map_eq. intros q.
    destruct (decide (q = p)) as [->|]; [by rewrite !lookup_delete_eq|].
    by rewrite !lookup_delete_ne, lookup_insert_ne by done.
  - rewrite bool_decide_false by lia. done.
Qed.

(** Changing a counter together with the client's references keeps the invariant. *)
Lemma com_ok_update p o r s h h' :
  com_ok s h → objects s !! p = Some o → (∀ q, q ≠ p → h' q = h q) →
  r = (Z.of_nat (h' p) + base o)%Z → (0 < r < 2 ^ 31)%Z →
  com_ok (set_objects <[p := set_references r o]> s) h'.
Proof.
  intros [Hc Hcr] Hp Hne Hr Hr2. split; simpl.
  - intros q. destruct (decide (q = p)) as [->|Hq].
    + rewrite lookup_insert_eq. simpl. by rewrite references_set, base_set.
    + rewrite lookup_insert_ne by done. rewrite Hne by done. apply Hc.
  - intros q r0 c Hq. assert (∃ r1, objects s !! q = Some (OpenBioCredentialProvider r1 c)) as [r1 H1].
    { destruct (decide (q = p)) as [->|Hqp].
      - rewrite lookup_insert_eq in Hq. injection Hq as Hq. destruct o; simplify_eq/=. eauto.
      - rewrite lookup_insert_ne in Hq by done. eauto. }
    destruct (Hcr _ _ _ H1) as [r' Hr']. destruct (decide (c = p)) as [->|Hcp].
    + rewrite Hp in Hr'. injection Hr' as ->. rewrite lookup_insert_eq. by eexists.
    + rewrite lookup_insert_ne by done. eauto.
Qed.

Lemma AddRef_ok p s h n s' :
  com_ok s h → room s p → 0 < h p ∨ is_Some (objects s !! p) → AddRef p s = Some (n, s') → com_ok s' (hold p h).
Proof.
  intros Hok Hroom Hh H. pose proof (ok_counts _ _ Hok p) as Hc.
  destruct (objects s !! p) as [o|] eqn:Ep; [|simpl in Hc; destruct Hh as [?|[? [=]]]; lia].
  specialize (Hroom _ Ep). destruct Hc as [Hc1 Hc2]. rewrite (AddRef_run p o) in H by (done || lia).
  injection H as _ <-. eapply com_ok_update; try done.
  - intros q Hq. unfold hold. by rewrite decide_False.
  - unfold hold. rewrite decide_True by done. lia.
  - lia.
Qed.

Lemma Release_ok p s h n s' :
  com_ok s h → 0 < h p → Release p s = Some (n, s') → com_ok s' (drop_ref p h).
Proof.
  intros Hok Hh H. pose proof (ok_counts _ _ Hok p) as Hc.
  destruct (objects s !! p) as [o|] eqn:Ep; [|simpl in Hc; lia].
  destruct Hc as [Hc1 Hc2]. rewrite (Release_run p o) in H by done. injection H as _ <-.
  case_decide as H1.
  - assert (base o = 0%Z ∧ h p = 1) as [Hb Hp1] by (destruct o; simpl in *; lia).
    destruct Hok as [Hcs Hcr]. split; simpl.
    + intros q. unfold drop_ref. destruct (decide (q = p)) as [->|Hq].
      * rewrite lookup_delete_eq. simpl. lia.
      * rewrite lookup_delete_ne by done. apply Hcs.
    + intros q r c [Hqp Hq]%lookup_delete_Some. destruct (Hcr _ _ _ Hq) as [r' Hr'].
      exists r'. apply lookup_delete_Some. split; [|done]. intros ->. rewrite Ep in Hr'. by simplify_eq.
  - eapply com_ok_update; try done.
    + intros q Hq. unfold drop_ref. by rewrite decide_False.
    + unfold drop_ref. rewrite decide_True by done. lia.
    + lia.
Qed.

(** A new object, with the references its creator holds. *)
Lemma com_ok_new p o s h h' :
  com_ok s h → objects s !! p = None → (∀ q, q ≠ p → h' q = h q) →
  references o = (Z.of_nat (h' p) + base o)%Z → (0 < references o < 2 ^ 31)%Z →
  (∀ r c, o = OpenBioCredentialProvider r c → ∃ r', objects s !! c = Some (OpenBioCredential r')) →
  com_ok (set_objects <[p := o]> s) h'.
Proof.
  intros [Hc Hcr] Hp Hne Hr Hr2 Hcred. split; simpl.
  - intros q. destruct (decide (q = p)) as [->|Hq].
    + rewrite lookup_insert_eq. by split.
    + rewrite lookup_insert_ne, Hne by done. apply Hc.
  - intros q r c Hq.
    assert (∃ r', objects s !! c = Some (OpenBioCredential r')) as [r' Hr'].
    { destruct (decide (q = p)) as [->|Hqp].
      - rewrite lookup_insert_eq in Hq. injection Hq as ->. eauto.
      - rewrite lookup_insert_ne in Hq by done. eauto. }
    exists r'. rewrite lookup_insert_ne; [done|]. intros ->. congruence.
Qed.

Lemma com_ok_ext s s' h h' :
  objects s' = objects s → (∀ p, h' p = h p) → com_ok s h → com_ok s' h'.
Proof. intros Eo Eh [Hc Hcr]. split; intros p; rewrite Eo; [rewrite Eh|]; eauto. Qed.

Lemma held_live s h p : com_ok s h → 0 < h p → is_Some (objects s !! p).
Proof.
  intros Hok Hh. pose proof (ok_counts _ _ Hok p) as Hc.
  destruct (objects s !! p); [by eexists|]. simpl in Hc. lia.
Qed.

Lemma hold_ne p q h : q ≠ p → hold p h q = h q.
Proof. intros. unfold hold. by rewrite decide_False. Qed.
Lemma hold_eq p h : hold p h p = S (h p).
Proof. unfold hold. by rewrite decide_True. Qed.
Lemma drop_hold p h q : drop_ref p (hold p h) q = h q.
Proof. unfold drop_ref, hold. repeat case_decide; lia. Qed.

(** ** The calls *)

Lemma QueryInterface_ok p riid object s h hr out s' :
  com_ok s h → room s p → 0 < h p →
  QueryInterface p riid object s = Some ((hr, out), s') → com_ok s' (received out h).
Proof.
  intros Hok Hroom Hh H. unfold QueryInterface in H. destruct object; cbn [negb] in H.
  2: { unfold mret, M_ret in H. by simplify_eq. }
  destruct (held_live _ _ _ Hok Hh) as [o Ho].
  unfold this at 1 in H. unfold mbind at 1, M_bind at 1 in H. rewrite Ho in H.
  destruct (implements o riid).
  - apply M_bind_Some in H as (n & s1 & H1 & H). unfold mret, M_ret in H. simplify_eq. simpl.
    eapply AddRef_ok; eauto.
  - unfold mret, M_ret in H. by simplify_eq.
Qed.

(** Create, query, release: the end of [CreateInstance] and [DllGetClassObject]. *)
Lemma query_release_ok p riid object s h hr out s' :
  com_ok s (hold p h) → room s p →
  ('(result, object) ← QueryInterface p riid object; Release p ;; mret (result, object)) s = Some ((hr, out), s') →
  com_ok s' (received out h).
Proof.
  intros Hok Hroom H. apply M_bind_Some in H as ([result obj] & s1 & H1 & H).
  apply M_bind_Some in H as (n & s2 & H2 & H). unfold mret, M_ret in H. simplify_eq.
  assert (0 < hold p h p) as Hh by (rewrite hold_eq; lia).
  assert (out = None ∨ out = Some None ∨ out = Some (Some p)) as Hout.
  { unfold QueryInterface in H1. destruct object; cbn [negb] in H1.
    2: { unfold mret, M_ret in H1. simplify_eq. by left. }
    apply M_bind_Some in H1 as (o & s3 & _ & H1). destruct (implements o riid).
    - apply M_bind_Some in H1 as (k & s4 & _ & H1). unfold mret, M_ret in H1. simplify_eq. tauto.
    - unfold mret, M_ret in H1. simplify_eq. tauto. }
  apply QueryInterface_ok with (h := hold p h) in H1; [|done..].
  apply Release_ok with (h := received out (hold p h)) in H2; [|done|].
  - eapply com_ok_ext; [done| |exact H2]. intros q.
    destruct Hout as [->|[->| ->]]; simpl; unfold drop_ref, hold; repeat case_decide; lia.
  - destruct Hout as [->|[->| ->]]; simpl; rewrite ?hold_eq; lia.
Qed.

Lemma allocate_inv s a s1 :
  allocate s = Some (a, s1) →
  objects s1 = objects s ∧ (a = None ∨ ∃ p, a = Some p ∧ objects s !! p = None).
Proof.
  unfold allocate. intros [= <- <-]. split; [done|]. destruct (memory s (allocations s)); [|by left].
  right. eexists. split; [done|]. apply not_elem_of_dom, is_fresh.
Qed.

Lemma construct_provider_inv p s n s' :
  objects s !! p = None → construct_provider p s = Some (n, s') →
  ∃ c, c ≠ p ∧ objects s !! c = None ∧
    objects s' = <[p := OpenBioCredentialProvider 1 c]> (<[c := OpenBioCredential 1]> (objects s)).
Proof.
  intros Hp H. unfold construct_provider in H. apply M_bind_Some in H as ([] & s1 & H1 & H).
  injection H1 as <-. apply M_bind_Some in H as (a & s2 & Ha & H).
  apply allocate_inv in Ha as [E [->|(c & -> & Hc)]]; [done|]. simpl in E, Hc.
  apply lookup_insert_None in Hc as [Hc Hne]. exists c. split; [done|]. split; [done|].
  unfold put, modify, mbind, M_bind in H. injection H as _ <-. simpl. rewrite E.
  rewrite (insert_insert_ne (objects s) c p) by done. by rewrite insert_insert_eq.
Qed.

(** ** What is never freed *)

Definition keeps (s s' : ComState) : Prop := ∀ c r,
  objects s !! c = Some (OpenBioCredential r) → ∃ r', objects s' !! c = Some (OpenBioCredential r').

Lemma keeps_refl s s' : objects s' = objects s → keeps s s'.
Proof. intros E c r Hc. rewrite E. eauto. Qed.

Lemma keeps_trans s1 s2 s3 : keeps s1 s2 → keeps s2 s3 → keeps s1 s3.
Proof. intros H12 H23 c r Hc. destruct (H12 _ _ Hc) as [r' Hr']. eauto. Qed.

Lemma keeps_counter p o r s s' :
  objects s !! p = Some o → objects s' = <[p := set_references r o]> (objects s) → keeps s s'.
Proof.
  intros Hp E c r0 Hc. rewrite E. destruct (decide (c = p)) as [->|Hne].
  - rewrite Hp in Hc. injection Hc as ->. rewrite lookup_insert_eq. by eexists.
  - rewrite lookup_insert_ne by done. eauto.
Qed.

Lemma keeps_new p o s s' :
  objects s !! p = None → objects s' = <[p := o]> (objects s) → keeps s s'.
Proof.
  intros Hp E c r Hc. rewrite E, lookup_insert_ne by congruence. eauto.
Qed.

Lemma AddRef_keeps p s n s' : AddRef p s = Some (n, s') → keeps s s'.
Proof.
  intros H. unfold AddRef, this, mbind, M_bind in H. destruct (objects s !! p) as [o|] eqn:Ep; [|done].
  injection H as _ <-. by eapply keeps_counter.
Qed.

Lemma Release_keeps p s h n s' :
  com_ok s h → 0 < h p → Release p s = Some (n, s') → keeps s s'.
Proof.
  intros Hok Hh H. pose proof (ok_counts _ _ Hok p) as Hc.
  destruct (held_live _ _ _ Hok Hh) as [o Ho]. rewrite Ho in Hc. destruct Hc as [Hc1 Hc2].
  rewrite (Release_run p o) in H by done. injection H as _ <-. case_decide as H1; [|by eapply keeps_counter].
  intros c r Hc. exists r. simpl. rewrite lookup_delete_ne; [done|]. intros ->.
  rewrite Ho in Hc. injection Hc as ->. simpl in *. lia.
Qed.

Lemma QueryInterface_keeps p riid object s r s' :
  QueryInterface p riid object s = Some (r, s') → keeps s s'.
Proof.
  unfold QueryInterface. destruct object; cbn [negb]; [|unfold mret, M_ret; intros [= _ <-]; by apply keeps_refl].
  intros (o & s1 & H1 & H)%M_bind_Some.
  assert (s1 = s) as -> by (unfold this in H1; destruct (objects s !! p); by simplify_eq).
  destruct (implements o riid).
  - apply M_bind_Some in H as (n & s2 & H2 & H). unfold mret, M_ret in H. simplify_eq. by eapply AddRef_keeps.
  - unfold mret, M_ret in H. simplify_eq. by apply keeps_refl.
Qed.

Lemma query_release_keeps p riid object s h hr out s' :
  com_ok s (hold p h) → room s p →
  ('(result, object) ← QueryInterface p riid object; Release p ;; mret (result, object)) s = Some ((hr, out), s') →
  keeps s s'.
Proof.
  intros Hok Hroom H. apply M_bind_Some in H as ([result obj] & s1 & H1 & H).
  apply M_bind_Some in H as (n & s2 & H2 & H). unfold mret, M_ret in H. simplify_eq.
  assert (0 < hold p h p) as Hh by (rewrite hold_eq; lia).
  eapply keeps_trans; [by eapply QueryInterface_keeps|].
  eapply Release_keeps with (h := received out (hold p h)); [by eapply QueryInterface_ok| |done].
  destruct out as [[q|]|]; simpl; try lia. unfold hold at 1. case_decide; lia.
Qed.
Lemma room_new s p o : objects s !! p = Some o → references o = 1%Z → room s p.
Proof. intros Hp Hr o' Ho. rewrite Hp in Ho. injection Ho as <-. lia. Qed.

(** A call that creates an object: nothing happens, or a counted object [p] is made and then
    queried and released. *)
Definition creates (riid : IID) (s : ComState) (h : Held) (r : HRESULT * option ptr) (s' : ComState) : Prop :=
  (objects s' = objects s ∧ received (snd r) h = h) ∨
  ∃ p object s2, keeps s s2 ∧ com_ok s2 (hold p h) ∧ room s2 p ∧
    ('(result, object) ← QueryInterface p riid object; Release p ;; mret (result, object)) s2 = Some (r, s').

Lemma creates_ok riid s h r s' : com_ok s h → creates riid s h r s' → com_ok s' (received (snd r) h).
Proof.
  intros Hok [[E ->]|(p & object & s2 & _ & Hok2 & Hroom & H)]; [by eapply com_ok_ext|].
  destruct r. by eapply query_release_ok.
Qed.

Lemma creates_keeps riid s h r s' : creates riid s h r s' → keeps s s'.
Proof.
  intros [[E _]|(p & object & s2 & Hk & Hok2 & Hroom & H)]; [by apply keeps_refl|].
  eapply keeps_trans; [exact Hk|]. destruct r. by eapply query_release_keeps.
Qed.

Lemma DllGetClassObject_creates clsid riid object s h r s' :
  com_ok s h → DllGetClassObject clsid riid object s = Some (r, s') → creates riid s h r s'.
Proof.
  intros Hok H. unfold DllGetClassObject in H. destruct (negb _).
  { unfold mret, M_ret in H. simplify_eq. by left. }
  apply M_bind_Some in H as (a & s1 & Ha & H). apply allocate_inv in Ha as [E [->|(p & -> & Hp)]].
  { unfold mret, M_ret in H. simplify_eq. by left. }
  apply M_bind_Some in H as ([] & s2 & H2 & H). injection H2 as <-. rewrite <- E in Hp.
  assert (com_ok s1 h) as Hok1 by by eapply com_ok_ext.
  right. exists p, object, (set_objects <[p := OpenBioClassFactory 1]> s1). split_and!; [| | |exact H].
  - eapply keeps_new; [by rewrite <- E|]. simpl. by rewrite E.
  - pose proof (ok_counts _ _ Hok1 p) as Hc. rewrite Hp in Hc. simpl in Hc.
    eapply com_ok_new; [exact Hok1|done|intros; by apply hold_ne| |simpl; lia|done].
    rewrite hold_eq, Hc. done.
  - eapply room_new; [simpl; apply lookup_insert_eq|done].
Qed.

Lemma CreateInstance_creates p outer object riid s h r s' :
  com_ok s h → CreateInstance p outer object riid s = Some (r, s') → creates riid s h r s'.
Proof.
  intros Hok H. unfold CreateInstance in H. destruct (_ || _).
  { unfold mret, M_ret in H. simplify_eq. by left. }
  apply M_bind_Some in H as (a & s1 & Ha & H). apply allocate_inv in Ha as [E [->|(q & -> & Hq)]].
  { unfold mret, M_ret in H. simplify_eq. by left. }
  apply M_bind_Some in H as ([] & s2 & H2 & H). rewrite <- E in Hq.
  apply construct_provider_inv in H2 as (c & Hne & Hc & E2); [|done].
  assert (com_ok s1 h) as Hok1 by by eapply com_ok_ext.
  pose proof (ok_counts _ _ Hok1 q) as Hcq. rewrite Hq in Hcq. simpl in Hcq.
  pose proof (ok_counts _ _ Hok1 c) as Hcc. rewrite Hc in Hcc. simpl in Hcc.
  right. exists q, true, s2. split_and!; [| | |exact H].
  - eapply keeps_trans; [by apply (keeps_refl s s1)|].
    eapply keeps_trans; [by apply (keeps_new c (OpenBioCredential 1) s1 (set_objects <[c := OpenBioCredential 1]> s1))|].
    eapply keeps_new; [|exact E2]. simpl. by rewrite lookup_insert_ne.
  - eapply (com_ok_ext (set_objects <[q := OpenBioCredentialProvider 1 c]>
      (set_objects <[c := OpenBioCredential 1]> s1))); [exact E2|done|].
    assert (com_ok (set_objects <[c := OpenBioCredential 1]> s1) h) as Hok2.
    { eapply com_ok_new; [exact Hok1|done|done|by rewrite Hcc|done|done]. }
    eapply com_ok_new; [exact Hok2| |intros; by apply hold_ne| |done|].
    + simpl. by rewrite lookup_insert_ne.
    + by rewrite hold_eq, Hcq.
    + intros r0 c' [= _ <-]. simpl. rewrite lookup_insert_eq. by eexists.
  - eapply room_new; [rewrite E2; apply lookup_insert_eq|done].
Qed.

Lemma GetCredentialAt_ok p index credential s h hr out s' :
  com_ok s h → (∀ q, room s q) → GetCredentialAt p index credential s = Some ((hr, out), s') →
  com_ok s' (received out h).
Proof.
  intros Hok Hroom H. unfold GetCredentialAt in H. destruct (_ || _).
  { unfold mret, M_ret in H. by simplify_eq. }
  unfold this at 1 in H. unfold mbind at 1, M_bind at 1 in H.
  destruct (objects s !! p) as [[r|r c|r]|] eqn:Ep; try done.
  apply M_bind_Some in H as (n & s1 & H1 & H). unfold mret, M_ret in H. simplify_eq. simpl.
  destruct (ok_credentials _ _ Hok _ _ _ Ep) as [r' Hr'].
  eapply AddRef_ok; [done|apply Hroom| |done]. right. by eexists.
Qed.

Lemma client_step_ok s h s' h' : com_ok s h → client_step (s, h) (s', h') → com_ok s' h'.
Proof.
  intros Hok Hs. inversion Hs; subst; clear Hs.
  - by eapply (creates_ok _ _ _ (_, _)), DllGetClassObject_creates.
  - by eapply (creates_ok _ _ _ (_, _)), CreateInstance_creates.
  - by eapply QueryInterface_ok.
  - eapply AddRef_ok; [done|done|by left|done].
  - by eapply Release_ok.
  - by eapply GetCredentialAt_ok.
  - eapply com_ok_ext; [| |exact Hok]; [|done].
    match goal with H : LockServer _ _ = _ |- _ => unfold LockServer, mbind, M_bind in H; injection H as _ <- end.
    done.
Qed.

(** The module as it is loaded. *)
Definition loaded (memory : nat → bool) : ComState := mkCom ∅ 0 memory 0 [].

Lemma loaded_ok memory : com_ok (loaded memory) (λ _, 0).
Proof. split; simpl; intros p; rewrite lookup_empty; done. Qed.

Lemma reachable_com_ok memory s h : rtc client_step (loaded memory, λ _, 0) (s, h) → com_ok s h.
Proof.
  intros H. pose proof (loaded_ok memory) as H0. revert H0.
  change (com_ok (fst (loaded memory, λ _ : positive, 0)) (snd (loaded memory, λ _ : positive, 0)) → com_ok (fst (s, h)) (snd (s, h))).
  induction H as [|[s1 h1] [s2 h2] x Hs _ IH]; [done|]. intros Hok. apply IH. by eapply client_step_ok.
Qed.

(** C26: reference counting is sound for the client: whatever sequence of calls a client makes that
    releases only what it holds, every pointer it holds is to a live object whose counter is
    exactly the number of references held (plus the provider's own, for a credential), so no
    call through a held pointer touches freed memory, and an object is freed when its last
    reference is released. *)
Theorem client_is_safe memory s h p :
  rtc client_step (loaded memory, λ _, 0) (s, h) → 0 < h p →
  ∃ o, objects s !! p = Some o ∧ references o = (Z.of_nat (h p) + base o)%Z ∧
    (∀ riid object, room s p → is_Some (QueryInterface p riid object s)) ∧
    (room s p → is_Some (AddRef p s)) ∧
    ∃ s', Release p s = Some (ULONG (references o - 1), s') ∧
      (objects s' !! p = None ↔ h p = 1 ∧ base o = 0%Z).
Proof.
  intros Hreach Hh. pose proof (reachable_com_ok _ _ _ Hreach) as Hok.
  pose proof (ok_counts _ _ Hok p) as Hc. destruct (held_live _ _ _ Hok Hh) as [o Ho].
  rewrite Ho in Hc. destruct Hc as [Hc1 Hc2]. exists o. split; [done|]. split; [done|].
  assert (room s p → is_Some (AddRef p s)) as Hadd.
  { intros Hroom. specialize (Hroom _ Ho). rewrite (AddRef_run p o) by (done || lia). by eexists. }
  split; [|split; [done|]].
  - intros riid [] Hroom; [|by eexists]. unfold QueryInterface. cbn [negb].
    unfold this at 1. unfold mbind at 1, M_bind at 1. rewrite Ho.
    destruct (implements o riid); [|by eexists].
    destruct (Hadd Hroom) as [[n s1] E]. rewrite (bind_run _ _ _ _ _ E). by eexists.
  - rewrite (Release_run p o) by done. eexists. split; [done|]. case_decide as H1; simpl.
    + rewrite lookup_delete_eq. split; [|done]. intros _. destruct o; simpl in *; lia.
    + rewrite lookup_insert_eq. split; [done|]. intros [E1 E2]. lia.
Qed.

Lemma GetCredentialAt_keeps p index credential s r s' :
  GetCredentialAt p index credential s = Some (r, s') → keeps s s'.
Proof.
  unfold GetCredentialAt. destruct (_ || _); [unfold mret, M_ret; intros [= _ <-]; by apply keeps_refl|].
  intros (o & s1 & H1 & H)%M_bind_Some.
  assert (s1 = s) as -> by (unfold this in H1; destruct (objects s !! p); by simplify_eq).
  destruct o as [|rf c|]; try done.
  apply M_bind_Some in H as (n & s2 & H2 & H). unfold mret, M_ret in H. simplify_eq. by eapply AddRef_keeps.
Qed.

Lemma client_step_keeps s h s' h' : com_ok s h → client_step (s, h) (s', h') → keeps s s'.
Proof.
  intros Hok Hs. inversion Hs; subst; clear Hs.
  - by eapply creates_keeps, DllGetClassObject_creates.
  - by eapply creates_keeps, CreateInstance_creates.
  - by eapply QueryInterface_keeps.
  - by eapply AddRef_keeps.
  - by eapply Release_keeps.
  - by eapply GetCredentialAt_keeps.
  - match goal with H : LockServer _ _ = _ |- _ => unfold LockServer, mbind, M_bind in H; injection H as _ <- end.
    by apply keeps_refl.
Qed.

(** The provider never gives back its reference to its credential: once a provider was
    created, its credential stays allocated whatever the clients do afterwards, also when
    they have released everything and the provider itself is freed. *)
Theorem credential_never_freed memory s h s' h' p r c :
  rtc client_step (loaded memory, λ _, 0) (s, h) → rtc client_step (s, h) (s', h') →
  objects s !! p = Some (OpenBioCredentialProvider r c) →
  ∃ r', objects s' !! c = Some (OpenBioCredential r').
Proof.
  intros Hreach Hsteps Hp. pose proof (reachable_com_ok _ _ _ Hreach) as Hok.
  destruct (ok_credentials _ _ Hok _ _ _ Hp) as [r0 Hr0]. clear Hreach Hp.
  revert r0 Hr0 Hok. change s with (fst (s, h)). change s' with (fst (s', h')). change h with (snd (s, h)) at 3.
  induction Hsteps as [|[s1 h1] [s2 h2] x Hs _ IH]; [eauto|]. cbn [fst snd] in *. intros r0 Hr0 Hok.
  destruct (client_step_keeps _ _ _ _ Hok Hs _ _ Hr0) as [r1 Hr1].
  eapply IH; [exact Hr1|]. by eapply client_step_ok.
Qed.

(** The module tells Windows that it may be unloaded while its code is in use: after the
    first successful [DllGetClassObject] a client holds a live object, no lock is counted, and
    [DllCanUnloadNow] answers yes. *)
Theorem unload_while_in_use memory :
  memory 0 = true →
  ∃ s p, client_step (loaded memory, λ _, 0) (s, hold p (λ _, 0)) ∧
    objects s !! p = Some (OpenBioClassFactory 1) ∧ DllCanUnloadNow s = Some (S_OK, s).
Proof.
  intros Hm. eexists _, _. split.
  - apply (cs_getClassObject clsid_open_bio IID_IClassFactory true S_OK (Some (Some (fresh (dom (∅ : gmap positive ComObject)))))).
    unfold DllGetClassObject, allocate, mbind, M_bind. rewrite bool_decide_true by done. cbn [negb].
    unfold loaded. cbn [Com.memory allocations objects]. rewrite Hm. reflexivity.
  - by vm_compute.
Qed.

(** [GetSerialization] never hands a credential to Windows: every answer says that the logon
    is not finished, and its success only means that the whole request was written to the
    pipe; no reply is read, and an opened pipe is closed. *)
Theorem serialization_never_finishes opened result written s :
  ∃ s' hr, GetSerialization true opened result written s = Some ((hr, Some CPGSR_NO_CREDENTIAL_NOT_FINISHED), s') ∧
    (hr = S_OK ↔ opened = None ∧ result = true ∧ written = 21%Z) ∧
    objects s' = objects s ∧
    pipe s' = pipe s ++ match opened with
                        | None => [PipeOpened kPipe; PipeWritten (take (Z.to_nat written) challenge_text); PipeClosed]
                        | Some _ => []
                        end.
Proof.
  unfold GetSerialization, PipeApproval. cbn [negb]. destruct opened as [e|].
  - eexists _, _. split; [done|]. split_and!; [split; [done|by intros [? _]]|done|by rewrite app_nil_r].
  - eexists _, _. split; [done|]. split_and!; [|done|by cbn; rewrite <- !app_assoc].
    change (Z.of_nat (length challenge_text)) with 21%Z.
    destruct result; cbn [andb]; [case_bool_decide|]; split; try done; by intros (_ & ? & ?).
Qed.
End Counting.

(** *** Witnesses: a client that creates a provider and releases everything *)

Definition end_state {A} (m : M ComState A) (s : ComState) : ComState := from_option snd s (m s).
Definition pointer (m : M ComState (HRESULT * option ptr)) (s : ComState) : positive :=
  match m s with Some ((_, Some (Some p)), _) => p | _ => 1%positive end.

Definition demo_memory : nat → bool := λ _, true.
Definition demo_get : M ComState (HRESULT * option ptr) := DllGetClassObject clsid_open_bio IID_IClassFactory true.
Definition demo_com1 : ComState := end_state demo_get (loaded demo_memory).
Definition demo_factory : positive := pointer demo_get (loaded demo_memory).
Definition demo_create : M ComState (HRESULT * option ptr) :=
  CreateInstance demo_factory false true IID_ICredentialProvider.
Definition demo_com2 : ComState := end_state demo_create demo_com1.
Definition demo_provider : positive := pointer demo_create demo_com1.
Definition demo_com3 : ComState := end_state (Release demo_provider) demo_com2.
Definition demo_held1 : Held := hold demo_factory (λ _, 0).
Definition demo_held2 : Held := hold demo_provider demo_held1.

Lemma demo_reach1 : rtc client_step (loaded demo_memory, λ _, 0) (demo_com1, demo_held1).
Proof.
  apply rtc_once. apply (cs_getClassObject clsid_open_bio IID_IClassFactory true S_OK (Some (Some demo_factory))).
  vm_eq.
Qed.

Lemma demo_step2 : client_step (demo_com1, demo_held1) (demo_com2, demo_held2).
Proof.
  apply (cs_createInstance demo_factory false true IID_ICredentialProvider S_OK (Some (Some demo_provider))).
  - vm_compute. lia.
  - vm_eq.
Qed.

Lemma demo_step3 : client_step (demo_com2, demo_held2) (demo_com3, drop_ref demo_provider demo_held2).
Proof. apply (cs_release demo_provider 0); [vm_compute; lia|vm_eq]. Qed.

(** The credential of the demo provider. *)
Definition demo_credential : positive :=
  match objects demo_com2 !! demo_provider with Some (OpenBioCredentialProvider _ c) => c | _ => 1%positive end.

Lemma client_is_safe_witness :
  ∃ o, objects demo_com2 !! demo_provider = Some o ∧
    references o = (Z.of_nat (demo_held2 demo_provider) + base o)%Z ∧
    (∀ riid object, room demo_com2 demo_provider → is_Some (QueryInterface demo_provider riid object demo_com2)) ∧
    (room demo_com2 demo_provider → is_Some (AddRef demo_provider demo_com2)) ∧
    ∃ s', Release demo_provider demo_com2 = Some (ULONG (references o - 1), s') ∧
      (objects s' !! demo_provider = None ↔ demo_held2 demo_provider = 1 ∧ base o = 0%Z).
Proof.
  apply (client_is_safe demo_memory demo_com2 demo_held2 demo_provider).
  - eapply rtc_r; [exact demo_reach1|exact demo_step2].
  - vm_compute. lia.
Defined.

Lemma credential_never_freed_witness :
  objects demo_com3 !! demo_provider = None ∧
  ∃ r', objects demo_com3 !! demo_credential = Some (OpenBioCredential r').
Proof.
  split; [vm_eq|].
  apply (credential_never_freed demo_memory demo_com2 demo_held2 demo_com3 (drop_ref demo_provider demo_held2)
    demo_provider 1 demo_credential).
  - eapply rtc_r; [exact demo_reach1|exact demo_step2].
  - apply rtc_once. exact demo_step3.
  - vm_eq.
Defined.

Lemma unload_while_in_use_witness :
  ∃ s p, client_step (loaded demo_memory, λ _, 0) (s, hold p (λ _, 0)) ∧
    objects s !! p = Some (OpenBioClassFactory 1) ∧ DllCanUnloadNow s = Some (S_OK, s).
Proof. apply (unload_while_in_use demo_memory). reflexivity. Defined.
