(* ===== verification/Daemon.v ===== *)
(** * The unlock daemon (src/daemon/src: server.rs, store.rs, crypto.rs)

    The Rust service behind the PAM module and the credential provider.  Every
    connection is a task; the tasks share the map of pending authentications
    under one mutex and the key list in the operating system's vault.  A task
    is cut where another task can run in between: at every [await], and between
    reading and writing the vault.  [Action]s name the pieces; a run of the
    daemon is a sequence of actions in any order ([daemon_step]).  What the
    crates compute (serde_json, hex, ed25519-dalek, keyring) is the interface
    [Crates].  [String] and [Vec<u8>] are byte lists, [u64] is [Z]. *)
From stdpp Require Import base gmap sets list strings relations.
From Stdlib Require Import ZArith Lia.
From S2P Require Import Prelude.

Abbreviation RString := (list byte).

(** ** Messages *)

Inductive Request : Type :=
  | Request_Pair (device_id public_key pairing_code : RString)
  | Request_Authorize (user : RString)
  | Request_Challenge
  | Request_Verify (challenge_id device_id nonce : RString) (timestamp : Z) (signature : RString).

Inductive Response : Type :=
  | Response_Paired (accepted : bool)
  | Response_Challenge (challenge_id nonce : RString) (timestamp : Z)
  | Response_Authorized (authorized : bool)
  | Response_Error (message : RString).

#[export] Instance Response_eq_dec : EqDecision Response.
Proof. solve_decision. Defined.

(** ** The crates *)

Class Crates : Type := {
  (** [serde_json::from_str], with the text of the error *)
  from_str : RString → RString + Request;
  (** [serde_json::to_vec] *)
  to_vec : Response → list byte;
  hex_encode : list byte → RString;
  hex_decode : RString → option (list byte);
  (** ed25519-dalek *)
  VerifyingKey : Type;
  Signature : Type;
  VerifyingKey_from_bytes : list byte → option VerifyingKey;
  Signature_from_slice : list byte → option Signature;
  verifies : VerifyingKey → list byte → Signature → bool;
  (** keyring: the entry's password, and the vault after [set_password] *)
  Vault : Type;
  get_password : Vault → option RString;
  set_password : Vault → RString → option Vault;
  (** the text of a [getrandom::Error] *)
  random_error : RString;
}.

(** ** crypto.rs *)

Definition NONCE_LEN : nat := 32.
Definition FRESHNESS_WINDOW_SECONDS : Z := 30.

Inductive CryptoError : Type := InvalidPublicKey | InvalidSignature | StaleTimestamp.

(** [u64::abs_diff] *)
Definition is_fresh (timestamp now : Z) : bool :=
  bool_decide (Z.abs (timestamp - now) <= FRESHNESS_WINDOW_SECONDS)%Z.

(** [u64::to_be_bytes] *)
Definition to_be_bytes (value : Z) : list byte :=
  (λ i, byte_of_Z (Z.shiftr value (8 * i))) <$> [7; 6; 5; 4; 3; 2; 1; 0]%Z.

Section Daemon.
Context `{C : Crates}.

Definition verify_signature (public_key nonce : list byte) (timestamp : Z) (signature : list byte)
    (now : Z) : CryptoError + unit :=
  if negb (length nonce =? NONCE_LEN) || negb (is_fresh timestamp now) then inl StaleTimestamp
  else if negb (length public_key =? 32) then inl InvalidPublicKey
  else
    match VerifyingKey_from_bytes public_key with
    | None => inl InvalidPublicKey
    | Some verifying_key =>
        match Signature_from_slice signature with
        | None => inl InvalidSignature
        | Some signature =>
            if verifies verifying_key (nonce ++ to_be_bytes timestamp) signature then inr tt
            else inl InvalidSignature
        end
    end.

(** ** store.rs *)

(** [str::lines]: [line] is the part of the current line that was read, in order. *)
Fixpoint lines_from (line : list byte) (s : RString) : list RString :=
  match s with
  | [] => if decide (line = []) then [] else [line]
  | c :: s =>
      if decide (c = newline) then
        (match last line with
         | Some Init.Byte.x0d => removelast line
         | _ => line
         end) :: lines_from [] s
      else lines_from (line ++ [c]) s
  end.
Definition lines (s : RString) : list RString := lines_from [] s.

(** [hex::decode(line)?] and [try_into] to [[u8; 32]]; [None] is [StoreError::Encoding]. *)
Definition decode_key (line : RString) : option (list byte) :=
  bytes ← hex_decode line;
  if length bytes =? 32 then Some bytes else None.

Definition load_public_keys (vault : Vault) : option (list (list byte)) :=
  match get_password vault with
  | None => Some []
  | Some value => mapM decode_key (filter (λ line, line ≠ []) (lines value))
  end.

(** [keys.iter().map(hex::encode).collect::<Vec<_>>().join("\n")] *)
Fixpoint join (parts : list RString) : RString :=
  match parts with
  | [] => []
  | [part] => part
  | part :: parts => part ++ newline :: join parts
  end.

(** The first half of [add_public_key]: the text it is going to store. *)
Definition add_public_key_read (vault : Vault) (key : list byte) : option RString :=
  keys ← load_public_keys vault;
  let keys := if existsb (λ known, bool_decide (known = key)) keys then keys else keys ++ [key] in
  Some (join (hex_encode <$> keys)).

(** ** The shared state *)

(** [notify] is the address of the entry's [Notify]. *)
Record PendingAuth : Type := mkPending {
  pa_nonce : list byte;
  pa_timestamp : Z;
  pa_authorized : bool;
  pa_notify : nat;
}.

(** Where a connection is in [handle_stream]. *)
Inductive Task : Type :=
  | Reading                                            (* lines.next_line() *)
  | Storing (key : list byte) (value : RString)        (* before entry.set_password *)
  | Inserting (challenge_id : RString) (pending : PendingAuth)
  | Entering (challenge_id : RString) (notify : nat)   (* the entry is in the map *)
  | Waiting (challenge_id : RString) (notify : nat) (deadline : Z) (notified : bool)
  | Checking (challenge_id : RString) (notify : nat) (deadline : Z)
  | Removing (challenge_id : RString) (authorized : bool)
  | ChallengeLocking
  | VerifyLocking (challenge_id nonce : RString) (timestamp : Z) (key signature : list byte)
  | Replying (response : Response)
  | Closed.

(** What happened so far. *)
Inductive DaemonEvent : Type :=
  | Stored (key : list byte)
  | Issued (challenge_id : RString) (nonce : list byte) (timestamp : Z)
  | Verified (challenge_id : RString) (nonce : list byte) (timestamp : Z) (key signature : list byte)
  | Replied (conn : nat) (response : Response).

(** [store_ok]: whether [KeyStore::open()] succeeded for the connection. *)
Record Connection : Type := mkConnection { store_ok : bool; task : Task }.

Record Daemon : Type := mkDaemon {
  pending : gmap RString PendingAuth;
  vault : Vault;
  connections : gmap nat Connection;
  notifies : nat;                 (* how many [Notify] objects were made *)
  uptime : Z;                     (* the monotonic clock, in seconds *)
  history : list DaemonEvent;
}.

Definition set_pending f d := mkDaemon (f (pending d)) (vault d) (connections d) (notifies d) (uptime d) (history d).
Definition set_vault v d := mkDaemon (pending d) v (connections d) (notifies d) (uptime d) (history d).
Definition set_connections f d := mkDaemon (pending d) (vault d) (f (connections d)) (notifies d) (uptime d) (history d).
Definition set_notifies n d := mkDaemon (pending d) (vault d) (connections d) n (uptime d) (history d).
Definition set_uptime t d := mkDaemon (pending d) (vault d) (connections d) (notifies d) t (history d).
Definition happened (e : DaemonEvent) d := mkDaemon (pending d) (vault d) (connections d) (notifies d) (uptime d) (history d ++ [e]).

Definition new_state (v : Vault) : Daemon := mkDaemon ∅ v ∅ 0 0 [].

(** The task of [conn] goes to [t]. *)
Definition goto (conn : nat) (t : Task) : M Daemon unit :=
  modify (set_connections (alter (λ c, mkConnection (store_ok c) t) conn)).
Definition current (conn : nat) : M Daemon Connection := λ d,
  match connections d !! conn with Some c => Some (c, d) | None => None end.

(** [Notify::notify_waiters]: the tasks that wait on it now. *)
Definition notify_task (notify : nat) (c : Connection) : Connection :=
  match task c with
  | Waiting id n deadline _ =>
      if decide (n = notify) then mkConnection (store_ok c) (Waiting id n deadline true) else c
  | _ => c
  end.
Definition notify_waiters (notify : nat) : M Daemon unit :=
  modify (set_connections (fmap (notify_task notify))).

(** ** handle_stream *)

Definition error (message : string) : Response := Response_Error (bytes message).

Definition handle_pair (conn : nat) (public_key pairing_code : RString) : M Daemon unit :=
  if bool_decide (pairing_code = []) then goto conn (Replying (error "pairing code is required"))
  else
    c ← current conn;
    match (if store_ok c then hex_decode public_key else None) with
    | None => goto conn (Replying (error "pairing key is invalid or vault is unavailable"))
    | Some bytes =>
        if length bytes =? 32 then
          v ← gets vault;
          match add_public_key_read v bytes with
          | Some value => goto conn (Storing bytes value)
          | None => goto conn (Replying (Response_Paired false))
          end
        else goto conn (Replying (error "public key must be 32 bytes"))
    end.

(** [random1], [random2]: the answers of [getrandom]; [now]: the clock. *)
Definition handle_authorize (conn : nat) (random1 random2 : option (list byte)) (now : Z) : M Daemon unit :=
  match random1 with
  | None => goto conn (Replying (Response_Error (bytes "secure random generation failed: " ++ random_error)))
  | Some nonce =>
      let challenge_id := hex_encode (default (replicate NONCE_LEN nul) random2) in
      notify ← gets notifies;
      modify (set_notifies (S notify)) ;;
      goto conn (Inserting challenge_id (mkPending nonce now false notify))
  end.

(** [keys.iter().any(...)]; [now n] is the clock when the [n]-th key is tried.  The key that
    verified is part of the result. *)
Fixpoint any_key (keys : list (list byte)) (nonce : list byte) (timestamp : Z) (signature : list byte)
    (now : nat → Z) : option (list byte) :=
  match keys with
  | [] => None
  | key :: keys =>
      match verify_signature key nonce timestamp signature (now 0) with
      | inr _ => Some key
      | inl _ => any_key keys nonce timestamp signature (λ n, now (S n))
      end
  end.

Definition handle_verify (conn : nat) (challenge_id nonce : RString) (timestamp : Z) (signature : RString)
    (now : nat → Z) : M Daemon unit :=
  c ← current conn;
  v ← gets vault;
  let keys := default [] (if store_ok c then load_public_keys v else None) in
  let nonce := default [] (hex_decode nonce) in
  let signature := default [] (hex_decode signature) in
  match any_key keys nonce timestamp signature now with
  | Some key => goto conn (VerifyLocking challenge_id nonce timestamp key signature)
  | None => goto conn (Replying (Response_Authorized false))
  end.

Definition handle_line (conn : nat) (line : RString) (random1 random2 : option (list byte))
    (now : nat → Z) : M Daemon unit :=
  match from_str line with
  | inr (Request_Pair _ public_key pairing_code) => handle_pair conn public_key pairing_code
  | inr (Request_Authorize _) => handle_authorize conn random1 random2 (now 0)
  | inr Request_Challenge => goto conn ChallengeLocking
  | inr (Request_Verify challenge_id _ nonce timestamp signature) =>
      handle_verify conn challenge_id nonce timestamp signature now
  | inl error => goto conn (Replying (Response_Error (bytes "invalid request: " ++ error)))
  end.

(** ** Actions *)

Inductive Action : Type :=
  | Accept (conn : nat) (opened : bool)
  | Receive (conn : nat) (line : RString) (random1 random2 : option (list byte)) (now : nat → Z)
  | SetPassword (conn : nat)
  | Insert (conn : nat)
  | Enter (conn : nat)
  | Wake (conn : nat)
  | Check_ (conn : nat)
  | Expire (conn : nat)
  | Remove (conn : nat)
  | PickChallenge (conn : nat) (choice : RString)
  | Commit (conn : nat)
  | WriteReply (conn : nat) (ok : bool)
  | Hangup (conn : nat)
  | Tick.

(** A nonce of [getrandom] is a [[u8; 32]]. *)
Definition nonce_ok (r : option (list byte)) : bool :=
  match r with Some nonce => length nonce =? NONCE_LEN | None => true end.

(** The section of [verify] under the mutex. *)
Definition commit (conn : nat) (challenge_id nonce : RString) (timestamp : Z) (key signature : list byte)
    : M Daemon unit :=
  entries ← gets pending;
  match entries !! challenge_id with
  | Some entry =>
      if bool_decide (pa_nonce entry = nonce) && bool_decide (pa_timestamp entry = timestamp)
         && negb (pa_authorized entry) then
        modify (set_pending <[challenge_id := mkPending nonce timestamp true (pa_notify entry)]>) ;;
        notify_waiters (pa_notify entry) ;;
        modify (happened (Verified challenge_id nonce timestamp key signature)) ;;
        goto conn (Replying (Response_Authorized true))
      else goto conn (Replying (Response_Authorized false))
  | None => goto conn (Replying (Response_Authorized false))
  end.

(** The section of [challenge] under the mutex; [choice] is the key that the iterator of the
    [HashMap] yields first. *)
Definition pick_challenge (conn : nat) (choice : RString) : M Daemon unit :=
  entries ← gets pending;
  if decide (entries = ∅) then
    goto conn (Replying (error "no workstation authentication request is pending"))
  else
    match entries !! choice with
    | Some entry =>
        goto conn (Replying (Response_Challenge choice (hex_encode (pa_nonce entry)) (pa_timestamp entry)))
    | None => undefined
    end.

(** One action; undefined when the task of [conn] is not where the action begins. *)
Definition act (a : Action) : M Daemon unit :=
  match a with
  | Accept conn opened =>
      connections_ ← gets connections;
      if decide (connections_ !! conn = None)
      then modify (set_connections <[conn := mkConnection opened Reading]>)
      else undefined
  | Receive conn line random1 random2 now =>
      c ← current conn;
      match task c with
      | Reading =>
          if nonce_ok random1 && nonce_ok random2 then handle_line conn line random1 random2 now
          else undefined
      | _ => undefined
      end
  | SetPassword conn =>
      c ← current conn;
      match task c with
      | Storing key value =>
          v ← gets vault;
          match set_password v value with
          | Some v =>
              modify (set_vault v) ;;
              modify (happened (Stored key)) ;;
              goto conn (Replying (Response_Paired true))
          | None => goto conn (Replying (Response_Paired false))
          end
      | _ => undefined
      end
  | Insert conn =>
      c ← current conn;
      match task c with
      | Inserting id entry =>
          modify (set_pending <[id := entry]>) ;;
          modify (happened (Issued id (pa_nonce entry) (pa_timestamp entry))) ;;
          goto conn (Entering id (pa_notify entry))
      | _ => undefined
      end
  | Enter conn =>
      c ← current conn;
      match task c with
      | Entering id notify =>
          now ← gets uptime;
          goto conn (Waiting id notify (now + 30) false)
      | _ => undefined
      end
  | Wake conn =>
      c ← current conn;
      match task c with
      | Waiting id notify deadline true => goto conn (Checking id notify deadline)
      | _ => undefined
      end
  | Check_ conn =>
      c ← current conn;
      match task c with
      | Checking id notify deadline =>
          entries ← gets pending;
          if from_option pa_authorized false (entries !! id) then goto conn (Removing id true)
          else goto conn (Waiting id notify deadline false)
      | _ => undefined
      end
  | Expire conn =>
      c ← current conn;
      now ← gets uptime;
      match task c with
      | Waiting id _ deadline false | Checking id _ deadline =>
          if bool_decide (deadline <= now)%Z then goto conn (Removing id false) else undefined
      | _ => undefined
      end
  | Remove conn =>
      c ← current conn;
      match task c with
      | Removing id authorized =>
          modify (set_pending (delete id)) ;;
          goto conn (Replying (Response_Authorized authorized))
      | _ => undefined
      end
  | PickChallenge conn choice =>
      c ← current conn;
      match task c with
      | ChallengeLocking => pick_challenge conn choice
      | _ => undefined
      end
  | Commit conn =>
      c ← current conn;
      match task c with
      | VerifyLocking id nonce timestamp key signature => commit conn id nonce timestamp key signature
      | _ => undefined
      end
  | WriteReply conn ok =>
      c ← current conn;
      match task c with
      | Replying response =>
          if ok : bool then modify (happened (Replied conn response)) ;; goto conn Reading
          else goto conn Closed
      | _ => undefined
      end
  | Hangup conn =>
      c ← current conn;
      match task c with
      | Reading => goto conn Closed
      | _ => undefined
      end
  | Tick => modify (λ d, set_uptime (uptime d + 1) d)
  end.

Fixpoint run_actions (actions : list Action) : M Daemon unit :=
  match actions with
  | [] => mret tt
  | a :: actions => act a ;; run_actions actions
  end.

Definition daemon_step (d d' : Daemon) : Prop := ∃ a, act a d = Some (tt, d').
End Daemon.
