(* ===== verification/DaemonTheorems.v ===== *)
(** * The unlock daemon: runs, invariant and safety

    [transition] lists what one action can do to the shared state and to the
    task that acts; [act_transition] shows that the executable [act] does
    nothing else.  The invariant [daemon_ok] and the properties that follow
    from it are proved over [transition]. *)
From stdpp Require Import base gmap sets list strings relations.
From Stdlib Require Import ZArith Lia.
From S2P Require Import Prelude Daemon.

(** What the daemon relies on: hexadecimal text decodes to what was encoded and consists of
    digits and letters; a password that was stored is read back. *)
Definition hex_digit (b : byte) : bool :=
  let n := Byte.to_N b in ((48 <=? n) && (n <=? 57) || (97 <=? n) && (n <=? 102))%N.

Class CratesLaws (C : Crates) : Prop := {
  hex_decode_encode b : hex_decode (hex_encode b) = Some b;
  hex_encode_digits b : Forall (λ c, hex_digit c = true) (hex_encode b);
  hex_encode_length b : length (hex_encode b) = 2 * length b;
  get_set_password v s v' : set_password v s = Some v' → get_password v' = Some s;
}.

Section Transitions.
Context `{C : Crates}.
Implicit Types (d : Daemon) (c : Connection) (t : Task).

Definition moved (conn : nat) t d : Daemon :=
  set_connections (alter (λ c, mkConnection (store_ok c) t) conn) d.

(** The moves of a task that change nothing shared. *)
Inductive local (d : Daemon) : Task → Task → Prop :=
  | local_refuse r : (∀ b, r ≠ Response_Authorized b) → r ≠ Response_Paired true → local d Reading (Replying r)
  | local_unverified : local d Reading (Replying (Response_Authorized false))
  | local_store key value :
      length key = 32 → add_public_key_read (vault d) key = Some value → local d Reading (Storing key value)
  | local_challenge : local d Reading ChallengeLocking
  | local_verify id nonce ts key signature keys now :
      load_public_keys (vault d) = Some keys → key ∈ keys →
      verify_signature key nonce ts signature now = inr tt →
      local d Reading (VerifyLocking id nonce ts key signature)
  | local_hangup : local d Reading Closed
  | local_storeFailed key value : local d (Storing key value) (Replying (Response_Paired false))
  | local_enter id n : local d (Entering id n) (Waiting id n (uptime d + 30) false)
  | local_wake id n deadline : local d (Waiting id n deadline true) (Checking id n deadline)
  | local_authorized id n deadline entry :
      pending d !! id = Some entry → pa_authorized entry = true →
      local d (Checking id n deadline) (Removing id true)
  | local_again id n deadline :
      from_option pa_authorized false (pending d !! id) = false →
      local d (Checking id n deadline) (Waiting id n deadline false)
  | local_expireWaiting id n deadline :
      (deadline <= uptime d)%Z → local d (Waiting id n deadline false) (Removing id false)
  | local_expireChecking id n deadline :
      (deadline <= uptime d)%Z → local d (Checking id n deadline) (Removing id false)
  | local_pick r : (∀ b, r ≠ Response_Authorized b) → r ≠ Response_Paired true → local d ChallengeLocking (Replying r)
  | local_mismatch id nonce ts key signature :
      local d (VerifyLocking id nonce ts key signature) (Replying (Response_Authorized false))
  | local_writeFailed r : local d (Replying r) Closed.

Inductive transition d : Daemon → Prop :=
  | t_accept conn opened :
      connections d !! conn = None →
      transition d (set_connections <[conn := mkConnection opened Reading]> d)
  | t_tick : transition d (set_uptime (uptime d + 1) d)
  | t_local conn c t :
      connections d !! conn = Some c → local d (task c) t → transition d (moved conn t d)
  | t_issue conn c id nonce ts :
      connections d !! conn = Some c → task c = Reading → length nonce = NONCE_LEN →
      transition d (moved conn (Inserting id (mkPending nonce ts false (notifies d)))
                      (set_notifies (S (notifies d)) d))
  | t_store conn c key value v :
      connections d !! conn = Some c → task c = Storing key value → set_password (vault d) value = Some v →
      transition d (moved conn (Replying (Response_Paired true)) (happened (Stored key) (set_vault v d)))
  | t_insert conn c id entry :
      connections d !! conn = Some c → task c = Inserting id entry →
      transition d (moved conn (Entering id (pa_notify entry))
                      (happened (Issued id (pa_nonce entry) (pa_timestamp entry))
                         (set_pending <[id := entry]> d)))
  | t_remove conn c id authorized :
      connections d !! conn = Some c → task c = Removing id authorized →
      transition d (moved conn (Replying (Response_Authorized authorized)) (set_pending (delete id) d))
  | t_commit conn c id nonce ts key signature entry :
      connections d !! conn = Some c → task c = VerifyLocking id nonce ts key signature →
      pending d !! id = Some entry → pa_nonce entry = nonce → pa_timestamp entry = ts →
      pa_authorized entry = false →
      transition d (moved conn (Replying (Response_Authorized true))
        (happened (Verified id nonce ts key signature)
          (set_connections (fmap (notify_task (pa_notify entry)))
            (set_pending <[id := mkPending nonce ts true (pa_notify entry)]> d))))
  | t_reply conn c response :
      connections d !! conn = Some c → task c = Replying response →
      transition d (moved conn Reading (happened (Replied conn response) d)).

Lemma any_key_verified keys nonce ts signature now key :
  any_key keys nonce ts signature now = Some key →
  key ∈ keys ∧ ∃ now, verify_signature key nonce ts signature now = inr tt.
Proof.
  induction keys as [|k keys IH] in now |- *; cbn [any_key]; [done|].
  destruct (verify_signature k nonce ts signature (now 0)) as [e|[]] eqn:E.
  - intros (? & ?)%IH. split; [by right|done].
  - intros [= <-]. split; [by left|by exists (now 0)].
Qed.

Lemma current_bind {B} conn (f : Connection → M Daemon B) d r :
  (current conn ≫= f) d = Some r → ∃ c, connections d !! conn = Some c ∧ f c d = Some r.
Proof.
  unfold current, mbind, M_bind. destruct (connections d !! conn) as [c|]; [|done]. by exists c.
Qed.

Lemma goto_local conn c t d d' :
  connections d !! conn = Some c → local d (task c) t → goto conn t d = Some (tt, d') → transition d d'.
Proof. intros Hc Hl H. injection H as <-. by eapply t_local. Qed.

Ltac to_local := eapply goto_local; [eassumption| |eassumption].

Lemma handle_line_transition conn c line r1 r2 now d d' :
  connections d !! conn = Some c → task c = Reading → nonce_ok r1 = true →
  handle_line conn line r1 r2 now d = Some (tt, d') → transition d d'.
Proof.
  intros Hc Ht Hr H. unfold handle_line in H.
  destruct (from_str line) as [e|[dev pk code|user| |id dev nonce ts sig]].
  - to_local. rewrite Ht. by constructor.
  - unfold handle_pair in H. case_bool_decide; [to_local; rewrite Ht; by constructor|].
    apply current_bind in H as (c' & Hc' & H). simplify_eq.
    destruct (if store_ok c then hex_decode pk else None) as [b|]; [|to_local; rewrite Ht; by constructor].
    destruct (Nat.eqb_spec (length b) 32) as [Hl|]; [|to_local; rewrite Ht; by constructor].
    unfold gets, mbind, M_bind in H. destruct (add_public_key_read (vault d) b) as [value|] eqn:Ea.
    + to_local. rewrite Ht. by constructor.
    + to_local. rewrite Ht. by constructor.
  - unfold handle_authorize in H. destruct r1 as [nonce|]; [|to_local; rewrite Ht; by constructor].
    apply Nat.eqb_eq in Hr. injection H as <-. by eapply t_issue.
  - to_local. rewrite Ht. constructor.
  - unfold handle_verify in H. apply current_bind in H as (c' & Hc' & H). simplify_eq.
    unfold gets, mbind, M_bind in H.
    destruct (any_key _ _ _ _ _) as [key|] eqn:Ek; [|to_local; rewrite Ht; apply local_unverified].
    apply any_key_verified in Ek as (Hk & t & Hv). to_local. rewrite Ht.
    destruct (store_ok c); [|by apply not_elem_of_nil in Hk].
    destruct (load_public_keys (vault d)) as [keys|] eqn:El; [|by apply not_elem_of_nil in Hk].
    by eapply local_verify.
Qed.

(** Every action is a transition. *)
Lemma act_transition a d d' : act a d = Some (tt, d') → transition d d'.
Proof.
  destruct a as [conn opened|conn line r1 r2 now|conn|conn|conn|conn|conn|conn|conn|conn choice|conn|conn ok|conn|];
    cbn [act]; intros H; [unfold gets, mbind, M_bind in H; cbn in H| | | | | | | | | | | | |by injection H as <-; constructor];
    try (apply current_bind in H as (c & Hc & H)).
  - case_decide; [|done]. injection H as <-. by constructor.
  - destruct (task c) eqn:Ht; try done. destruct (nonce_ok r1 && nonce_ok r2) eqn:E; [|done].
    apply andb_prop in E as [E _]. by eapply handle_line_transition.
  - destruct (task c) as [|key value| | | | | | | | |] eqn:Ht; try done. unfold gets, mbind at 1, M_bind at 1 in H.
    destruct (set_password (vault d) value) as [v|] eqn:Ev; [injection H as <-; by eapply t_store|].
    to_local. rewrite Ht. constructor.
  - destruct (task c) as [| |id entry| | | | | | | |] eqn:Ht; try done. injection H as <-. by eapply t_insert.
  - destruct (task c) eqn:Ht; try done. injection H as <-. eapply t_local; [done|]. rewrite Ht. constructor.
  - destruct (task c) as [| | | |id n deadline notified| | | | | |] eqn:Ht; try done. destruct notified; [|done].
    to_local. rewrite Ht. constructor.
  - destruct (task c) as [| | | | |id n deadline| | | | |] eqn:Ht; try done. unfold gets, mbind, M_bind in H.
    destruct (from_option pa_authorized false (pending d !! id)) eqn:Ea; to_local; rewrite Ht.
    + destruct (pending d !! id) eqn:Ep; [|done]. by eapply local_authorized.
    + by constructor.
  - unfold gets, mbind, M_bind in H. destruct (task c) as [| | | |id n deadline []|id n deadline| | | | |] eqn:Ht; try done;
      (case_bool_decide; [|done]); to_local; rewrite Ht; by constructor.
  - destruct (task c) eqn:Ht; try done. injection H as <-. by eapply t_remove.
  - destruct (task c) eqn:Ht; try done. unfold pick_challenge, gets, mbind, M_bind in H.
    case_decide; [to_local; rewrite Ht; by constructor|].
    destruct (pending d !! choice) as [entry|]; [|done]. to_local. rewrite Ht. by constructor.
  - destruct (task c) as [| | | | | | | |id nonce ts key sig| |] eqn:Ht; try done.
    unfold commit in H. unfold gets, mbind at 1, M_bind at 1 in H.
    destruct (pending d !! id) as [entry|] eqn:Ep; [|to_local; rewrite Ht; constructor].
    destruct (_ && _) eqn:Em; [|to_local; rewrite Ht; constructor].
    apply andb_prop in Em as [[H1 H2]%andb_prop H3].
    apply bool_decide_eq_true in H1, H2. apply negb_true_iff in H3.
    injection H as <-. by eapply t_commit.
  - destruct (task c) eqn:Ht; try done. destruct ok; [injection H as <-; by eapply t_reply|].
    to_local. rewrite Ht. constructor.
  - destruct (task c) eqn:Ht; try done. to_local. rewrite Ht. constructor.
Qed.

Lemma daemon_step_transition d d' : daemon_step d d' → transition d d'.
Proof. intros [a Ha]. by eapply act_transition. Qed.
End Transitions.

(** ** The key list in the vault *)

Section Keys.
Context `{C : Crates} {CL : CratesLaws C}.

Lemma lines_from_app line part s :
  newline ∉ part → lines_from line (part ++ s) = lines_from (line ++ part) s.
Proof.
  induction part as [|c part IH] in line |- *; intros Hn; simpl; [by rewrite app_nil_r|].
  rewrite decide_False by set_solver. rewrite IH by set_solver. by rewrite <- app_assoc.
Qed.

(** A line of hexadecimal digits. *)
Definition hex_line (l : list byte) : Prop := l ≠ [] ∧ Forall (λ c, hex_digit c = true) l.

Lemma hex_line_newline l : hex_line l → newline ∉ l.
Proof. intros [_ H] Hin. rewrite Forall_forall in H. by specialize (H _ Hin). Qed.

Lemma hex_line_end l : hex_line l → match last l with Some Init.Byte.x0d => removelast l | _ => l end = l.
Proof.
  intros [_ H]. destruct (last l) as [c|] eqn:E; [|done].
  assert (c ∈ l) as Hin by by apply last_Some_elem_of. rewrite Forall_forall in H. specialize (H _ Hin).
  by destruct c.
Qed.

Lemma lines_join parts : Forall hex_line parts → lines (join parts) = parts.
Proof.
  unfold lines. induction parts as [|p parts IH]; intros H; [done|].
  apply Forall_cons in H as [Hp H]. pose proof (hex_line_newline p Hp) as Hn.
  destruct parts as [|q parts].
  - cbn [join]. rewrite <- (app_nil_r p) at 1. rewrite lines_from_app by done. cbn.
    rewrite decide_False; [done|apply Hp].
  - change (join (p :: q :: parts)) with (p ++ newline :: join (q :: parts)).
    rewrite lines_from_app by done. cbn [lines_from app]. rewrite decide_True by done.
    f_equal; [by apply hex_line_end|by apply IH].
Qed.

Lemma hex_encode_line key : length key = 32 → hex_line (hex_encode key).
Proof.
  intros Hk. split; [|apply hex_encode_digits]. intros E.
  pose proof (hex_encode_length key) as Hl. rewrite E, Hk in Hl. done.
Qed.

Lemma decode_key_encoded key : length key = 32 → decode_key (hex_encode key) = Some key.
Proof. intros Hk. unfold decode_key. rewrite hex_decode_encode. cbn. by rewrite Hk. Qed.

Lemma load_joined v keys :
  Forall (λ key, length key = 32) keys → get_password v = Some (join (hex_encode <$> keys)) →
  load_public_keys v = Some keys.
Proof.
  intros Hk Hv. assert (Forall hex_line (hex_encode <$> keys)) as Hl.
  { apply Forall_fmap. eapply Forall_impl; [exact Hk|]. apply hex_encode_line. }
  unfold load_public_keys. rewrite Hv, lines_join by done.
  assert (filter (λ line, line ≠ []) (hex_encode <$> keys) = hex_encode <$> keys) as ->.
  { apply filter_all. intros l Hin. rewrite Forall_forall in Hl. by destruct (Hl l Hin). }
  apply mapM_Some. rewrite Forall2_fmap_l. apply Forall_Forall2_diag.
  eapply Forall_impl; [exact Hk|]. apply decode_key_encoded.
Qed.

(** What [add_public_key] stores. *)
Definition with_key (keys : list (list byte)) (key : list byte) : list (list byte) :=
  if decide (key ∈ keys) then keys else keys ++ [key].

Lemma existsb_key (keys : list (list byte)) key :
  existsb (λ known, bool_decide (known = key)) keys = bool_decide (key ∈ keys).
Proof.
  apply eq_bool_prop_intro. rewrite existb_True, bool_decide_spec, Exists_exists. split.
  - by intros (k & Hk & ->%bool_decide_spec).
  - intros Hk. exists key. by rewrite bool_decide_spec.
Qed.

Lemma add_public_key_read_Some v key keys :
  load_public_keys v = Some keys → add_public_key_read v key = Some (join (hex_encode <$> with_key keys key)).
Proof.
  intros Hk. unfold add_public_key_read, with_key. rewrite Hk. cbn [mbind option_bind].
  rewrite existsb_key. by case_decide; [rewrite bool_decide_true|rewrite bool_decide_false].
Qed.

Lemma add_public_key_read_inv v key value :
  add_public_key_read v key = Some value →
  ∃ keys, load_public_keys v = Some keys ∧ value = join (hex_encode <$> with_key keys key).
Proof.
  intros H. destruct (load_public_keys v) as [keys|] eqn:E.
  - rewrite (add_public_key_read_Some _ _ _ E) in H. exists keys. split; congruence.
  - unfold add_public_key_read in H. by rewrite E in H.
Qed.

Lemma load_lengths v keys : load_public_keys v = Some keys → Forall (λ key, length key = 32) keys.
Proof.
  unfold load_public_keys. destruct (get_password v) as [value|]; [|intros [= <-]; constructor].
  intros H%mapM_Some. induction H as [|l key ls keys Hd _ IH]; constructor; [|done].
  unfold decode_key in Hd. apply bind_Some in Hd as (b & _ & Hd).
  destruct (Nat.eqb_spec (length b) 32); by simplify_eq.
Qed.

Lemma with_key_lengths keys key :
  Forall (λ key, length key = 32) keys → length key = 32 → Forall (λ key, length key = 32) (with_key keys key).
Proof. intros. unfold with_key. case_decide; [done|]. apply Forall_app. by repeat constructor. Qed.

Lemma elem_of_with_key keys key k : k ∈ with_key keys key ↔ k ∈ keys ∨ k = key.
Proof. unfold with_key. case_decide; set_solver. Qed.
End Keys.

(** ** The invariant *)

Section Invariant.
Context `{C : Crates} {CL : CratesLaws C}.
Implicit Types (d : Daemon) (h : list DaemonEvent).

Definition keys_of (v : Vault) : list (list byte) := default [] (load_public_keys v).

(** A key that was in the vault from the start or was stored by a [pair] request. *)
Definition source (v0 : Vault) h (key : list byte) : Prop := key ∈ keys_of v0 ∨ Stored key ∈ h.

(** Somebody proved the possession of a key for this challenge. *)
Definition approved h (id nonce : list byte) (ts : Z) : Prop := ∃ key signature, Verified id nonce ts key signature ∈ h.

Definition signed (key nonce : list byte) (ts : Z) (signature : list byte) : Prop :=
  ∃ now, verify_signature key nonce ts signature now = inr tt.

Definition event_ok v0 h (e : DaemonEvent) : Prop :=
  match e with
  | Verified id nonce ts key signature =>
      Issued id nonce ts ∈ h ∧ source v0 h key ∧ signed key nonce ts signature
  | Replied _ (Response_Authorized true) => ∃ id nonce ts, approved h id nonce ts
  | _ => True
  end.

Definition task_ok v0 h (t : Task) : Prop :=
  match t with
  | Storing key value =>
      length key = 32 ∧ ∃ keys, value = join (hex_encode <$> keys) ∧
        Forall (λ k, length k = 32 ∧ (k = key ∨ source v0 h k)) keys
  | Inserting _ entry => pa_authorized entry = false
  | Removing id true => ∃ nonce ts, approved h id nonce ts
  | VerifyLocking id nonce ts key signature => source v0 h key ∧ signed key nonce ts signature
  | Replying (Response_Authorized true) => ∃ id nonce ts, approved h id nonce ts
  | _ => True
  end.

Definition entry_ok h (id : RString) (e : PendingAuth) : Prop :=
  Issued id (pa_nonce e) (pa_timestamp e) ∈ h ∧
  (pa_authorized e = true → approved h id (pa_nonce e) (pa_timestamp e)).

Record daemon_ok (v0 : Vault) d : Prop := {
  dk_vault : ∀ key, key ∈ keys_of (vault d) → source v0 (history d) key;
  dk_pending : ∀ id e, pending d !! id = Some e → entry_ok (history d) id e;
  dk_tasks : ∀ conn c, connections d !! conn = Some c → task_ok v0 (history d) (task c);
  dk_events : ∀ e, e ∈ history d → event_ok v0 (history d) e;
}.

(** *** What holds of a history holds of a longer one *)

Lemma approved_mono h h' id nonce ts : h ⊆ h' → approved h id nonce ts → approved h' id nonce ts.
Proof. intros Hh (key & sig & H). exists key, sig. by apply Hh. Qed.

Lemma source_mono v0 h h' key : h ⊆ h' → source v0 h key → source v0 h' key.
Proof. intros Hh [H|H]; [by left|right; by apply Hh]. Qed.

Lemma event_ok_mono v0 h h' e : h ⊆ h' → event_ok v0 h e → event_ok v0 h' e.
Proof.
  intros Hh. destruct e as [|id nonce ts|id nonce ts key sig|conn [b|id nonce ts|[]|m]]; cbn [event_ok]; try done.
  - intros (? & ? & ?). eauto using source_mono.
  - intros (id & nonce & ts & H). eauto using approved_mono.
Qed.

Lemma task_ok_mono v0 h h' t : h ⊆ h' → task_ok v0 h t → task_ok v0 h' t.
Proof.
  intros Hh. destruct t as [|key value|id e|id n|id n dl b|id n dl|id [] | |id nonce ts key sig|[b|id nonce ts|[]|m]|];
    cbn [task_ok]; try done.
  - intros (Hk & keys & -> & Hf). split; [done|]. exists keys. split; [done|].
    eapply Forall_impl; [exact Hf|]. intros k [? [?|?]]; eauto using source_mono.
  - intros (nonce & ts & H). eauto using approved_mono.
  - intros [? ?]. eauto using source_mono.
  - intros (id & nonce & ts & H). eauto using approved_mono.
Qed.

Lemma entry_ok_mono h h' id e : h ⊆ h' → entry_ok h id e → entry_ok h' id e.
Proof. intros Hh [H1 H2]. split; [by apply Hh|]. eauto using approved_mono. Qed.

(** *** The pieces a transition is made of *)

Lemma happened_ok v0 e d : daemon_ok v0 d → event_ok v0 (history d ++ [e]) e → daemon_ok v0 (happened e d).
Proof.
  intros [H1 H2 H3 H4] He. assert (history d ⊆ history d ++ [e]) as Hh by set_solver.
  split; cbn [vault pending connections history happened]; eauto using source_mono, entry_ok_mono, task_ok_mono.
  intros e' [H| ->%list_elem_of_singleton]%elem_of_app; [eauto using event_ok_mono|done].
Qed.

Lemma moved_ok v0 conn t d : daemon_ok v0 d → task_ok v0 (history d) t → daemon_ok v0 (moved conn t d).
Proof.
  intros [H1 H2 H3 H4] Ht. split; try done. cbn [connections moved set_connections history].
  intros k c. destruct (decide (k = conn)) as [->|Hne].
  - rewrite lookup_alter_eq. by intros (c0 & _ & ->)%fmap_Some.
  - rewrite lookup_alter_ne by done. apply H3.
Qed.

Lemma set_pending_ok v0 f d :
  daemon_ok v0 d → (∀ id e, f (pending d) !! id = Some e → entry_ok (history d) id e) →
  daemon_ok v0 (set_pending f d).
Proof. intros [H1 H2 H3 H4] Hf. by split. Qed.

Lemma set_vault_ok v0 v d :
  daemon_ok v0 d → (∀ key, key ∈ keys_of v → source v0 (history d) key) → daemon_ok v0 (set_vault v d).
Proof. intros [H1 H2 H3 H4] Hv. by split. Qed.

Lemma notify_tasks_ok v0 n d : daemon_ok v0 d → daemon_ok v0 (set_connections (fmap (notify_task n)) d).
Proof.
  intros [H1 H2 H3 H4]. split; try done. cbn [connections set_connections history]. intros k c.
  rewrite lookup_fmap. intros (c0 & Hc & ->)%fmap_Some. specialize (H3 _ _ Hc).
  unfold notify_task. destruct (task c0) eqn:Et; try (by rewrite Et). by case_decide; [|rewrite Et].
Qed.

Lemma local_ok v0 d t t' : daemon_ok v0 d → task_ok v0 (history d) t → local d t t' → task_ok v0 (history d) t'.
Proof.
  intros Hok Ht Hl. destruct Hl as [r Hr _| |key value Hk Ha| |id nonce ts key sig keys now Hk Hin Hv| | | | |id n dl entry Hp Ha| | | |r Hr _| |];
    cbn [task_ok]; try done.
  - destruct r as [| |[]|]; try done. by destruct (Hr true).
  - split; [done|]. apply add_public_key_read_inv in Ha as (keys & Hkeys & ->). eexists. split; [done|].
    apply Forall_forall. intros k Hin. pose proof (with_key_lengths keys key (load_lengths _ _ Hkeys) Hk) as Hf.
    rewrite Forall_forall in Hf. split; [by apply Hf|]. apply elem_of_with_key in Hin as [Hin| ->]; [|by left].
    right. apply (dk_vault v0 d Hok). unfold keys_of. by rewrite Hkeys.
  - split; [|by exists now]. apply (dk_vault v0 d Hok). unfold keys_of. by rewrite Hk.
  - destruct (dk_pending v0 d Hok _ _ Hp) as [_ H]. eauto.
  - destruct r as [| |[]|]; try done. by destruct (Hr true).
Qed.

(** The three steps that change the vault or the pending map and leave a trace. *)
Lemma store_ok_step v0 d conn c key value v :
  daemon_ok v0 d → connections d !! conn = Some c → task c = Storing key value → set_password (vault d) value = Some v →
  daemon_ok v0 (happened (Stored key) (set_vault v d)).
Proof.
  intros Hok Hc Ht Hv. pose proof (dk_tasks v0 d Hok _ _ Hc) as Hk. rewrite Ht in Hk. destruct Hk as (_ & keys & -> & Hf).
  change (daemon_ok v0 (set_vault v (happened (Stored key) d))).
  apply set_vault_ok; [by apply happened_ok|]. cbn [history happened]. intros k Hin.
  unfold keys_of in Hin. rewrite (load_joined v keys) in Hin; cycle 1.
  { eapply Forall_impl; [exact Hf|]. by intros ? [? _]. }
  { by eapply get_set_password. }
  cbn in Hin. rewrite Forall_forall in Hf. destruct (Hf _ Hin) as [_ [->|Hs]]; [right; set_solver|].
  eapply source_mono; [|done]. set_solver.
Qed.

Lemma set_entry_ok v0 d id entry :
  daemon_ok v0 d → entry_ok (history d) id entry → daemon_ok v0 (set_pending <[id := entry]> d).
Proof.
  intros Hok He. apply set_pending_ok; [done|]. intros id' e'.
  intros [[<- <-]|[_ H]]%lookup_insert_Some; [done|]. by apply (dk_pending v0 _ Hok).
Qed.

Lemma insert_ok_step v0 d conn c id entry :
  daemon_ok v0 d → connections d !! conn = Some c → task c = Inserting id entry →
  daemon_ok v0 (happened (Issued id (pa_nonce entry) (pa_timestamp entry)) (set_pending <[id := entry]> d)).
Proof.
  intros Hok Hc Ht. pose proof (dk_tasks v0 d Hok _ _ Hc) as He. rewrite Ht in He. cbn [task_ok] in He.
  apply (set_entry_ok v0 (happened _ d)); [by apply happened_ok|]. split; [cbn; set_solver|congruence].
Qed.

Lemma commit_ok_step v0 d conn c id key sig entry :
  daemon_ok v0 d → connections d !! conn = Some c →
  task c = VerifyLocking id (pa_nonce entry) (pa_timestamp entry) key sig → pending d !! id = Some entry →
  let ev := Verified id (pa_nonce entry) (pa_timestamp entry) key sig in
  approved (history d ++ [ev]) id (pa_nonce entry) (pa_timestamp entry) ∧
  daemon_ok v0 (happened ev (set_connections (fmap (notify_task (pa_notify entry)))
    (set_pending <[id := mkPending (pa_nonce entry) (pa_timestamp entry) true (pa_notify entry)]> d))).
Proof.
  intros Hok Hc Ht Hp ev. pose proof (dk_tasks v0 d Hok _ _ Hc) as Hv. rewrite Ht in Hv. destruct Hv as [Hsource Hsigned].
  destruct (dk_pending v0 d Hok _ _ Hp) as [Hissued _].
  assert (approved (history d ++ [ev]) id (pa_nonce entry) (pa_timestamp entry)) as Happ
    by (exists key, sig; set_solver).
  split; [done|].
  change (daemon_ok v0 (set_connections (fmap (notify_task (pa_notify entry)))
    (set_pending <[id := mkPending (pa_nonce entry) (pa_timestamp entry) true (pa_notify entry)]> (happened ev d)))).
  apply notify_tasks_ok, set_entry_ok; [|split; cbn; [set_solver|done]].
  apply happened_ok; [done|]. cbn. split_and!; [set_solver|eapply source_mono; [|done]; set_solver|done].
Qed.

Lemma transition_ok v0 d d' : daemon_ok v0 d → transition d d' → daemon_ok v0 d'.
Proof.
  intros Hok Hs. destruct Hs as [conn opened Hc| |conn c t Hc Hl|conn c id nonce ts Hc Ht Hn|conn c key value v Hc Ht Hv
    |conn c id entry Hc Ht|conn c id b Hc Ht|conn c id nonce ts key sig entry Hc Ht Hp <- <- Ha|conn c r Hc Ht].
  - destruct Hok as [H1 H2 H3 H4]. split; try done. cbn [connections set_connections]. intros k c0.
    intros [[<- <-]|[_ H]]%lookup_insert_Some; [done|by eapply H3].
  - by destruct Hok.
  - apply moved_ok; [done|]. eapply local_ok; [done| |done]. by eapply dk_tasks.
  - apply moved_ok; [|done]. by destruct Hok.
  - apply moved_ok; [by eapply store_ok_step|done].
  - apply moved_ok; [by eapply insert_ok_step|done].
  - pose proof (dk_tasks v0 d Hok _ _ Hc) as Hr. rewrite Ht in Hr. apply moved_ok.
    + apply set_pending_ok; [done|]. intros id' e' [_ He]%lookup_delete_Some. by apply (dk_pending v0 d Hok).
    + destruct b; [|done]. destruct Hr as (nonce & ts & Hr). cbn. eauto.
  - destruct (commit_ok_step v0 d conn c id key sig entry) as [Happ H]; [done..|].
    apply moved_ok; [exact H|cbn; eauto].
  - pose proof (dk_tasks v0 d Hok _ _ Hc) as Hr. rewrite Ht in Hr. apply moved_ok; [|done].
    apply happened_ok; [done|]. destruct r as [| |[]|]; try done. cbn in Hr |- *.
    destruct Hr as (id & nonce & ts & Hr). exists id, nonce, ts. eapply approved_mono; [|done]. set_solver.
Qed.

Lemma new_state_ok v0 : daemon_ok v0 (new_state v0).
Proof.
  split; cbn; try (intros *; rewrite lookup_empty; done).
  - intros key H. by left.
  - intros e H. by apply not_elem_of_nil in H.
Qed.

Lemma reachable_daemon_ok v0 d : rtc daemon_step (new_state v0) d → daemon_ok v0 d.
Proof.
  intros H. pose proof (new_state_ok v0) as H0. revert H0.
  induction H; eauto using transition_ok, daemon_step_transition.
Qed.


(** What a successful verification says. *)
Lemma verify_signature_ok key nonce ts signature now :
  verify_signature key nonce ts signature now = inr tt ↔
  length nonce = NONCE_LEN ∧ (Z.abs (ts - now) <= 30)%Z ∧ length key = 32 ∧
  ∃ vk sig, VerifyingKey_from_bytes key = Some vk ∧ Signature_from_slice signature = Some sig ∧
    verifies vk (nonce ++ to_be_bytes ts) sig = true.
Proof.
  unfold verify_signature, is_fresh, FRESHNESS_WINDOW_SECONDS.
  destruct (Nat.eqb_spec (length nonce) NONCE_LEN); cbn [negb orb]; [|naive_solver].
  case_bool_decide; cbn [negb]; [|naive_solver].
  destruct (Nat.eqb_spec (length key) 32); cbn [negb]; [|naive_solver].
  destruct (VerifyingKey_from_bytes key) as [vk|]; [|naive_solver].
  destruct (Signature_from_slice signature) as [sg|]; [|naive_solver].
  destruct (verifies vk _ sg) eqn:E; split; [eauto 10|done|done|].
  intros (_ & _ & _ & vk' & sg' & E1 & E2 & E3). congruence.
Qed.

(** ** Every challenge is approved at most once *)

Definition issued_ids (h : list DaemonEvent) : list RString :=
  omap (λ e, match e with Issued id _ _ => Some id | _ => None end) h.
Definition verified_ids (h : list DaemonEvent) : list RString :=
  omap (λ e, match e with Verified id _ _ _ _ => Some id | _ => None end) h.

Lemma issued_ids_app h1 h2 : issued_ids (h1 ++ h2) = issued_ids h1 ++ issued_ids h2.
Proof. apply omap_app. Qed.
Lemma verified_ids_app h1 h2 : verified_ids (h1 ++ h2) = verified_ids h1 ++ verified_ids h2.
Proof. apply omap_app. Qed.

Definition once_ok d : Prop :=
  NoDup (issued_ids (history d)) →
  NoDup (verified_ids (history d)) ∧ verified_ids (history d) ⊆ issued_ids (history d) ∧
  (∀ id e, pending d !! id = Some e → id ∈ issued_ids (history d) ∧
     (pa_authorized e = false → id ∉ verified_ids (history d))).

(** An event that neither issues nor verifies. *)
Lemma once_ok_other d d' h :
  history d' = history d ++ h → issued_ids h = [] → verified_ids h = [] →
  (∀ id e, pending d' !! id = Some e → pending d !! id = Some e) → once_ok d → once_ok d'.
Proof.
  unfold once_ok. intros -> Hi Hv Hp Ho. rewrite issued_ids_app, verified_ids_app, Hi, Hv, !app_nil_r.
  intros Hn. destruct (Ho Hn) as (H1 & H2 & H3). eauto.
Qed.

Lemma transition_once d d' : transition d d' → once_ok d → once_ok d'.
Proof.
  intros Hs Ho. destruct Hs as [conn opened Hc| |conn c t Hc Hl|conn c id nonce ts Hc Ht Hn|conn c key value v Hc Ht Hv
    |conn c id entry Hc Ht|conn c id b Hc Ht|conn c id nonce ts key sig entry Hc Ht Hp Hnn Hts Ha|conn c r Hc Ht].
  1,2,3,4: apply (once_ok_other d _ []); try done; by rewrite app_nil_r.
  - by apply (once_ok_other d _ [Stored key]).
  - unfold once_ok. cbn [history pending moved set_connections happened set_pending].
    rewrite issued_ids_app, verified_ids_app. cbn [issued_ids verified_ids omap list_omap]. rewrite app_nil_r.
    intros Hnd. apply NoDup_app in Hnd as (Hnd & Hnew & _). destruct (Ho Hnd) as (H1 & H2 & H3).
    split_and!; [done|set_solver|]. intros i e. destruct (decide (i = id)) as [->|Hne].
    + rewrite lookup_insert_eq. intros [= <-]. split; [set_solver|]. intros _ Hin%H2. set_solver.
    + rewrite lookup_insert_ne by done. intros [Hin Hnot]%H3. split; [set_solver|done].
  - apply (once_ok_other d _ []); try done; [by rewrite app_nil_r|].
    intros i e H. cbn in H. by apply lookup_delete_Some in H as [_ H].
  - unfold once_ok. cbn [history pending moved set_connections happened set_pending].
    rewrite issued_ids_app, verified_ids_app. cbn [issued_ids verified_ids omap list_omap]. rewrite app_nil_r.
    intros Hnd. destruct (Ho Hnd) as (H1 & H2 & H3). destruct (H3 _ _ Hp) as [Hin Hnot]. specialize (Hnot Ha).
    split_and!; [|set_solver|].
    + apply NoDup_app. split_and!; [done|set_solver|apply NoDup_singleton].
    + intros i e. destruct (decide (i = id)) as [->|Hne].
      * rewrite lookup_insert_eq. by intros [= <-].
      * rewrite lookup_insert_ne by done. intros [Hi Hno]%H3. split; [done|]. set_solver.
  - by apply (once_ok_other d _ [Replied conn r]).
Qed.

(** C22: A challenge is approved at most once: as long as no two challenges were given the same
    random identifier, no schedule makes the daemon verify two signatures for one challenge,
    and it verifies signatures only for challenges it issued. *)
Theorem challenge_approved_once v0 d :
  rtc daemon_step (new_state v0) d → NoDup (issued_ids (history d)) →
  NoDup (verified_ids (history d)) ∧ verified_ids (history d) ⊆ issued_ids (history d).
Proof.
  intros H. assert (once_ok (new_state v0)) as H0.
  { intros _. split_and!; [constructor|done|]. intros id e He. cbn in He. by rewrite lookup_empty in He. }
  assert (once_ok d) as Ho.
  { revert H0. induction H; eauto using transition_once, daemon_step_transition. }
  intros Hnd. destruct (Ho Hnd) as (H1 & H2 & _). done.
Qed.
End Invariant.
