(* ===== verification/DaemonRuns.v ===== *)
(** * The unlock daemon: schedules

    What happens along particular schedules of the daemon's tasks: every
    request for authorization can be answered by the deadline; a notification
    that comes before the waiter waits is lost; two clients that pair at the
    same time overwrite each other's key; and a client that nobody paired logs
    itself in.  The [_run] lemmas evaluate one action; [settle] evaluates the
    map of connections after it. *)
From stdpp Require Import base gmap sets list strings relations.
From Stdlib Require Import ZArith Lia.
From S2P Require Import Prelude Daemon DaemonTheorems.

Section Runs.
Context `{C : Crates}.
Implicit Types (d : Daemon).

(** The task of a connection. *)
Definition at_task d (conn : nat) (t : Task) : Prop := task <$> connections d !! conn = Some t.

Lemma at_task_current {B} conn t d (f : Connection → M Daemon B) :
  at_task d conn t → ∃ c, task c = t ∧ connections d !! conn = Some c ∧ (current conn ≫= f) d = f c d.
Proof.
  unfold at_task, current, mbind, M_bind. intros (c & Hc & ->)%fmap_Some. exists c. by rewrite Hc.
Qed.

Lemma at_moved conn t t' d : at_task d conn t → at_task (moved conn t' d) conn t'.
Proof. unfold at_task. intros (c & Hc & _)%fmap_Some. cbn. by rewrite lookup_alter_eq, Hc. Qed.

Lemma at_moved_ne conn k t t' d : k ≠ conn → at_task d k t → at_task (moved conn t' d) k t.
Proof. unfold at_task. intros Hne. cbn. by rewrite lookup_alter_ne. Qed.

Lemma at_notified k t n d :
  at_task d k t → at_task (set_connections (fmap (notify_task n)) d) k
    (match t with Waiting id m dl _ => if decide (m = n) then Waiting id m dl true else t | _ => t end).
Proof.
  unfold at_task. intros (c & Hc & ->)%fmap_Some. cbn. rewrite lookup_fmap, Hc. cbn.
  unfold notify_task. destruct (task c) eqn:E; rewrite ?E; try done. case_decide; cbn; by rewrite ?E.
Qed.

(** *** One action *)

Ltac start_action :=
  let c := fresh "c" in let Hc := fresh "Hc" in let E := fresh "E" in let Ht := fresh "Ht" in
  intros Ht; cbn [act];
  match goal with |- context [(current ?conn ≫= ?f) ?d] =>
    destruct (at_task_current conn _ d f Ht) as (c & E & Hc & ->); cbn beta; rewrite E end.

Lemma setPassword_run conn key value v d :
  at_task d conn (Storing key value) → set_password (vault d) value = Some v →
  act (SetPassword conn) d =
    Some (tt, moved conn (Replying (Response_Paired true)) (happened (Stored key) (set_vault v d))).
Proof. start_action. unfold gets, mbind at 1, M_bind at 1. by intros ->. Qed.

Lemma insert_run conn id entry d :
  at_task d conn (Inserting id entry) →
  act (Insert conn) d = Some (tt, moved conn (Entering id (pa_notify entry))
    (happened (Issued id (pa_nonce entry) (pa_timestamp entry)) (set_pending <[id := entry]> d))).
Proof. by start_action. Qed.

Lemma enter_run conn id n d :
  at_task d conn (Entering id n) →
  act (Enter conn) d = Some (tt, moved conn (Waiting id n (uptime d + 30) false) d).
Proof. by start_action. Qed.

Lemma wake_run conn id n deadline d :
  at_task d conn (Waiting id n deadline true) →
  act (Wake conn) d = Some (tt, moved conn (Checking id n deadline) d).
Proof. by start_action. Qed.

Lemma check_run conn id n deadline d :
  at_task d conn (Checking id n deadline) →
  act (Check_ conn) d = Some (tt, moved conn
    (if from_option pa_authorized false (pending d !! id) then Removing id true
     else Waiting id n deadline false) d).
Proof. start_action. unfold gets, mbind, M_bind. by destruct (from_option _ _ _). Qed.

Lemma expire_run conn id n deadline b d :
  at_task d conn (if b : bool then Checking id n deadline else Waiting id n deadline false) →
  (deadline <= uptime d)%Z → act (Expire conn) d = Some (tt, moved conn (Removing id false) d).
Proof.
  start_action. intros Hd. unfold gets, mbind, M_bind. destruct b; by rewrite bool_decide_true.
Qed.

Lemma remove_run conn id b d :
  at_task d conn (Removing id b) →
  act (Remove conn) d =
    Some (tt, moved conn (Replying (Response_Authorized b)) (set_pending (delete id) d)).
Proof. by start_action. Qed.

Lemma commit_run conn id nonce ts key signature entry d :
  at_task d conn (VerifyLocking id nonce ts key signature) →
  pending d !! id = Some entry → pa_nonce entry = nonce → pa_timestamp entry = ts →
  pa_authorized entry = false →
  act (Commit conn) d = Some (tt, moved conn (Replying (Response_Authorized true))
    (happened (Verified id nonce ts key signature)
      (set_connections (fmap (notify_task (pa_notify entry)))
        (set_pending <[id := mkPending nonce ts true (pa_notify entry)]> d)))).
Proof.
  start_action. intros Hp Hn Hts Ha. unfold commit, gets, mbind at 1, M_bind at 1. rewrite Hp, Ha.
  by rewrite !bool_decide_true.
Qed.

Lemma write_run conn response d :
  at_task d conn (Replying response) →
  act (WriteReply conn true) d = Some (tt, moved conn Reading (happened (Replied conn response) d)).
Proof. by start_action. Qed.

Lemma tick_run d : act Tick d = Some (tt, set_uptime (uptime d + 1) d).
Proof. done. Qed.

(** [receive]: no random numbers are drawn. *)
Lemma receive_run conn line r1 r2 now d :
  at_task d conn Reading → nonce_ok r1 = true → nonce_ok r2 = true →
  act (Receive conn line r1 r2 now) d = handle_line conn line r1 r2 now d.
Proof. start_action. intros H1 H2. by rewrite H1, H2. Qed.

Lemma run_cons a actions d d1 : act a d = Some (tt, d1) → run_actions (a :: actions) d = run_actions actions d1.
Proof. intros H. cbn [run_actions]. by rewrite (bind_run _ _ _ _ _ H). Qed.

Lemma run_app actions1 actions2 d d1 :
  run_actions actions1 d = Some (tt, d1) → run_actions (actions1 ++ actions2) d = run_actions actions2 d1.
Proof.
  induction actions1 as [|a actions1 IH] in d |- *; intros H.
  - cbn [run_actions] in H. unfold mret, M_ret in H. by simplify_eq.
  - change ((a :: actions1) ++ actions2) with (a :: (actions1 ++ actions2)). cbn [run_actions] in H |- *.
    apply M_bind_Some in H as ([] & d2 & H1 & H2). rewrite (bind_run _ _ _ _ _ H1). by apply IH.
Qed.

Lemma run_steps actions d d' : run_actions actions d = Some (tt, d') → rtc daemon_step d d'.
Proof.
  induction actions as [|a actions IH] in d |- *; cbn [run_actions]; intros H.
  - unfold mret, M_ret in H. simplify_eq. apply rtc_refl.
  - apply M_bind_Some in H as ([] & d1 & H1 & H2). eapply rtc_l; [by exists a|by apply IH].
Qed.

(** ** Every request for authorization is answered *)

(** The task has received [authorize] for the challenge [id]. *)
Inductive authorizing (id : RString) : Task → Prop :=
  | a_inserting entry : authorizing id (Inserting id entry)
  | a_entering n : authorizing id (Entering id n)
  | a_waiting n deadline b : authorizing id (Waiting id n deadline b)
  | a_checking n deadline : authorizing id (Checking id n deadline)
  | a_removing b : authorizing id (Removing id b).

Definition later (z : Z) d : Daemon := set_uptime z d.

Lemma ticks_run (n : nat) d : run_actions (replicate n Tick) d = Some (tt, later (uptime d + Z.of_nat n) d).
Proof.
  induction n as [|n IH] in d |- *.
  - cbn. unfold mret, M_ret, later, set_uptime. rewrite Z.add_0_r. by destruct d.
  - cbn [replicate]. rewrite (run_cons _ _ _ _ (tick_run d)), IH. do 2 f_equal. unfold later, set_uptime. cbn.
    f_equal. lia.
Qed.

(** Actions of one connection, and the clock. *)
Definition own (conn : nat) (a : Action) : bool :=
  match a with
  | Insert k | Enter k | Wake k | Check_ k | Expire k | Remove k | WriteReply k _ => bool_decide (k = conn)
  | Tick => true
  | _ => false
  end.

(** [conn] can be answered with own actions by the time [deadline]: from here on the connection
    sends one response, the decision, and reads again. *)
Definition answerable (conn : nat) (deadline : Z) d : Prop :=
  ∃ actions d' evs b, run_actions actions d = Some (tt, d') ∧ Forall (λ a, own conn a = true) actions ∧
    history d' = history d ++ evs ++ [Replied conn (Response_Authorized b)] ∧
    Forall (λ e, ∀ k r, e ≠ Replied k r) evs ∧ at_task d' conn Reading ∧
    (uptime d' <= Z.max (uptime d) deadline)%Z.

(** One action of its own that is not the response. *)
Lemma answerable_step conn deadline a evs d d' :
  act a d = Some (tt, d') → own conn a = true → uptime d' = uptime d → history d' = history d ++ evs →
  Forall (λ e, ∀ k r, e ≠ Replied k r) evs → answerable conn deadline d' → answerable conn deadline d.
Proof.
  intros Ha Ho Hu Hh He (actions & d2 & evs2 & b & Hrun & Hf & Hr & He2 & Hat & Ht). exists (a :: actions), d2, (evs ++ evs2), b.
  rewrite (run_cons _ _ _ _ Ha). rewrite Hu in Ht. split_and!; try done; [by constructor| |by apply Forall_app].
  by rewrite Hr, Hh, <- !app_assoc.
Qed.

Lemma answerable_quiet conn deadline a d d' :
  act a d = Some (tt, d') → own conn a = true → uptime d' = uptime d → history d' = history d →
  answerable conn deadline d' → answerable conn deadline d.
Proof. intros Ha Ho Hu Hh. eapply (answerable_step _ _ _ []); [done..|by rewrite app_nil_r|by constructor]. Qed.

(** From the removal on, two more actions of the task answer. *)
Lemma removing_answers conn id b deadline d : at_task d conn (Removing id b) → answerable conn deadline d.
Proof.
  intros H. eapply answerable_quiet; [by apply remove_run|cbn; by rewrite bool_decide_true|done|done|].
  pose proof (at_moved conn (Removing id b) (Replying (Response_Authorized b)) (set_pending (delete id) d) H) as Hr.
  eexists [WriteReply conn true], _, [], b. split_and!.
  - rewrite (run_cons _ _ _ _ (write_run _ _ _ Hr)). done.
  - repeat constructor. cbn. by rewrite bool_decide_true.
  - done.
  - by constructor.
  - by eapply (at_moved conn (Replying (Response_Authorized b)) Reading (happened _ _)).
  - cbn. lia.
Qed.

Lemma expiring_answers conn id n deadline b d :
  at_task d conn (if b : bool then Checking id n deadline else Waiting id n deadline false) →
  answerable conn deadline d.
Proof.
  intros H. set (k := Z.to_nat (deadline - uptime d)). set (d1 := later (uptime d + Z.of_nat k) d).
  assert (deadline <= uptime d1)%Z as Hd by (cbn; lia).
  assert (answerable conn deadline d1) as (actions & d' & evs & r & Hrun & Hf & Hr & He & Hat & Ht).
  { eapply answerable_quiet; [eapply expire_run; [exact H|done]|cbn; by rewrite bool_decide_true|done|done|].
    eapply removing_answers, at_moved. exact H. }
  exists (replicate k Tick ++ actions), d', evs, r. rewrite (run_app _ _ _ _ (ticks_run k d)). split_and!; try done.
  - apply Forall_app. split; [by apply Forall_replicate|done].
  - cbn in Ht. lia.
Qed.

Lemma authorizing_answers conn id t d :
  at_task d conn t → authorizing id t →
  answerable conn (match t with Waiting _ _ dl _ | Checking _ _ dl => dl | _ => uptime d + 30 end) d.
Proof.
  assert (bool_decide (conn = conn) = true) as Ho by by apply bool_decide_true.
  assert (∀ n d, at_task d conn (Entering id n) → answerable conn (uptime d + 30) d) as Hentering.
  { intros n d1 H. eapply answerable_quiet; [by apply enter_run|done|done|done|].
    apply (expiring_answers conn id n (uptime d1 + 30) false). by eapply at_moved. }
  assert (∀ n dl d, at_task d conn (Checking id n dl) → answerable conn dl d) as Hchecking.
  { intros n dl d1 H. by apply (expiring_answers conn id n dl true). }
  intros Hat Ha. destruct Ha as [entry|n|n dl []|n dl|b].
  - eapply answerable_step; [by apply insert_run|done|done|done|by repeat constructor|].
    match goal with |- answerable _ _ ?x => apply (Hentering (pa_notify entry) x) end.
    refine (at_moved conn (Inserting id entry) _ _ _). exact Hat.
  - by eapply Hentering.
  - eapply answerable_quiet; [by apply wake_run|done|done|done|]. eapply Hchecking. by eapply at_moved.
  - by apply (expiring_answers conn id n dl false).
  - by eapply Hchecking.
  - by eapply removing_answers.
Qed.

(** *** Where a task can come from *)

Inductive move (d : Daemon) : Task → Task → Prop :=
  | m_stay t : move d t t
  | m_notified id n dl b : move d (Waiting id n dl b) (Waiting id n dl true)
  | m_local t t' : local d t t' → move d t t'
  | m_issue id nonce ts : move d Reading (Inserting id (mkPending nonce ts false (notifies d)))
  | m_store key value : move d (Storing key value) (Replying (Response_Paired true))
  | m_insert id entry : move d (Inserting id entry) (Entering id (pa_notify entry))
  | m_remove id b : move d (Removing id b) (Replying (Response_Authorized b))
  | m_commit id nonce ts key signature :
      move d (VerifyLocking id nonce ts key signature) (Replying (Response_Authorized true))
  | m_reply response : move d (Replying response) Reading.

Lemma at_moved_inv d conn k t t' :
  at_task (moved conn t d) k t' → (k = conn ∧ t' = t ∧ ∃ t0, at_task d k t0) ∨ (k ≠ conn ∧ at_task d k t').
Proof.
  unfold at_task. cbn. destruct (decide (k = conn)) as [->|Hne].
  - rewrite lookup_alter_eq. destruct (connections d !! conn); [|done]. intros [= <-]. left. split_and!; eauto.
  - rewrite lookup_alter_ne by done. by right.
Qed.

Lemma at_notified_inv d n k t' :
  at_task (set_connections (fmap (notify_task n)) d) k t' →
  at_task d k t' ∨ ∃ id dl b, at_task d k (Waiting id n dl b) ∧ t' = Waiting id n dl true.
Proof.
  unfold at_task. cbn. rewrite lookup_fmap. intros (c' & (c & Hc & ->)%fmap_Some & ->)%fmap_Some.
  rewrite Hc. cbn. unfold notify_task. destruct (task c) as [| | | |id m dl b| | | | | |] eqn:E; try (left; by rewrite E).
  case_decide as Hm; [subst; right; by exists id, dl, b|left; by rewrite E].
Qed.

Lemma transition_task d d' conn t' :
  transition d d' → at_task d' conn t' →
  (connections d !! conn = None ∧ t' = Reading) ∨ ∃ t, at_task d conn t ∧ move d t t'.
Proof.
  assert (∀ k c t, connections d !! k = Some c → task c = t → at_task d k t) as Hat.
  { intros k c t Hc <-. unfold at_task. by rewrite Hc. }
  intros Hs H. destruct Hs as [k opened Hk| |k c t Hc Hl|k c id nonce ts Hc Ht Hn|k c key value v Hc Ht Hv
    |k c id entry Hc Ht|k c id b Hc Ht|k c id nonce ts key sig entry Hc Ht Hp Hn Hts Ha|k c r Hc Ht].
  1: { unfold at_task in H. cbn in H. destruct (decide (conn = k)) as [->|Hne].
       - rewrite lookup_insert_eq in H. injection H as <-. by left.
       - rewrite lookup_insert_ne in H by done. right. exists t'. split; [done|constructor]. }
  1: { right. exists t'. split; [done|constructor]. }
  all: right; apply at_moved_inv in H as [(-> & -> & _)|(_ & H)]; try (exists t'; split; [done|by constructor]).
  - exists (task c). split; [by eapply Hat|by apply m_local].
  - exists Reading. split; [by eapply Hat|apply m_issue].
  - exists (Storing key value). split; [by eapply Hat|apply m_store].
  - exists (Inserting id entry). split; [by eapply Hat|apply m_insert].
  - exists (Removing id b). split; [by eapply Hat|apply m_remove].
  - exists (VerifyLocking id nonce ts key sig). split; [by eapply Hat|apply m_commit].
  - destruct (at_notified_inv d (pa_notify entry) conn t' H) as [Hsame|(i & dl & b & Hw & ->)].
    + exists t'. split; [done|constructor].
    + eexists. split; [exact Hw|constructor].
  - exists (Replying r). split; [by eapply Hat|apply m_reply].
Qed.

(** The deadlines of the tasks lie at most 30 seconds ahead. *)
Definition deadline_ok d (t : Task) : Prop :=
  match t with Waiting _ _ dl _ | Checking _ _ dl => (dl <= uptime d + 30)%Z | _ => True end.

Lemma transition_uptime d d' : transition d d' → (uptime d <= uptime d')%Z.
Proof. intros []; cbn; lia. Qed.

Lemma move_deadline d t t' : deadline_ok d t → move d t t' → deadline_ok d t'.
Proof.
  intros Hd Hm. destruct Hm as [t|id n dl b|t t' Hl| | | | | |]; cbn in *; try done.
  destruct Hl; cbn in *; try done; lia.
Qed.

Lemma deadlines_reachable v0 d conn t : rtc daemon_step (new_state v0) d → at_task d conn t → deadline_ok d t.
Proof.
  intros H. revert conn t.
  assert (∀ conn t, at_task (new_state v0) conn t → deadline_ok (new_state v0) t) as H0 by done.
  revert H0. induction H as [|d0 d1 d2 Hs _ IH]; [done|]. intros H0. apply IH. intros conn t Hat.
  apply daemon_step_transition in Hs. pose proof (transition_uptime _ _ Hs) as Hu.
  assert (∀ t, deadline_ok d0 t → deadline_ok d1 t) as Hmono
    by (intros t0; destruct t0; cbn; try done; lia).
  destruct (transition_task _ _ _ _ Hs Hat) as [[_ ->]|(t0 & Ht0 & Hm)]; [done|].
  eapply Hmono, move_deadline; [by eapply H0|done].
Qed.

(** C24: Whoever asks for an authorization can be answered within 30 seconds, whatever the other
    connections do: from every reachable state in which a connection waits for its
    authorization, actions of that connection alone and at most 30 seconds lead to the decision,
    as the next response of the connection, and back to reading its next line. *)
Theorem authorize_answered v0 d conn id t :
  rtc daemon_step (new_state v0) d → at_task d conn t → authorizing id t → answerable conn (uptime d + 30) d.
Proof.
  intros Hreach Hat Ha. pose proof (deadlines_reachable _ _ _ _ Hreach Hat) as Hd.
  destruct (authorizing_answers conn id t d Hat Ha) as (actions & d' & evs & b & Hrun & Hf & Hr & He & Hre & Ht).
  exists actions, d', evs, b. split_and!; try done. destruct t; cbn in Hd, Ht; lia.
Qed.

(** ** The lost notification *)

(** Every [Notify] belongs to one entry: to the one a task is about to insert, or to one in
    the map. *)
Definition owns d (o : nat + RString) (n : nat) : Prop :=
  match o with
  | inl conn => ∃ id e, at_task d conn (Inserting id e) ∧ pa_notify e = n
  | inr id => ∃ e, pending d !! id = Some e ∧ pa_notify e = n
  end.

Definition notify_ok d : Prop :=
  (∀ o n, owns d o n → n < notifies d) ∧ (∀ o1 o2 n, owns d o1 n → owns d o2 n → o1 = o2).

Lemma notify_ok_shrink d d' :
  (∀ o n, owns d' o n → owns d o n) → notifies d ≤ notifies d' → notify_ok d → notify_ok d'.
Proof.
  intros Hown Hn [H1 H2]. split; [intros o n H; specialize (H1 o n (Hown o n H)); lia|].
  intros o1 o2 n Ho1 Ho2. by apply (H2 o1 o2 n); apply Hown.
Qed.

Lemma at_task_lookup d conn c t : connections d !! conn = Some c → task c = t → at_task d conn t.
Proof. intros Hc <-. unfold at_task. by rewrite Hc. Qed.

Lemma at_task_unique d conn t t' : at_task d conn t → at_task d conn t' → t = t'.
Proof. unfold at_task. congruence. Qed.

(** A task that moves to something else than [Inserting] owns no [Notify] afterwards. *)
Lemma moved_owns conn t d o n :
  (∀ id e, t ≠ Inserting id e) → owns (moved conn t d) o n → owns d o n ∧ o ≠ inl conn.
Proof.
  intros Ht. destruct o as [k|id]; [|by intros H].
  intros (id & e & [(-> & E & _)|[Hne Hat]]%at_moved_inv & He); [by destruct (Ht id e)|].
  split; [by exists id, e|congruence].
Qed.

Lemma notified_owns m d o n : owns (set_connections (fmap (notify_task m)) d) o n → owns d o n.
Proof.
  destruct o as [k|id]; [|done]. intros (id & e & [Hat|(i & dl & b & _ & [=])]%at_notified_inv & He).
  by exists id, e.
Qed.

Lemma local_not_inserting d t t' id e : local d t t' → t' ≠ Inserting id e.
Proof. by intros []. Qed.

(** The challenge that a task makes gets a [Notify] of its own. *)
Lemma issue_notify d k id nonce ts :
  notify_ok d →
  notify_ok (moved k (Inserting id (mkPending nonce ts false (notifies d))) (set_notifies (S (notifies d)) d)).
Proof.
  intros Hok. destruct Hok as [H1 H2]. set (d1 := set_notifies (S (notifies d)) d).
  set (t := Inserting id (mkPending nonce ts false (notifies d))).
  assert (∀ o n, owns (moved k t d1) o n → (owns d o n ∧ n < notifies d) ∨ (o = inl k ∧ n = notifies d)) as Hown.
  { intros [conn|i] n Ho; [|left; split; [exact Ho|exact (H1 (inr i) n Ho)]].
    destruct Ho as (i & e & [(-> & E & _)|[Hne Hat]]%at_moved_inv & He).
    - injection E as -> ->. right. split; [done|by rewrite <- He].
    - left. assert (owns d (inl conn) n) as Ho by by exists i, e. split; [exact Ho|by eapply H1]. }
  split.
  + intros o n [[_ Hlt]|[-> ->]]%Hown; cbn; lia.
  + intros o1 o2 n [[Ho1 ?]|[-> ?]]%Hown [[Ho2 ?]|[-> ?]]%Hown; [by eapply H2|lia|lia|done].
Qed.

(** It goes from the task to the entry in the map. *)
Lemma insert_notify d k c id entry :
  connections d !! k = Some c → task c = Inserting id entry → notify_ok d →
  notify_ok (moved k (Entering id (pa_notify entry))
    (happened (Issued id (pa_nonce entry) (pa_timestamp entry)) (set_pending <[id := entry]> d))).
Proof.
  intros Hc Ht Hok. destruct Hok as [H1 H2]. pose proof (at_task_lookup _ _ _ _ Hc Ht) as Hat.
  assert (owns d (inl k) (pa_notify entry)) as Hk by by exists id, entry.
  set (d' := moved k _ _).
  assert (∀ o n, owns d' o n →
    (owns d o n ∧ o ≠ inl k ∧ o ≠ inr id) ∨ (o = inr id ∧ n = pa_notify entry)) as Hown.
  { intros [conn|i] n Ho.
    - left. destruct Ho as (i & e & [(-> & E & _)|[Hne Ht']]%at_moved_inv & He); [done|].
      split_and!; [by exists i, e|congruence|done].
    - destruct Ho as (e & Hp & He). cbn in Hp. destruct (decide (i = id)) as [->|Hne].
      + rewrite lookup_insert_eq in Hp. injection Hp as <-. by right.
      + rewrite lookup_insert_ne in Hp by done. left. split_and!; [by exists e|done|congruence]. }
  split.
  + intros o n [[Ho _]|[-> ->]]%Hown; [by eapply H1|]. by apply (H1 (inl k)).
  + intros o1 o2 n [(Ho1 & Hk1 & ?)|[-> ?]]%Hown [(Ho2 & Hk2 & ?)|[-> ?]]%Hown; [by eapply H2| | |done].
    * subst n. by destruct (Hk1 (H2 _ _ _ Ho1 Hk)).
    * subst n. by destruct (Hk2 (H2 _ _ _ Ho2 Hk)).
Qed.

Lemma transition_notify d d' : transition d d' → notify_ok d → notify_ok d'.
Proof.
  intros Hs Hok. destruct Hs as [k opened Hk| |k c t Hc Hl|k c id nonce ts Hc Ht Hn|k c key value v Hc Ht Hv
    |k c id entry Hc Ht|k c id b Hc Ht|k c id nonce ts key sig entry Hc Ht Hp Hn Hts Ha|k c r Hc Ht].
  - apply (notify_ok_shrink d); [|done|done]. intros [conn|id] n; [|done]. intros (id & e & Hat & He).
    exists id, e. split; [|done]. unfold at_task in Hat |- *. cbn in Hat.
    destruct (decide (conn = k)) as [->|Hne]; [by rewrite lookup_insert_eq in Hat|].
    by rewrite lookup_insert_ne in Hat.
  - by apply (notify_ok_shrink d).
  - apply (notify_ok_shrink d); [|done|done]. intros o n Ho. eapply moved_owns in Ho as [Ho _]; [done|].
    intros. by eapply local_not_inserting.
  - by apply issue_notify.
  - apply (notify_ok_shrink d); [|done|done]. intros o n Ho.
    apply moved_owns in Ho as [Ho _]; [destruct o; exact Ho|done].
  - by eapply insert_notify.
  - apply (notify_ok_shrink d); [|done|done]. intros o n Ho.
    apply moved_owns in Ho as [Ho _]; [|done]. destruct o as [conn|i]; [exact Ho|]. destruct Ho as (e & He & Hn). cbn in He.
    apply lookup_delete_Some in He as [_ He]. by exists e.
  - apply (notify_ok_shrink d); [|done|done]. intros o n Ho.
    apply moved_owns in Ho as [Ho _]; [|done].
    assert (owns (set_pending <[id := mkPending nonce ts true (pa_notify entry)]> d) o n) as Ho'
      by (apply (notified_owns (pa_notify entry)); destruct o; exact Ho).
    destruct o as [conn|i]; [exact Ho'|]. destruct Ho' as (e & He & Hen). cbn in He.
    destruct (decide (i = id)) as [->|Hne].
    + rewrite lookup_insert_eq in He. injection He as <-. by exists entry.
    + rewrite lookup_insert_ne in He by done. by exists e.
  - apply (notify_ok_shrink d); [|done|done]. intros o n Ho.
    apply moved_owns in Ho as [Ho _]; [destruct o; exact Ho|done].
Qed.

Lemma notify_reachable v0 d : rtc daemon_step (new_state v0) d → notify_ok d.
Proof.
  intros H. assert (notify_ok (new_state v0)) as H0.
  { assert (∀ o n, ¬ owns (new_state v0) o n) as Hno.
    { intros [conn|id] n; [by intros (id & e & Hat & _)|]. intros (e & He & _). cbn in He.
      by rewrite lookup_empty in He. }
    split; intros *; [by intros ?%Hno|by intros ?%Hno]. }
  revert H0. induction H; eauto using transition_notify, daemon_step_transition.
Qed.

(** The notification of [n] is spent: nobody will notify it again. *)
Definition spent (n : nat) d : Prop :=
  n < notifies d ∧ (∀ conn, ¬ owns d (inl conn) n) ∧
  (∀ id e, pending d !! id = Some e → pa_notify e = n → pa_authorized e = true).

(** The ways of a task that missed its notification. *)
Inductive doomed (id : RString) (n : nat) : Task → Prop :=
  | dm_entering : doomed id n (Entering id n)
  | dm_waiting dl : doomed id n (Waiting id n dl false)
  | dm_removing : doomed id n (Removing id false)
  | dm_replying : doomed id n (Replying (Response_Authorized false))
  | dm_closed : doomed id n Closed.

Lemma transition_spent n d d' : transition d d' → spent n d → spent n d'.
Proof.
  intros Hs (Hn & Hown & Hp).
  assert (∀ t k d1, (∀ id e, t = Inserting id e → pa_notify e ≠ n) →
    (∀ conn, ¬ owns d1 (inl conn) n) → ∀ conn, ¬ owns (moved k t d1) (inl conn) n) as Hmoved.
  { intros t k d1 Ht H1 conn (id & e & [(-> & E & _)|[Hne Hat]]%at_moved_inv & He); [by eapply Ht|].
    apply (H1 conn). by exists id, e. }
  destruct Hs as [k opened Hk| |k c t Hc Hl|k c id nonce ts Hc Ht _|k c key value v Hc Ht Hv
    |k c id entry Hc Ht|k c id b Hc Ht|k c id nonce ts key sig entry Hc Ht He _ _ Ha|k c r Hc Ht];
    (split; [cbn; lia|split]); try exact Hp; try (apply Hmoved; [done|exact Hown]).
  - intros conn (id & e & Hat & He). apply (Hown conn). exists id, e. split; [|done].
    unfold at_task in Hat |- *. cbn in Hat. destruct (decide (conn = k)) as [->|Hne].
    + by rewrite lookup_insert_eq in Hat.
    + by rewrite lookup_insert_ne in Hat.
  - exact Hown.
  - apply Hmoved; [|exact Hown]. intros id e ->. by eapply local_not_inserting in Hl.
  - apply Hmoved; [|exact Hown]. intros i e [= <- <-]. cbn. lia.
  - assert (pa_notify entry ≠ n) as Hne.
    { intros E. apply (Hown k). exists id, entry. split; [by eapply at_task_lookup|done]. }
    intros i e He Hen. cbn in He. destruct (decide (i = id)) as [->|Hi].
    + rewrite lookup_insert_eq in He. by injection He as <-.
    + rewrite lookup_insert_ne in He by done. by eapply Hp.
  - intros i e He Hen. cbn in He. apply lookup_delete_Some in He as [_ He]. by eapply Hp.
  - apply Hmoved; [done|]. intros conn Ho. apply (Hown conn).
    exact (notified_owns (pa_notify entry)
      (set_pending <[id := mkPending nonce ts true (pa_notify entry)]> d) (inl conn) n Ho).
  - intros i e Hi Hen. cbn in Hi. destruct (decide (i = id)) as [->|Hne].
    + rewrite lookup_insert_eq in Hi. by injection Hi as <-.
    + rewrite lookup_insert_ne in Hi by done. by eapply Hp.
Qed.

(** A task with a spent notification goes on without one, or answers no. *)
Lemma spent_task conn id n t d d' :
  transition d d' → spent n d → at_task d conn t → doomed id n t →
  (∃ t' h, at_task d' conn t' ∧ doomed id n t' ∧ history d' = history d ++ h ∧ ∀ r, Replied conn r ∉ h) ∨
  history d' = history d ++ [Replied conn (Response_Authorized false)].
Proof.
  intros Hs (Hn & Hown & Hp) Hat Hd.
  assert (∀ k c t1, connections d !! k = Some c → task c = t1 → k = conn → t1 = t) as Hsame.
  { intros k c t1 Hc Ht ->. eapply at_task_unique; [by eapply at_task_lookup|done]. }
  assert (∀ r (h : list DaemonEvent), h = [] → Replied conn r ∉ h) as Hnil by (intros r h ->; apply not_elem_of_nil).
  destruct Hs as [k opened Hk| |k c t1 Hc Hl|k c i nonce ts Hc Ht _|k c key value v Hc Ht Hv
    |k c i entry Hc Ht|k c i b Hc Ht|k c i nonce ts key sig entry Hc Ht He _ _ Ha|k c r Hc Ht].
  - left. exists t, []. split_and!; [|done|by rewrite app_nil_r|by intros; apply Hnil].
    unfold at_task in Hat |- *. cbn. rewrite lookup_insert_ne; [done|]. intros ->. by rewrite Hk in Hat.
  - left. exists t, []. split_and!; [exact Hat|done|by rewrite app_nil_r|by intros; apply Hnil].
  - left. destruct (decide (k = conn)) as [->|Hne].
    + rewrite (Hsame _ _ _ Hc eq_refl eq_refl) in Hl. exists t1, [].
      split_and!; [by eapply at_moved| |by rewrite app_nil_r|by intros; apply Hnil].
      destruct Hd; inversion Hl; subst; constructor.
    + exists t, []. split_and!; [by apply at_moved_ne|done|by rewrite app_nil_r|by intros; apply Hnil].
  - left. assert (k ≠ conn) by (intros ->; rewrite <- (Hsame _ _ _ Hc Ht eq_refl) in Hd; inversion Hd).
    exists t, []. split_and!; [by apply at_moved_ne|done|by rewrite app_nil_r|by intros; apply Hnil].
  - left. assert (k ≠ conn) by (intros ->; rewrite <- (Hsame _ _ _ Hc Ht eq_refl) in Hd; inversion Hd).
    exists t, [Stored key]. split_and!; [by apply at_moved_ne|done|done|set_solver].
  - left. assert (k ≠ conn) by (intros ->; rewrite <- (Hsame _ _ _ Hc Ht eq_refl) in Hd; inversion Hd).
    eexists t, [_]. split_and!; [by apply at_moved_ne|done|done|set_solver].
  - left. destruct (decide (k = conn)) as [->|Hne].
    + pose proof (Hsame _ _ _ Hc Ht eq_refl) as <-. eexists _, [].
      split_and!; [eapply (at_moved conn (Removing i b)); exact Hat| |by rewrite app_nil_r|by intros; apply Hnil].
      inversion Hd; subst. constructor.
    + exists t, []. split_and!; [by apply at_moved_ne|done|by rewrite app_nil_r|by intros; apply Hnil].
  - left. assert (k ≠ conn) by (intros ->; rewrite <- (Hsame _ _ _ Hc Ht eq_refl) in Hd; inversion Hd).
    eexists t, [_]. split_and!; [|done|done|set_solver]. apply at_moved_ne; [done|].
    assert (pa_notify entry ≠ n) as Hne by (intros E; rewrite (Hp _ _ He E) in Ha; done).
    pose proof (at_notified _ _ (pa_notify entry) (set_pending <[i := mkPending nonce ts true (pa_notify entry)]> d) Hat) as Hx.
    destruct Hd; try exact Hx. by rewrite decide_False in Hx.
  - destruct (decide (k = conn)) as [->|Hne].
    + right. pose proof (Hsame _ _ _ Hc Ht eq_refl) as <-. by inversion Hd.
    + left. eexists t, [_]. split_and!; [by apply at_moved_ne|done|done|]. set_solver.
Qed.

(** [conn] has not been answered since [h0], or it was answered no first. *)
Definition no_but_denied (conn : nat) (id : RString) (n : nat) (h0 : list DaemonEvent) d : Prop :=
  ∃ h, history d = h0 ++ h ∧
    ((∀ r, Replied conn r ∉ h) ∧ (∃ t, at_task d conn t ∧ doomed id n t) ∨
     ∃ h1 h2, h = h1 ++ Replied conn (Response_Authorized false) :: h2 ∧ ∀ r, Replied conn r ∉ h1).

Lemma transition_history d d' : transition d d' → ∃ h, history d' = history d ++ h.
Proof. intros []; cbn; first [by eexists | by exists []; rewrite app_nil_r]. Qed.

Lemma denied_step conn id n h0 d d' :
  transition d d' → spent n d → no_but_denied conn id n h0 d → no_but_denied conn id n h0 d'.
Proof.
  intros Hs Hsp (h & Hh & [[Hno (t & Hat & Hd)]|(h1 & h2 & -> & Hno)]).
  - destruct (spent_task conn id n t d d' Hs Hsp Hat Hd) as [(t' & k & Hat' & Hd' & Hk & Hnk)|Hk].
    + exists (h ++ k). rewrite Hk, Hh, app_assoc. split; [done|]. left. split; [|by exists t'].
      intros r [?|?]%elem_of_app; [by eapply Hno|by eapply Hnk].
    + exists (h ++ [Replied conn (Response_Authorized false)]). rewrite Hk, Hh, app_assoc. split; [done|].
      right. by exists h, [].
  - destruct (transition_history _ _ Hs) as [k Hk]. exists ((h1 ++ Replied conn (Response_Authorized false) :: h2) ++ k).
    split; [by rewrite Hk, Hh, <- app_assoc|]. right. exists h1, (h2 ++ k). by rewrite <- app_assoc.
Qed.

(** C32: A notification that comes before the task waits is lost: if a correct signature is
    committed when the entry is in the map but its task does not wait yet, then no schedule
    lets that request be granted; its first answer, if any, is no. *)
Theorem early_approval_lost v0 d conn id n client nonce ts key signature entry d1 d' :
  rtc daemon_step (new_state v0) d → at_task d conn (Entering id n) →
  at_task d client (VerifyLocking id nonce ts key signature) →
  pending d !! id = Some entry → pa_notify entry = n → pa_nonce entry = nonce → pa_timestamp entry = ts →
  pa_authorized entry = false →
  act (Commit client) d = Some (tt, d1) → rtc daemon_step d1 d' →
  at_task d1 client (Replying (Response_Authorized true)) ∧ no_but_denied conn id n (history d1) d'.
Proof.
  intros Hreach Hat Hcl Hp Hn Hno Hts Ha Hact Hsteps.
  pose proof (notify_reachable _ _ Hreach) as [H1 H2].
  rewrite (commit_run client id nonce ts key signature entry d) in Hact by done. injection Hact as <-.
  assert (conn ≠ client) as Hne by (intros ->; by pose proof (at_task_unique _ _ _ _ Hat Hcl)).
  set (d0 := set_connections (fmap (notify_task (pa_notify entry)))
        (set_pending <[id := mkPending nonce ts true (pa_notify entry)]> d)) in *.
  assert (owns d (inr id) n) as Hown by by exists entry.
  assert (at_task d0 conn (Entering id n)) as Hat0 by exact (at_notified _ _ _ _ Hat).
  split; [exact (at_moved client _ _ d0 (at_notified _ _ _ _ Hcl))|].
  set (d1 := moved client _ _) in *.
  assert (spent n d1) as Hsp.
  { split; [exact (H1 _ _ Hown)|split].
    - intros k Ho. apply moved_owns in Ho as [Ho _]; [|done].
      pose proof (notified_owns (pa_notify entry)
        (set_pending <[id := mkPending nonce ts true (pa_notify entry)]> d) (inl k) n Ho) as Ho'.
      by pose proof (H2 (inl k) (inr id) n Ho' Hown).
    - intros i e Hi Hen. cbn in Hi. destruct (decide (i = id)) as [->|Hi'].
      + rewrite lookup_insert_eq in Hi. by injection Hi as <-.
      + rewrite lookup_insert_ne in Hi by done. assert (owns d (inr i) n) as Ho by by exists e.
        pose proof (H2 _ _ _ Ho Hown). congruence. }
  assert (no_but_denied conn id n (history d1) d1) as Hd.
  { exists []. rewrite app_nil_r. split; [done|]. left. split; [set_solver|]. exists (Entering id n).
    split; [by apply at_moved_ne|constructor]. }
  clearbody d1. clear -Hsteps Hsp Hd. generalize dependent (history d1). intros h0 Hd.
  induction Hsteps as [|x y z Hs _ IH]; [done|]. apply daemon_step_transition in Hs.
  apply IH; [by eapply transition_spent|by eapply denied_step].
Qed.
End Runs.
