(* ===== verification/DaemonPairing.v ===== *)
(** * The unlock daemon: pairing and complete logins

    The daemon's [pair] request stores the key it is given; nothing compares the
    pairing code with anything.  This file shows what one [pair] request does,
    what two of them do to each other, and how a client that nobody paired
    grants the login of somebody else. *)
From stdpp Require Import base gmap sets list strings relations.
From Stdlib Require Import ZArith Lia.
From S2P Require Import Prelude Daemon DaemonTheorems DaemonRuns.

Section Pairing.
Context `{C : Crates} {CL : CratesLaws C}.
Implicit Types (d : Daemon).

(** A connection, with the result of [KeyStore::open]. *)
Definition connected d (conn : nat) (opened : bool) (t : Task) : Prop :=
  connections d !! conn = Some (mkConnection opened t).

Lemma connected_at d conn b t : connected d conn b t → at_task d conn t.
Proof. intros H. by apply (at_task_lookup _ _ _ _ H). Qed.

Lemma connected_moved d conn b t t' : connected d conn b t → connected (moved conn t' d) conn b t'.
Proof. unfold connected. intros H. cbn. by rewrite lookup_alter_eq, H. Qed.

Lemma connected_moved_ne d conn k b t t' : k ≠ conn → connected d k b t → connected (moved conn t' d) k b t.
Proof. unfold connected. intros Hne. cbn. by rewrite lookup_alter_ne. Qed.

(** What a [pair] request reads before it stores. *)
Lemma receive_pair_run conn line dev code key keys now d :
  connected d conn true Reading → from_str line = inr (Request_Pair dev (hex_encode key) code) →
  code ≠ [] → length key = 32 → load_public_keys (vault d) = Some keys →
  act (Receive conn line None None now) d =
    Some (tt, moved conn (Storing key (join (hex_encode <$> with_key keys key))) d).
Proof.
  intros Hc Hl Hcode Hk Hv. rewrite receive_run by (done || by eapply connected_at). unfold handle_line. rewrite Hl.
  unfold handle_pair. rewrite bool_decide_false by done. unfold current, mbind at 1, M_bind at 1. rewrite Hc.
  cbn [store_ok]. rewrite hex_decode_encode, Hk. cbn [Nat.eqb]. unfold gets, mbind, M_bind.
  by rewrite (add_public_key_read_Some _ _ _ Hv).
Qed.

Lemma any_key_finds keys key nonce ts signature now :
  key ∈ keys → verify_signature key nonce ts signature now = inr tt →
  ∃ k, any_key keys nonce ts signature (λ _, now) = Some k.
Proof.
  intros Hin Hv. induction keys as [|k keys IH]; [by apply not_elem_of_nil in Hin|]. cbn [any_key].
  destruct (verify_signature k nonce ts signature now) as [e|[]] eqn:E; [|by eexists].
  apply IH. apply elem_of_cons in Hin as [<-|Hin]; [congruence|done].
Qed.

(** What a [verify] request with a signature under a stored key does before the mutex. *)
Lemma receive_verify_run conn line id dev nonce ts signature keys key now d :
  connected d conn true Reading →
  from_str line = inr (Request_Verify id dev (hex_encode nonce) ts (hex_encode signature)) →
  load_public_keys (vault d) = Some keys → key ∈ keys →
  verify_signature key nonce ts signature now = inr tt →
  ∃ k, act (Receive conn line None None (λ _, now)) d =
    Some (tt, moved conn (VerifyLocking id nonce ts k signature) d).
Proof.
  intros Hc Hl Hv Hin Hs. destruct (any_key_finds _ _ _ _ _ _ Hin Hs) as [k Hk]. exists k.
  rewrite receive_run by (done || by eapply connected_at). unfold handle_line. rewrite Hl. unfold handle_verify.
  unfold current, mbind at 1, M_bind at 1. rewrite Hc. unfold gets, mbind, M_bind. cbn [store_ok].
  rewrite Hv, !hex_decode_encode. cbn [from_option Datatypes.id]. by rewrite Hk.
Qed.

(** A key that was stored is loaded again, next to the keys that were there. *)
Lemma stored_keys v keys key v' :
  load_public_keys v = Some keys → length key = 32 →
  set_password v (join (hex_encode <$> with_key keys key)) = Some v' →
  load_public_keys v' = Some (with_key keys key).
Proof.
  intros Hl Hk Hs. apply load_joined; [|by eapply get_set_password].
  apply with_key_lengths; [by eapply load_lengths|done].
Qed.

(** A [pair] request that is accepted adds its key to the stored keys and keeps the others;
    storing a key again changes nothing.  The pairing code only has to be non-empty. *)
Lemma pair_run conn line dev code key keys now d v :
  connected d conn true Reading → from_str line = inr (Request_Pair dev (hex_encode key) code) →
  code ≠ [] → length key = 32 → load_public_keys (vault d) = Some keys →
  set_password (vault d) (join (hex_encode <$> with_key keys key)) = Some v →
  ∃ d', run_actions [Receive conn line None None now; SetPassword conn; WriteReply conn true] d = Some (tt, d') ∧
    Replied conn (Response_Paired true) ∈ history d' ∧
    load_public_keys (vault d') = Some (with_key keys key) ∧
    (∀ k, k ∈ with_key keys key ↔ k ∈ keys ∨ k = key) ∧ connected d' conn true Reading ∧
    (∀ k b t, k ≠ conn → connected d k b t → connected d' k b t) ∧ pending d' = pending d ∧ uptime d' = uptime d.
Proof.
  intros Hc Hl Hcode Hk Hv Hs.
  rewrite (run_cons _ _ _ _ (receive_pair_run _ _ _ _ _ _ now _ Hc Hl Hcode Hk Hv)).
  eapply connected_moved in Hc as Hc1.
  rewrite (run_cons _ _ _ _ (setPassword_run _ _ _ v _ (connected_at _ _ _ _ Hc1) Hs)).
  set (d1 := moved conn _ d) in *. set (d2 := happened (Stored key) (set_vault v d1)).
  assert (connected (moved conn (Replying (Response_Paired true)) d2) conn true (Replying (Response_Paired true)))
    as Hc2 by exact (connected_moved d2 conn true _ _ Hc1).
  rewrite (run_cons _ _ _ _ (write_run _ _ _ (connected_at _ _ _ _ Hc2))). eexists. split; [done|].
  split; [cbn; set_solver|]. split; [by apply (stored_keys (vault d))|].
  split; [intros; apply elem_of_with_key|]. split.
  { exact (connected_moved (happened (Replied conn (Response_Paired true)) _) conn true _ _ Hc2). }
  split; [|done]. intros k b t Hne Hkc.
  unfold connected in *. cbn. by rewrite !lookup_alter_ne.
Qed.
(** Two requests that pair at the same time: both are told that they were accepted, and only
    the key that was written last is stored. *)
Theorem concurrent_pairs_lose_a_key a b line1 line2 dev1 dev2 code1 code2 key1 key2 keys now d v1 v2 :
  a ≠ b → connected d a true Reading → connected d b true Reading →
  from_str line1 = inr (Request_Pair dev1 (hex_encode key1) code1) → code1 ≠ [] → length key1 = 32 →
  from_str line2 = inr (Request_Pair dev2 (hex_encode key2) code2) → code2 ≠ [] → length key2 = 32 →
  load_public_keys (vault d) = Some keys → key1 ∉ keys → key1 ≠ key2 →
  set_password (vault d) (join (hex_encode <$> with_key keys key1)) = Some v1 →
  set_password v1 (join (hex_encode <$> with_key keys key2)) = Some v2 →
  ∃ d', run_actions [Receive a line1 None None now; Receive b line2 None None now; SetPassword a; SetPassword b;
                     WriteReply a true; WriteReply b true] d = Some (tt, d') ∧
    Replied a (Response_Paired true) ∈ history d' ∧ Replied b (Response_Paired true) ∈ history d' ∧
    load_public_keys (vault d') = Some (with_key keys key2) ∧ key1 ∉ with_key keys key2.
Proof.
  intros Hne Ha Hb Hl1 Hc1 Hk1 Hl2 Hc2 Hk2 Hv Hk Hk12 Hs1 Hs2.
  rewrite (run_cons _ _ _ _ (receive_pair_run _ _ _ _ _ _ now _ Ha Hl1 Hc1 Hk1 Hv)).
  set (d1 := moved a _ d).
  assert (connected d1 b true Reading) as Hb1 by by apply connected_moved_ne.
  assert (connected d1 a true (Storing key1 (join (hex_encode <$> with_key keys key1)))) as Ha1
    by by eapply connected_moved.
  rewrite (run_cons _ _ _ _ (receive_pair_run _ _ _ _ _ _ now d1 Hb1 Hl2 Hc2 Hk2 Hv)).
  set (d2 := moved b _ d1).
  assert (connected d2 a true (Storing key1 (join (hex_encode <$> with_key keys key1)))) as Ha2
    by by apply connected_moved_ne.
  assert (connected d2 b true (Storing key2 (join (hex_encode <$> with_key keys key2)))) as Hb2
    by by eapply connected_moved.
  rewrite (run_cons _ _ _ _ (setPassword_run _ _ _ v1 _ (connected_at _ _ _ _ Ha2) Hs1)).
  set (d3 := moved a _ _).
  assert (connected d3 b true (Storing key2 (join (hex_encode <$> with_key keys key2)))) as Hb3
    by by apply connected_moved_ne.
  assert (connected d3 a true (Replying (Response_Paired true))) as Ha3
    by exact (connected_moved (happened (Stored key1) (set_vault v1 d2)) _ _ _ _ Ha2).
  rewrite (run_cons _ _ _ _ (setPassword_run _ _ _ v2 d3 (connected_at _ _ _ _ Hb3) Hs2)).
  set (d4 := moved b _ _).
  assert (connected d4 a true (Replying (Response_Paired true))) as Ha4 by by apply connected_moved_ne.
  assert (connected d4 b true (Replying (Response_Paired true))) as Hb4
    by exact (connected_moved (happened (Stored key2) (set_vault v2 d3)) _ _ _ _ Hb3).
  rewrite (run_cons _ _ _ _ (write_run _ _ _ (connected_at _ _ _ _ Ha4))).
  set (d5 := moved a _ _).
  assert (connected d5 b true (Replying (Response_Paired true))) as Hb5 by by apply connected_moved_ne.
  rewrite (run_cons _ _ _ _ (write_run _ _ _ (connected_at _ _ _ _ Hb5))).
  eexists. split; [done|]. split; [cbn; set_solver|]. split; [cbn; set_solver|].
  split; [|rewrite elem_of_with_key; naive_solver].
  cbn. apply load_joined; [|by eapply get_set_password].
  apply with_key_lengths; [by eapply load_lengths|done].
Qed.

(** From a verified challenge on, the waiting task grants its request. *)
Lemma committed_grants pam client o id n dl nonce ts key signature entry d :
  pam ≠ client → connected d pam o (Waiting id n dl false) →
  at_task d client (VerifyLocking id nonce ts key signature) →
  pending d !! id = Some entry → pa_nonce entry = nonce → pa_timestamp entry = ts →
  pa_authorized entry = false → pa_notify entry = n →
  ∃ d', run_actions [Commit client; Wake pam; Check_ pam; Remove pam; WriteReply pam true] d = Some (tt, d') ∧
    Replied pam (Response_Authorized true) ∈ history d'.
Proof.
  intros Hne Hp Hc He Hno Hts Ha Hn.
  rewrite (run_cons _ _ _ _ (commit_run client id nonce ts key signature entry d Hc He Hno Hts Ha)).
  set (d0 := set_pending <[id := mkPending nonce ts true (pa_notify entry)]> d).
  set (d1 := moved client _ _).
  assert (at_task d1 pam (Waiting id n dl true)) as H1.
  { apply at_moved_ne; [done|]. pose proof (at_notified _ _ (pa_notify entry) d0 (connected_at d0 pam o _ Hp)) as H.
    cbn beta iota in H. by rewrite decide_True in H by done. }
  rewrite (run_cons _ _ _ _ (wake_run _ _ _ _ _ H1)). apply at_moved with (t' := Checking id n dl) in H1 as H2.
  set (d2 := moved pam _ d1) in *.
  pose proof (check_run _ _ _ _ _ H2) as Hcheck. replace (pending d2) with (pending d0) in Hcheck by done.
  cbn [pending d0 set_pending] in Hcheck. rewrite lookup_insert_eq in Hcheck. cbn [from_option pa_authorized] in Hcheck.
  rewrite (run_cons _ _ _ _ Hcheck). apply at_moved with (t' := Removing id true) in H2 as H3.
  rewrite (run_cons _ _ _ _ (remove_run _ _ _ _ H3)).
  set (d3 := moved pam _ d2) in *.
  assert (at_task (moved pam (Replying (Response_Authorized true)) (set_pending (delete id) d3)) pam
    (Replying (Response_Authorized true))) as H4 by by eapply (at_moved pam (Removing id true)).
  rewrite (run_cons _ _ _ _ (write_run _ _ _ H4)). eexists. split; [done|]. cbn. set_solver.
Qed.

(** C30: Nobody has to approve a login: while a login waits, any client of the socket that can
    read the challenge makes up a key, sends it with any non-empty pairing code, signs the
    challenge with it, and the login is granted. *)
Theorem unpaired_client_grants_login pam client o id n dl entry line1 line2 dev code key signature keys now d v :
  pam ≠ client → connected d pam o (Waiting id n dl false) → connected d client true Reading →
  pending d !! id = Some entry → pa_authorized entry = false → pa_notify entry = n →
  load_public_keys (vault d) = Some keys →
  set_password (vault d) (join (hex_encode <$> with_key keys key)) = Some v →
  verify_signature key (pa_nonce entry) (pa_timestamp entry) signature now = inr tt →
  from_str line1 = inr (Request_Pair dev (hex_encode key) code) → code ≠ [] → length key = 32 →
  from_str line2 = inr (Request_Verify id dev (hex_encode (pa_nonce entry)) (pa_timestamp entry) (hex_encode signature)) →
  ∃ d', rtc daemon_step d d' ∧ Replied pam (Response_Authorized true) ∈ history d'.
Proof.
  intros Hne Hp Hc He Ha Hn Hv Hs Hsig Hl1 Hcode Hk Hl2.
  destruct (pair_run client line1 dev code key keys (λ _, now) d v) as
    (d1 & Hrun1 & _ & Hv1 & Hin & Hc1 & Hothers & Hpend & _); try done.
  assert (key ∈ with_key keys key) as Hkey by (apply Hin; by right).
  destruct (receive_verify_run client line2 id dev (pa_nonce entry) (pa_timestamp entry) signature (with_key keys key)
    key now d1) as [k Hrecv]; try done.
  set (d2 := moved client _ d1) in *.
  destruct (committed_grants pam client o id n dl (pa_nonce entry) (pa_timestamp entry) k signature entry d2)
    as (d' & Hrun2 & Hr); try done.
  - apply connected_moved_ne; [done|]. by apply Hothers.
  - eapply at_moved. by eapply connected_at.
  - cbn. by rewrite Hpend.
  - exists d'. split; [|done]. etrans; [by eapply run_steps|]. eapply rtc_l; [by eexists|]. by eapply run_steps.
Qed.

(** A vault that cannot be read counts as empty: the next [pair] request replaces every stored
    key by its own. *)
Theorem unreadable_vault_overwritten conn line dev code key now d v :
  connected d conn true Reading → from_str line = inr (Request_Pair dev (hex_encode key) code) →
  code ≠ [] → length key = 32 → get_password (vault d) = None → set_password (vault d) (hex_encode key) = Some v →
  ∃ d', run_actions [Receive conn line None None now; SetPassword conn; WriteReply conn true] d = Some (tt, d') ∧
    Replied conn (Response_Paired true) ∈ history d' ∧ load_public_keys (vault d') = Some [key].
Proof.
  intros Hc Hl Hcode Hk Hg Hs.
  assert (load_public_keys (vault d) = Some []) as Hv by (unfold load_public_keys; by rewrite Hg).
  assert (with_key [] key = [key]) as Hw by (unfold with_key; case_decide; set_solver).
  destruct (pair_run conn line dev code key [] now d v) as (d' & Hrun & Hr & Hv' & _); try done.
  exists d'. rewrite <- Hw. done.
Qed.
End Pairing.
