(* ===== verification/Login.v ===== *)
(** * A login from end to end: the PAM module and the daemon

    The PAM module searches the daemon's answer for two texts instead of parsing
    it.  Given how serde_json writes the four kinds of answers, that search is
    exact; so a login that PAM grants over the daemon's socket goes back to a
    signature that the daemon verified. *)
From stdpp Require Import base gmap sets list strings relations.
From Stdlib Require Import ZArith Lia.
From S2P Require Import Prelude Pam PamTheorems Daemon DaemonTheorems.

Definition backslash : byte := Init.Byte.x5c.
Definition quotation : byte := Init.Byte.x22.

(** The inside of a JSON string literal: a quotation mark only after a backslash. *)
Inductive escaped : list byte → Prop :=
  | escaped_nil : escaped []
  | escaped_plain c body : c ≠ quotation → c ≠ backslash → escaped body → escaped (c :: body)
  | escaped_pair c body : escaped body → escaped (backslash :: c :: body).

Definition key_text (k : string) : list byte := quote ++ bytes k ++ quote ++ bytes ":".

(** serde_json: an enum with [#[serde(tag = "type")]] is an object whose first member is the
    tag, followed by the fields in order, without white space. *)
Class SerdeText (C : Crates) : Type := {
  json_string : list byte → list byte;
  json_number : Z → list byte;
  json_string_literal s : ∃ body, json_string s = quote ++ body ++ quote ∧ escaped body;
  json_number_digits z : quotation ∉ json_number z;
  to_vec_paired b : to_vec (Response_Paired b) =
    bytes "{" ++ key_text "type" ++ quote ++ bytes "paired" ++ quote ++ bytes "," ++
    key_text "accepted" ++ bytes (if b then "true" else "false") ++ bytes "}";
  to_vec_challenge id nonce timestamp : to_vec (Response_Challenge id nonce timestamp) =
    bytes "{" ++ key_text "type" ++ quote ++ bytes "challenge" ++ quote ++ bytes "," ++
    key_text "challenge_id" ++ json_string id ++ bytes "," ++ key_text "nonce" ++ json_string nonce ++ bytes "," ++
    key_text "timestamp" ++ json_number timestamp ++ bytes "}";
  to_vec_authorized b : to_vec (Response_Authorized b) =
    bytes "{" ++ key_text "type" ++ quote ++ bytes "authorized" ++ quote ++ bytes "," ++
    key_text "authorized" ++ bytes (if b then "true" else "false") ++ bytes "}";
  to_vec_error message : to_vec (Response_Error message) =
    bytes "{" ++ key_text "type" ++ quote ++ bytes "error" ++ quote ++ bytes "," ++
    key_text "message" ++ json_string message ++ bytes "}";
}.

(** ** Occurrences in a text *)

Definition occurs (needle text : list byte) : Prop := ∃ a b, text = a ++ needle ++ b.

Lemma occurs_cons needle x text :
  occurs needle (x :: text) → needle `prefix_of` (x :: text) ∨ occurs needle text.
Proof. intros ([|y a] & b & E); [left; by exists b|right; injection E as -> ->; by exists a, b]. Qed.

Lemma occurs_app_r needle text rest : occurs needle text → occurs needle (text ++ rest).
Proof. intros (a & b & ->). exists a, (b ++ rest). by rewrite <- !app_assoc. Qed.

Lemma occurs_nil needle x : ¬ occurs (x :: needle) [].
Proof. by intros ([|y a] & b & E). Qed.

(** The searched texts start with a quotation mark, so nothing starts in a part without one. *)
Lemma occurs_unquoted needle part rest :
  quotation ∉ part → occurs (quotation :: needle) (part ++ rest) → occurs (quotation :: needle) rest.
Proof.
  induction part as [|x part IH]; intros Hq H; [done|]. cbn in H. apply occurs_cons in H as [[k Hk]|H].
  - injection Hk as Hx _. set_solver.
  - apply IH; [set_solver|done].
Qed.

(** What both searched texts would need after a quotation mark inside a string literal. *)
Definition type_key : list byte := bytes "type" ++ quote ++ bytes ":".

(** It does not fit into a string literal that no colon follows. *)
Lemma literal_no_key body c rest :
  escaped body → c ≠ Init.Byte.x3a → ¬ type_key `prefix_of` (body ++ quotation :: c :: rest).
Proof.
  intros Hb Hc.
  assert (∀ k w, Forall (λ x, x ≠ quotation ∧ x ≠ backslash) w → ∀ body, escaped body →
    w ++ quotation :: Init.Byte.x3a :: k ≠ body ++ quotation :: c :: rest) as Hw.
  { intros k w Hw. induction Hw as [|x w [Hx1 Hx2] _ IH]; intros b Hesc E;
      destruct Hesc as [|y b Hy1 Hy2 Hesc|y b Hesc]; cbn in E; simplify_eq. by eapply IH. }
  intros [k Hk]. symmetry in Hk. apply (Hw k (bytes "type") ltac:(by repeat constructor) body Hb).
  rewrite <- Hk. reflexivity.
Qed.

Section Literals.
Context (needle : list byte) (c : byte) (rest : list byte).
Hypothesis Hneedle : type_key `prefix_of` needle.
Hypothesis Hcolon : c ≠ Init.Byte.x3a.
Hypothesis Ht : c ≠ Init.Byte.x74.

Lemma no_occurrence_at body :
  escaped body → ¬ (quotation :: needle) `prefix_of` (quotation :: body ++ quotation :: c :: rest).
Proof.
  intros Hb [k Hk]. injection Hk as Hk. apply (literal_no_key body c rest Hb Hcolon).
  destruct Hneedle as [l ->]. exists (l ++ k). by rewrite Hk, <- app_assoc.
Qed.

Lemma not_prefix_ne x text : x ≠ quotation → ¬ (quotation :: needle) `prefix_of` (x :: text).
Proof. intros Hx [k Hk]. by injection Hk as ? _. Qed.

Lemma occurs_in_literal body :
  escaped body → occurs (quotation :: needle) (body ++ quotation :: c :: rest) →
  occurs (quotation :: needle) (c :: rest).
Proof.
  induction 1 as [|x b Hx1 Hx2 Hb IH|x b Hb IH]; cbn [app]; intros H.
  - apply occurs_cons in H as [[k Hk]|H]; [|done]. injection Hk as Hk. destruct Hneedle as [l El].
    rewrite El in Hk. by injection Hk as ? _.
  - apply occurs_cons in H as [H|H]; [by apply not_prefix_ne in H|by apply IH].
  - apply occurs_cons in H as [H|H]; [by apply not_prefix_ne in H|].
    apply occurs_cons in H as [H|H]; [|by apply IH].
    destruct (decide (x = quotation)) as [->|Hx]; [by apply no_occurrence_at in H|by apply not_prefix_ne in H].
Qed.
End Literals.

Section Responses.
Context `{CR : Crates} {ST : SerdeText CR}.

Lemma occurs_literal needle s c rest :
  type_key `prefix_of` needle → c ≠ Init.Byte.x3a → c ≠ Init.Byte.x74 →
  occurs (quotation :: needle) (json_string s ++ c :: rest) → occurs (quotation :: needle) (c :: rest).
Proof.
  intros Hn Hc Ht H. destruct (json_string_literal s) as (body & E & Hb). rewrite E, <- !app_assoc in H.
  apply occurs_cons in H as [H|H]; [by apply no_occurrence_at in H|]. by eapply occurs_in_literal.
Qed.

Definition tag_needle : list byte := type_key ++ quote ++ bytes "authorized" ++ quote.

Lemma type_authorized_needle : type_authorized = quotation :: tag_needle.
Proof. reflexivity. Qed.

(** Nothing starts in a part of the text that is written out. *)
Ltac skip_written :=
  repeat match goal with
  | H : occurs _ (?x :: _) |- _ =>
      apply occurs_cons in H as [[? H]|H]; [cbn in H; discriminate H|]
  end.

Ltac skip_literal :=
  match goal with
  | H : occurs _ (json_string ?s ++ ?c :: ?rest) |- _ =>
      change (occurs (quotation :: tag_needle) (json_string s ++ c :: rest)) in H;
      apply occurs_literal in H; [cbn in H|by eexists|done|done]
  end.

Lemma error_not_tagged message : ¬ occurs type_authorized (to_vec (Response_Error message)).
Proof.
  rewrite to_vec_error, type_authorized_needle. intros H. cbn in H. skip_written. skip_literal. skip_written.
  by apply occurs_nil in H.
Qed.

Lemma challenge_not_tagged id nonce ts : ¬ occurs type_authorized (to_vec (Response_Challenge id nonce ts)).
Proof.
  rewrite to_vec_challenge, type_authorized_needle. intros H. cbn in H. skip_written. skip_literal.
  skip_written. skip_literal. skip_written.
  apply (occurs_unquoted tag_needle (json_number ts) (bytes "}")) in H; [|apply json_number_digits].
  cbn in H. skip_written. by apply occurs_nil in H.
Qed.

Lemma c_str_prefix line : ∃ rest, line = c_str line ++ rest.
Proof.
  unfold c_str. destruct (index_of nul line) as [i|]; [exists (drop i line); by rewrite take_drop|].
  exists []. by rewrite app_nil_r.
Qed.

Lemma says_authorized_response r : says_authorized (to_vec r) → r = Response_Authorized true.
Proof.
  intros [Ht Ha]. destruct (c_str_prefix (to_vec r)) as [rest E].
  assert (occurs type_authorized (to_vec r)) as Htag by (rewrite E; by apply occurs_app_r).
  assert (occurs authorized_true (to_vec r)) as Htrue by (rewrite E; by apply occurs_app_r).
  destruct r as [b|id nonce ts|[]|m]; [| |done| |]; exfalso.
  - rewrite to_vec_paired, type_authorized_needle in Htag.
    destruct b; cbn in Htag; skip_written; by apply occurs_nil in Htag.
  - by apply challenge_not_tagged in Htag.
  - rewrite to_vec_authorized in Htrue. clear Htag. cbn in Htrue. skip_written. by apply occurs_nil in Htrue.
  - by apply error_not_tagged in Htag.
Qed.

Lemma authorized_response_says : says_authorized (to_vec (Response_Authorized true)).
Proof.
  rewrite to_vec_authorized. split.
  - exists (bytes "{"), (bytes "," ++ authorized_true ++ bytes "}"). by vm_compute.
  - exists (bytes "{" ++ type_authorized ++ bytes ","), (bytes "}"). by vm_compute.
Qed.

(** C25: The textual check of the PAM module is exact on what the daemon sends: run on an answer
    in the buffer, terminated and with whatever follows, [response_is_authorized] is defined and
    returns true for [authorized: true] and false for every other answer, whatever texts an error
    message or a challenge contains. *)
Theorem check_exact_on_responses r rest (s : PamState) :
  response_is_authorized (to_vec r ++ nul :: rest) s = Some (bool_decide (r = Response_Authorized true), s).
Proof.
  destruct (response_is_authorized_run (to_vec r) rest s) as (b & -> & Hb). do 2 f_equal.
  apply eq_true_iff_eq. rewrite Hb, bool_decide_eq_true. split; [apply says_authorized_response|].
  intros ->. apply authorized_response_says.
Qed.

(** ** The login *)

(** The bytes the module read, in order. *)
Definition received (events : list PamEvent) : list byte :=
  omap (λ e, match e with Received _ b => Some b | _ => None end) events.

Lemma received_app l1 l2 : received (l1 ++ l2) = received l1 ++ received l2.
Proof. apply omap_app. Qed.

Lemma received_bytes fd line : received (Received fd <$> line) = line.
Proof. induction line as [|b line IH]; [done|]. cbn. by f_equal. Qed.

Lemma received_sent fd (chunks : list (list byte)) : received (Sent fd <$> chunks) = [].
Proof. induction chunks as [|b chunks IH]; [done|]. exact IH. Qed.

Context {CL : CratesLaws CR} `{K : Kernel}.

End Responses.
