(* ===== verification/DaemonScenario.v ===== *)
(** * A concrete daemon for witnesses

    Small executable instances of the crates, and two connections: one asks for
    an authorization, the other one pairs and approves.  Only witnesses use it. *)
From stdpp Require Import base gmap sets list strings relations.
From Stdlib Require Import ZArith Lia.
From S2P Require Import Prelude Qt World Reference Pam PamTheorems Daemon DaemonTheorems DaemonRuns DaemonPairing Login.

Definition demo_key : list byte := replicate 32 Init.Byte.x44.
Definition demo_key2 : list byte := replicate 32 Init.Byte.x55.
Definition demo_challenge : list byte := replicate 32 Init.Byte.x66.
Definition demo_id_bytes : list byte := replicate 32 Init.Byte.x77.
Definition demo_challenge_id : RString := ref_toHex demo_id_bytes.
Definition demo_clock : Z := 1700000000.
Definition demo_approval : list byte := ref_sign demo_key (demo_challenge ++ to_be_bytes demo_clock).

(** The request lines of the scenario, by name. *)
Definition line_authorize : RString := bytes "authorize".
Definition line_pair : RString := bytes "pair".
Definition line_pair2 : RString := bytes "pair2".
Definition line_verify : RString := bytes "verify".
Definition line_challenge : RString :=
  bytes "{" ++ quote ++ bytes "type" ++ quote ++ bytes ":" ++ quote ++ bytes "challenge" ++ quote ++ bytes "}".

Definition ref_from_str (line : RString) : RString + Request :=
  if decide (line = line_authorize) then inr (Request_Authorize (bytes "alice"))
  else if decide (line = line_pair) then inr (Request_Pair (bytes "phone") (ref_toHex demo_key) (bytes "0"))
  else if decide (line = line_pair2) then inr (Request_Pair (bytes "other") (ref_toHex demo_key2) (bytes "0"))
  else if decide (line = line_verify) then
    inr (Request_Verify demo_challenge_id (bytes "phone") (ref_toHex demo_challenge) demo_clock (ref_toHex demo_approval))
  else if decide (line = line_challenge) then inr Request_Challenge
  else inl (bytes "expected value").

Definition ref_escape (s : list byte) : list byte :=
  c ← s; if decide (c = quotation ∨ c = backslash) then [backslash; c] else [c].
Definition ref_json_string (s : list byte) : list byte := quote ++ ref_escape s ++ quote.

Definition ref_to_vec (r : Response) : list byte :=
  match r with
  | Response_Paired b =>
      bytes "{" ++ key_text "type" ++ quote ++ bytes "paired" ++ quote ++ bytes "," ++
      key_text "accepted" ++ bytes (if b then "true" else "false") ++ bytes "}"
  | Response_Challenge id nonce timestamp =>
      bytes "{" ++ key_text "type" ++ quote ++ bytes "challenge" ++ quote ++ bytes "," ++
      key_text "challenge_id" ++ ref_json_string id ++ bytes "," ++ key_text "nonce" ++ ref_json_string nonce ++
      bytes "," ++ key_text "timestamp" ++ ref_number timestamp ++ bytes "}"
  | Response_Authorized b =>
      bytes "{" ++ key_text "type" ++ quote ++ bytes "authorized" ++ quote ++ bytes "," ++
      key_text "authorized" ++ bytes (if b then "true" else "false") ++ bytes "}"
  | Response_Error message =>
      bytes "{" ++ key_text "type" ++ quote ++ bytes "error" ++ quote ++ bytes "," ++
      key_text "message" ++ ref_json_string message ++ bytes "}"
  end.

#[global] Instance ref_Crates : Crates := {
  from_str := ref_from_str;
  to_vec := ref_to_vec;
  hex_encode := ref_toHex;
  hex_decode := λ l, Some (ref_fromHex l);
  VerifyingKey := list byte;
  Signature := list byte;
  VerifyingKey_from_bytes := of_length 32;
  Signature_from_slice := of_length 64;
  verifies := λ key message signature, bool_decide (signature = ref_sign key message);
  Vault := option RString;
  get_password := λ v, v;
  set_password := λ _ s, Some (Some s);
  random_error := bytes "unavailable";
}.

#[global] Instance ref_CratesLaws : CratesLaws ref_Crates.
Proof.
  split; simpl.
  - intros b. by rewrite ref_fromHex_toHex.
  - intros b. induction b as [|c b IH]; [constructor|]. unfold ref_toHex. rewrite bind_cons.
    apply Forall_app. split; [|exact IH]. destruct c; repeat constructor.
  - intros b. induction b as [|c b IH]; [done|]. unfold ref_toHex in *. rewrite bind_cons, length_app, IH. simpl. lia.
  - by intros v s v' [= <-].
Qed.

Lemma ref_escape_escaped s : escaped (ref_escape s).
Proof.
  induction s as [|c s IH]; [constructor|]. unfold ref_escape. rewrite bind_cons. case_decide as Hc.
  - by apply escaped_pair.
  - apply escaped_plain; [tauto|tauto|exact IH].
Qed.

Lemma digits_unquoted n z : (0 <= z)%Z → quotation ∉ digits n z.
Proof.
  assert (∀ d, (0 <= d < 10)%Z → quotation ≠ digit_char d) as Hd.
  { intros d Hd E. apply (f_equal Z_of_byte) in E. rewrite Z_of_digit_char in E by done.
    change (Z_of_byte quotation) with 34%Z in E. lia. }
  induction n as [|n IH] in z |- *; intros Hz; cbn [digits]; [apply not_elem_of_nil|].
  destruct (Z.ltb_spec z 10).
  - intros Hin%list_elem_of_singleton. by apply Hd in Hin.
  - intros [Hin|Hin%list_elem_of_singleton]%elem_of_app.
    + apply IH in Hin; [done|]. apply Z.div_pos; lia.
    + apply Hd in Hin; [done|]. apply Z.mod_pos_bound. lia.
Qed.

Lemma ref_number_unquoted z : quotation ∉ ref_number z.
Proof.
  unfold ref_number, decimal. destruct (Z.ltb_spec z 0).
  - intros [E|Hin]%elem_of_cons; [done|]. apply digits_unquoted in Hin; [done|lia].
  - apply digits_unquoted. lia.
Qed.

#[global] Instance ref_SerdeText : SerdeText ref_Crates := {
  json_string := ref_json_string;
  json_number := ref_number;
  json_string_literal s := ex_intro _ (ref_escape s) (conj eq_refl (ref_escape_escaped s));
  json_number_digits := ref_number_unquoted;
  to_vec_paired b := eq_refl;
  to_vec_challenge id nonce timestamp := eq_refl;
  to_vec_authorized b := eq_refl;
  to_vec_error message := eq_refl;
}.

(** ** Runs *)

(** The state [run_actions] ends in. *)
Definition ends (actions : list Action) (d : Daemon) : Daemon :=
  match run_actions actions d with Some (_, d') => d' | None => d end.

Lemma ends_run actions d : is_some (run_actions actions d) = true → run_actions actions d = Some (tt, ends actions d).
Proof. unfold ends. by destruct (run_actions actions d) as [[[] d']|]. Qed.

Definition no_vault : Vault (Crates := ref_Crates) := None.
Lemma ends_act a d : is_some (act a d) = true → act a d = Some (tt, ends [a] d).
Proof.
  intros H. destruct (act a d) as [[[] d']|] eqn:E; [|done]. unfold ends. cbn [run_actions].
  by rewrite (bind_run _ _ _ _ _ E).
Qed.

Definition fresh_daemon : Daemon := new_state no_vault.

(** A login is waiting on connection 0; connection 1 is open. *)
Definition opening : list Action :=
  [Accept 0 true; Accept 1 true; Accept 2 true;
   Receive 0 line_authorize (Some demo_challenge) (Some demo_id_bytes) (λ _, demo_clock)].
Definition asking : Daemon := ends (opening ++ [Insert 0]) fresh_daemon.
Definition waiting : Daemon := ends (opening ++ [Insert 0; Enter 0]) fresh_daemon.

(** The device pairs and approves. *)
Definition approval : list Action :=
  [Receive 1 line_pair None None (λ _, demo_clock); SetPassword 1; WriteReply 1 true;
   Receive 1 line_verify None None (λ _, demo_clock)].
Definition granting : list Action := [Commit 1; WriteReply 1 true; Wake 0; Check_ 0; Remove 0; WriteReply 0 true].
Definition granted : Daemon := ends (opening ++ [Insert 0; Enter 0] ++ approval ++ granting) fresh_daemon.

(** The same, but the approval comes before the login waits. *)
Definition approving : Daemon := ends (opening ++ [Insert 0] ++ approval) fresh_daemon.
Definition approved_early : Daemon := ends [Commit 1] approving.

Ltac run_ends := apply ends_run; vm_eq.

Lemma granted_steps : rtc daemon_step fresh_daemon granted.
Proof. eapply run_steps. unfold granted. run_ends. Qed.

Lemma waiting_steps : rtc daemon_step fresh_daemon waiting.
Proof. eapply run_steps. unfold waiting. run_ends. Qed.

Lemma approving_steps : rtc daemon_step fresh_daemon approving.
Proof. eapply run_steps. unfold approving. run_ends. Qed.

Lemma approving_commit : act (Commit 1) approving = Some (tt, approved_early).
Proof. apply (ends_act (Commit 1) approving). vm_eq. Qed.

Lemma granted_replied : Replied 0 (Response_Authorized true) ∈ history granted.
Proof. 
  assert (last (history granted) = Some (Replied 0 (Response_Authorized true))) as H by vm_eq.
  by apply last_Some_elem_of in H.
Qed.

(** ** Witnesses *)


Lemma challenge_approved_once_witness :
  NoDup (verified_ids (history granted)) ∧ verified_ids (history granted) ⊆ issued_ids (history granted).
Proof.
  apply (challenge_approved_once no_vault granted granted_steps).
  apply (bool_decide_unpack _). vm_compute. exact I.
Defined.

Lemma at_task_some d conn c t : connections d !! conn = Some c → task c = t → at_task d conn t.
Proof. intros H E. by eapply at_task_lookup. Qed.

Lemma waiting_connected :
  connected waiting 0 true (Waiting demo_challenge_id 0 30 false) ∧ connected waiting 1 true Reading ∧
  connected waiting 2 true Reading.
Proof. split_and!; unfold connected; vm_eq. Qed.

Lemma authorize_answered_witness : answerable 0 (uptime waiting + 30) waiting.
Proof.
  apply (authorize_answered no_vault waiting 0 demo_challenge_id (Waiting demo_challenge_id 0 30 false) waiting_steps).
  - apply (connected_at _ _ true), waiting_connected.
  - constructor.
Defined.

Definition demo_entry : PendingAuth := mkPending demo_challenge demo_clock false 0.

Lemma early_approval_lost_witness :
  at_task approved_early 1 (Replying (Response_Authorized true)) ∧
  no_but_denied 0 demo_challenge_id 0 (history approved_early) (ends [Enter 0] approved_early).
Proof.
  apply (early_approval_lost no_vault approving 0 demo_challenge_id 0 1 demo_challenge demo_clock demo_key
    demo_approval demo_entry approved_early (ends [Enter 0] approved_early) approving_steps).
  - apply (connected_at _ _ true). unfold connected. vm_eq.
  - apply (connected_at _ _ true). unfold connected. vm_eq.
  - vm_eq.
  - reflexivity.
  - reflexivity.
  - reflexivity.
  - reflexivity.
  - exact approving_commit.
  - eapply run_steps. run_ends.
Defined.

Lemma demo_verified : verify_signature demo_key demo_challenge demo_clock demo_approval demo_clock = inr tt.
Proof. vm_eq. Qed.

Lemma unpaired_client_grants_login_witness :
  ∃ d', rtc daemon_step waiting d' ∧ Replied 0 (Response_Authorized true) ∈ history d'.
Proof.
  destruct waiting_connected as (H0 & H1 & _).
  apply (unpaired_client_grants_login 0 1 true demo_challenge_id 0 30 demo_entry line_pair line_verify (bytes "phone")
    (bytes "0") demo_key demo_approval [] demo_clock waiting (Some (join (hex_encode <$> with_key [] demo_key)))).
  - discriminate.
  - exact H0.
  - exact H1.
  - vm_eq.
  - reflexivity.
  - reflexivity.
  - vm_eq.
  - reflexivity.
  - exact demo_verified.
  - reflexivity.
  - discriminate.
  - reflexivity.
  - reflexivity.
Defined.

Lemma concurrent_pairs_lose_a_key_witness :
  ∃ d', run_actions [Receive 1 line_pair None None (λ _, demo_clock); Receive 2 line_pair2 None None (λ _, demo_clock);
      SetPassword 1; SetPassword 2; WriteReply 1 true; WriteReply 2 true] waiting = Some (tt, d') ∧
    Replied 1 (Response_Paired true) ∈ history d' ∧ Replied 2 (Response_Paired true) ∈ history d' ∧
    load_public_keys (vault d') = Some (with_key [] demo_key2) ∧ demo_key ∉ with_key [] demo_key2.
Proof.
  destruct waiting_connected as (_ & H1 & H2).
  apply (concurrent_pairs_lose_a_key 1 2 line_pair line_pair2 (bytes "phone") (bytes "other") (bytes "0") (bytes "0")
    demo_key demo_key2 [] (λ _, demo_clock) waiting (Some (join (hex_encode <$> with_key [] demo_key)))
    (Some (join (hex_encode <$> with_key [] demo_key2)))); try done; [set_solver].
Defined.

Lemma unreadable_vault_overwritten_witness :
  ∃ d', run_actions [Receive 1 line_pair None None (λ _, demo_clock); SetPassword 1; WriteReply 1 true] waiting
      = Some (tt, d') ∧
    Replied 1 (Response_Paired true) ∈ history d' ∧ load_public_keys (vault d') = Some [demo_key].
Proof.
  apply (unreadable_vault_overwritten 1 line_pair (bytes "phone") (bytes "0") demo_key (λ _, demo_clock) waiting
    (Some (hex_encode demo_key))).
  - apply waiting_connected.
  - reflexivity.
  - discriminate.
  - reflexivity.
  - vm_eq.
  - reflexivity.
Defined.


Lemma check_exact_on_responses_witness :
  response_is_authorized (to_vec (Response_Challenge demo_challenge_id demo_challenge_id demo_clock) ++ nul :: []) demo_pam =
    Some (false, demo_pam) ∧
  response_is_authorized (to_vec (Response_Authorized true) ++ nul :: []) demo_pam = Some (true, demo_pam).
Proof.
  split.
  - exact (check_exact_on_responses (CR := ref_Crates) (Response_Challenge demo_challenge_id demo_challenge_id demo_clock) [] demo_pam).
  - exact (check_exact_on_responses (CR := ref_Crates) (Response_Authorized true) [] demo_pam).
Defined.
