(* ===== verification/CrossService.v ===== *)
(** * One key, two services

    A phone signs challenges of the Rust daemon and of the desktop server with the
    same Ed25519 key, and both services have it sign the nonce followed by the
    big-endian time stamp.  Nothing in the signed message names the service. *)
From stdpp Require Import base gmap sets list strings relations.
From Stdlib Require Import ZArith Lia.
From S2P Require Import Prelude Qt World Crypto Reference CryptoTheorems ReplayGuard ReplayTheorems Server Scenario ServerLemmas ServerPairing ServerAuth Daemon DaemonTheorems DaemonScenario.

(** OpenSSL accepts the Ed25519 signatures that ed25519-dalek accepts (RFC 8032). *)
Class SameEd25519 (C : Crates) (O : OpenSSL) : Prop :=
  same_ed25519 key vk signature sig message :
    VerifyingKey_from_bytes key = Some vk → Signature_from_slice signature = Some sig →
    verifies vk message sig = true → signature_ok key message signature.

Lemma byte_of_Z_land z : byte_of_Z (Z.land z 0xff) = byte_of_Z z.
Proof.
  unfold byte_of_Z. do 3 f_equal. change 0xff%Z with (Z.ones 8). rewrite Z.land_ones by lia.
  change (2 ^ 8)%Z with 256%Z. apply Z.mod_mod. lia.
Qed.

(** The daemon's [to_be_bytes] and the server's [timestampBytes] are the same eight bytes. *)
Lemma timestampBytes_to_be_bytes z : timestampBytes z = to_be_bytes z.
Proof. unfold timestampBytes, to_be_bytes. cbn [fmap list_fmap]. by rewrite !byte_of_Z_land. Qed.

Section CrossService.
Context `{Q : QtCore} `{O : OpenSSL} {QL : QtLaws Q} {OS : OpenSSLSizes O}.
Context `{C : Crates} {SE : SameEd25519 C O}.

(** C31: An approval for the daemon is one for the desktop: the signature with which a device
    approved a challenge of the daemon, sent to the desktop server within the freshness window,
    authorizes the same key there, although the server never issued that challenge. *)
Theorem daemon_approval_authorizes_desktop key nonce ts signature now id s :
  verify_signature key nonce ts signature now = inr tt →
  pairedKeys_ (srv s) !! id = Some key → (Z.abs (ts - reading (wrld s) 0) <= 30)%Z →
  in_range 64 (reading (wrld s) 1 - lastCleanup_ (replayGuard_ (srv s))) →
  token nonce ts ∉ seen_ (replayGuard_ (srv s)) →
  ∃ s', authorize id nonce ts signature s = Some ((true, []), s').
Proof.
  intros (Hn & _ & _ & vk & sig & H1 & H2 & H3)%verify_signature_ok Hk Hf Hr Ht.
  assert (nonce ≠ []) as Hne by (intros ->; done).
  rewrite <- timestampBytes_to_be_bytes in H3.
  destruct (authorize_run id key nonce ts signature s Hk Hne Hf Hr Ht) as [g Hg]; [by eapply same_ed25519|].
  by eexists.
Qed.
End CrossService.

(** *** Witness *)

#[local] Instance ref_same_ed25519 : SameEd25519 ref_Crates ref_OpenSSL.
Proof.
  intros key vk signature sig message [Hk ->]%of_length_Some [Hs ->]%of_length_Some Hv.
  apply bool_decide_eq_true in Hv. unfold signature_ok, ed25519_valid. split_and!; [done|done|].
  cbn. by rewrite decide_True.
Qed.

Definition desktop_approval : list byte := ref_sign demo_signing_key (demo_challenge ++ to_be_bytes demo_time).

Lemma daemon_approval_authorizes_desktop_witness :
  ∃ s', authorize demo_id demo_challenge demo_time desktop_approval demo_paired = Some ((true, []), s').
Proof.
  apply (daemon_approval_authorizes_desktop demo_signing_key demo_challenge demo_time desktop_approval demo_time).
  - vm_eq.
  - exact demo_pairedKey.
  - rewrite demo_reading. unfold demo_time. lia.
  - apply (bool_decide_unpack _). vm_compute. exact I.
  - apply (bool_decide_unpack _). vm_compute. exact I.
Defined.
