(* ===== verification/DaemonMain.v ===== *)
(** * The daemon as a process (src/daemon/src/main.rs, the listeners of server.rs)

    [main] looks at the vault, logs what it finds, and joins two listeners; the
    local one is a Unix socket or, elsewhere, a named pipe.  Each accepted stream is
    a task of [Daemon].  The first listener that fails ends [main]; the runtime then
    cancels the tasks at their next await.  [process_act] is one piece of such a run,
    and [process_runs_daemon] says that it adds and removes nothing: all that is
    proved of [daemon_step] holds of the program. *)
From stdpp Require Import base gmap sets list strings relations.
From Stdlib Require Import ZArith Lia.
From S2P Require Import Prelude Pam Com Daemon DaemonTheorems DaemonScenario.

Abbreviation io_error := Z.

Definition tcp_address : RString := bytes "127.0.0.1:45821".
Definition local_address (unix : bool) : RString :=
  if unix then bytes "/var/run/openbiounlock.sock"
  else [backslash; backslash] ++ bytes "." ++ [backslash] ++ bytes "pipe" ++ [backslash] ++ bytes "OpenBioUnlockPipe".

(** The lines that [main], [run_tcp] and [run_unix] log. *)
Inductive LogLine : Type :=
  | DaemonStarting (now : Z)
  | LoadedKeys (paired_devices : nat)
  | KeysNotLoaded
  | VaultNotOpened
  | ListenerReady (address : RString).

Inductive Phase : Type :=
  | Running
  | Returning (error : io_error)    (* main has returned an error; the runtime shuts down *)
  | Exited (code : Z).

Inductive Port : Type := Tcp | Local.

Section Process.
Context `{C : Crates}.

(** [tcp], [local_]: the listener is bound (the instance of the pipe is there) and waits for a
    client.  [socket_file]: something is at the address of the Unix socket. *)
Record Process : Type := mkProcess {
  tcp : bool;
  local_ : bool;
  socket_file : bool;
  daemon : Daemon;
  output : list LogLine;
  state : Phase;
}.

Definition set_daemon d s := mkProcess (tcp s) (local_ s) (socket_file s) d (output s) (state s).
Definition set_state x s := mkProcess (tcp s) (local_ s) (socket_file s) (daemon s) (output s) x.
Definition set_file b s := mkProcess (tcp s) (local_ s) b (daemon s) (output s) (state s).
Definition add_output l s := mkProcess (tcp s) (local_ s) (socket_file s) (daemon s) (output s ++ l) (state s).
Definition waits (p : Port) (s : Process) : bool := match p with Tcp => tcp s | Local => local_ s end.
Definition set_waits (p : Port) (b : bool) (s : Process) : Process :=
  match p with
  | Tcp => mkProcess b (local_ s) (socket_file s) (daemon s) (output s) (state s)
  | Local => mkProcess (tcp s) b (socket_file s) (daemon s) (output s) (state s)
  end.

(** [since_epoch] in nanoseconds; [None] is the panic of [expect]. *)
Definition unix_time (since_epoch : Z) : option Z :=
  if (since_epoch <? 0)%Z then None else Some (since_epoch / 10 ^ 9)%Z.

(** [opened]: whether [KeyStore::open()] succeeds. *)
Definition vault_line (opened : bool) (v : Vault) : LogLine :=
  if opened then match load_public_keys v with Some keys => LoadedKeys (length keys) | None => KeysNotLoaded end
  else VaultNotOpened.

(** [main] up to the join. *)
Definition main (since_epoch : Z) (opened : bool) (v : Vault) (file : bool) : Process :=
  match unix_time since_epoch with
  | None => mkProcess false false file (new_state v) [] (Exited 101)
  | Some now => mkProcess false false file (new_state v) [DaemonStarting now; vault_line opened v] Running
  end.

(** The beginning of [run_tcp] and [run_unix], and of each round of [run_named_pipe]; [error]:
    what the bind fails with.  [removed]: whether [remove_file] succeeded.  A Unix socket
    cannot be bound where something is. *)
Definition open_listener (unix : bool) (p : Port) (removed : bool) (error : option io_error) (s : Process)
    : option Process :=
  if waits p s then None else
  match p with
  | Tcp =>
      match error with
      | Some e => Some (set_state (Returning e) s)
      | None => Some (add_output [ListenerReady tcp_address] (set_waits Tcp true s))
      end
  | Local =>
      if unix then
        let s := set_file (socket_file s && negb removed) s in
        match error with
        | Some e => Some (set_state (Returning e) s)
        | None =>
            if socket_file s then None
            else Some (add_output [ListenerReady (local_address unix)] (set_file true (set_waits Local true s)))
        end
      else
        match error with
        | Some e => Some (set_state (Returning e) s)
        | None => Some (set_waits Local true s)
        end
  end.

(** One action of the tasks. *)
Definition run (a : Action) (s : Process) : option Process :=
  match act a (daemon s) with Some (_, d) => Some (set_daemon d s) | None => None end.

(** [accept] or [connect]: an error, or a stream, whose task opens the vault.  A pipe serves one
    client; the next round makes the next one. *)
Definition accept_on (unix : bool) (p : Port) (result : io_error + nat * bool) (s : Process) : option Process :=
  if negb (waits p s) then None else
  match result with
  | inl e => Some (set_state (Returning e) s)
  | inr (conn, opened) => run (Accept conn opened) (if unix then s else match p with Tcp => s | Local => set_waits Local false s end)
  end.

Inductive ProcessAction : Type :=
  | OpenListener (p : Port) (removed : bool) (error : option io_error)
  | AcceptOn (p : Port) (result : io_error + nat * bool)
  | Run (a : Action)
  | Exit.

Definition is_accept (a : Action) : bool := match a with Accept _ _ => true | _ => false end.

Definition process_act (unix : bool) (a : ProcessAction) (s : Process) : option Process :=
  match state s, a with
  | Running, OpenListener p removed error => open_listener unix p removed error s
  | Running, AcceptOn p result => accept_on unix p result s
  | (Running | Returning _), Run a => if is_accept a then None else run a s
  | Returning _, Exit => Some (set_state (Exited 1) s)
  | _, _ => None
  end.

Definition process_step (unix : bool) (s s' : Process) : Prop := ∃ a, process_act unix a s = Some s'.

(** ** The process and the daemon *)

Lemma run_step a s s' : run a s = Some s' → daemon_step (daemon s) (daemon s').
Proof. unfold run. intros H. destruct (act a (daemon s)) as [[[] d]|] eqn:E; [|done]. injection H as <-. by exists a. Qed.

Lemma process_step_daemon unix s s' :
  process_step unix s s' → daemon s' = daemon s ∨ daemon_step (daemon s) (daemon s').
Proof.
  intros [[p removed error|p result|a|] H]; unfold process_act, open_listener, accept_on in H;
    repeat case_match; simplify_eq; try (by left); right; by eapply run_step in H.
Qed.

Lemma process_daemon unix s s' : rtc (process_step unix) s s' → rtc daemon_step (daemon s) (daemon s').
Proof.
  induction 1 as [|s1 s2 s3 H _ IH]; [done|]. apply process_step_daemon in H as [E|H]; [by rewrite <- E|by eapply rtc_l].
Qed.

(** A running process with a listener on the TCP port can do what the daemon can. *)
Lemma daemon_process unix s d :
  tcp s = true → state s = Running → rtc daemon_step (daemon s) d →
  ∃ s', rtc (process_step unix) s s' ∧ daemon s' = d.
Proof.
  intros Ht Hs H. remember (daemon s) as d0 eqn:E. induction H as [d1|d1 d2 d3 [a Ha] _ IH] in s, Ht, Hs, E |- *.
  - by exists s.
  - subst d1. assert (process_step unix s (set_daemon d2 s)) as Hstep.
    { destruct (is_accept a) eqn:Ea.
      - destruct a as [conn opened| | | | | | | | | | | | |]; try done. exists (AcceptOn Tcp (inr (conn, opened))).
        unfold process_act, accept_on, waits. rewrite Hs, Ht. unfold run. destruct unix; by rewrite Ha.
      - exists (Run a). unfold process_act, run. rewrite Hs, Ea. by rewrite Ha. }
    destruct (IH (set_daemon d2 s)) as (s' & Hs' & <-); [done..|]. exists s'. split; [by eapply rtc_l|done].
Qed.

(** C36: The program is the daemon: on either platform, whatever it finds in the vault and at the
    address of the socket, and however binding and accepting go, the states its tasks reach are
    exactly those that the interleaved connections of the daemon reach. *)
Theorem process_runs_daemon unix since_epoch opened v file d :
  (0 <= since_epoch)%Z →
  (∃ s, rtc (process_step unix) (main since_epoch opened v file) s ∧ daemon s = d) ↔
  rtc daemon_step (new_state v) d.
Proof.
  intros Ht. unfold main, unix_time. destruct (Z.ltb_spec since_epoch 0) as [|_]; [lia|]. split.
  - intros (s & H & <-). by apply process_daemon in H.
  - intros H. edestruct (daemon_process unix (mkProcess true false file (new_state v)
      [DaemonStarting (since_epoch / 10 ^ 9); vault_line opened v; ListenerReady tcp_address] Running) d)
      as (s' & Hs & Hd); [done..|]. exists s'. split; [|exact Hd].
    eapply rtc_l; [|exact Hs]. by exists (OpenListener Tcp false None).
Qed.

(** ** Starting *)

(** Both listeners wait. *)
Definition started (unix : bool) (now : Z) (opened : bool) (v : Vault) (file : bool) : Process :=
  mkProcess true true (unix || file) (new_state v)
    ([DaemonStarting now; vault_line opened v; ListenerReady tcp_address] ++
      (if unix then [ListenerReady (local_address true)] else [])) Running.

(** Neither the vault nor a socket left over by an earlier daemon keeps the daemon from starting. *)
Lemma daemon_starts unix since_epoch opened v file :
  (0 <= since_epoch)%Z →
  rtc (process_step unix) (main since_epoch opened v file) (started unix (since_epoch / 10 ^ 9) opened v file).
Proof.
  intros Ht. unfold main, unix_time. destruct (Z.ltb_spec since_epoch 0) as [|_]; [lia|].
  eapply rtc_l; [by exists (OpenListener Tcp false None)|]. apply rtc_once. exists (OpenListener Local true None).
  destruct unix; unfold process_act, open_listener; cbn; [|reflexivity]. by rewrite andb_false_r.
Qed.

(** ** One error is the end *)

(** Who was answered was accepted. *)
Definition answered_connected (d : Daemon) : Prop :=
  ∀ conn r, Replied conn r ∈ history d → conn ∈ dom (connections d).

Lemma answered_connected_step d d' : answered_connected d → daemon_step d d' → answered_connected d'.
Proof.
  intros Hd H%daemon_step_transition conn r.
  destruct H as [| | | | | | | |conn' c response Hc _]; cbn; rewrite ?dom_alter_L, ?dom_fmap_L; try exact (Hd conn r).
  - intros Hr%Hd. rewrite dom_insert_L. set_solver.
  - intros [Hr|[=]%list_elem_of_singleton]%elem_of_app. by eapply Hd.
  - intros [Hr|[=]%list_elem_of_singleton]%elem_of_app. by eapply Hd.
  - intros [Hr|[=]%list_elem_of_singleton]%elem_of_app. by eapply Hd.
  - intros [Hr|[= -> ->]%list_elem_of_singleton]%elem_of_app; [by eapply Hd|]. by eapply elem_of_dom_2.
Qed.

(** Only [Accept] makes a task. *)
Lemma act_dom a d u d' :
  is_accept a = false → act a d = Some (u, d') → dom (connections d') = dom (connections d).
Proof.
  intros Ha H. destruct a; try done; cbn [act] in H.
  all: unfold handle_line, handle_pair, handle_authorize, handle_verify, pick_challenge, commit, notify_waiters,
    goto, modify, gets, current, mbind, M_bind, mret, M_ret in H.
  all: repeat case_match; simplify_eq; cbn; rewrite ?dom_alter_L, ?dom_fmap_L; try done.
Qed.

(** What a process is after [main] has returned, when it left the daemon as [d]. *)
Definition ended (d : Daemon) (s : Process) : Prop :=
  ((∃ e, state s = Returning e) ∨ state s = Exited 1) ∧
  dom (connections (daemon s)) = dom (connections d) ∧ answered_connected (daemon s).

Lemma ended_step unix d s s' : ended d s → process_step unix s s' → ended d s'.
Proof.
  intros (Hs & Hdom & Ha) [a H]. unfold process_act in H. destruct Hs as [[e E]|E]; rewrite E in H; [|by destruct a].
  destruct a as [| |a|]; try done; [|injection H as <-; by split; [right|]].
  destruct (is_accept a) eqn:Ea; [done|]. assert (daemon_step (daemon s) (daemon s')) as Hstep by by eapply run_step.
  split_and!; [|rewrite <- Hdom|by eapply answered_connected_step].
  all: unfold run in H; destruct (act a (daemon s)) as [[u d']|] eqn:Ed; [|done]; injection H as <-.
  - left. by exists e.
  - by eapply act_dom.
Qed.

(** One failed [accept], on either listener, ends the daemon: no client that was not connected
    before ever gets an answer, and the process can exit at any time, for good. *)
Theorem failed_accept_ends_daemon unix since_epoch opened v file s p error :
  rtc (process_step unix) (main since_epoch opened v file) s → state s = Running → waits p s = true →
  ∃ s1, process_act unix (AcceptOn p (inl error)) s = Some s1 ∧
    ∀ s2, rtc (process_step unix) s1 s2 →
      (∀ conn r, connections (daemon s) !! conn = None → Replied conn r ∉ history (daemon s2)) ∧
      (∃ s3, rtc (process_step unix) s2 s3 ∧ state s3 = Exited 1 ∧ ∀ s4, ¬ process_step unix s3 s4).
Proof.
  intros H Hs Hp. exists (set_state (Returning error) s). split.
  { unfold process_act, accept_on. by rewrite Hs, Hp. }
  assert (answered_connected (daemon s)) as Hans.
  { apply process_daemon in H. assert (answered_connected (daemon (main since_epoch opened v file))) as H0.
    { intros conn r. unfold main. destruct (unix_time since_epoch); cbn; by intros ?%not_elem_of_nil. }
    revert H0. induction H; [done|]. eauto using answered_connected_step. }
  intros s2 H2. assert (ended (daemon s) s2) as (Hx & Hdom & Ha).
  { assert (ended (daemon s) (set_state (Returning error) s)) as H0 by (split_and!; [by left; exists error|done..]).
    revert H0. induction H2; [done|]. eauto using ended_step. }
  split.
  - intros conn r Hc Hr%Ha. rewrite Hdom in Hr. by apply elem_of_dom in Hr as [? ?]; simplify_eq.
  - exists (set_state (Exited 1) s2). split_and!; [|done|by intros s4 [[] H4]].
    destruct Hx as [[e He]|He].
    + apply rtc_once. exists Exit. unfold process_act. by rewrite He.
    + replace (set_state (Exited 1) s2) with s2; [done|]. destruct s2. cbn in He. by subst.
Qed.
End Process.

(** The clients find the daemon at the addresses it listens on. *)
Lemma clients_know_address : local_address true = initial_socket_path ∧ local_address false = kPipe.
Proof. done. Qed.

(** ** Witnesses *)

Definition demo_boot : Z := demo_clock * 10 ^ 9.

Lemma process_runs_daemon_witness :
  ∃ s, rtc (process_step true) (main demo_boot true no_vault true) s ∧ daemon s = granted.
Proof. apply (process_runs_daemon true demo_boot true no_vault true granted); [by vm_compute|exact granted_steps]. Defined.

(** 24 is EMFILE: too many open files. *)
Lemma failed_accept_ends_daemon_witness :
  ∃ s1, process_act true (AcceptOn Tcp (inl 24%Z)) (started true demo_clock true no_vault true) = Some s1 ∧
    ∀ s2, rtc (process_step true) s1 s2 →
      (∀ conn r, connections fresh_daemon !! conn = None → Replied conn r ∉ history (daemon s2)) ∧
      (∃ s3, rtc (process_step true) s2 s3 ∧ state s3 = Exited 1 ∧ ∀ s4, ¬ process_step true s3 s4).
Proof.
  apply (failed_accept_ends_daemon true demo_boot true no_vault true); [|reflexivity|reflexivity].
  apply (daemon_starts true demo_boot true no_vault true). by vm_compute.
Defined.
