(* ===== verification/WindowsLogin.v ===== *)
(** * A Windows logon from end to end: the credential provider and the daemon

    What [GetSerialization] writes into the pipe, as the daemon reads it: the line is
    a [challenge] request, not an [authorize] request.  So no login is opened for
    it, whatever the daemon and its other clients do, and nothing the daemon may
    answer is read. *)
From stdpp Require Import base gmap sets list strings relations.
From Stdlib Require Import ZArith Lia.
From S2P Require Import Prelude Qt World Reference Pam Com ComTheorems Daemon DaemonTheorems DaemonRuns DaemonPairing DaemonScenario.

(** The request for the challenge of a pending login. *)
Definition challenge_line : RString :=
  bytes "{" ++ quote ++ bytes "type" ++ quote ++ bytes ":" ++ quote ++ bytes "challenge" ++ quote ++ bytes "}".

(** It is what the provider writes. *)
Lemma challenge_text_line : challenge_text = challenge_line ++ [newline].
Proof. by vm_compute. Qed.

(** serde_json: an object whose only member is the tag is read as the unit variant it names. *)
Class SerdeRequest (C : Crates) : Prop :=
  from_str_challenge : from_str challenge_line = inr Request_Challenge.

Section WindowsLogin.
Context `{C : Crates} {SR : SerdeRequest C}.
Implicit Types (d : Daemon).

(** The connection an action belongs to, and whether it is the arrival of a line there. *)
Definition conn_of (a : Action) : option nat :=
  match a with
  | Accept conn _ | Receive conn _ _ _ _ | SetPassword conn | Daemon.Insert conn | Enter conn | Wake conn | Check_ conn
  | Expire conn | Remove conn | PickChallenge conn _ | Commit conn | WriteReply conn _ | Hangup conn => Some conn
  | Tick => None
  end.
Definition receives (conn : nat) (a : Action) : Prop :=
  match a with Receive k _ _ _ _ => k = conn | _ => False end.

(** Neither waiting for a login nor about to answer one. *)
Definition asks_nobody (t : Task) : Prop :=
  match t with
  | Reading | ChallengeLocking | Closed => True
  | Replying (Response_Authorized _) => False
  | Replying _ => True
  | _ => False
  end.

(** A connection whose task asks nobody, and that was answered no login. *)
Definition quiet_conn (conn : nat) d : Prop :=
  (∃ c, connections d !! conn = Some c ∧ asks_nobody (task c)) ∧
  ∀ b, Replied conn (Response_Authorized b) ∉ history d.

Ltac open_act H :=
  unfold handle_line, handle_pair, handle_authorize, handle_verify, pick_challenge, commit, notify_waiters,
    goto, modify, gets, current, mbind, M_bind, mret, M_ret in H;
  repeat case_match; simplify_eq.

(** The actions of the others leave the connection as it is; they may notify it. *)
Lemma act_other conn a d u d' c :
  conn_of a ≠ Some conn → connections d !! conn = Some c → act a d = Some (u, d') →
  (connections d' !! conn = Some c ∨ ∃ n, connections d' !! conn = Some (notify_task n c)) ∧
  (∀ b, Replied conn (Response_Authorized b) ∈ history d' → Replied conn (Response_Authorized b) ∈ history d).
Proof.
  intros Hne Hc H. destruct a; cbn [act conn_of] in H, Hne; open_act H; cbn.
  all: split; [|intros b; try (intros [Hb|Hb%list_elem_of_singleton]%elem_of_app; [|by simplify_eq]); done].
  all: rewrite ?lookup_alter_ne, ?lookup_insert_ne by congruence; try by left.
  right. rewrite lookup_fmap, Hc. by eexists.
Qed.

(** What the connection itself can do as long as no other line arrives. *)
Lemma act_own conn a d u d' c :
  conn_of a = Some conn → ¬ receives conn a → connections d !! conn = Some c → asks_nobody (task c) →
  act a d = Some (u, d') →
  (∃ c', connections d' !! conn = Some c' ∧ asks_nobody (task c')) ∧
  (∀ b, Replied conn (Response_Authorized b) ∈ history d' → Replied conn (Response_Authorized b) ∈ history d).
Proof.
  intros Hconn Hr Hc Ha H. destruct a; cbn [act conn_of receives] in H, Hconn, Hr; simplify_eq; try done; open_act H;
    repeat match goal with E : connections _ !! _ = Some ?x, E' : connections _ !! _ = Some ?y |- _ => rewrite E in E'; injection E' as -> end;
    repeat match goal with E : task ?c = _, Ha : asks_nobody (task ?c) |- _ => rewrite E in Ha end; try done.
  all: match goal with E : connections _ !! _ = Some _ |- _ => cbn; rewrite lookup_alter_eq, E end.
  all: split; [eexists; split; [reflexivity|exact I]|]; intros b; try done.
  intros [Hb|Hb%list_elem_of_singleton]%elem_of_app; [done|]. injection Hb as <-. by destruct Ha.
Qed.

Lemma asks_nobody_notified n c : asks_nobody (task c) → notify_task n c = c.
Proof. unfold notify_task. by destruct (task c). Qed.

Lemma quiet_step conn a d u d' :
  ¬ receives conn a → quiet_conn conn d → act a d = Some (u, d') → quiet_conn conn d'.
Proof.
  intros Hr [(c & Hc & Ha) Hh] H. destruct (decide (conn_of a = Some conn)) as [Ho|Ho].
  - destruct (act_own _ _ _ _ _ _ Ho Hr Hc Ha H) as [Hc' Hh']. split; [done|]. intros b Hb. by eapply Hh, Hh'.
  - destruct (act_other _ _ _ _ _ _ Ho Hc H) as [Hc' Hh']. split; [|intros b Hb; by eapply Hh, Hh'].
    exists c. split; [|done]. destruct Hc' as [Hc'|[n Hc']]; [done|]. by rewrite asks_nobody_notified in Hc'.
Qed.

Lemma quiet_run conn actions d d' :
  Forall (λ a, ¬ receives conn a) actions → quiet_conn conn d → run_actions actions d = Some (tt, d') → quiet_conn conn d'.
Proof.
  intros Hf. revert d. induction Hf as [|a actions Ha _ IH]; intros d Hq H; cbn [run_actions] in H.
  - unfold mret, M_ret in H. by injection H as <-.
  - apply M_bind_Some in H as ([] & d1 & H1 & H). eapply IH; [|exact H]. by eapply quiet_step.
Qed.

(** C40: The Windows logon asks nobody: [GetSerialization] succeeds once it has written its request and
    reports that nothing is finished, and what it wrote is a request for the challenge of some
    other login.  The daemon opens no login for it, and whatever it and its clients do afterwards,
    the connection of the provider never waits for an approval and never gets a decision. *)
Theorem windows_logon_asks_nobody s conn ok d r1 r2 now d1 actions d' :
  connected d conn ok Reading → (∀ b, Replied conn (Response_Authorized b) ∉ history d) →
  act (Receive conn challenge_line r1 r2 now) d = Some (tt, d1) →
  Forall (λ a, ¬ receives conn a) actions → run_actions actions d1 = Some (tt, d') →
  (∃ s', GetSerialization true None true 21 s = Some ((S_OK, Some CPGSR_NO_CREDENTIAL_NOT_FINISHED), s') ∧
     pipe s' = pipe s ++ [PipeOpened kPipe; PipeWritten (challenge_line ++ [newline]); PipeClosed]) ∧
  pending d1 = pending d ∧
  (∃ c, connections d' !! conn = Some c ∧ asks_nobody (task c)) ∧
  ∀ b, Replied conn (Response_Authorized b) ∉ history d'.
Proof.
  intros Hc Hh H1 Hf Hrun. split.
  { eexists. split; [reflexivity|]. by rewrite <- challenge_text_line; cbn [pipe add_pipe]; rewrite <- !app_assoc. }
  assert (d1 = moved conn ChallengeLocking d) as ->.
  { cbn [act] in H1. apply current_bind in H1 as (c & Hc' & H1). unfold connected in Hc. rewrite Hc in Hc'. injection Hc' as <-.
    cbn [task] in H1. destruct (nonce_ok r1 && nonce_ok r2); [|done]. unfold handle_line in H1.
    rewrite from_str_challenge in H1. by injection H1 as <-. }
  split; [done|]. eapply quiet_run; [exact Hf| |exact Hrun]. split; [|done]. cbn.
  rewrite lookup_alter_eq, Hc. by eexists.
Qed.
End WindowsLogin.

(** *** Witness: a login of another client is pending, and its challenge is the answer. *)

#[local] Instance ref_SerdeRequest : SerdeRequest ref_Crates.
Proof. by vm_compute. Qed.

Definition provider_receives : Action := Receive 1 challenge_line None None (λ _, demo_clock).
Definition provider_read : Daemon := ends [provider_receives] waiting.
Definition provider_answered : Daemon := ends [PickChallenge 1 demo_challenge_id; WriteReply 1 true; Hangup 1] provider_read.

Lemma windows_logon_asks_nobody_witness :
  (∃ s', GetSerialization true None true 21 demo_com1 = Some ((S_OK, Some CPGSR_NO_CREDENTIAL_NOT_FINISHED), s') ∧
     pipe s' = pipe demo_com1 ++ [PipeOpened kPipe; PipeWritten (challenge_line ++ [newline]); PipeClosed]) ∧
  pending provider_read = pending waiting ∧
  (∃ c, connections provider_answered !! 1 = Some c ∧ asks_nobody (task c)) ∧
  ∀ b, Replied 1 (Response_Authorized b) ∉ history provider_answered.
Proof.
  apply (windows_logon_asks_nobody demo_com1 1 true waiting None None (λ _, demo_clock) provider_read
    [PickChallenge 1 demo_challenge_id; WriteReply 1 true; Hangup 1] provider_answered).
  - vm_compute. reflexivity.
  - assert (history waiting = [Issued demo_challenge_id demo_challenge demo_clock]) as -> by vm_eq.
    by intros b [=]%list_elem_of_singleton.
  - apply (ends_act provider_receives). vm_compute. reflexivity.
  - repeat constructor; intros [].
  - apply ends_run. vm_compute. reflexivity.
Defined.
