(* ===== verification/Mobile.v ===== *)
(** * The phone (src/mobile/lib: crypto_service.dart, main.dart, ble_service.dart)

    The app that pairs with the workstation: [CryptoService] with its keys, the
    pairing flow [pairFromQr] over one socket, the payload of the QR code, and the
    filter of the proximity scan.  A Dart computation changes the [Phone] and
    ends with a value or an exception ([D]).  The packages the app uses
    (cryptography, local_auth, flutter_secure_storage) and the codecs of
    dart:convert are the interface [Packages]; what the platform answers is
    [Env].  Strings are UTF-16, [int] is [Z].  The flows are sequences here;
    [MobileAsync] cuts the calls of [CryptoService] at their awaits, and
    [Proximity] those of the proximity switch. *)
From stdpp Require Import base gmap sets list strings.
From Stdlib Require Import ZArith Lia.
From S2P Require Import Prelude Qt.

Abbreviation DartString := (list N).
Abbreviation JsonMap := (gmap DartString QJsonValue).

Definition dart (s : string) : DartString := QStringLiteral s.

(** What [jsonDecode] returns: a [Map<String, dynamic>] or any other value. *)
Inductive Dynamic : Type :=
  | DMap (m : JsonMap)
  | DOther (v : QJsonValue).

(** ** Exceptions *)

Inductive Exn : Type :=
  | StateError (message : DartString)
  | FormatException (message : DartString)
  | ArgumentError (message : DartString)
  | SocketException (message : DartString)
  | TypeError (text : DartString)        (* a failed cast or null check *)
  | Thrown (text : DartString).          (* any exception of a package or a timeout *)

(** [toString] of an exception. *)
Definition exn_toString (e : Exn) : DartString :=
  match e with
  | StateError message => dart "Bad state: " ++ message
  | FormatException message => dart "FormatException: " ++ message
  | ArgumentError message => dart "Invalid argument(s): " ++ message
  | SocketException message => dart "SocketException: " ++ message
  | TypeError text | Thrown text => text
  end.

(** ** The packages *)

Class Packages : Type := {
  (** [jsonDecode], with the message of its [FormatException]; [jsonEncode] of a map literal *)
  jsonDecode : DartString → DartString + Dynamic;
  jsonEncode : list (string * QJsonValue) → DartString;
  utf8_encode : DartString → list byte;
  utf8_decode : list byte → DartString + DartString;
  int_toString : Z → DartString;
  (** the text of a [TypeError] *)
  cast_text : DartString;
  (** package cryptography *)
  ed25519_public : list byte → list byte;
  ed25519_sign : list byte → list byte → list byte;
  x25519_public : list byte → list byte;
  x25519_shared : list byte → list byte → Exn + list byte;
  (** cipher text and tag, for key, nonce, associated data and text *)
  aes_encrypt : list byte → list byte → list byte → list byte → list byte * list byte;
  aes_decrypt : list byte → list byte → list byte → list byte → list byte → Exn + list byte;
}.

(** What the platform answers: fresh seeds, random bytes, the biometric prompt, and whether
    the secure storage fails for a key. *)
Record Env : Type := mkEnv {
  new_ed25519 : list byte;
  new_x25519 : list byte;
  random12 : nat → list byte;
  authenticate : Exn + bool;
  read_fails : DartString → option Exn;
  write_fails : DartString → option Exn;
  close_fails : option Exn;
}.

(** ** The state of the app *)

(** [incoming]: the chunks the open socket will still deliver; an exception among them is an
    error of the stream or the timeout of the wait; the end of the list is the end of the
    stream.  [listened]: the stream of the socket has had its one listener. *)
Record Phone : Type := mkPhone {
  storage : gmap DartString DartString;
  keyPair : option (list byte);            (* the seed *)
  exchangeKeyPair : option (list byte);
  sessionKey : option (list byte);
  nonces : nat;
  prompts : nat;                           (* biometric prompts shown *)
  incoming : list (Exn + list byte);
  listened : bool;
  written : list DartString;               (* what was written to sockets *)
  status : DartString;
}.

Definition set_storage f p := mkPhone (f (storage p)) (keyPair p) (exchangeKeyPair p) (sessionKey p) (nonces p) (prompts p) (incoming p) (listened p) (written p) (status p).
Definition set_keyPair k p := mkPhone (storage p) (Some k) (exchangeKeyPair p) (sessionKey p) (nonces p) (prompts p) (incoming p) (listened p) (written p) (status p).
Definition set_exchangeKeyPair k p := mkPhone (storage p) (keyPair p) (Some k) (sessionKey p) (nonces p) (prompts p) (incoming p) (listened p) (written p) (status p).
Definition set_sessionKey k p := mkPhone (storage p) (keyPair p) (exchangeKeyPair p) (Some k) (nonces p) (prompts p) (incoming p) (listened p) (written p) (status p).
Definition draw_nonce p := mkPhone (storage p) (keyPair p) (exchangeKeyPair p) (sessionKey p) (S (nonces p)) (prompts p) (incoming p) (listened p) (written p) (status p).
Definition prompted p := mkPhone (storage p) (keyPair p) (exchangeKeyPair p) (sessionKey p) (nonces p) (S (prompts p)) (incoming p) (listened p) (written p) (status p).
Definition open_socket l p := mkPhone (storage p) (keyPair p) (exchangeKeyPair p) (sessionKey p) (nonces p) (prompts p) l false (written p) (status p).
Definition set_listened l p := mkPhone (storage p) (keyPair p) (exchangeKeyPair p) (sessionKey p) (nonces p) (prompts p) l true (written p) (status p).
Definition add_written t p := mkPhone (storage p) (keyPair p) (exchangeKeyPair p) (sessionKey p) (nonces p) (prompts p) (incoming p) (listened p) (written p ++ [t]) (status p).
Definition set_status t p := mkPhone (storage p) (keyPair p) (exchangeKeyPair p) (sessionKey p) (nonces p) (prompts p) (incoming p) (listened p) (written p) t.

(** ** Computations *)

Definition D (A : Type) : Type := Phone → (Exn + A) * Phone.

#[export] Instance D_ret : MRet D := λ A a p, (inr a, p).
#[export] Instance D_bind : MBind D := λ A B f m p,
  match m p with
  | (inl e, p) => (inl e, p)
  | (inr a, p) => f a p
  end.

Definition throw {A} (e : Exn) : D A := λ p, (inl e, p).
Definition lift {A} (r : Exn + A) : D A := λ p, (r, p).
Definition look {A} (f : Phone → A) : D A := λ p, (inr (f p), p).
Definition update (f : Phone → Phone) : D unit := λ p, (inr tt, f p).
Definition unless (e : option Exn) : D unit := λ p, (match e with Some e => inl e | None => inr tt end, p).
(** [try { m } catch (error) { handler }] *)
Definition catch (m : D unit) (handler : Exn → D unit) : D unit := λ p,
  match m p with
  | (inl e, p) => handler e p
  | (inr tt, p) => (inr tt, p)
  end.

(** ** Hexadecimal *)

Definition hex_digit_of (n : N) : N := (if n <? 10 then 48 + n else 87 + n)%N.

(** [byte.toRadixString(16)] *)
Definition toRadixString16 (b : byte) : DartString :=
  let n := Byte.to_N b in
  if (n <? 16)%N then [hex_digit_of n] else [hex_digit_of (n / 16); hex_digit_of (n mod 16)]%N.

Definition padLeft (width : nat) (pad : N) (s : DartString) : DartString :=
  replicate (width - length s) pad ++ s.

Definition _hex (bytes : list byte) : DartString := bytes ≫= λ b, padLeft 2 48%N (toRadixString16 b).

(** The white space [int.tryParse] skips. *)
Definition dart_space (c : N) : bool :=
  ((9 <=? c) && (c <=? 13) || (c =? 0x20) || (c =? 0x85) || (c =? 0xA0) || (c =? 0x1680)
   || (0x2000 <=? c) && (c <=? 0x200A) || (c =? 0x2028) || (c =? 0x2029) || (c =? 0x202F)
   || (c =? 0x205F) || (c =? 0x3000) || (c =? 0xFEFF))%N.

Fixpoint skip_spaces (s : DartString) : DartString :=
  match s with
  | c :: rest => if dart_space c then skip_spaces rest else s
  | [] => []
  end.

Definition digit_value (c : N) : option Z :=
  (if (48 <=? c) && (c <=? 57) then Some (Z.of_N c - 48)%Z
   else if (97 <=? c) && (c <=? 102) then Some (Z.of_N c - 87)%Z
   else if (65 <=? c) && (c <=? 70) then Some (Z.of_N c - 55)%Z
   else None)%N.

Definition digits_value (s : DartString) : option Z :=
  match s with
  | [] => None
  | _ => foldl (λ acc c, a ← acc; d ← digit_value c; Some (16 * a + d)%Z) (Some 0%Z) s
  end.

(** [int.tryParse(s, radix: 16)] *)
Definition int_tryParse16 (s : DartString) : option Z :=
  match reverse (skip_spaces (reverse (skip_spaces s))) with
  | 43%N :: digits => digits_value digits
  | 45%N :: digits => Z.opp <$> digits_value digits
  | digits => digits_value digits
  end.

(** The loop of [_fromHex] over a string of even length; [Uint8List.fromList] keeps the low
    eight bits. *)
Fixpoint fromHex_loop (s : DartString) : option (list byte) :=
  match s with
  | a :: b :: rest =>
      z ← int_tryParse16 [a; b];
      bytes ← fromHex_loop rest;
      Some (byte_of_Z z :: bytes)
  | _ => Some []
  end.

(** [_fromHex], and [_decodeHex] of main.dart, which throws with another message. *)
Definition fromHexOr (message : string) (s : DartString) : Exn + list byte :=
  if Nat.odd (length s) then inl (FormatException (dart message))
  else
    match fromHex_loop s with
    | Some bytes => inr bytes
    | None => inl (FormatException (dart message))
    end.
Definition _fromHex : DartString → Exn + list byte := fromHexOr "invalid signing key encoding".
Definition _decodeHex : DartString → Exn + list byte := fromHexOr "invalid hexadecimal value".

(** [ByteData.setUint64(0, value, Endian.big)] *)
Definition _u64be (value : Z) : list byte :=
  (λ i, byte_of_Z (Z.shiftr value (8 * i))) <$> [7; 6; 5; 4; 3; 2; 1; 0]%Z.

(** [==] of a dynamic value with a string and with [true]. *)
Definition equals_string (v : option QJsonValue) (s : DartString) : bool :=
  match v with Some (JString t) => bool_decide (t = s) | _ => false end.
Definition equals_true (v : option QJsonValue) : bool :=
  match v with Some (JBool b) => b | _ => false end.

(** ** CryptoService *)

Section Phone.
Context `{K : Packages}.

Definition cast_error {A} : D A := throw (TypeError cast_text).

(** [value as String], [value!] *)
Definition as_string (v : option QJsonValue) : D DartString :=
  match v with Some (JString s) => mret s | _ => cast_error end.
Definition as_int (v : option QJsonValue) : D Z :=
  match v with Some (JInteger z) => mret z | _ => cast_error end.
Definition as_map (d : Dynamic) : D JsonMap :=
  match d with DMap m => mret m | DOther _ => cast_error end.
Definition non_null {A} (o : option A) : D A :=
  match o with Some a => mret a | None => cast_error end.
Definition json_of (s : DartString) : D Dynamic :=
  match jsonDecode s with
  | inl message => throw (FormatException message)
  | inr d => mret d
  end.
Definition utf8_of (bytes : list byte) : D DartString :=
  match utf8_decode bytes with
  | inl message => throw (FormatException message)
  | inr s => mret s
  end.

Definition ed25519_key : DartString := dart "openbiounlock.ed25519.seed".
Definition x25519_key : DartString := dart "openbiounlock.x25519.seed".

Definition storage_read (env : Env) (key : DartString) : D (option DartString) :=
  unless (read_fails env key) ;; look (λ p, storage p !! key).
Definition storage_write (env : Env) (key value : DartString) : D unit :=
  unless (write_fails env key) ;; update (set_storage <[key := value]>).

Definition initialize (env : Env) : D unit :=
  known ← look keyPair;
  match known with
  | Some _ => mret tt
  | None =>
    encodedSeed ← storage_read env ed25519_key;
    match encodedSeed with
    | None =>
        storage_write env ed25519_key (_hex (new_ed25519 env)) ;;
        update (set_keyPair (new_ed25519 env))
    | Some text =>
        seed ← lift (_fromHex text);
        if length seed =? 32 then update (set_keyPair seed)
        else throw (StateError (dart "stored signing key has invalid length"))
    end ;;
    exchangeSeed ← storage_read env x25519_key;
    match exchangeSeed with
    | None =>
        update (set_exchangeKeyPair (new_x25519 env)) ;;
        storage_write env x25519_key (_hex (new_x25519 env))
    | Some text =>
        seed ← lift (_fromHex text);
        if length seed =? 32 then update (set_exchangeKeyPair seed)
        else throw (StateError (dart "stored exchange key has invalid length"))
    end
  end.

Definition signChallenge (env : Env) (nonce : list byte) (timestamp : Z) : D (list byte) :=
  if negb (length nonce =? 32) then throw (ArgumentError (dart "nonce must be 32 bytes"))
  else
    initialize env ;;
    update prompted ;;
    authenticated ← lift (authenticate env);
    if negb authenticated then throw (StateError (dart "biometric approval denied"))
    else
      pair ← look keyPair;
      seed ← non_null pair;
      mret (ed25519_sign seed (nonce ++ _u64be timestamp)).

Definition publicKey (env : Env) : D (list byte) :=
  initialize env ;; pair ← look keyPair; seed ← non_null pair; mret (ed25519_public seed).
Definition exchangePublicKey (env : Env) : D (list byte) :=
  initialize env ;; pair ← look exchangeKeyPair; seed ← non_null pair; mret (x25519_public seed).

Definition establishSession (env : Env) (workstationKey : DartString) : D unit :=
  initialize env ;;
  keyBytes ← lift (_fromHex workstationKey);
  if negb (length keyBytes =? 32) then throw (FormatException (dart "invalid workstation exchange key"))
  else
    pair ← look exchangeKeyPair;
    seed ← non_null pair;
    shared ← lift (x25519_shared seed keyBytes);
    update (set_sessionKey shared).

Definition encryptEnvelope (env : Env) (deviceId : DartString) (payload : list (string * QJsonValue))
    : D (list (string * QJsonValue)) :=
  key ← look sessionKey;
  match key with
  | None => throw (StateError (dart "secure session has not been established"))
  | Some key =>
      n ← look nonces;
      update draw_nonce ;;
      let nonce := random12 env n in
      let '(cipherText, mac) := aes_encrypt key nonce (utf8_encode deviceId) (utf8_encode (jsonEncode payload)) in
      mret [("type", JString (dart "secure")); ("device_id", JString deviceId);
            ("nonce", JString (_hex nonce)); ("ciphertext", JString (_hex cipherText));
            ("tag", JString (_hex mac))]
  end.

Definition decryptEnvelope (deviceId : DartString) (envelope : JsonMap) : D JsonMap :=
  key ← look sessionKey;
  match key with
  | Some key =>
      if negb (equals_string (envelope !! dart "type") (dart "secure"))
         || negb (equals_string (envelope !! dart "device_id") deviceId)
      then throw (FormatException (dart "invalid secure envelope"))
      else
        ciphertext ← (s ← as_string (envelope !! dart "ciphertext"); lift (_fromHex s));
        nonce ← (s ← as_string (envelope !! dart "nonce"); lift (_fromHex s));
        mac ← (s ← as_string (envelope !! dart "tag"); lift (_fromHex s));
        clear ← lift (aes_decrypt key nonce (utf8_encode deviceId) ciphertext mac);
        text ← utf8_of clear;
        value ← json_of text;
        match value with
        | DMap m => mret m
        | DOther _ => throw (FormatException (dart "invalid decrypted payload"))
        end
  | None => throw (FormatException (dart "invalid secure envelope"))
  end.

(** ** The QR payload *)

Record PairingPayload : Type := mkPayload {
  host : DartString;
  portNumber : Z;
  pcId : DartString;
  pcKey : DartString;
  pairingCode : DartString;
}.

(** [value['version'] != 1], negated: the integer or the double 1. *)
Definition is_one (v : option QJsonValue) : bool :=
  match v with
  | Some (JInteger z) => bool_decide (z = 1%Z)
  | Some (JDouble bits) => bool_decide (bits = 0x3FF0000000000000%Z)
  | _ => false
  end.

Definition PairingPayload_fromRaw (raw : DartString) : Exn + PairingPayload :=
  match jsonDecode raw with
  | inl message => inl (FormatException message)
  | inr (DOther _) => inl (TypeError cast_text)
  | inr (DMap value) =>
      match value !! dart "host", value !! dart "port", value !! dart "x25519_public_key",
            value !! dart "pc_id", value !! dart "pairing_code" with
      | Some (JString host), Some (JInteger port), Some (JString key), Some (JString pcId), Some (JString code) =>
          if negb (is_one (value !! dart "version")) || (port <? 1)%Z || (65535 <? port)%Z || isEmpty pcId
             || negb (length key =? 64) || isEmpty code
          then inl (FormatException (dart "invalid OpenBioUnlock pairing code"))
          else inr (mkPayload host port pcId key code)
      | _, _, _, _, _ => inl (FormatException (dart "invalid OpenBioUnlock pairing code"))
      end
  end.

(** ** PairingScanner *)

(** [popped]: what the scanner page returned; [snackBars]: how often it showed an error. *)
Record Scanner : Type := mkScanner { handled : bool; cameraPaused : bool; popped : list PairingPayload; snackBars : nat }.

Definition Scanner_new : Scanner := mkScanner false false [] 0.

(** The listener of [scannedDataStream]; [code] is [scan.code]. *)
Definition onScan (mounted : bool) (code : option DartString) (s : Scanner) : Scanner :=
  match code with
  | None => s
  | Some raw =>
      if handled s then s
      else match PairingPayload_fromRaw raw with
           | inr payload =>
               mkScanner true true (if mounted then popped s ++ [payload] else popped s) (snackBars s)
           | inl _ => mkScanner (handled s) (cameraPaused s) (popped s) (if mounted then S (snackBars s) else snackBars s)
           end
  end.

(** ** HomePage *)

(** The loop of [_readLine] over the chunks. *)
Fixpoint await_line (bytes : list byte) (chunks : list (Exn + list byte)) : (Exn + list byte) * list (Exn + list byte) :=
  match chunks with
  | [] => (inl (SocketException (dart "connection closed before a complete response was received")), [])
  | inl e :: rest => (inl e, rest)
  | inr chunk :: rest =>
      let bytes := bytes ++ chunk in
      match index_of newline bytes with
      | Some end_ => (inr (take end_ bytes), rest)
      | None => await_line bytes rest
      end
  end.

(** [_readLine]: [await for] listens to the socket, which is a single-subscription stream: it
    can be listened to once in its life, also after the subscription has been cancelled. *)
Definition _readLine : D DartString :=
  taken ← look listened;
  if taken : bool then throw (StateError (dart "Stream has already been listened to."))
  else
    chunks ← look incoming;
    let '(r, rest) := await_line [] chunks in
    update (set_listened rest) ;;
    line ← lift r;
    utf8_of line.

Definition socket_write (line : DartString) : D unit := update (add_written (line ++ [10%N])).

Definition setState (text : DartString) : D unit := update (set_status text).

(** [jsonDecode(response)['accepted'] == true] *)
Definition accepted_of (d : Dynamic) : D bool :=
  match d with
  | DMap m => mret (equals_true (m !! dart "accepted"))
  | DOther _ => cast_error
  end.

(** The exchange after the device was accepted. *)
Definition prove (env : Env) (deviceId : DartString) : D bool :=
  challengeRequest ← encryptEnvelope env deviceId [("type", JString (dart "challenge"))];
  socket_write (jsonEncode challengeRequest) ;;
  challengeLine ← _readLine;
  challenge ← (d ← json_of challengeLine; m ← as_map d; decryptEnvelope deviceId m);
  nonceText ← as_string (challenge !! dart "nonce");
  nonce ← lift (_decodeHex nonceText);
  timestamp ← as_int (challenge !! dart "timestamp");
  signature ← signChallenge env nonce timestamp;
  verifyRequest ← encryptEnvelope env deviceId
    [("type", JString (dart "verify")); ("nonce", JString nonceText);
     ("timestamp", JInteger timestamp); ("signature", JString (_hex signature))];
  socket_write (jsonEncode verifyRequest) ;;
  authorizationLine ← _readLine;
  authorized ← (d ← json_of authorizationLine; m ← as_map d; decryptEnvelope deviceId m);
  mret (equals_true (authorized !! dart "authorized")).

Definition pair_request_of (key exchangeKey : list byte) (code : DartString) : list (string * QJsonValue) :=
  [("type", JString (dart "pair")); ("device_id", JString (_hex key)); ("public_key", JString (_hex key));
   ("x25519_public_key", JString (_hex exchangeKey)); ("pairing_code", JString code)].

(** The [try] block of [pairFromQr].  [connect]: the exception of [Socket.connect], or what the
    socket will deliver; [mounted]: whether the page is still there when it is asked. *)
Definition pair_with (env : Env) (connect : Exn + list (Exn + list byte)) (mounted : bool)
    (result : PairingPayload) : D unit :=
  key ← publicKey env;
  exchangeKey ← exchangePublicKey env;
  establishSession env (pcKey result) ;;
  chunks ← lift connect;
  update (open_socket chunks) ;;
  socket_write (jsonEncode (pair_request_of key exchangeKey (pairingCode result))) ;;
  response ← _readLine;
  accepted ← (d ← json_of response; accepted_of d);
  if accepted : bool then
    authorized ← prove env (_hex key);
    if negb mounted then mret tt
    else
      setState (if authorized : bool then dart "PC paired and challenge verified"
                else dart "PC paired, challenge rejected") ;;
      unless (close_fails env)
  else
    unless (close_fails env) ;;
    if mounted then setState (dart "Pairing rejected") else mret tt.

Definition pairFromQr (env : Env) (connect : Exn + list (Exn + list byte)) (mounted : bool)
    (result : option PairingPayload) : D unit :=
  match result with
  | None => mret tt
  | Some result =>
      catch (pair_with env connect mounted result) (λ error,
        if mounted then setState (dart "Pairing failed: " ++ exn_toString error) else mret tt)
  end.

(** [now]: the clock in seconds. *)
Definition testBiometric (env : Env) (now : Z) : D unit :=
  catch (signature ← signChallenge env (replicate 32 nul) now;
         setState (dart "Signed " ++ int_toString (Z.of_nat (length signature)) ++ dart "-byte challenge"))
    (λ error, setState (exn_toString error)).
End Phone.

(** ** BleService *)

(** A scan result: the device, whether it advertises the service, its signal strength. *)
Record ScanResult : Type := mkScanResult { remoteId : DartString; has_service : bool; rssi : Z }.

Record ProximityEvent : Type := mkProximityEvent { ev_device : DartString; ev_rssi : Z; ev_nearby : bool }.

(** The body of the loop over the results: the map [_nearby] and the events added. *)
Definition on_result (nearThreshold farThreshold : Z) (st : gmap DartString bool * list ProximityEvent)
    (result : ScanResult) : gmap DartString bool * list ProximityEvent :=
  let '(nearby_, events) := st in
  if negb (has_service result) then (nearby_, events)
  else
    let previous := default false (nearby_ !! remoteId result) in
    let nearby := if previous : bool then (farThreshold <=? rssi result)%Z else (nearThreshold <=? rssi result)%Z in
    (<[remoteId result := nearby]> nearby_, events ++ [mkProximityEvent (remoteId result) (rssi result) nearby]).

Definition onScanResults (nearThreshold farThreshold : Z) (results : list ScanResult)
    (st : gmap DartString bool * list ProximityEvent) : gmap DartString bool * list ProximityEvent :=
  foldl (on_result nearThreshold farThreshold) st results.

(** [stop] clears [_nearby]. *)
Definition BleService_stop (st : gmap DartString bool * list ProximityEvent)
    : gmap DartString bool * list ProximityEvent := (∅, snd st).
