(* ===== verification/MobileTheorems.v ===== *)
(** * The phone: what it keeps, signs and reports

    The keys survive a restart, a signature needs the biometric approval, the
    proximity filter is a hysteresis, and no pairing flow gets past its second
    line, because a Dart socket has a single listener in its life. *)
From stdpp Require Import base gmap sets list strings.
From Stdlib Require Import ZArith Lia.
From S2P Require Import Prelude Qt Server Mobile.

(** ** Hexadecimal *)

Lemma hex_byte b : ∃ c1 c2, padLeft 2 48%N (toRadixString16 b) = [c1; c2] ∧ byte_of_Z <$> int_tryParse16 [c1; c2] = Some b.
Proof. destruct b; eexists _, _; (split; [vm_compute; reflexivity|vm_compute; reflexivity]). Qed.

Lemma hex_cons b l : _hex (b :: l) = padLeft 2 48%N (toRadixString16 b) ++ _hex l.
Proof. done. Qed.

Lemma hex_length l : length (_hex l) = 2 * length l.
Proof.
  induction l as [|b l IH]; [done|]. rewrite hex_cons, length_app, IH.
  destruct (hex_byte b) as (c1 & c2 & -> & _). simpl. lia.
Qed.

Lemma fromHex_loop_hex l : fromHex_loop (_hex l) = Some l.
Proof.
  induction l as [|b l IH]; [done|]. rewrite hex_cons.
  destruct (hex_byte b) as (c1 & c2 & -> & E). cbn [app fromHex_loop]. rewrite IH.
  destruct (int_tryParse16 [c1; c2]) as [z|]; [|done]. simpl in *. by injection E as ->.
Qed.

Lemma fromHexOr_hex message l : fromHexOr message (_hex l) = inr l.
Proof.
  unfold fromHexOr. rewrite fromHex_loop_hex.
  replace (Nat.odd (length (_hex l))) with false; [done|].
  rewrite hex_length, Nat.odd_mul. done.
Qed.

(** ** Reasoning about computations *)

Definition ends {A} (m : D A) (p : Phone) (P : Exn + A → Phone → Prop) : Prop := P (m p).1 (m p).2.

Section Ends.
Context {A B : Type}.
Implicit Types (m : D A) (p : Phone) (P : Exn + B → Phone → Prop).

Lemma ends_bind m (f : A → D B) p P :
  ends m p (λ r p', match r with inl e => P (inl e) p' | inr a => ends (f a) p' P end) → ends (m ≫= f) p P.
Proof. unfold ends, mbind, D_bind. by destruct (m p) as [[e|a] p']. Qed.

Lemma ends_mono m p (P1 P2 : Exn + A → Phone → Prop) :
  (∀ r p', P1 r p' → P2 r p') → ends m p P1 → ends m p P2.
Proof. unfold ends. auto. Qed.

Lemma ends_at m p (P : Exn + A → Phone → Prop) r p' : ends m p P → m p = (r, p') → P r p'.
Proof. unfold ends. intros H E. by rewrite E in H. Qed.

Lemma bind_value m (f : A → D B) p a p' : m p = (inr a, p') → (m ≫= f) p = f a p'.
Proof. unfold mbind, D_bind. by intros ->. Qed.

Lemma bind_throws m (f : A → D B) p e p' : m p = (inl e, p') → (m ≫= f) p = (inl e, p').
Proof. unfold mbind, D_bind. by intros ->. Qed.
End Ends.

(** Open the operations of a computation that do not call a function of the program. *)
Ltac dart_step :=
  lazymatch goal with
  | |- ends (mbind _ _) _ _ => apply ends_bind
  | |- ends (match ?x with _ => _ end) _ _ => destruct x eqn:?
  | |- ends (mret _) _ _ => unfold ends, mret, D_ret; cbn [fst snd]
  | |- ends (throw _) _ _ => unfold ends, throw; cbn [fst snd]
  | |- ends (look _) _ _ => unfold ends at 1, look; cbn [fst snd]
  | |- ends (update _) _ _ => unfold ends at 1, update; cbn [fst snd]
  | |- ends (lift ?r) _ _ => unfold ends at 1, lift; cbn [fst snd]; try destruct r eqn:?
  | |- ends (unless ?e) _ _ => unfold ends at 1, unless; cbn [fst snd]; destruct e eqn:?
  end.
Ltac dart_steps := repeat (dart_step; cbn beta iota).

Section Phone.
Context `{K : Packages}.
Implicit Types (p : Phone) (env : Env).

(** ** What leaves the visible state alone *)

(** Nothing was shown, written, asked or listened to. *)
Definition calm p p' : Prop :=
  prompts p' = prompts p ∧ listened p' = listened p ∧ incoming p' = incoming p ∧
  written p' = written p ∧ status p' = status p.

#[export] Instance calm_preorder : PreOrder calm.
Proof. split; [done|]. unfold calm. intros ???. naive_solver congruence. Qed.

Definition is_calm {A} (m : D A) : Prop := ∀ p, ends m p (λ _ p', calm p p').

Lemma calm_bind {A B} (m : D A) (f : A → D B) : is_calm m → (∀ a, is_calm (f a)) → is_calm (m ≫= f).
Proof.
  intros Hm Hf p. apply ends_bind. eapply ends_mono; [|apply Hm]. intros [e|a] p' H; [done|].
  eapply ends_mono; [|apply Hf]. intros r p''. by etrans.
Qed.

Lemma calm_unless e : is_calm (unless e).
Proof. by intros p. Qed.
Lemma calm_lift {A} (r : Exn + A) : is_calm (lift r).
Proof. by intros p. Qed.
Lemma calm_ret {A} (a : A) : is_calm (mret a).
Proof. by intros p. Qed.
Lemma calm_throw {A} e : is_calm (throw (A := A) e).
Proof. by intros p. Qed.
Lemma calm_look {A} (f : Phone → A) : is_calm (look f).
Proof. by intros p. Qed.
Lemma calm_update f : (∀ p, calm p (f p)) → is_calm (update f).
Proof. intros H p. apply H. Qed.
End Phone.

Create HintDb calm discriminated.
#[export] Hint Resolve calm_unless calm_lift calm_ret calm_throw calm_look : calm.

Ltac calm_step :=
  lazymatch goal with
  | |- is_calm (mbind _ _) => apply calm_bind; [|intros ?]
  | |- is_calm (match ?x with _ => _ end) => destruct x
  | |- is_calm (update _) => apply calm_update; intros ?; done
  | |- is_calm _ => solve [auto with calm]
  end.
Ltac calm := repeat (calm_step; cbn beta iota).

Section Calm.
Context `{K : Packages}.

Lemma initialize_calm env : is_calm (initialize env).
Proof. unfold initialize, storage_read, storage_write. calm. Qed.
#[local] Hint Resolve initialize_calm : calm.

Lemma non_null_calm {A} (o : option A) : is_calm (non_null o).
Proof. unfold non_null, cast_error. calm. Qed.
#[local] Hint Resolve non_null_calm : calm.

Lemma publicKey_calm env : is_calm (publicKey env).
Proof. unfold publicKey. calm. Qed.

Lemma exchangePublicKey_calm env : is_calm (exchangePublicKey env).
Proof. unfold exchangePublicKey. calm. Qed.

Lemma establishSession_calm env key : is_calm (establishSession env key).
Proof. unfold establishSession. calm. Qed.

Lemma encryptEnvelope_calm env id payload : is_calm (encryptEnvelope env id payload).
Proof. unfold encryptEnvelope. calm. Qed.

Lemma json_of_calm s : is_calm (json_of s).
Proof. unfold json_of. calm. Qed.

Lemma accepted_of_calm d : is_calm (accepted_of d).
Proof. unfold accepted_of, cast_error. calm. Qed.

Lemma utf8_of_calm bytes : is_calm (utf8_of bytes).
Proof. unfold utf8_of. calm. Qed.
End Calm.
#[export] Hint Resolve initialize_calm publicKey_calm exchangePublicKey_calm establishSession_calm
  encryptEnvelope_calm json_of_calm accepted_of_calm utf8_of_calm : calm.

Section Pairing.
Context `{K : Packages}.
Implicit Types (p : Phone) (env : Env).

(** ** How far a pairing flow gets *)

(** At most [n] more lines were written, and nothing was asked or shown. *)
Definition reached (n : nat) p p' : Prop :=
  prompts p' = prompts p ∧ status p' = status p ∧ ∃ lines, written p' = written p ++ lines ∧ length lines ≤ n.

Lemma calm_reached p p' : calm p p' → reached 0 p p'.
Proof. intros (H1 & _ & _ & H2 & H3). split_and!; [done..|]. exists []. by rewrite app_nil_r. Qed.

Lemma reached_trans n m p p' p'' : reached n p p' → reached m p' p'' → reached (n + m) p p''.
Proof.
  intros (H1 & H2 & l1 & H3 & H4) (H5 & H6 & l2 & H7 & H8). split_and!; [congruence..|].
  exists (l1 ++ l2). rewrite H7, H3, app_assoc, length_app. split; [done|lia].
Qed.

Lemma reached_le n m p p' : n ≤ m → reached n p p' → reached m p p'.
Proof. intros Hn (H1 & H2 & l & H3 & H4). split_and!; [done..|]. exists l. split; [done|lia]. Qed.

Lemma reached_write n p p' t : reached n p p' → reached (S n) p (add_written t p').
Proof.
  intros (H1 & H2 & l & H3 & H4). split_and!; [done..|]. exists (l ++ [t]).
  cbn. rewrite H3, app_assoc, length_app. cbn. split; [done|lia].
Qed.

(** Run a calm computation and go on. *)
Lemma ends_calm {A B} (m : D A) (f : A → D B) p (P : Exn + B → Phone → Prop) :
  is_calm m → (∀ e p', calm p p' → P (inl e) p') → (∀ a p', calm p p' → ends (f a) p' P) → ends (m ≫= f) p P.
Proof.
  intros Hm He Hf. apply ends_bind. eapply ends_mono; [|apply Hm]. intros [e|a] p'; [apply He|apply Hf].
Qed.

Lemma readLine_used p : listened p = true →
  _readLine p = (inl (StateError (dart "Stream has already been listened to.")), p).
Proof. intros H. unfold _readLine, mbind, D_bind, look. by rewrite H. Qed.

Lemma readLine_ends p : ends _readLine p (λ _ p', listened p' = true ∧ reached 0 p p').
Proof.
  unfold _readLine. apply ends_bind. unfold ends at 1, look; cbn [fst snd]. destruct (listened p) eqn:E.
  - unfold ends, throw; cbn [fst snd]. split; [done|]. by apply calm_reached.
  - apply ends_bind. unfold ends at 1; cbn [fst snd]. destruct (await_line [] (incoming p)) as [r rest].
    apply ends_bind. unfold ends at 1, update; cbn [fst snd].
    assert (reached 0 p (set_listened rest p)) as Hr
      by (split_and!; [done..|]; exists []; by rewrite app_nil_r).
    apply ends_calm; [apply calm_lift| |]; intros x p' Hc; pose proof Hc as (_ & Hl & _);
      [split; [done|]|].
    + eapply (reached_trans 0 0); [exact Hr|by apply calm_reached].
    + eapply ends_mono; [|apply utf8_of_calm]. intros ? p'' Hc''. pose proof Hc'' as (_ & Hl' & _).
      split; [by rewrite Hl', Hl|]. eapply (reached_trans 0 0); [exact Hr|].
      eapply (reached_trans 0 0); by apply calm_reached.
Qed.

(** The second line of a socket is never read: the proof that the device holds its key stops
    there. *)
Lemma prove_throws env id p : listened p = true →
  ends (prove env id) p (λ r p', (∃ e, r = inl e) ∧ reached 1 p p').
Proof.
  intros Hl. unfold prove. apply ends_calm; [apply encryptEnvelope_calm| |]; intros x p1 Hc.
  - split; [by eexists|]. eapply reached_le, calm_reached; [lia|done].
  - apply ends_bind. unfold ends at 1, socket_write, update; cbn [fst snd]. pose proof Hc as (_ & Hl1 & _).
    set (p2 := add_written _ p1). unfold ends. rewrite (bind_throws _ _ _ _ _ (readLine_used p2 ltac:(cbn; congruence))).
    cbn [fst snd]. split; [by eexists|]. by apply reached_write, calm_reached.
Qed.

(** How the [try] block of the flow can end. *)
Definition outcome p (r : Exn + unit) p' : Prop :=
  reached 2 p p' ∨ r = inr tt ∧ ∃ p1, reached 2 p p1 ∧ p' = set_status (dart "Pairing rejected") p1.

Lemma pair_with_outcome env connect mounted result p : ends (pair_with env connect mounted result) p (outcome p).
Proof.
  assert (∀ p' (r : Exn + unit), calm p p' → outcome p r p') as Hcalm.
  { intros p' r Hc. left. eapply reached_le, calm_reached; [lia|done]. }
  unfold pair_with.
  apply ends_calm; [apply publicKey_calm|auto|]; intros key p1 H1.
  apply ends_calm; [apply exchangePublicKey_calm|intros e q Hq; apply Hcalm; by etrans|]; intros xkey p2 H2.
  apply ends_calm; [apply establishSession_calm|intros e q Hq; apply Hcalm; by do 2 (etrans; [done|])|].
  intros [] p3 H3. assert (calm p p3) as Hp3 by by do 2 (etrans; [done|]).
  apply ends_calm; [apply calm_lift|intros e q Hq; apply Hcalm; by etrans|]; intros chunks p4 H4.
  assert (calm p p4) as Hp4 by by etrans. clear H1 H2 H3 H4 Hp3.
  apply ends_bind. unfold ends at 1, update; cbn [fst snd].
  apply ends_bind. unfold ends at 1, socket_write, update; cbn [fst snd].
  match goal with |- ends _ ?z _ => assert (reached 1 p z) as Hq; [|generalize dependent z; intros q Hq] end.
  { apply reached_write. destruct Hp4 as (H1 & _ & _ & H2 & H3). split_and!; [done..|]. exists [].
    by rewrite app_nil_r. }
  apply ends_bind. eapply ends_mono; [|apply readLine_ends]. intros [e|response] p5 [Hl H5].
  { left. eapply reached_le, reached_trans; [|exact Hq|exact H5]. lia. }
  assert (reached 1 p p5) as Hp5 by exact (reached_trans 1 0 _ _ _ Hq H5).
  apply ends_calm; [apply calm_bind; auto with calm| |]; intros x p6 H6.
  { left. eapply reached_le, reached_trans; [|exact Hp5|by apply calm_reached]. lia. }
  assert (reached 1 p p6) as Hp6 by (apply (reached_trans 1 0 p p5); [done|by apply calm_reached]).
  destruct x.
  - apply ends_bind. pose proof H6 as (_ & El & _).
    eapply ends_mono; [|apply prove_throws; congruence]. intros r p7 [[e ->] H7].
    left. exact (reached_trans 1 1 _ _ _ Hp6 H7).
  - apply ends_calm; [apply calm_unless| |]; intros y p7 H7;
      (assert (reached 2 p p7) as Hp7 by
        (eapply reached_le, (reached_trans 1 0); [|exact Hp6|by apply calm_reached]; lia)); [by left|].
    destruct mounted; [right|by left]. split; [done|]. by eexists.
Qed.

(** No pairing on the phone ever completes: whatever the workstation sends, the flow returns,
    the biometric prompt never appears, at most the pair request and the challenge request are
    written, and the page says that the pairing was rejected or has failed, or nothing new;
    it never says that the challenge was verified.  [_readLine] listens to the socket anew for
    every line, and a socket can be listened to only once. *)
Theorem phone_never_proves env connect mounted result p :
  ∃ p', pairFromQr env connect mounted result p = (inr tt, p') ∧ prompts p' = prompts p ∧
    (∃ lines, written p' = written p ++ lines ∧ length lines ≤ 2) ∧
    (status p' = status p ∨ status p' = dart "Pairing rejected" ∨
     ∃ e, status p' = dart "Pairing failed: " ++ exn_toString e).
Proof.
  unfold pairFromQr. destruct result as [result|].
  2: { exists p. split_and!; [done|done| |by left]. exists []. rewrite app_nil_r. cbn. split; [done|lia]. }
  pose proof (pair_with_outcome env connect mounted result p) as Ho. unfold ends in Ho. unfold catch.
  destruct (pair_with env connect mounted result p) as [[e|[]] p1]; cbn [fst snd] in Ho.
  - destruct Ho as [(H1 & H2 & H3)|[[=] _]]. destruct mounted; eexists; (split; [reflexivity|]).
    + split_and!; [done|done|]. right. right. by eexists.
    + split_and!; [done|done|]. by left.
  - exists p1. split; [done|]. destruct Ho as [(H1 & H2 & H3)|(_ & p2 & (H1 & H2 & H3) & ->)].
    + split_and!; [done|done|by left].
    + split_and!; [done|done|]. right. by left.
Qed.
End Pairing.

Section Keys.
Context `{K : Packages}.
Implicit Types (p : Phone) (env : Env).

(** ** Keys and signatures *)

Lemma initialize_known env p seed : keyPair p = Some seed → initialize env p = (inr tt, p).
Proof. intros H. unfold initialize, mbind, D_bind, look. by rewrite H. Qed.

(** The app signs nothing without the user: a signature is returned only for a 32-byte nonce,
    after exactly one biometric prompt that was approved, and it is the signature of the
    phone's key over the nonce and the big-endian time stamp. *)
Theorem signs_only_approved env nonce ts p signature p' :
  signChallenge env nonce ts p = (inr signature, p') →
  length nonce = 32 ∧ authenticate env = inr true ∧ prompts p' = S (prompts p) ∧
  ∃ seed, keyPair p' = Some seed ∧ signature = ed25519_sign seed (nonce ++ _u64be ts).
Proof.
  unfold signChallenge. destruct (Nat.eqb_spec (length nonce) 32) as [Hn|]; [cbn [negb]|done].
  unfold mbind, D_bind. destruct (initialize env p) as [[e|[]] p1] eqn:E; [done|].
  destruct (ends_at _ _ _ _ _ (initialize_calm env p) E) as (Hp & _).
  unfold update, lift, look. destruct (authenticate env) as [e|[]]; [done| |done]. cbn [negb].
  unfold non_null, cast_error, throw. destruct (keyPair (prompted p1)) as [seed|] eqn:Ek; [|done].
  intros [= <- <-]. split_and!; [done|done|cbn; congruence|by exists seed].
Qed.

(** What a new process finds: the storage. *)
Definition restarted p : Phone := mkPhone (storage p) None None None 0 0 [] false [] (dart "Ready").

Definition storage_works env : Prop :=
  (∀ key, read_fails env key = None) ∧ length (new_ed25519 env) = 32 ∧ length (new_x25519 env) = 32.

Lemma keys_differ : ed25519_key ≠ x25519_key.
Proof. vm_compute. discriminate. Qed.

Lemma initialize_loads env p seed xseed :
  keyPair p = None → storage_works env →
  (∃ text, storage p !! ed25519_key = Some text ∧ _fromHex text = inr seed) → length seed = 32 →
  (∃ text, storage p !! x25519_key = Some text ∧ _fromHex text = inr xseed) → length xseed = 32 →
  initialize env p = (inr tt, set_exchangeKeyPair xseed (set_keyPair seed p)).
Proof.
  intros Hk (Hr & _) (t1 & H1 & E1) L1 (t2 & H2 & E2) L2.
  unfold initialize, storage_read, unless, look, lift, update, mbind, D_bind. rewrite Hk, !Hr, H1, E1, L1.
  cbn [Nat.eqb storage set_keyPair]. by rewrite H2, E2, L2.
Qed.

(** What [initialize] leaves behind: seeds of 32 bytes, both in the storage. *)
Lemma initialize_stores env p p1 :
  keyPair p = None → storage_works env → initialize env p = (inr tt, p1) →
  ∃ seed xseed, keyPair p1 = Some seed ∧ exchangeKeyPair p1 = Some xseed ∧ length seed = 32 ∧ length xseed = 32 ∧
    (∃ text, storage p1 !! ed25519_key = Some text ∧ _fromHex text = inr seed) ∧
    (∃ text, storage p1 !! x25519_key = Some text ∧ _fromHex text = inr xseed).
Proof.
  intros Hk (Hr & L1 & L2). pose proof keys_differ as Hne.
  unfold initialize, storage_read, storage_write, unless, look, lift, update, mbind, D_bind, throw. rewrite Hk, !Hr.
  assert (∀ l, _fromHex (_hex l) = inr l) as Hhex by (intros; apply fromHexOr_hex).
  destruct (storage p !! ed25519_key) as [t1|] eqn:H1.
  - destruct (_fromHex t1) as [|seed] eqn:E1; [done|].
    destruct (Nat.eqb_spec (length seed) 32); [|done]. cbn [storage set_keyPair].
    destruct (storage p !! x25519_key) as [t2|] eqn:H2.
    + destruct (_fromHex t2) as [|xseed] eqn:E2; [done|].
      destruct (Nat.eqb_spec (length xseed) 32); [|done]. intros [= <-]. exists seed, xseed. eauto 10.
    + destruct (write_fails env x25519_key); [done|]. intros [= <-]. exists seed, (new_x25519 env).
      cbn. split_and!; [done..| |]; eexists; simplify_map_eq; eauto.
  - destruct (write_fails env ed25519_key); [done|]. cbn [storage set_keyPair set_storage].
    rewrite lookup_insert_ne by done.
    destruct (storage p !! x25519_key) as [t2|] eqn:H2.
    + destruct (_fromHex t2) as [|xseed] eqn:E2; [done|].
      destruct (Nat.eqb_spec (length xseed) 32); [|done]. intros [= <-]. exists (new_ed25519 env), xseed.
      cbn. split_and!; [done..| |]; eexists; simplify_map_eq; eauto.
    + destruct (write_fails env x25519_key); [done|]. intros [= <-]. exists (new_ed25519 env), (new_x25519 env).
      cbn. split_and!; [done..| |]; eexists; simplify_map_eq; eauto.
Qed.

(** The keys survive a restart: whatever [initialize] loaded or generated, a new process with
    the same storage loads the same two seeds. *)
Theorem keys_survive_restart env env' p p1 :
  keyPair p = None → storage_works env → storage_works env' → initialize env p = (inr tt, p1) →
  ∃ p2, initialize env' (restarted p1) = (inr tt, p2) ∧
    keyPair p2 = keyPair p1 ∧ exchangeKeyPair p2 = exchangeKeyPair p1.
Proof.
  intros Hk H1 H2 Hi. destruct (initialize_stores env p p1 Hk H1 Hi) as (seed & xseed & -> & -> & L1 & L2 & Hs & Hx).
  eexists. split; [by apply (initialize_loads env' (restarted p1) seed xseed)|]. done.
Qed.

(** A first [initialize] that fails between the two keys is never repaired: it leaves the
    signing key set, so every later call returns at once, and the exchange key stays missing
    for the rest of the process: pairing throws although the storage works again. *)
Theorem failed_initialization_sticks env p seed e :
  keyPair p = None → exchangeKeyPair p = None →
  read_fails env ed25519_key = None → storage p !! ed25519_key = Some (_hex seed) → length seed = 32 →
  read_fails env x25519_key = Some e →
  ∃ p1, initialize env p = (inl e, p1) ∧
    ∀ env', publicKey env' p1 = (inr (ed25519_public seed), p1) ∧
            exchangePublicKey env' p1 = (inl (TypeError cast_text), p1).
Proof.
  intros Hk Hx Hr Hs Hl He. exists (set_keyPair seed p). split.
  - unfold initialize, storage_read, unless, look, lift, update, mbind, D_bind. rewrite Hk, Hr, Hs.
    unfold _fromHex. rewrite fromHexOr_hex, Hl. cbn [Nat.eqb]. by rewrite He.
  - intros env'. assert (initialize env' (set_keyPair seed p) = (inr tt, set_keyPair seed p)) as Hi
      by by eapply initialize_known.
    unfold publicKey, exchangePublicKey. rewrite !(bind_value _ _ _ _ _ Hi). split; [done|].
    unfold look, mbind, D_bind. cbn. by rewrite Hx.
Qed.
End Keys.

(** ** The scanner page *)

Section Scanner.
Context `{P : Packages}.

(** What a scan says, if it is a valid code. *)
Definition scanned (code : option DartString) : option PairingPayload :=
  raw ← code; match PairingPayload_fromRaw raw with inr payload => Some payload | inl _ => None end.

(** The page returns the first valid code the camera sees, once, however often and whatever
    else it sees, and then pauses the camera. *)
Lemma scanner_returns_first codes :
  let s := foldl (λ s code, onScan true code s) Scanner_new codes in
  popped s = take 1 (omap scanned codes) ∧ handled s = bool_decide (popped s ≠ []) ∧ cameraPaused s = handled s.
Proof.
  cbn zeta. induction codes as [|code codes IH] using rev_ind; [done|].
  rewrite foldl_app, omap_app. cbn [foldl]. destruct (foldl _ _ codes) as [h c l n].
  cbn [popped handled cameraPaused] in IH. destruct IH as (-> & -> & ->).
  change (omap scanned [code]) with (match scanned code with Some y => [y] | None => [] end).
  unfold onScan. cbn [handled].
  destruct code as [raw|]; [|cbn; by rewrite app_nil_r].
  destruct (omap scanned codes) as [|x l']; cbn; by destruct (PairingPayload_fromRaw raw).
Qed.
End Scanner.

(** ** Proximity *)

(** The signal strengths heard from a device. *)
Definition heard (id : DartString) (results : list ScanResult) : list Z :=
  rssi <$> filter (λ r, has_service r = true ∧ remoteId r = id) results.

Definition is_near (near far : Z) (id : DartString) (results : list ScanResult) : bool :=
  default false ((onScanResults near far results (∅, [])).1 !! id).

Lemma is_near_snoc near far id results r :
  is_near near far id (results ++ [r]) =
    if decide (has_service r = true ∧ remoteId r = id) then
      (if is_near near far id results then (far <=? rssi r)%Z else (near <=? rssi r)%Z)
    else is_near near far id results.
Proof.
  unfold is_near, onScanResults. rewrite foldl_app. cbn [foldl].
  destruct (foldl _ _ results) as [m evs]. unfold on_result. case_decide as Hd.
  - destruct Hd as [-> <-]. cbn [negb fst]. by rewrite lookup_insert_eq.
  - destruct (has_service r); [|done]. cbn [negb fst]. rewrite lookup_insert_ne; [done|]. intros E. by apply Hd.
Qed.

(** The proximity filter is a hysteresis: a device counts as nearby exactly when some signal of
    it reached the near threshold and none after that one fell below the far threshold, as
    long as the far threshold is not above the near one. *)
Theorem proximity_hysteresis near far id results :
  (far <= near)%Z →
  is_near near far id results = true ↔
  ∃ l1 v l2, heard id results = l1 ++ v :: l2 ∧ (near <= v)%Z ∧ Forall (λ v, (far <= v)%Z) l2.
Proof.
  intros Hle. induction results as [|r results IH] using rev_ind.
  - split; [done|]. intros (l1 & v & l2 & E & _). by destruct l1.
  - rewrite is_near_snoc. unfold heard in *. rewrite filter_app, fmap_app, filter_cons, filter_nil.
    case_decide as Hd; [|by rewrite app_nil_r]. cbn [fmap list_fmap].
    destruct (is_near near far id results).
    + rewrite Z.leb_le. destruct (proj1 IH eq_refl) as (l1 & v & l2 & E & Hv & Hf). split.
      * intros Hr. exists l1, v, (l2 ++ [rssi r]). rewrite E. split_and!; [by rewrite <- app_assoc|done|].
        apply Forall_app. split; [done|by apply Forall_singleton].
      * intros (l1' & v' & l2' & E' & Hv' & Hf').
        destruct l2' as [|u l2' _] using rev_ind.
        { apply app_inj_tail in E' as [_ ->]. lia. }
        rewrite app_comm_cons, app_assoc in E'. apply app_inj_tail in E' as [_ ->].
        apply Forall_app in Hf' as [_ Hf']. by rewrite Forall_singleton in Hf'.
    + rewrite Z.leb_le. split.
      * intros Hr. eexists _, (rssi r), []. split_and!; [reflexivity|done|constructor].
      * intros (l1' & v' & l2' & E' & Hv' & Hf').
        destruct l2' as [|u l2' _] using rev_ind.
        { by apply app_inj_tail in E' as [_ ->]. }
        rewrite app_comm_cons, app_assoc in E'. apply app_inj_tail in E' as [E' _].
        apply Forall_app in Hf' as [Hf' _]. assert (false = true) as [=].
        apply IH. by exists l1', v', l2'.
Qed.
