(* ===== verification/MobileSession.v ===== *)
(** * The phone and the workstation

    [Interop]: the JSON and hexadecimal text that Qt and Dart exchange.  The QR
    ceremony seen from both ends: the workstation registers the phone, and the
    phone reports a failure. *)
From stdpp Require Import base gmap sets list strings.
From Stdlib Require Import ZArith Lia.
From S2P Require Import Prelude Qt World Crypto Reference CryptoTheorems ReplayGuard ReplayTheorems Server Scenario ServerLemmas ServerPairing ServerLifecycle Mobile MobileTheorems.

(** What one side writes, the other side reads. *)
Class Interop (K : Packages) (Q : QtCore) : Prop := {
  dart_reads o : plain_object o → ∃ text, utf8_decode (toJson o) = inr text ∧ jsonDecode text = inr (DMap o);
  qt_reads kv : NoDup (fst <$> kv) → plain_object (json kv) →
    fromJson (utf8_encode (jsonEncode kv)) = Some (DocObject (json kv));
  (** [QByteArray::toHex] writes two lower-case digits for a byte *)
  toHex_hex b : fromLatin1 (toHex b) = _hex b;
  ed25519_public_length seed : length seed = 32 → length (ed25519_public seed) = 32;
  x25519_public_length seed : length seed = 32 → length (x25519_public seed) = 32;
}.

(** Evaluate a lookup in a JSON object the program built. *)
Ltac json_lookup :=
  unfold json; cbn [foldl fst snd];
  repeat first
    [ rewrite lookup_insert_eq
    | rewrite lookup_insert_ne by (vm_compute; discriminate) ].

Section Session.
Context `{Q : QtCore} `{O : OpenSSL} {QL : QtLaws Q} {OS : OpenSSLSizes O} `{K : Packages} {IO : Interop K Q}.
Implicit Types (s : Sys) (p : Phone).

Lemma hex_plain b : plain_string (_hex b).
Proof. rewrite <- toHex_hex. apply fromLatin1_plain. Qed.

Lemma fromHex_of_hex b : fromHex (toLatin1 (_hex b)) = b.
Proof. rewrite <- toHex_hex. apply fromHex_toHex. Qed.

Lemma hex_nonempty b : b ≠ [] → _hex b ≠ [].
Proof. intros Hb E. apply Hb. apply length_zero_iff_nil. apply (f_equal length) in E. rewrite hex_length in E. simpl in E. lia. Qed.

(** ** Scanning *)

(** The text the workstation displays is one the phone accepts. *)
Lemma displayed_payload_parses endpoint (v : Server) :
  plain_object (payload_object endpoint v) → (1 <= port_ v <= 65535)%Z → pcId_ v ≠ [] →
  length (Crypto.publicKey (x25519KeyPair_ v)) = 32 → pairingCode_ v ≠ [] →
  ∃ text, utf8_decode (toJson (payload_object endpoint v)) = inr text ∧
    PairingPayload_fromRaw text =
      inr (mkPayload endpoint (port_ v) (_hex (pcId_ v)) (_hex (Crypto.publicKey (x25519KeyPair_ v))) (pairingCode_ v)).
Proof.
  intros Hp Hport Hid Hk Hc. destruct (dart_reads _ Hp) as (text & E1 & E2). exists text. split; [done|].
  unfold PairingPayload_fromRaw. rewrite E2. unfold payload_object, dart. json_lookup. cbn [is_one].
  rewrite !toHex_hex, hex_length, Hk. rewrite bool_decide_true by done.
  destruct (Z.ltb_spec (port_ v) 1); [lia|]. destruct (Z.ltb_spec 65535 (port_ v)); [lia|].
  apply hex_nonempty, isEmpty_false in Hid as ->. apply isEmpty_false in Hc as ->. done.
Qed.

Lemma displayed_code_plain endpoint (v : Server) : plain_object (payload_object endpoint v) → plain_string (pairingCode_ v).
Proof.
  intros Hp. destruct (Hp (QStringLiteral "pairing_code") (JString (pairingCode_ v))) as [_ Hv]; [|done].
  unfold payload_object. by json_lookup.
Qed.

(** What [pairingPayload] keeps, and the code it leaves. *)
Lemma pairingPayload_keeps addresses s payload s1 :
  in_range 64 (window_age s) → pairingPayload addresses [] s = Some (payload, s1) →
  pairingCode_ (srv s1) ≠ [] ∧ pcId_ (srv s1) = pcId_ (srv s) ∧ port_ (srv s1) = port_ (srv s) ∧
  x25519KeyPair_ (srv s1) = x25519KeyPair_ (srv s).
Proof.
  intros Hr H. destruct (pairingPayload_run addresses [] s Hr) as (s' & Hrun & Hs').
  rewrite Hrun in H. injection H as _ <-. case_decide as Hc.
  - rewrite Hs'. split; [apply Hc|done].
  - destruct Hs' as (now & -> & _). split; [|done]. cbn. intros E. apply (f_equal length) in E.
    unfold fresh_code in E. rewrite rightJustified_length in E. simpl in E. lia.
Qed.

(** ** The phone's side *)

Definition used_stream : Exn := StateError (dart "Stream has already been listened to.").

Lemma await_line_first line rest : newline ∉ line → await_line [] (inr (line ++ [newline]) :: rest) = (inr line, rest).
Proof.
  intros Hl. cbn [await_line app].
  assert (index_of newline (line ++ [newline]) = Some (length line)) as ->
    by (apply index_of_Some; by exists line, []).
  by rewrite take_app_length.
Qed.

Lemma prove_run env id p key : sessionKey p = Some key → listened p = true →
  ∃ second p', prove env id p = (inl used_stream, p') ∧ written p' = written p ++ [second].
Proof.
  intros Hk Hl. unfold prove, encryptEnvelope.
  set (payload := [("type"%string, JString (dart "challenge"))]).
  destruct (aes_encrypt key (random12 env (nonces p)) (utf8_encode id) (utf8_encode (jsonEncode payload)))
    as [ct mac] eqn:E.
  eexists _, _. split.
  - erewrite bind_value; [|unfold look, update, mbind, D_bind; rewrite Hk, E; reflexivity].
    erewrite bind_value; [|reflexivity].
    erewrite bind_throws; [reflexivity|]. by apply readLine_used.
  - done.
Qed.

(** A phone with its keys, whose pair request is answered with [accepted: true]. *)
Lemma accepted_then_fails env p seed xseed shared pk qr line text m rest mounted :
  keyPair p = Some seed → exchangeKeyPair p = Some xseed →
  pcKey qr = _hex pk → length pk = 32 → x25519_shared xseed pk = inr shared →
  newline ∉ line → utf8_decode line = inr text → jsonDecode text = inr (DMap m) →
  m !! dart "accepted" = Some (JBool true) →
  ∃ second p', pair_with env (inr (inr (line ++ [newline]) :: rest)) mounted qr p = (inl used_stream, p') ∧
    written p' = written p ++
      [jsonEncode (pair_request_of (ed25519_public seed) (x25519_public xseed) (pairingCode qr)) ++ [10%N]; second].
Proof.
  intros Hk Hx Hpk Hlen Hs Hl Ht Hj Ha. pose proof (initialize_known env p seed Hk) as Hi.
  set (p1 := add_written (jsonEncode (pair_request_of (ed25519_public seed) (x25519_public xseed) (pairingCode qr)) ++ [10%N])
               (open_socket (inr (line ++ [newline]) :: rest) (set_sessionKey shared p))).
  destruct (prove_run env (_hex (ed25519_public seed)) (set_listened rest p1) shared) as (second & p' & Hprove & Hw);
    [done..|].
  exists second, p'. split; [|by rewrite Hw; cbn; rewrite <- app_assoc].
  assert (publicKey env p = (inr (ed25519_public seed), p)) as E1.
  { unfold publicKey. rewrite (bind_value _ _ _ _ _ Hi). unfold look, mbind, D_bind. by rewrite Hk. }
  assert (exchangePublicKey env p = (inr (x25519_public xseed), p)) as E2.
  { unfold exchangePublicKey. rewrite (bind_value _ _ _ _ _ Hi). unfold look, mbind, D_bind. by rewrite Hx. }
  assert (establishSession env (pcKey qr) p = (inr tt, set_sessionKey shared p)) as E3.
  { unfold establishSession. rewrite (bind_value _ _ _ _ _ Hi), Hpk.
    unfold _fromHex, lift, look, update, mbind, D_bind. rewrite fromHexOr_hex, Hlen.
    cbn [Nat.eqb negb]. rewrite Hx. cbn [non_null]. unfold mret, D_ret. by rewrite Hs. }
  assert (_readLine p1 = (inr text, set_listened rest p1)) as E4.
  { unfold _readLine, look, update, lift, mbind, D_bind. cbn [listened p1 add_written open_socket incoming].
    rewrite await_line_first by done. unfold utf8_of. by rewrite Ht. }
  assert ((d ← json_of text; accepted_of d) (set_listened rest p1) = (inr true, set_listened rest p1)) as E5.
  { unfold json_of. rewrite Hj. unfold mbind, D_bind, mret, D_ret. cbn [accepted_of]. by rewrite Ha. }
  unfold pair_with. rewrite (bind_value _ _ _ _ _ E1), (bind_value _ _ _ _ _ E2), (bind_value _ _ _ _ _ E3).
  rewrite (bind_value (lift _) _ _ _ _ eq_refl), (bind_value (update _) _ _ _ _ eq_refl).
  rewrite (bind_value (socket_write _) _ _ _ _ eq_refl). fold p1.
  by rewrite (bind_value _ _ _ _ _ E4), (bind_value _ _ _ _ _ E5), (bind_throws _ _ _ _ _ Hprove).
Qed.

(** ** The ceremony *)

Definition phone_request (pub xpub : list byte) (code : QString) : QJsonObject := json (pair_request_of pub xpub code).

Lemma phone_request_fields pub xpub code :
  field (phone_request pub xpub code) "type" = QStringLiteral "pair" ∧
  field (phone_request pub xpub code) "device_id" = _hex pub ∧
  hexField (phone_request pub xpub code) "public_key" = pub ∧
  hexField (phone_request pub xpub code) "x25519_public_key" = xpub ∧
  field (phone_request pub xpub code) "pairing_code" = code.
Proof. unfold phone_request, pair_request_of, dart. split_and!; json_field; by rewrite ?fromHex_of_hex. Qed.

(** What the server does with the line of the phone. *)
Lemma processLine_pairs socket pub xpub code s response s' :
  plain_string code → handlePair (phone_request pub xpub code) s = Some (response, s') →
  processLine socket (utf8_encode (jsonEncode (pair_request_of pub xpub code))) s =
    Some (tt, mkSys (srv s') (set_trace (λ t, t ++ [SocketWrite socket (toJson response ++ [newline])]) (wrld s'))).
Proof.
  intros Hc H. unfold processLine.
  rewrite qt_reads.
  - fold (phone_request pub xpub code). destruct (phone_request_fields pub xpub code) as (-> & _).
    rewrite bool_decide_true by done. by rewrite (bind_run _ _ _ _ _ H).
  - apply (bool_decide_unpack _). vm_compute. exact I.
  - apply plain_json. unfold pair_request_of, dart. plain_members; auto using hex_plain.
Qed.

(** C28: The QR ceremony from both ends.  The phone accepts the text the workstation displays and
    answers with a [pair] request; the workstation, within 300 seconds and when the keys
    agree, registers the phone under the phone's own key and answers [accepted: true].  The
    phone reads that answer, writes its challenge request, and then tells the user that the
    pairing has failed, whatever else the workstation sends: it listens a second time to a
    socket that can be listened to once.  The user was never asked for a fingerprint, and the
    workstation keeps the device. *)
Theorem phone_pairs_but_reports_failure addresses s payload s1 (w2 : World) socket env p seed xseed shared rest :
  in_range 64 (window_age s) → plain_string (endpoint_of addresses []) → plain_string (pairingCode_ (srv s)) →
  (1 <= port_ (srv s) <= 65535)%Z → pcId_ (srv s) ≠ [] →
  length (privateKey (x25519KeyPair_ (srv s))) = 32 → length (Crypto.publicKey (x25519KeyPair_ (srv s))) = 32 →
  pairingPayload addresses [] s = Some (payload, s1) →
  keyPair p = Some seed → exchangeKeyPair p = Some xseed → length seed = 32 → length xseed = 32 →
  x25519_shared xseed (Crypto.publicKey (x25519KeyPair_ (srv s))) = inr shared →
  in_range 64 (window_age (mkSys (srv s1) w2)) → (window_age (mkSys (srv s1) w2) <= 300)%Z →
  is_Some (agreed_secret (phone_request (ed25519_public seed) (x25519_public xseed) (pairingCode_ (srv s1))) (srv s1)) →
  ∃ text qr s3 answer second p',
    utf8_decode payload = inr text ∧ PairingPayload_fromRaw text = inr qr ∧
    let request := jsonEncode (pair_request_of (ed25519_public seed) (x25519_public xseed) (pairingCode qr)) in
    processLine socket (utf8_encode request) (mkSys (srv s1) w2) = Some (tt, s3) ∧
    pairedKeys_ (srv s3) !! _hex (ed25519_public seed) = Some (ed25519_public seed) ∧
    last (trace (wrld s3)) = Some (SocketWrite socket answer) ∧
    pairFromQr env (inr (inr answer :: rest)) true (Some qr) p = (inr tt, p') ∧
    written p' = written p ++ [request ++ [10%N]; second] ∧ prompts p' = prompts p ∧
    status p' = dart "Pairing failed: Bad state: Stream has already been listened to.".
Proof.
  intros Hr Hhost Hcode Hport Hid Hsk Hpk Hpay Hk Hx Hl Hxl Hs Hr2 Hage Hag.
  destruct (pairingPayload_keeps _ _ _ _ Hr Hpay) as (Hne & Eid & Ep & Ek).
  destruct (pairingPayload_plain addresses [] s payload s1) as (Epay & Hplain & _); try done; [lia|].
  destruct (displayed_payload_parses (endpoint_of addresses []) (srv s1)) as (text & Ht & Hqr);
    [done|by rewrite Ep|by rewrite Eid|by rewrite Ek|done|].
  rewrite <- Epay in Ht. set (qr := mkPayload _ _ _ _ _) in Hqr.
  pose proof (ed25519_public_length seed Hl) as Lp. pose proof (x25519_public_length xseed Hxl) as Lx.
  destruct (phone_request_fields (ed25519_public seed) (x25519_public xseed) (pairingCode_ (srv s1)))
    as (_ & F2 & F3 & F4 & _).
  destruct (payload_code_pairs addresses [] s payload s1 (payload_object (endpoint_of addresses []) (srv s1))
    (phone_request (ed25519_public seed) (x25519_public xseed) (pairingCode_ (srv s1))) w2) as (s3 & Hpair & Hreg);
    try done; [lia|by rewrite Epay, fromJson_toJson|rewrite F2; apply hex_nonempty; intros E; apply (f_equal length) in E; by rewrite Lp in E
              |by rewrite F3|by rewrite F4|].
  rewrite F2, F3 in Hreg.
  assert (plain_object (pairedResponse (srv s1))) as Hpr by (apply plain_json; plain_members; by apply Forall_nil).
  destruct (dart_reads _ Hpr) as (line & Hline & Hjson).
  destruct (accepted_then_fails env p seed xseed shared (Crypto.publicKey (x25519KeyPair_ (srv s1))) qr
    (toJson (pairedResponse (srv s1))) line (pairedResponse (srv s1)) rest true) as (second & p' & Hrun & Hw);
    try done; [by rewrite Ek|by rewrite Ek|apply toJson_one_line|].
  destruct (phone_never_proves env (inr (inr (toJson (pairedResponse (srv s1)) ++ [newline]) :: rest)) true (Some qr) p)
    as (p'' & Hfull & Hprompts & _).
  pose proof Hfull as Hcatch. unfold pairFromQr, catch in Hcatch. rewrite Hrun in Hcatch. injection Hcatch as <-.
  eexists text, qr, _, _, second, _. split; [exact Ht|]. split; [exact Hqr|]. cbv zeta.
  split; [apply processLine_pairs; [|exact Hpair]|].
  { by apply (displayed_code_plain (endpoint_of addresses [])). }
  split; [exact Hreg|]. split; [apply last_snoc|]. split; [exact Hfull|]. split; [exact Hw|]. by split.
Qed.
End Session.
