(* ===== verification/MobileScenario.v ===== *)
(** * A concrete phone for witnesses

    The packages over the reference codecs, a phone with stored seeds, and the
    instances of the theorems about the phone.  Only witnesses use it. *)
From stdpp Require Import base gmap sets list strings.
From Stdlib Require Import ZArith Lia.
From S2P Require Import Prelude Qt World Crypto Reference CryptoTheorems ReplayGuard ReplayTheorems Server Scenario ServerLemmas ServerPairing ServerLifecycle Mobile MobileTheorems MobileSession.

#[global] Instance ref_Packages : Packages := {
  jsonDecode s := match ref_fromJson (ref_toLatin1 s) with
                  | Some (DocObject o) => inr (DMap o)
                  | Some (DocArray l) => inr (DOther (JArray l))
                  | Some DocNull => inr (DOther JNull)
                  | None => inl (dart "Unexpected character")
                  end;
  jsonEncode kv := ref_fromLatin1 (ref_toJson (json kv));
  utf8_encode := ref_toLatin1;
  utf8_decode b := inr (ref_fromLatin1 b);
  int_toString z := hex_digits 16 z;
  cast_text := dart "type cast failed";
  ed25519_public seed := seed;
  ed25519_sign := ref_sign;
  x25519_public seed := seed;
  x25519_shared seed _ := inr seed;
  aes_encrypt key nonce aad text := (text, take 16 (key ++ aad));
  aes_decrypt key nonce aad ct mac := inr ct;
}.

#[global] Instance ref_Interop : Interop ref_Packages ref_Qt.
Proof.
  split.
  - intros o Ho. exists (ref_fromLatin1 (ref_toJson o)). split; [done|]. cbn [jsonDecode ref_Packages].
    by rewrite ref_toLatin1_fromLatin1, ref_fromJson_toJson.
  - intros kv _ Hkv. cbn [utf8_encode jsonEncode ref_Packages fromJson ref_Qt].
    by rewrite ref_toLatin1_fromLatin1, ref_fromJson_toJson.
  - intros b. cbn [fromLatin1 toHex ref_Qt]. induction b as [|c b IH]; [done|].
    unfold ref_toHex. rewrite bind_cons, hex_cons. unfold ref_fromLatin1. rewrite fmap_app. f_equal; [|exact IH].
    by destruct c; vm_compute.
  - done.
  - done.
Qed.

Definition phone_seed : list byte := replicate 32 Init.Byte.x22.

Definition demo_env : Env :=
  mkEnv phone_seed demo_exchange_key (λ _, replicate 12 Init.Byte.x01) (inr true) (λ _, None) (λ _, None) None.

(** A phone that has run [initialize]. *)
Definition fresh_phone : Phone := mkPhone ∅ None None None 0 0 [] false [] (dart "Ready").
Definition demo_phone : Phone := (initialize demo_env fresh_phone).2.

Lemma signs_only_approved_witness :
  length (replicate 32 nul) = 32 ∧ authenticate demo_env = inr true ∧ prompts (prompted demo_phone) = S (prompts demo_phone) ∧
  ∃ seed, keyPair (prompted demo_phone) = Some seed ∧
    ref_sign phone_seed (replicate 32 nul ++ _u64be 1700000000) = ed25519_sign seed (replicate 32 nul ++ _u64be 1700000000).
Proof. apply (signs_only_approved demo_env (replicate 32 nul) 1700000000 demo_phone). vm_compute. reflexivity. Defined.

Lemma keys_survive_restart_witness :
  ∃ p2, initialize demo_env (restarted demo_phone) = (inr tt, p2) ∧
    keyPair p2 = keyPair demo_phone ∧ exchangeKeyPair p2 = exchangeKeyPair demo_phone.
Proof.
  apply (keys_survive_restart demo_env demo_env fresh_phone demo_phone); [done|done|done|vm_compute; reflexivity].
Defined.

(** The storage fails for the exchange key, once. *)
Definition locked_env : Env :=
  mkEnv phone_seed demo_exchange_key (λ _, []) (inr true)
    (λ key, if decide (key = x25519_key) then Some (Thrown (dart "PlatformException")) else None) (λ _, None) None.
Definition stored_phone : Phone := restarted demo_phone.

Lemma failed_initialization_sticks_witness :
  ∃ p1, initialize locked_env stored_phone = (inl (Thrown (dart "PlatformException")), p1) ∧
    ∀ env', publicKey env' p1 = (inr (ed25519_public phone_seed), p1) ∧
            exchangePublicKey env' p1 = (inl (TypeError cast_text), p1).
Proof.
  apply (failed_initialization_sticks locked_env stored_phone phone_seed); vm_compute; reflexivity.
Defined.

Lemma proximity_hysteresis_witness :
  let results := [mkScanResult (dart "phone") true (-68); mkScanResult (dart "phone") true (-80)] in
  is_near (-70) (-82) (dart "phone") results = true ↔
  ∃ l1 v l2, heard (dart "phone") results = l1 ++ v :: l2 ∧ (-70 <= v)%Z ∧ Forall (λ v, (-82 <= v)%Z) l2.
Proof. intros results. apply (proximity_hysteresis (-70) (-82) (dart "phone") results). lia. Defined.

Definition demo_pair_request : QJsonObject :=
  phone_request (ed25519_public phone_seed) (x25519_public demo_exchange_key) (pairingCode_ (srv demo_displayed)).

Lemma demo_agreed : is_Some (agreed_secret demo_pair_request (srv demo_displayed)).
Proof.
  assert (is_some (agreed_secret demo_pair_request (srv demo_displayed)) = true) as H by vm_eq.
  destruct (agreed_secret _ _); [by eexists|done].
Qed.

Lemma phone_pairs_but_reports_failure_witness :
  ∃ text qr s3 answer second p',
    utf8_decode demo_payload = inr text ∧ PairingPayload_fromRaw text = inr qr ∧
    let request := jsonEncode (pair_request_of (ed25519_public phone_seed) (x25519_public demo_exchange_key) (pairingCode qr)) in
    processLine demo_socket (utf8_encode request) (mkSys (srv demo_displayed) (wrld demo_displayed)) = Some (tt, s3) ∧
    pairedKeys_ (srv s3) !! _hex (ed25519_public phone_seed) = Some (ed25519_public phone_seed) ∧
    last (trace (wrld s3)) = Some (SocketWrite demo_socket answer) ∧
    pairFromQr demo_env (inr [inr answer]) true (Some qr) demo_phone = (inr tt, p') ∧
    written p' = written demo_phone ++ [request ++ [10%N]; second] ∧ prompts p' = prompts demo_phone ∧
    status p' = dart "Pairing failed: Bad state: Stream has already been listened to.".
Proof.
  apply (phone_pairs_but_reports_failure [] demo_accepted demo_payload demo_displayed (wrld demo_displayed)
    demo_socket demo_env demo_phone phone_seed demo_exchange_key demo_exchange_key []).
  - apply (bool_decide_unpack _). vm_compute. exact I.
  - apply (bool_decide_unpack _). vm_compute. exact I.
  - apply (bool_decide_unpack _). vm_compute. exact I.
  - vm_compute. split; congruence.
  - vm_compute. discriminate.
  - vm_compute. reflexivity.
  - vm_compute. reflexivity.
  - exact demo_displayed_run.
  - vm_compute. reflexivity.
  - vm_compute. reflexivity.
  - reflexivity.
  - reflexivity.
  - reflexivity.
  - apply (bool_decide_unpack _). vm_compute. exact I.
  - vm_compute. congruence.
  - exact demo_agreed.
Defined.
