(* ===== verification/MobileAsync.v ===== *)
(** * Asynchronous calls of CryptoService (src/mobile/lib/crypto_service.dart)

    The buttons of the app call [CryptoService] without waiting for one another.
    [Mobile] has its functions as sequences; here they are cut at their awaits: a
    [Task] runs to its first await and leaves the rest as an [Async], which is
    resumed when the awaited future completes, with other calls in between
    ([app_step]).  A call of the platform takes effect when it is resumed: the
    storage answers its calls in the order in which it carries them out.
    [alone] runs a task with nothing in between; the [_alone] lemmas say that this
    is the definition of [Mobile]. *)
From stdpp Require Import base gmap sets list strings relations.
From Stdlib Require Import ZArith Lia.
From S2P Require Import Prelude Qt Mobile MobileTheorems.

(** ** Asynchronous computations *)

Inductive Async (A : Type) : Type :=
  | Done (r : Exn + A)
  | Await (resume : Phone → Phone * Async A).
Arguments Done {A} r.
Arguments Await {A} resume.

(** The induction principle, with the hypothesis for what is left after a resumption. *)
Definition Async_rest_ind {A} (P : Async A → Prop) (done : ∀ r, P (Done r))
    (awaiting : ∀ resume, (∀ p, P (resume p).2) → P (Await resume)) : ∀ t, P t :=
  fix go t := match t with
  | Done r => done r
  | Await resume => awaiting resume (λ p, match resume p as x return P x.2 with (_, t) => go t end)
  end.

(** What is about to run: it changes the phone up to its first await. *)
Definition Task (A : Type) : Type := Phone → Phone * Async A.

(** Continue with [f] after [t]. *)
Fixpoint andThen {A B} (t : Async A) (f : A → Task B) (p : Phone) : Phone * Async B :=
  match t with
  | Done (inl e) => (p, Done (inl e))
  | Done (inr a) => f a p
  | Await resume => (p, Await (λ p, let '(p, t) := resume p in andThen t f p))
  end.

#[export] Instance Task_ret : MRet Task := λ A a p, (p, Done (inr a)).
#[export] Instance Task_bind : MBind Task := λ A B f m p, let '(p, t) := m p in andThen t f p.

(** Code without an await. *)
Definition now {A} (m : D A) : Task A := λ p, let '(r, p) := m p in (p, Done r).
(** [await] of a future of the platform or of a package. *)
Definition await {A} (m : D A) : Task A := λ p, (p, Await (now m)).
(** [await] of an asynchronous function of the app: it runs to its own first await; its caller
    is resumed some time after it is done. *)
Fixpoint later_on {A} (t : Async A) : Async A :=
  match t with
  | Done r => Await (λ p, (p, Done r))
  | Await resume => Await (λ p, let '(p, t) := resume p in (p, later_on t))
  end.
Definition await_call {A} (m : Task A) : Task A := λ p, let '(p, t) := m p in (p, later_on t).

(** ** CryptoService *)

Section Service.
Context `{K : Packages}.
Implicit Types (env : Env) (p : Phone).

Definition initialize_async env : Task unit :=
  known ← now (look keyPair);
  match known with
  | Some _ => mret tt
  | None =>
    encodedSeed ← await (storage_read env ed25519_key);
    match encodedSeed with
    | None =>
        generated ← await (mret (new_ed25519 env));
        seed ← await (mret generated);
        await (storage_write env ed25519_key (_hex seed)) ;;
        now (update (set_keyPair generated))
    | Some text =>
        seed ← now (lift (_fromHex text));
        if length seed =? 32 then seed ← await (mret seed); now (update (set_keyPair seed))
        else now (throw (StateError (dart "stored signing key has invalid length")))
    end ;;
    exchangeSeed ← await (storage_read env x25519_key);
    match exchangeSeed with
    | None =>
        generated ← await (mret (new_x25519 env));
        now (update (set_exchangeKeyPair generated)) ;;
        seed ← await (mret generated);
        await (storage_write env x25519_key (_hex seed))
    | Some text =>
        seed ← now (lift (_fromHex text));
        if length seed =? 32 then seed ← await (mret seed); now (update (set_exchangeKeyPair seed))
        else now (throw (StateError (dart "stored exchange key has invalid length")))
    end
  end.

Definition signChallenge_async env (nonce : list byte) (timestamp : Z) : Task (list byte) :=
  if negb (length nonce =? 32) then now (throw (ArgumentError (dart "nonce must be 32 bytes")))
  else
    await_call (initialize_async env) ;;
    now (update prompted) ;;
    authenticated ← await (lift (authenticate env));
    if negb authenticated then now (throw (StateError (dart "biometric approval denied")))
    else
      pair ← now (look keyPair);
      seed ← now (non_null pair);
      await (mret (ed25519_sign seed (nonce ++ _u64be timestamp))).

Definition publicKey_async env : Task (list byte) :=
  await_call (initialize_async env) ;;
  pair ← now (look keyPair);
  seed ← now (non_null pair);
  await (mret (ed25519_public seed)).

Definition exchangePublicKey_async env : Task (list byte) :=
  await_call (initialize_async env) ;;
  pair ← now (look exchangeKeyPair);
  seed ← now (non_null pair);
  await (mret (x25519_public seed)).

Definition establishSession_async env (workstationKey : DartString) : Task unit :=
  await_call (initialize_async env) ;;
  keyBytes ← now (lift (_fromHex workstationKey));
  if negb (length keyBytes =? 32) then now (throw (FormatException (dart "invalid workstation exchange key")))
  else
    pair ← now (look exchangeKeyPair);
    seed ← now (non_null pair);
    shared ← await (lift (x25519_shared seed keyBytes));
    now (update (set_sessionKey shared)).

(** ** Calls that overlap *)

(** What the flows call, each with what the platform answers it; [establishSession] answers
    nothing. *)
Inductive Call : Type :=
  | CallPublicKey (env : Env)
  | CallExchangePublicKey (env : Env)
  | CallSign (env : Env) (nonce : list byte) (timestamp : Z)
  | CallEstablish (env : Env) (workstationKey : DartString).

Definition code (c : Call) : Task (list byte) :=
  match c with
  | CallPublicKey env => publicKey_async env
  | CallExchangePublicKey env => exchangePublicKey_async env
  | CallSign env nonce timestamp => signChallenge_async env nonce timestamp
  | CallEstablish env workstationKey => establishSession_async env workstationKey ;; mret []
  end.
Definition env_of (c : Call) : Env :=
  match c with CallPublicKey env | CallExchangePublicKey env | CallSign env _ _ | CallEstablish env _ => env end.

(** Every call with what is left of it. *)
Record App : Type := mkApp { phone : Phone; pool : list (Call * Async (list byte)) }.

Definition begin (c : Call) (a : App) : App :=
  let '(p, t) := code c (phone a) in mkApp p (pool a ++ [(c, t)]).
Definition resume_at (i : nat) (a : App) : option App :=
  match pool a !! i with
  | Some (c, Await resume) => let '(p, t) := resume (phone a) in Some (mkApp p (<[i := (c, t)]> (pool a)))
  | _ => None
  end.

Inductive app_step (a : App) : App → Prop :=
  | app_begin c : app_step a (begin c a)
  | app_resume i a' : resume_at i a = Some a' → app_step a a'.

Definition answered (a : App) (i : nat) (c : Call) (r : Exn + list byte) : Prop := pool a !! i = Some (c, Done r).

(** ** A call alone *)

Fixpoint finish {A} (t : Async A) : D A :=
  match t with
  | Done r => lift r
  | Await resume => λ p, let '(p, t) := resume p in finish t p
  end.
Definition alone {A} (m : Task A) : D A := λ p, let '(p, t) := m p in finish t p.

Lemma finish_andThen {A B} (t : Async A) (f : A → Task B) p :
  (let '(p, t) := andThen t f p in finish t p) = (finish t ≫= λ a, alone (f a)) p.
Proof.
  revert p. induction t as [[e|a]|resume IH] using Async_rest_ind; intros p; [done|done|]. cbn [andThen finish].
  unfold mbind, D_bind. cbn [finish]. specialize (IH p). destruct (resume p) as [p1 t1]. cbn [snd] in IH.
  exact (IH p1).
Qed.

Lemma alone_bind {A B} (m : Task A) (f : A → Task B) p : alone (m ≫= f) p = (alone m ≫= λ a, alone (f a)) p.
Proof.
  unfold alone at 1, mbind at 1, Task_bind. destruct (m p) as [p1 t] eqn:E. rewrite finish_andThen.
  unfold alone, mbind, D_bind. by rewrite E.
Qed.

Lemma alone_now {A} (m : D A) p : alone (now m) p = m p.
Proof. unfold alone, now. destruct (m p). done. Qed.
Lemma alone_await {A} (m : D A) p : alone (await m) p = m p.
Proof. apply alone_now. Qed.
Lemma alone_ret {A} (a : A) p : alone (mret a) p = (inr a, p).
Proof. done. Qed.

Lemma finish_later {A} (t : Async A) p : finish (later_on t) p = finish t p.
Proof.
  revert p. induction t as [r|resume IH] using Async_rest_ind; intros p; [done|]. cbn [later_on finish].
  specialize (IH p). destruct (resume p) as [p1 t1]. exact (IH p1).
Qed.
Lemma alone_call {A} (m : Task A) p : alone (await_call m) p = alone m p.
Proof. unfold alone, await_call. destruct (m p) as [p1 t]. apply finish_later. Qed.

(** Congruence for the sequences. *)
Lemma bind_same {A B} (m m' : D A) (f f' : A → D B) p :
  m p = m' p → (∀ a p, f a p = f' a p) → (m ≫= f) p = (m' ≫= f') p.
Proof. intros Hm Hf. unfold mbind, D_bind. rewrite Hm. by destruct (m' p) as [[e|a] p1]. Qed.

Lemma alone_await_ret {A B} (a : A) (f : A → Task B) p : alone (await (mret a) ≫= f) p = alone (f a) p.
Proof. by rewrite alone_bind. Qed.

Lemma alone_await_value {A} (a : A) p : alone (await (mret a)) p = (inr a, p).
Proof. by rewrite alone_await. Qed.

(** One step of a comparison: what precedes the first sequencing, then the rest. *)
Ltac alone_step :=
  first
    [ reflexivity
    | rewrite alone_await_ret
    | rewrite alone_call
    | rewrite alone_now
    | rewrite alone_await
    | rewrite alone_ret
    | rewrite alone_bind; apply bind_same; [|intros ? ?]
    | match goal with |- context [match ?x with _ => _ end] => destruct x end ].
Ltac alone_run := repeat alone_step.

Lemma initialize_alone env p : alone (initialize_async env) p = initialize env p.
Proof. unfold initialize_async, initialize. alone_run. Qed.

(** Each function alone is the sequence of [Mobile]. *)
Lemma publicKey_alone env p : alone (publicKey_async env) p = publicKey env p.
Proof. unfold publicKey_async, publicKey. alone_run. apply initialize_alone. Qed.

Lemma exchangePublicKey_alone env p : alone (exchangePublicKey_async env) p = exchangePublicKey env p.
Proof. unfold exchangePublicKey_async, exchangePublicKey. alone_run. apply initialize_alone. Qed.

Lemma signChallenge_alone env nonce ts p : alone (signChallenge_async env nonce ts) p = signChallenge env nonce ts p.
Proof. unfold signChallenge_async, signChallenge. alone_run; apply initialize_alone. Qed.

Lemma establishSession_alone env key p : alone (establishSession_async env key) p = establishSession env key p.
Proof. unfold establishSession_async, establishSession. alone_run; apply initialize_alone. Qed.
End Service.
