(* ===== verification/MobileTasks.v ===== *)
(** * What overlapping calls of CryptoService can do

    Over the interleavings of [MobileAsync]: a logic for code that others interrupt
    ([keeps]) and the signatures it shows to be approved, a bound on the
    resumptions of a call ([ends_within]), the call that nothing overlaps, and two
    calls that spoil each other on a new phone. *)
From stdpp Require Import base gmap sets list strings relations.
From Stdlib Require Import ZArith Lia.
From S2P Require Import Prelude Qt World Reference Mobile MobileTheorems MobileScenario MobileAsync.

Section Tasks.
Context `{K : Packages}.
Implicit Types (env : Env) (p : Phone).

(** ** What holds whatever happens in between *)

(** [t] keeps [I] with every resumption, as long as the others keep it, and ends with [post]. *)
Fixpoint keeps {A} (I : Phone → Prop) (post : Exn + A → Prop) (t : Async A) : Prop :=
  match t with
  | Done r => post r
  | Await resume => ∀ p, I p → let '(p, t) := resume p in I p ∧ keeps I post t
  end.
Definition keeps_task {A} (I : Phone → Prop) (post : Exn + A → Prop) (m : Task A) : Prop :=
  ∀ p, I p → let '(p, t) := m p in I p ∧ keeps I post t.

(** The postcondition of the first half of a sequence. *)
Definition followed {A B} (I : Phone → Prop) (post : Exn + B → Prop) (f : A → Task B) (r : Exn + A) : Prop :=
  match r with inl e => post (inl e) | inr a => keeps_task I post (f a) end.

Lemma interrupted_andThen {A B} I (post : Exn + B → Prop) (t : Async A) (f : A → Task B) p :
  I p → keeps I (followed I post f) t → let '(p, t) := andThen t f p in I p ∧ keeps I post t.
Proof.
  revert p. induction t as [[e|a]|resume IH] using Async_rest_ind; intros p Hp Ht; [done|by apply Ht|].
  cbn [andThen]. split; [done|]. cbn [keeps]. intros p1 H1. specialize (Ht p1 H1). specialize (IH p1).
  destruct (resume p1) as [p2 t2]. destruct Ht as [H2 Ht]. by apply IH.
Qed.

Lemma interrupted_bind {A B} I (post : Exn + B → Prop) (m : Task A) (f : A → Task B) :
  keeps_task I (followed I post f) m → keeps_task I post (m ≫= f).
Proof.
  intros Hm p Hp. specialize (Hm p Hp). unfold mbind, Task_bind. destruct (m p) as [p1 t].
  destruct Hm. by apply interrupted_andThen.
Qed.

Lemma interrupted_now {A} I (post : Exn + A → Prop) (m : D A) :
  (∀ p, I p → I (m p).2 ∧ post (m p).1) → keeps_task I post (now m).
Proof. intros Hm p Hp. specialize (Hm p Hp). unfold now. by destruct (m p). Qed.

Lemma interrupted_await {A} I (post : Exn + A → Prop) (m : D A) :
  (∀ p, I p → I (m p).2 ∧ post (m p).1) → keeps_task I post (await m).
Proof. intros Hm p Hp. split; [done|]. by apply interrupted_now. Qed.

Lemma interrupted_ret {A} I (post : Exn + A → Prop) (a : A) : post (inr a) → keeps_task I post (mret a).
Proof. by intros Ha p Hp. Qed.

Lemma interrupted_later {A} I (post : Exn + A → Prop) (t : Async A) : keeps I post t → keeps I post (later_on t).
Proof.
  induction t as [r|resume IH] using Async_rest_ind; [done|]. cbn [keeps later_on]. intros Ht p Hp.
  specialize (Ht p Hp). specialize (IH p). destruct (resume p) as [p1 t1]. destruct Ht. split; [done|]. by apply IH.
Qed.

Lemma interrupted_call {A} I (post : Exn + A → Prop) (m : Task A) : keeps_task I post m → keeps_task I post (await_call m).
Proof.
  intros Hm p Hp. specialize (Hm p Hp). unfold await_call. destruct (m p) as [p1 t]. destruct Hm.
  split; [done|by apply interrupted_later].
Qed.

(** The signing keys the phone may have: those of [known]. *)
Definition knows (known : list byte → Prop) p : Prop :=
  (∀ seed, keyPair p = Some seed → known seed) ∧
  (∀ text seed, storage p !! ed25519_key = Some text → _fromHex text = inr seed → known seed).

Lemma interrupted_bind_any {A B} I (m : Task A) (f : A → Task B) :
  keeps_task I (λ _, True) m → (∀ a, keeps_task I (λ _, True) (f a)) → keeps_task I (λ _, True) (m ≫= f).
Proof.
  intros Hm Hf. apply interrupted_bind. intros p Hp. specialize (Hm p Hp). destruct (m p) as [p1 t].
  destruct Hm as [H1 Ht]. split; [done|]. clear -Ht Hf.
  induction t as [[e|a]|resume IH] using Async_rest_ind; cbn in *; [done|apply Hf|].
  intros p Hp. specialize (Ht p Hp). specialize (IH p). destruct (resume p). destruct Ht. split; [done|]. by apply IH.
Qed.

(** One piece of code that keeps [I] and whose result does not matter. *)
Lemma interrupted_now_any {A} I (m : D A) : (∀ p, I p → I (m p).2) → keeps_task I (λ _, True) (now m).
Proof. intros H. apply interrupted_now. auto. Qed.
Lemma interrupted_await_any {A} I (m : D A) : (∀ p, I p → I (m p).2) → keeps_task I (λ _, True) (await m).
Proof. intros H. apply interrupted_await. auto. Qed.

Lemma knows_read known env key p : knows known p → knows known (storage_read env key p).2.
Proof. unfold storage_read, unless, look, mbind, D_bind. by destruct (read_fails env key). Qed.

Lemma knows_write known env key value p :
  knows known p → (key = ed25519_key → ∀ seed, _fromHex value = inr seed → known seed) →
  knows known (storage_write env key value p).2.
Proof.
  intros [H1 H2] Hv. unfold storage_write, unless, update, mbind, D_bind. destruct (write_fails env key); [done|].
  split; [exact H1|]. intros text seed. cbn. destruct (decide (key = ed25519_key)) as [->|Hne].
  - rewrite lookup_insert_eq. intros [= <-]. by apply Hv.
  - rewrite lookup_insert_ne by done. apply H2.
Qed.

Ltac keeps_any :=
  repeat first
    [ apply interrupted_bind_any; [|intros ?]
    | apply interrupted_call
    | apply interrupted_now_any; intros ? ?
    | apply interrupted_await_any; intros ? ?
    | by apply interrupted_ret
    | apply knows_read; assumption
    | match goal with |- context [match ?x with _ => _ end] => destruct x end
    | assumption ].

Lemma initialize_keeps known env :
  known (new_ed25519 env) → keeps_task (knows known) (λ _, True) (initialize_async env).
Proof.
  intros Hnew. unfold initialize_async. apply interrupted_bind_any; [keeps_any|]. intros [k|]; [keeps_any|].
  apply interrupted_bind, interrupted_await. intros p Hp. split; [by apply knows_read|].
  assert (∀ text seed, (storage_read env ed25519_key p).1 = inr (Some text) → _fromHex text = inr seed → known seed) as Hread.
  { destruct Hp as [_ Hp]. unfold storage_read, unless, look, mbind, D_bind.
    destruct (read_fails env ed25519_key); [done|]. cbn. intros text seed [= E]. by apply Hp. }
  destruct (storage_read env ed25519_key p).1 as [e|encoded]; [done|]. cbn [followed]. clear p Hp.
  apply interrupted_bind_any.
  - destruct encoded as [text|].
    + apply interrupted_bind, interrupted_now. intros p Hp. split; [done|]. unfold lift. cbn [fst].
      destruct (_fromHex text) as [e|seed] eqn:E; [done|]. cbn [followed]. destruct (length seed =? 32); [|keeps_any].
      apply interrupted_bind, interrupted_await. intros p1 H1. split; [done|]. cbn [followed mret D_ret fst].
      apply interrupted_now_any. intros p2 [_ H2]. split; [|exact H2]. intros s [= <-]. by eapply Hread.
    + apply interrupted_bind, interrupted_await. intros p Hp. split; [done|]. cbn [followed mret D_ret fst].
      apply interrupted_bind, interrupted_await. intros p1 H1. split; [done|]. cbn [followed mret D_ret fst].
      apply interrupted_bind_any.
      * apply interrupted_await_any. intros p2 H2. apply knows_write; [done|]. intros _ seed.
        unfold _fromHex. rewrite fromHexOr_hex. by intros [= <-].
      * intros _. apply interrupted_now_any. intros p2 [_ H2]. split; [|exact H2]. by intros s [= <-].
  - intros _. keeps_any. all: try (apply knows_write; [done|by intros E%eq_sym%keys_differ]).
    all: match goal with H : knows _ _ |- _ => exact H end.
Qed.

(** What the answer of a call says. *)
Definition genuine (known : list byte → Prop) (c : Call) (r : Exn + list byte) : Prop :=
  match r with
  | inl _ => True
  | inr answer =>
      match c with
      | CallPublicKey env => ∃ seed, known seed ∧ answer = ed25519_public seed
      | CallExchangePublicKey env => ∃ seed, answer = x25519_public seed
      | CallSign env nonce timestamp =>
          length nonce = 32 ∧ authenticate env = inr true ∧
          ∃ seed, known seed ∧ answer = ed25519_sign seed (nonce ++ _u64be timestamp)
      | CallEstablish _ _ => True
      end
  end.

(** After [initialize] and what follows up to [rest]. *)
Lemma interrupted_after {A B} I (post : Exn + B → Prop) (m : Task A) (f : A → Task B) :
  keeps_task I (λ _, True) m → (∀ e, post (inl e)) → (∀ a, keeps_task I post (f a)) → keeps_task I post (m ≫= f).
Proof.
  intros Hm He Hf. apply interrupted_bind. intros p Hp. specialize (Hm p Hp). destruct (m p) as [p1 t].
  destruct Hm as [H1 Ht]. split; [done|]. clear -Ht He Hf.
  induction t as [[e|a]|resume IH] using Async_rest_ind; cbn in *; [apply He|apply Hf|].
  intros p Hp. specialize (Ht p Hp). specialize (IH p). destruct (resume p). destruct Ht. split; [done|]. by apply IH.
Qed.

(** The code that reads the signing key and answers. *)
Lemma keeps_with_key known (post : Exn + list byte → Prop) (g : list byte → list byte) :
  (∀ e, post (inl e)) → (∀ seed, known seed → post (inr (g seed))) →
  keeps_task (knows known) post
    (pair ← now (look keyPair); seed ← now (non_null pair); await (mret (g seed))).
Proof.
  intros He Hg. apply interrupted_bind, interrupted_now. intros p [Hk Hs]. split; [done|]. cbn [look fst followed].
  apply interrupted_bind, interrupted_now. intros p1 H1.
  destruct (keyPair p) as [seed|]; cbn [non_null cast_error throw mret D_ret fst snd followed]; [|by split].
  split; [done|]. apply interrupted_await. intros p2 H2. split; [done|]. by apply Hg, Hk.
Qed.

Lemma code_keeps known c : known (new_ed25519 (env_of c)) → keeps_task (knows known) (genuine known c) (code c).
Proof.
  intros Hnew. pose proof (interrupted_call _ _ _ (initialize_keeps known (env_of c) Hnew)) as Hinit.
  destruct c as [env|env|env nonce ts|env key]; cbn [code env_of] in *.
  - apply interrupted_after; [exact Hinit|done|]. intros _. apply keeps_with_key; [done|]. by eexists.
  - apply interrupted_after; [exact Hinit|done|]. intros _.
    apply interrupted_after; [by apply interrupted_now_any|done|]. intros pair. apply interrupted_after; [|done|].
    + apply interrupted_now_any. by intros p Hp; destruct pair.
    + intros seed. apply interrupted_await. intros p Hp. split; [done|]. by eexists.
  - unfold signChallenge_async. destruct (Nat.eqb_spec (length nonce) 32) as [Hl|]; cbn [negb].
    2: { by apply interrupted_now. }
    apply interrupted_after; [exact Hinit|done|]. intros _. apply interrupted_after; [by apply interrupted_now_any|done|]. intros _.
    apply interrupted_bind, interrupted_await. intros p Hp. split; [done|]. cbn [lift fst].
    destruct (authenticate env) as [e|[]] eqn:Ea; cbn [followed negb]; [done| |by apply interrupted_now].
    apply keeps_with_key; [done|]. intros seed Hs. split_and!; [done|done|]. by exists seed.
  - apply interrupted_after; [|done|intros _; by apply interrupted_ret]. unfold establishSession_async.
    apply interrupted_bind_any; [exact Hinit|]. intros _. keeps_any. by match goal with pair : option _ |- _ => destruct pair end.
Qed.

(** ** The app *)

(** The keys that the phone [p] has, in memory or in the storage, and those made for the calls. *)
Definition own_key p (calls : list Call) (seed : list byte) : Prop :=
  keyPair p = Some seed ∨ (∃ text, storage p !! ed25519_key = Some text ∧ _fromHex text = inr seed) ∨
  (∃ c, c ∈ calls ∧ seed = new_ed25519 (env_of c)).

Definition calls_of (a : App) : list Call := (pool a).*1.

Definition app_ok (known : list byte → Prop) (a : App) : Prop :=
  knows known (phone a) ∧ Forall (λ '(c, t), keeps (knows known) (genuine known c) t) (pool a).

Lemma app_step_calls a a' : app_step a a' → calls_of a `prefix_of` calls_of a'.
Proof.
  intros [c|i a1 H]; unfold calls_of, begin, resume_at in *.
  - destruct (code c (phone a)) as [p t]. cbn. rewrite fmap_app. by eexists.
  - destruct (pool a !! i) as [[c [r|resume]]|] eqn:E; try done. destruct (resume (phone a)) as [p t].
    injection H as <-. cbn. rewrite list_fmap_insert. cbn [fst]. rewrite list_insert_id; [done|].
    by rewrite list_lookup_fmap, E.
Qed.

Lemma app_step_ok known a a' :
  (∀ c, c ∈ calls_of a' → known (new_ed25519 (env_of c))) → app_ok known a → app_step a a' → app_ok known a'.
Proof.
  intros Hcalls [Hp Hpool] Hs. revert Hcalls. destruct Hs as [c|i a1 H]; intros Hcalls; unfold begin, resume_at in *.
  - assert (known (new_ed25519 (env_of c))) as Hc.
    { apply Hcalls. unfold calls_of. destruct (code c (phone a)). cbn [pool]. rewrite fmap_app. set_solver. }
    pose proof (code_keeps known c Hc (phone a) Hp) as Hk. destruct (code c (phone a)) as [p t].
    destruct Hk as [H1 H2]. split; [done|]. apply Forall_app. split; [done|]. by apply Forall_singleton.
  - destruct (pool a !! i) as [[c [r|resume]]|] eqn:E; try done.
    pose proof (Forall_lookup_1 _ _ _ _ Hpool E (phone a) Hp) as Hk. destruct (resume (phone a)) as [p t].
    injection H as <-. destruct Hk as [H1 H2]. split; [done|]. by apply Forall_insert.
Qed.

(** C35: The app signs nothing without the user also when calls overlap: however the calls that were
    begun are interleaved, a signature is answered only to a call for a 32-byte nonce whose own
    prompt was approved, and it is made with a key that the phone had, found in its storage or
    generated for one of the calls. *)
Theorem interleaved_signatures p a i env nonce ts signature :
  rtc app_step (mkApp p []) a → answered a i (CallSign env nonce ts) (inr signature) →
  length nonce = 32 ∧ authenticate env = inr true ∧
  ∃ seed, own_key p (calls_of a) seed ∧ signature = ed25519_sign seed (nonce ++ _u64be ts).
Proof.
  intros H Ha. set (known := own_key p (calls_of a)).
  enough (app_ok known a) as [_ Hpool] by exact (Forall_lookup_1 _ _ _ _ Hpool Ha).
  assert (∀ c, c ∈ calls_of a → known (new_ed25519 (env_of c))) as Hcalls by (intros c Hc; right; right; by exists c).
  assert (app_ok known (mkApp p [])) as H0.
  { split; [|done]. split; [by left|]. intros text seed Ht Hs. right. left. by exists text. }
  clear Ha. clearbody known. revert a H Hcalls. apply (rtc_ind_r (λ a, (∀ c, c ∈ calls_of a → known (new_ed25519 (env_of c))) → app_ok known a)); [done|].
  intros a1 a2 _ H2 IH Hcalls.
  assert (∀ c, c ∈ calls_of a1 → c ∈ calls_of a2) as Hsub.
  { intros c Hc. destruct (app_step_calls _ _ H2) as [k ->]. set_solver. }
  eapply app_step_ok; [done| |done]. apply IH. auto.
Qed.

(** *** Every call ends *)

(** [t] is done after at most [n] of its resumptions, whatever happens in between. *)
Fixpoint ends_within {A} (n : nat) (t : Async A) {struct t} : Prop :=
  match t with
  | Done _ => True
  | Await resume =>
      match n with
      | 0 => False
      | S n => ∀ p, let '(_, t) := resume p in ends_within n t
      end
  end.
Definition task_within {A} (n : nat) (m : Task A) : Prop := ∀ p, ends_within n (m p).2.

Lemma ends_within_le {A} n n' (t : Async A) : n ≤ n' → ends_within n t → ends_within n' t.
Proof.
  revert n n'. induction t as [r|resume IH] using Async_rest_ind; intros n n' Hn Ht; [exact I|].
  destruct n as [|n]; [by destruct Ht|]. destruct n' as [|n']; [lia|]. intros p. specialize (Ht p). specialize (IH p).
  destruct (resume p) as [p1 t1]. eapply IH; [|exact Ht]. lia.
Qed.

Lemma bind_within {A B} n k (m : Task A) (f : A → Task B) :
  task_within n m → (∀ a, task_within k (f a)) → task_within (n + k) (m ≫= f).
Proof.
  intros Hm Hf p. specialize (Hm p). unfold mbind, Task_bind. destruct (m p) as [p1 t]. cbn [snd] in Hm. clear p.
  revert n p1 Hm. induction t as [[e|a]|resume IH] using Async_rest_ind; intros n p1 Hm; [exact I| |].
  - eapply ends_within_le; [|apply Hf]. lia.
  - destruct n as [|n]; [by destruct Hm|]. cbn [andThen snd]. intros p. specialize (Hm p). specialize (IH p).
    destruct (resume p) as [p2 t2]. specialize (IH n p2 Hm). cbn [snd] in IH. by destruct (andThen t2 f p2).
Qed.

Lemma now_within {A} (m : D A) : task_within 0 (now m).
Proof. intros p. unfold now. destruct (m p). exact I. Qed.
Lemma await_within {A} (m : D A) : task_within 1 (await m).
Proof. intros p p1. unfold now. destruct (m p1). exact I. Qed.
Lemma ret_within {A} (a : A) : task_within 0 (mret a).
Proof. intros p. exact I. Qed.

Lemma call_within {A} n (m : Task A) : task_within n m → task_within (S n) (await_call m).
Proof.
  intros Hm p. specialize (Hm p). unfold await_call. destruct (m p) as [p1 t]. cbn [snd] in *. clear p p1.
  revert n Hm. induction t as [r|resume IH] using Async_rest_ind; intros n Hm; [done|]. destruct n as [|n]; [by destruct Hm|].
  intros p. specialize (Hm p). specialize (IH p). destruct (resume p) as [p1 t1]. by apply IH.
Qed.

Lemma within_le {A} n n' (m : Task A) : task_within n m → n ≤ n' → task_within n' m.
Proof. intros Hm Hn p. by eapply ends_within_le. Qed.

Ltac within :=
  repeat first
    [ apply now_within | apply await_within | apply ret_within
    | apply call_within
    | eapply bind_within; [|intros ?]
    | match goal with |- context [match ?x with _ => _ end] => destruct x end ].

Lemma initialize_within env : task_within 8 (initialize_async env).
Proof.
  unfold initialize_async. apply (bind_within 0 8); [apply now_within|]. intros [k|].
  { eapply within_le; [apply ret_within|lia]. }
  apply (bind_within 1 7); [apply await_within|]. intros encoded. apply (bind_within 3 4).
  - destruct encoded as [text|]; [|eapply within_le; [within|lia]]. apply (within_le 1); [|lia].
    apply (bind_within 0 1); [apply now_within|]. intros seed. destruct (length seed =? 32).
    + apply (bind_within 1 0); [apply await_within|intros ?; apply now_within].
    + eapply within_le; [apply now_within|lia].
  - intros _. apply (bind_within 1 3); [apply await_within|]. intros [text|]; [|eapply within_le; [within|lia]].
    apply (within_le 1); [|lia]. apply (bind_within 0 1); [apply now_within|]. intros seed. destruct (length seed =? 32).
    + apply (bind_within 1 0); [apply await_within|intros ?; apply now_within].
    + eapply within_le; [apply now_within|lia].
Qed.

Lemma code_within c : task_within 11 (code c).
Proof.
  destruct c as [env|env|env nonce ts|env key]; cbn [code].
  - apply (within_le 10); [|lia]. apply (bind_within 9 1); [apply call_within, initialize_within|]. intros _. apply within_le with (n := 0 + (0 + 1)); [within|lia].
  - apply (within_le 10); [|lia]. apply (bind_within 9 1); [apply call_within, initialize_within|]. intros _. apply within_le with (n := 0 + (0 + 1)); [within|lia].
  - unfold signChallenge_async. destruct (negb _); [eapply within_le; [apply now_within|lia]|].
    apply (bind_within 9 2); [apply call_within, initialize_within|]. intros _.
    apply (bind_within 0 2); [apply now_within|]. intros _. apply (bind_within 1 1); [apply await_within|].
    intros [|]; cbn [negb]; [|eapply within_le; [apply now_within|lia]]. apply within_le with (n := 0 + (0 + 1)); [within|lia].
  - apply (bind_within 10 1); [|intros _; eapply within_le; [apply ret_within|lia]]. unfold establishSession_async.
    apply (bind_within 9 1); [apply call_within, initialize_within|]. intros _.
    apply (bind_within 0 1); [apply now_within|]. intros bs. destruct (negb _); [eapply within_le; [apply now_within|lia]|].
    apply within_le with (n := 0 + (0 + (1 + 0))); [within|lia].
Qed.

(** Resume calls one after the other. *)
Fixpoint resumes (schedule : list nat) (a : App) : option App :=
  match schedule with
  | [] => Some a
  | i :: schedule => match resume_at i a with Some a => resumes schedule a | None => None end
  end.

Lemma resume_at_inv i a a' :
  resume_at i a = Some a' → ∃ c resume, pool a !! i = Some (c, Await resume) ∧
    a' = mkApp (resume (phone a)).1 (<[i := (c, (resume (phone a)).2)]> (pool a)).
Proof.
  unfold resume_at. destruct (pool a !! i) as [[c [r|resume]]|]; try done. intros H. exists c, resume.
  split; [done|]. destruct (resume (phone a)). by injection H as <-.
Qed.

Lemma resumes_count i schedule n a a' :
  (∀ c t, pool a !! i = Some (c, t) → ends_within n t) → resumes schedule a = Some a' →
  length (filter (λ j, j = i) schedule) ≤ n.
Proof.
  revert n a. induction schedule as [|j schedule IH]; intros n a Hn H; [cbn; lia|]. cbn [resumes] in H.
  destruct (resume_at j a) as [a1|] eqn:E; [|done]. apply resume_at_inv in E as (c & resume & Hj & ->).
  rewrite filter_cons. case_decide as Hji.
  - subst j. pose proof (Hn _ _ Hj) as Ht. destruct n as [|n]; [by destruct Ht|]. cbn [length]. apply le_n_S.
    eapply IH; [|exact H]. cbn [pool]. intros c' t. rewrite list_lookup_insert_eq by (by eapply lookup_lt_Some).
    intros [= <- <-]. specialize (Ht (phone a)). by destruct (resume (phone a)).
  - eapply IH; [|exact H]. cbn [pool]. intros c' t. rewrite list_lookup_insert_ne by done. apply Hn.
Qed.

Lemma pool_within p a : rtc app_step (mkApp p []) a → Forall (λ '(c, t), ends_within 11 t) (pool a).
Proof.
  revert a. apply (rtc_ind_r (λ a, Forall (λ '(c, t), ends_within 11 t) (pool a))); [done|].
  intros a1 a2 _ [c|i a' H] Ha.
  - unfold begin. pose proof (code_within c (phone a1)) as Hc. destruct (code c (phone a1)) as [p1 t].
    apply Forall_app. split; [done|]. by apply Forall_singleton.
  - apply resume_at_inv in H as (c & resume & Hi & ->). apply Forall_insert; [done|].
    pose proof (Forall_lookup_1 _ _ _ _ Ha Hi (phone a1)) as Ht. destruct (resume (phone a1)) as [p1 t].
    eapply ends_within_le; [|exact Ht]. lia.
Qed.

(** Every call is answered, however calls overlap: a call that has no answer yet can always go
    on, and no order of resumptions resumes a call more than eleven times. *)
Theorem overlapping_calls_end p a i :
  rtc app_step (mkApp p []) a →
  (∀ c t, pool a !! i = Some (c, t) → (∃ r, answered a i c r) ∨ is_Some (resume_at i a)) ∧
  (∀ schedule a', resumes schedule a = Some a' → length (filter (λ j, j = i) schedule) ≤ 11).
Proof.
  intros H. split.
  - intros c [r|resume] Hi; [left; by exists r|right]. unfold resume_at. rewrite Hi.
    destruct (resume (phone a)). by eexists.
  - intros schedule a' Hr. eapply resumes_count; [|exact Hr]. intros c t Hi.
    exact (Forall_lookup_1 _ _ _ _ (pool_within _ _ H) Hi).
Qed.

(** *** One call to its end *)

Lemma resumes_steps schedule a a' : resumes schedule a = Some a' → rtc app_step a a'.
Proof.
  revert a. induction schedule as [|i schedule IH]; intros a H; cbn [resumes] in H; [injection H as <-; apply rtc_refl|].
  destruct (resume_at i a) as [a1|] eqn:E; [|done]. eapply rtc_l; [by apply (app_resume _ i)|]. by apply IH.
Qed.

Lemma finish_resumes i c t a :
  pool a !! i = Some (c, t) →
  ∃ n, resumes (replicate n i) a =
    Some (mkApp (finish t (phone a)).2 (<[i := (c, Done (finish t (phone a)).1)]> (pool a))).
Proof.
  destruct a as [p l]. cbn [phone pool]. revert p l.
  induction t as [r|resume IH] using Async_rest_ind; intros p l Hi; cbn [finish lift fst snd].
  - exists 0. cbn. by rewrite list_insert_id.
  - specialize (IH p). destruct (resume p) as [p1 t1] eqn:E. cbn [snd] in IH.
    assert (i < length l) as Hlt by by eapply lookup_lt_Some.
    destruct (IH p1 (<[i := (c, t1)]> l)) as [n Hn]; [by rewrite list_lookup_insert_eq|].
    exists (S n). cbn [replicate resumes]. unfold resume_at. cbn [pool phone]. rewrite Hi, E, Hn.
    by rewrite list_insert_insert_eq.
Qed.

Lemma resumes_finish i c t schedule a a' :
  pool a !! i = Some (c, t) → Forall (λ j, j = i) schedule → resumes schedule a = Some a' →
  ∃ t', pool a' !! i = Some (c, t') ∧ finish t' (phone a') = finish t (phone a).
Proof.
  revert t a. induction schedule as [|j schedule IH]; intros t a Hi Hs H; cbn [resumes] in H.
  { injection H as <-. by exists t. }
  apply Forall_cons in Hs as [-> Hs]. destruct (resume_at i a) as [a1|] eqn:E; [|done].
  apply resume_at_inv in E as (c' & resume & Hj & ->). rewrite Hi in Hj. injection Hj as <- ->.
  edestruct IH as (t' & Ht' & Hf); [|exact Hs|exact H|].
  { cbn [pool]. by rewrite list_lookup_insert_eq by (by eapply lookup_lt_Some). }
  exists t'. split; [done|]. rewrite Hf. cbn [finish phone]. by destruct (resume (phone a)).
Qed.

(** The sequence of [Mobile] for a call. *)
Definition sequence (c : Call) : D (list byte) :=
  match c with
  | CallPublicKey env => publicKey env
  | CallExchangePublicKey env => exchangePublicKey env
  | CallSign env nonce timestamp => signChallenge env nonce timestamp
  | CallEstablish env workstationKey => establishSession env workstationKey ;; mret []
  end.

Lemma code_alone c p : alone (code c) p = sequence c p.
Proof.
  destruct c; [apply publicKey_alone|apply exchangePublicKey_alone|apply signChallenge_alone|].
  cbn [code sequence]. rewrite alone_bind. apply bind_same; [apply establishSession_alone|done].
Qed.

Lemma begin_lookup c a :
  pool (begin c a) !! length (pool a) = Some (c, (code c (phone a)).2) ∧ phone (begin c a) = (code c (phone a)).1.
Proof.
  unfold begin. destruct (code c (phone a)) as [p t]. cbn [pool phone fst snd].
  by rewrite lookup_app_r, Nat.sub_diag by lia.
Qed.

Lemma begin_finish c a : finish (code c (phone a)).2 (phone (begin c a)) = sequence c (phone a).
Proof.
  destruct (begin_lookup c a) as [_ ->]. rewrite <- code_alone. unfold alone. by destruct (code c (phone a)).
Qed.

(** A call that nothing overlaps is the sequence of [Mobile]: when only its own awaits are
    resumed it ends, and it answers and leaves the phone as the sequence does. *)
Theorem lone_call_is_sequence c a :
  let i := length (pool a) in
  (∃ n a' r, resumes (replicate n i) (begin c a) = Some a' ∧ answered a' i c r) ∧
  (∀ schedule a' r, Forall (λ j, j = i) schedule → resumes schedule (begin c a) = Some a' → answered a' i c r →
     sequence c (phone a) = (r, phone a')).
Proof.
  destruct (begin_lookup c a) as [Hi _]. split.
  - destruct (finish_resumes _ _ _ _ Hi) as [n Hn]. eexists n, _, _. split; [exact Hn|]. unfold answered.
    cbn [pool]. rewrite list_lookup_insert_eq; [done|]. by eapply lookup_lt_Some.
  - intros schedule a' r Hs H Ha. destruct (resumes_finish _ _ _ _ _ _ Hi Hs H) as (t & Ht & Hf).
    unfold answered in Ha. rewrite Ha in Ht. injection Ht as <-. by rewrite begin_finish in Hf.
Qed.

(** ** Two calls on a new phone *)

#[local] Arguments ed25519_key : simpl never.
#[local] Arguments x25519_key : simpl never.
#[local] Arguments dart : simpl never.
#[local] Arguments _hex : simpl never.
#[local] Arguments _fromHex : simpl never.

(** What [publicKey] does once it has found no signing key in the storage. *)
Definition generate env : D (list byte) :=
  storage_write env ed25519_key (_hex (new_ed25519 env)) ;;
  update (set_keyPair (new_ed25519 env)) ;;
  exchangeSeed ← storage_read env x25519_key;
  match exchangeSeed with
  | None =>
      update (set_exchangeKeyPair (new_x25519 env)) ;;
      storage_write env x25519_key (_hex (new_x25519 env))
  | Some text =>
      seed ← lift (_fromHex text);
      if length seed =? 32 then update (set_exchangeKeyPair seed)
      else throw (StateError (dart "stored exchange key has invalid length"))
  end ;;
  pair ← look keyPair; seed ← non_null pair; mret (ed25519_public seed).

Lemma publicKey_generates env p :
  keyPair p = None → read_fails env ed25519_key = None → storage p !! ed25519_key = None →
  ∃ resume t, publicKey_async env p = (p, Await resume) ∧ resume p = (p, t) ∧ ∀ q, finish t q = generate env q.
Proof.
  intros Hk Hr Hs. unfold publicKey_async, initialize_async, await_call, mbind, Task_bind, now at 1, look at 1.
  rewrite Hk. cbn [andThen await later_on]. eexists _, _. split; [reflexivity|]. cbv beta. unfold now at 1.
  assert (storage_read env ed25519_key p = (inr None, p)) as ->
    by (unfold storage_read, unless, look, mbind, D_bind; by rewrite Hr, Hs).
  split; [reflexivity|]. intros q. cbn [andThen later_on finish mret D_ret now update look lift].
  unfold generate, storage_write, storage_read, update, look, unless, mbind, D_bind, lift, throw.
  destruct (write_fails env ed25519_key); [reflexivity|]. cbn [andThen later_on finish].
  destruct (read_fails env x25519_key); [reflexivity|]. cbn.
  destruct (<[ed25519_key:=_hex (new_ed25519 env)]> (storage q) !! x25519_key) as [text|].
  - cbn. destruct (_fromHex text) as [e|seed]; [reflexivity|]. cbn. by destruct (length seed =? 32).
  - cbn. by destruct (write_fails env x25519_key).
Qed.

(** The storage answers, and the seeds have 32 bytes. *)
Definition all_works env : Prop := storage_works env ∧ ∀ key, write_fails env key = None.

Lemma generate_run env q :
  all_works env → (storage q !! x25519_key = None ∨ ∃ xs, storage q !! x25519_key = Some (_hex xs) ∧ length xs = 32) →
  ∃ q', generate env q = (inr (ed25519_public (new_ed25519 env)), q') ∧ keyPair q' = Some (new_ed25519 env) ∧
    storage q' !! ed25519_key = Some (_hex (new_ed25519 env)) ∧
    ∃ xs, storage q' !! x25519_key = Some (_hex xs) ∧ length xs = 32.
Proof.
  intros [(Hr & _ & Hx) Hw] Hq. pose proof keys_differ as Hne.
  unfold generate, storage_write, storage_read, update, look, unless, mbind, D_bind. rewrite !Hw, Hr. cbn.
  rewrite lookup_insert_ne by done. destruct Hq as [E|(xs & E & Hl)]; rewrite E.
  - cbn. eexists. split; [reflexivity|]. cbn.
    rewrite lookup_insert_ne, lookup_insert_eq, lookup_insert_eq by done. split_and!; [done..|]. by eexists.
  - unfold lift, _fromHex. rewrite fromHexOr_hex, Hl. cbn. eexists. split; [reflexivity|]. cbn.
    rewrite lookup_insert_eq, lookup_insert_ne by done. split_and!; [done..|]. by exists xs.
Qed.

(** [initialize] is not meant for two calls at once: on a new phone, two calls that both find the
    storage empty make a key each; both are answered, and the first answer names a key that the
    phone neither keeps nor has stored, although no call of the platform failed. *)
Theorem overlapping_calls_replace_key env1 env2 p :
  keyPair p = None → storage p !! ed25519_key = None → storage p !! x25519_key = None →
  all_works env1 → all_works env2 →
  ∃ a, rtc app_step (mkApp p []) a ∧
    answered a 0 (CallPublicKey env1) (inr (ed25519_public (new_ed25519 env1))) ∧
    answered a 1 (CallPublicKey env2) (inr (ed25519_public (new_ed25519 env2))) ∧
    keyPair (phone a) = Some (new_ed25519 env2) ∧ storage (phone a) !! ed25519_key = Some (_hex (new_ed25519 env2)).
Proof.
  intros Hk Hs Hx H1 H2. pose proof H1 as [(Hr1 & _) _]. pose proof H2 as [(Hr2 & _) _].
  destruct (publicKey_generates env1 p Hk (Hr1 _) Hs) as (r1 & t1 & Ht1 & Hp1 & Hf1).
  destruct (publicKey_generates env2 p Hk (Hr2 _) Hs) as (r2 & t2 & Ht2 & Hp2 & Hf2).
  destruct (generate_run env1 p H1) as (p1 & Hg1 & _ & _ & Hx1); [by left|].
  destruct (generate_run env2 p1 H2) as (p2 & Hg2 & Hk2 & Hs2 & _); [by right|].
  set (c1 := CallPublicKey env1). set (c2 := CallPublicKey env2).
  destruct (finish_resumes 0 c1 t1 (mkApp p [(c1, t1); (c2, t2)])) as [n Hn]; [done|].
  destruct (finish_resumes 1 c2 t2 (mkApp p1 [(c1, Done (inr (ed25519_public (new_ed25519 env1)))); (c2, t2)])) as [m Hm]; [done|].
  cbn [phone pool] in Hn, Hm. rewrite Hf1, Hg1 in Hn. rewrite Hf2, Hg2 in Hm. cbn in Hn, Hm.
  exists (mkApp p2 [(c1, Done (inr (ed25519_public (new_ed25519 env1)))); (c2, Done (inr (ed25519_public (new_ed25519 env2))))]).
  split; [|done]. apply rtc_l with (y := mkApp p [(c1, Await r1)]).
  { pose proof (app_begin (mkApp p []) c1) as H. unfold begin in H. cbn [code c1 phone] in H. by rewrite Ht1 in H. }
  apply rtc_l with (y := mkApp p [(c1, Await r1); (c2, Await r2)]).
  { pose proof (app_begin (mkApp p [(c1, Await r1)]) c2) as H. unfold begin in H. cbn [code c2 phone] in H. by rewrite Ht2 in H. }
  apply rtc_l with (y := mkApp p [(c1, t1); (c2, Await r2)]); [apply (app_resume _ 0); unfold resume_at; cbn; by rewrite Hp1|].
  apply rtc_l with (y := mkApp p [(c1, t1); (c2, t2)]); [apply (app_resume _ 1); unfold resume_at; cbn; by rewrite Hp2|].
  etrans; [by eapply resumes_steps|]. by eapply resumes_steps.
Qed.
End Tasks.

(** ** Witnesses *)

Definition demo_sign : Call := CallSign demo_env (replicate 32 nul) 1700000000.
Definition demo_ask : Call := CallPublicKey demo_env.

(** Two calls, and the order in which they are resumed. *)
Definition demo_begun : App := begin demo_ask (begin demo_sign (mkApp fresh_phone [])).
Definition demo_order : list nat := [0; 1; 0; 1; 0; 0; 1; 0; 0; 0; 0; 0; 0; 0].
Definition demo_signed : App := default demo_begun (resumes demo_order demo_begun).

Lemma demo_signed_steps : rtc app_step (mkApp fresh_phone []) demo_signed.
Proof.
  eapply rtc_l; [apply (app_begin _ demo_sign)|]. eapply rtc_l; [apply (app_begin _ demo_ask)|].
  apply (resumes_steps demo_order). fold demo_begun. unfold demo_signed.
  assert (is_some (resumes demo_order demo_begun) = true) as H by vm_eq.
  by destruct (resumes demo_order demo_begun).
Qed.

Lemma interleaved_signatures_witness :
  length (replicate 32 nul) = 32 ∧ authenticate demo_env = inr true ∧
  ∃ seed, own_key fresh_phone (calls_of demo_signed) seed ∧
    ref_sign phone_seed (replicate 32 nul ++ _u64be 1700000000) = ed25519_sign seed (replicate 32 nul ++ _u64be 1700000000).
Proof. apply (interleaved_signatures fresh_phone demo_signed 0 _ _ _ _ demo_signed_steps). vm_compute; reflexivity. Defined.

Definition other_env : Env :=
  mkEnv (replicate 32 Init.Byte.x23) (replicate 32 Init.Byte.x24) (λ _, replicate 12 Init.Byte.x02) (inr true) (λ _, None) (λ _, None) None.

Lemma overlapping_calls_replace_key_witness :
  new_ed25519 demo_env ≠ new_ed25519 other_env ∧
  ∃ a, rtc app_step (mkApp fresh_phone []) a ∧
    answered a 0 (CallPublicKey demo_env) (inr (ed25519_public (new_ed25519 demo_env))) ∧
    answered a 1 (CallPublicKey other_env) (inr (ed25519_public (new_ed25519 other_env))) ∧
    keyPair (phone a) = Some (new_ed25519 other_env) ∧
    storage (phone a) !! ed25519_key = Some (_hex (new_ed25519 other_env)).
Proof.
  split; [by vm_compute|].
  apply (overlapping_calls_replace_key demo_env other_env fresh_phone); [reflexivity|reflexivity|reflexivity| |]; by repeat split.
Defined.

Lemma overlapping_calls_end_witness :
  (∀ c t, pool demo_signed !! 0 = Some (c, t) → (∃ r, answered demo_signed 0 c r) ∨ is_Some (resume_at 0 demo_signed)) ∧
  (∀ schedule a', resumes schedule demo_signed = Some a' → length (filter (λ j, j = 0) schedule) ≤ 11).
Proof. apply (overlapping_calls_end fresh_phone demo_signed 0 demo_signed_steps). Defined.

Lemma lone_call_is_sequence_witness :
  let i := length (pool (mkApp fresh_phone [])) in
  (∃ n a' r, resumes (replicate n i) (begin demo_sign (mkApp fresh_phone [])) = Some a' ∧ answered a' i demo_sign r) ∧
  (∀ schedule a' r, Forall (λ j, j = i) schedule → resumes schedule (begin demo_sign (mkApp fresh_phone [])) = Some a' →
     answered a' i demo_sign r → sequence demo_sign fresh_phone = (r, phone a')).
Proof. apply (lone_call_is_sequence demo_sign (mkApp fresh_phone [])). Defined.
