(* ===== verification/Proximity.v ===== *)
(** * The proximity switch (src/mobile/lib: main.dart, ble_service.dart)

    [toggleProximity] with [BleService.startProximityScan] and [BleService.stop]:
    three asynchronous functions over one page and one scanner.  A call runs to its
    first await; what follows an await is a [Task] that is resumed later, or not at
    all when the awaited future fails.  Other taps and scan results come in
    between, so that two toggles can overlap.  The platform's scanner is the list
    of calls it received.  [connect] and [connectAndDiscover], which the app does not
    call, are at the end. *)
From stdpp Require Import base gmap sets list strings relations.
From Stdlib Require Import ZArith Lia.
From S2P Require Import Prelude Qt Mobile.

Inductive ScanCall : Type := StartScan | StopScan.

(** What a pending await continues with. *)
Inductive SwitchTask : Type :=
  | StartCancelled       (* startProximityScan after _subscription?.cancel() *)
  | StartStopped         (* startProximityScan after stopScan() *)
  | Started              (* startProximityScan after startScan() *)
  | SwitchedOff          (* toggleProximity after proximitySubscription?.cancel() *)
  | StopStopped (closing : bool)     (* stop after stopScan(), called by dispose or not *)
  | StopCancelled (closing : bool)   (* stop after _subscription?.cancel() *)
  | Stopped.             (* BleService.dispose after stop() *)

(** Subscriptions are numbered; [pageListeners] are the live ones on [ble.devices],
    [scanListeners] the live ones on [FlutterBluePlus.onScanResults]. *)
Record Switch : Type := mkSwitch {
  proximity : bool;
  proximitySubscription : option nat;
  pageListeners : gset nat;
  subscription_ : option nat;
  scanListeners : gset nat;
  nearby_ : gmap DartString bool;
  calls : list ScanCall;
  updates : list ProximityEvent;     (* the events shown as status *)
  next_id : nat;
  tasks : list SwitchTask;
  mounted : bool;
  devicesClosed : bool;              (* the stream controller _devices *)
}.

Definition set_proximity b s := mkSwitch b (proximitySubscription s) (pageListeners s) (subscription_ s) (scanListeners s) (nearby_ s) (calls s) (updates s) (next_id s) (tasks s) (mounted s) (devicesClosed s).
Definition set_nearby m s := mkSwitch (proximity s) (proximitySubscription s) (pageListeners s) (subscription_ s) (scanListeners s) m (calls s) (updates s) (next_id s) (tasks s) (mounted s) (devicesClosed s).
Definition set_subscription o s := mkSwitch (proximity s) (proximitySubscription s) (pageListeners s) o (scanListeners s) (nearby_ s) (calls s) (updates s) (next_id s) (tasks s) (mounted s) (devicesClosed s).
Definition add_call c s := mkSwitch (proximity s) (proximitySubscription s) (pageListeners s) (subscription_ s) (scanListeners s) (nearby_ s) (calls s ++ [c]) (updates s) (next_id s) (tasks s) (mounted s) (devicesClosed s).
Definition add_updates l s := mkSwitch (proximity s) (proximitySubscription s) (pageListeners s) (subscription_ s) (scanListeners s) (nearby_ s) (calls s) (updates s ++ l) (next_id s) (tasks s) (mounted s) (devicesClosed s).
Definition set_tasks l s := mkSwitch (proximity s) (proximitySubscription s) (pageListeners s) (subscription_ s) (scanListeners s) (nearby_ s) (calls s) (updates s) (next_id s) l (mounted s) (devicesClosed s).
Definition set_mounted b s := mkSwitch (proximity s) (proximitySubscription s) (pageListeners s) (subscription_ s) (scanListeners s) (nearby_ s) (calls s) (updates s) (next_id s) (tasks s) b (devicesClosed s).
Definition close_devices s := mkSwitch (proximity s) (proximitySubscription s) (pageListeners s) (subscription_ s) (scanListeners s) (nearby_ s) (calls s) (updates s) (next_id s) (tasks s) (mounted s) true.
Definition await (t : SwitchTask) (s : Switch) : Switch := set_tasks (tasks s ++ [t]) s.

(** [ble.devices.listen(...)], [FlutterBluePlus.onScanResults.listen(...)] *)
Definition listen_page s := mkSwitch (proximity s) (Some (next_id s)) ({[next_id s]} ∪ pageListeners s) (subscription_ s) (scanListeners s) (nearby_ s) (calls s) (updates s) (S (next_id s)) (tasks s) (mounted s) (devicesClosed s).
Definition listen_scan s := mkSwitch (proximity s) (proximitySubscription s) (pageListeners s) (Some (next_id s)) ({[next_id s]} ∪ scanListeners s) (nearby_ s) (calls s) (updates s) (S (next_id s)) (tasks s) (mounted s) (devicesClosed s).

(** [subscription?.cancel()]: the listener gets no more events. *)
Definition cancelled (o : option nat) (l : gset nat) : gset nat :=
  match o with Some i => l ∖ {[i]} | None => l end.
Definition cancel_page s := mkSwitch (proximity s) (proximitySubscription s) (cancelled (proximitySubscription s) (pageListeners s)) (subscription_ s) (scanListeners s) (nearby_ s) (calls s) (updates s) (next_id s) (tasks s) (mounted s) (devicesClosed s).
Definition cancel_scan s := mkSwitch (proximity s) (proximitySubscription s) (pageListeners s) (subscription_ s) (cancelled (subscription_ s) (scanListeners s)) (nearby_ s) (calls s) (updates s) (next_id s) (tasks s) (mounted s) (devicesClosed s).

Definition Switch_new : Switch := mkSwitch false None ∅ None ∅ ∅ [] [] 0 [] true false.

(** The part of [startProximityScan] and of [stop] before their first await. *)
Definition startProximityScan (s : Switch) : Switch := await StartCancelled (cancel_scan s).
Definition ble_service_stop (closing : bool) (s : Switch) : Switch :=
  await (StopStopped closing) (add_call StopScan s).

Definition toggleProximity (value : bool) (s : Switch) : Switch :=
  let s := set_proximity value s in
  if value then startProximityScan (listen_page s) else await SwitchedOff (cancel_page s).

(** The page is gone: [proximitySubscription?.cancel(); ble.dispose();], neither awaited. *)
Definition dispose (s : Switch) : Switch := ble_service_stop true (cancel_page (set_mounted false s)).

(** What follows an await. *)
Definition continue (t : SwitchTask) (s : Switch) : Switch :=
  match t with
  | StartCancelled => await StartStopped (add_call StopScan s)
  | StartStopped => await Started (add_call StartScan (listen_scan s))
  | Started => s
  | SwitchedOff => ble_service_stop false s
  | StopStopped closing => await (StopCancelled closing) (cancel_scan s)
  | StopCancelled closing =>
      let s := set_nearby ∅ (set_subscription None s) in
      if closing then await Stopped s else s
  | Stopped => close_devices s
  end.

(** The [i]-th pending await ends; a failed future ends its function. *)
Definition resume (i : nat) (t : SwitchTask) (succeeded : bool) (s : Switch) : Switch :=
  let s := set_tasks (delete i (tasks s)) s in
  if succeeded then continue t s else s.

(** The results up to the first that leads to an event. *)
Fixpoint first_event (results : list ScanResult) : list ScanResult :=
  match results with
  | [] => []
  | r :: results => if has_service r then [r] else r :: first_event results
  end.

(** One listener of [onScanResults]: the events go to every listener of the page at once; on
    the closed controller the first event throws, and the rest of the results is lost. *)
Definition scan_listener (results : list ScanResult) (s : Switch) : Switch :=
  let results := if devicesClosed s then first_event results else results in
  let '(nearby, events) := onScanResults (-70) (-82) results (nearby_ s, []) in
  add_updates (if devicesClosed s then [] else events ≫= λ e, replicate (size (pageListeners s)) e)
    (set_nearby nearby s).
Definition scan_results (results : list ScanResult) (s : Switch) : Switch :=
  Nat.iter (size (scanListeners s)) (scan_listener results) s.

(** The switch of the page calls [toggleProximity] with the value it does not show. *)
Inductive switch_step (s : Switch) : Switch → Prop :=
  | step_toggle : mounted s = true → switch_step s (toggleProximity (negb (proximity s)) s)
  | step_dispose : mounted s = true → switch_step s (dispose s)
  | step_resume i t succeeded : tasks s !! i = Some t → switch_step s (resume i t succeeded s)
  | step_results results : switch_step s (scan_results results s).

(** The same on a page that stays, when nobody taps before the last tap is done, and no future fails. *)
Inductive patient_step (s : Switch) : Switch → Prop :=
  | patient_toggle : tasks s = [] → patient_step s (toggleProximity (negb (proximity s)) s)
  | patient_resume i t : tasks s !! i = Some t → patient_step s (resume i t true s)
  | patient_results results : patient_step s (scan_results results s).

(** The platform scans after the last call was [startScan]. *)
Definition scanning (s : Switch) : bool := match last (calls s) with Some StartScan => true | _ => false end.

(** ** The listener of the page *)

(** The page listens exactly while it is there and the switch is on, and only once. *)
Definition page_ok (s : Switch) : Prop :=
  if mounted s && proximity s then ∃ i, pageListeners s = {[i]} ∧ proximitySubscription s = Some i
  else pageListeners s = ∅.

(** What a scan result does not touch. *)
Lemma scan_results_same results s :
  ∃ nearby evs, scan_results results s = add_updates evs (set_nearby nearby s) ∧
    (scanListeners s = ∅ → nearby = nearby_ s ∧ evs = []).
Proof.
  unfold scan_results. destruct (decide (scanListeners s = ∅)) as [E|E].
  - rewrite E, size_empty. exists (nearby_ s), []. split; [|done].
    destruct s. cbn. unfold add_updates, set_nearby. cbn. by rewrite app_nil_r.
  - generalize (size (scanListeners s)). intros n.
    enough (∃ nearby evs, Nat.iter n (scan_listener results) s = add_updates evs (set_nearby nearby s))
      as (nearby & evs & H) by (by exists nearby, evs).
    induction n as [|n (nearby & evs & IH)].
    + exists (nearby_ s), []. destruct s. cbn. unfold add_updates, set_nearby. cbn. by rewrite app_nil_r.
    + cbn [Nat.iter nat_rect]. fold (Nat.iter n (scan_listener results) s). rewrite IH. unfold scan_listener.
      destruct (onScanResults _ _ _ _) as [nearby' events]. eexists nearby', _.
      unfold add_updates, set_nearby. cbn. by rewrite app_assoc.
Qed.

Lemma page_ok_step s s' : page_ok s → switch_step s s' → page_ok s'.
Proof.
  intros Hs [Hm|Hm|i t b Hi|results].
  - unfold page_ok, toggleProximity in *. rewrite Hm in Hs. destruct (proximity s); cbn in *; rewrite Hm; cbn.
    + destruct Hs as (i & -> & ->). cbn. set_solver.
    + rewrite Hs. exists (next_id s). split; [set_solver|done].
  - unfold page_ok in *. rewrite Hm in Hs. cbn in *. destruct (proximity s); [|by rewrite Hs; destruct (proximitySubscription s); set_solver].
    destruct Hs as (i & -> & ->). cbn. set_solver.
  - unfold resume. destruct b; [destruct t as [| | | | |[]|]|]; exact Hs.
  - destruct (scan_results_same results s) as (nearby & evs & -> & _). exact Hs.
Qed.

(** However taps, scan results and awaits interleave, whatever fails, and whenever the page
    goes: it listens exactly while it is there and its switch is on, and never twice, so that it
    shows no event twice, and none after it was switched off. *)
Theorem page_listens_while_on s : rtc switch_step Switch_new s → page_ok s.
Proof.
  intros H. assert (page_ok Switch_new) as H0 by done. revert H0.
  induction H as [|s1 s2 s3 Hs _ IH]; [done|]. intros H1. apply IH. by eapply page_ok_step.
Qed.

(** ** The scanner *)

Definition scan_on (s : Switch) : Prop :=
  scanning s = true ∧ ∃ i, scanListeners s = {[i]} ∧ subscription_ s = Some i.
Definition scan_off (s : Switch) : Prop :=
  scanning s = false ∧ scanListeners s = ∅ ∧ subscription_ s = None ∧ nearby_ s = ∅.

(** Where a single toggle stands. *)
Definition settled (s : Switch) : Prop :=
  match tasks s with
  | [] => if proximity s then scan_on s else scan_off s
  | [StartCancelled] | [StartStopped] => proximity s = true ∧ scanListeners s = ∅
  | [Started] => proximity s = true ∧ scan_on s
  | [SwitchedOff] => proximity s = false ∧ ∃ i, scanListeners s = {[i]} ∧ subscription_ s = Some i
  | [StopStopped false] =>
      proximity s = false ∧ scanning s = false ∧ ∃ i, scanListeners s = {[i]} ∧ subscription_ s = Some i
  | [StopCancelled false] => proximity s = false ∧ scanning s = false ∧ scanListeners s = ∅
  | _ => False
  end.

Lemma last_call c s : last (calls s ++ [c]) = Some c.
Proof. apply last_snoc. Qed.

Lemma settled_one s t : settled s → t ∈ tasks s → tasks s = [t].
Proof.
  unfold settled. destruct (tasks s) as [|t1 [|t2 l]].
  - by intros _ ?%not_elem_of_nil.
  - by intros _ ->%list_elem_of_singleton.
  - by destruct t1 as [| | | |[]|[]|].
Qed.

Lemma settled_step s s' : settled s → patient_step s s' → settled s'.
Proof.
  intros Hs [Ht|i t Hi|results].
  - unfold settled in Hs. rewrite Ht in Hs. unfold toggleProximity. destruct (proximity s); cbn [negb].
    + destruct Hs as [_ Hs]. unfold settled. cbn. rewrite Ht. by split.
    + destruct Hs as (_ & Hl & Hsub & _). unfold settled. cbn. rewrite Ht, Hl, Hsub. by split.
  - assert (tasks s = [t]) as Ht by (eapply settled_one; [done|by eapply list_elem_of_lookup_2]).
    rewrite Ht in Hi. destruct i as [|i]; [|done]. clear Hi.
    unfold settled in Hs. rewrite Ht in Hs. unfold resume, settled, scan_on, scan_off, scanning in *.
    rewrite Ht. cbn [delete list_delete set_tasks tasks]. destruct t as [| | | |[]|[]|]; cbn; rewrite ?last_snoc; try done.
    + destruct Hs as [-> ->]. split_and!; [done..|]. exists (next_id s). split; [set_solver|done].
    + destruct Hs as [-> Hs]. exact Hs.
    + destruct Hs as [-> Hs]. by split_and!.
    + destruct Hs as (-> & H1 & i & -> & ->). split_and!; [done..|]. cbn. set_solver.
    + by destruct Hs as (-> & H1 & H2).
  - destruct (scan_results_same results s) as (nearby & evs & -> & Hsame). unfold settled, scan_on, scan_off, scanning in *. cbn.
    destruct (tasks s) as [|t [|]]; [|destruct t as [| | | |[]|[]|]; exact Hs|destruct t as [| | | |[]|[]|]; exact Hs]. destruct (proximity s); [exact Hs|].
    destruct Hs as (H1 & H2 & H3 & H4). destruct (Hsame H2) as [-> _]. by split_and!.
Qed.

(** C33: The switch does what it says as long as nobody is in a hurry: while the page stays, if no
    tap comes before the previous one is done and no call of the Bluetooth package fails, then whenever nothing is
    pending the phone scans exactly if the switch is on, with one listener, and with none and
    no device left counted as nearby if it is off. *)
Theorem switch_settles s :
  rtc patient_step Switch_new s → tasks s = [] →
  scanning s = proximity s ∧ size (scanListeners s) = (if proximity s then 1 else 0) ∧
  (proximity s = false → nearby_ s = ∅).
Proof.
  intros H Ht. assert (settled s) as Hs.
  { assert (settled Switch_new) as H0 by done. clear Ht. revert H0.
    induction H as [|s1 s2 s3 Hs _ IH]; [done|]. intros H1. apply IH. by eapply settled_step. }
  unfold settled in Hs. rewrite Ht in Hs. destruct (proximity s).
  - destruct Hs as (H1 & i & -> & _). by rewrite size_singleton.
  - destruct Hs as (H1 & -> & _ & H2). by rewrite size_empty.
Qed.

(** A second tap before the first is done leaves the phone scanning with the switch off, for
    good: from any state with the switch off and nothing pending, a tap, and a tap that
    switches off while the first still waits for [cancel], with every await resumed in its turn
    and nothing failing, end with the switch off, nothing pending, and [startScan] as the last
    call. *)
Theorem hasty_switch_keeps_scanning s :
  mounted s = true → tasks s = [] → proximity s = false →
  ∃ s', rtc switch_step s s' ∧ tasks s' = [] ∧ proximity s' = false ∧ scanning s' = true.
Proof.
  intros Hm Ht Hp.
  assert (∀ s t l, tasks s = t :: l → switch_step s (resume 0 t true s)) as Hresume.
  { intros s0 t l E. apply step_resume. by rewrite E. }
  eexists. split.
  { eapply rtc_l; [by apply step_toggle|]. eapply rtc_l; [apply step_toggle; by rewrite Hp|]. rewrite Hp. cbn [negb proximity toggleProximity].
    do 5 (eapply rtc_l; [eapply Hresume; cbn; rewrite Ht; reflexivity|cbn]). eapply rtc_l; [eapply Hresume; cbn; rewrite Ht; reflexivity|].
    apply rtc_refl. }
  unfold scanning. cbn. rewrite Ht. cbn. split_and!; [done..|]. by rewrite last_snoc.
Qed.

(** *** Witnesses *)

Definition demo_switched_on : Switch :=
  resume 0 Started true (resume 0 StartStopped true (resume 0 StartCancelled true (toggleProximity true Switch_new))).

Lemma demo_switched_on_steps : rtc patient_step Switch_new demo_switched_on.
Proof.
  eapply rtc_l; [by apply patient_toggle|]. do 3 (eapply rtc_l; [by eapply (patient_resume _ 0)|]). apply rtc_refl.
Qed.

Lemma page_listens_while_on_witness : page_ok (toggleProximity true Switch_new).
Proof. apply page_listens_while_on. by apply rtc_once, (step_toggle Switch_new). Defined.

Lemma switch_settles_witness :
  scanning demo_switched_on = true ∧ size (scanListeners demo_switched_on) = 1 ∧
  (true = false → nearby_ demo_switched_on = ∅).
Proof. apply (switch_settles demo_switched_on demo_switched_on_steps). reflexivity. Defined.

Lemma hasty_switch_keeps_scanning_witness :
  ∃ s', rtc switch_step Switch_new s' ∧ tasks s' = [] ∧ proximity s' = false ∧ scanning s' = true.
Proof. by apply (hasty_switch_keeps_scanning Switch_new). Defined.

(** ** The GATT connection *)

Abbreviation Guid := DartString.
Definition openBioUnlockService : Guid := dart "8c4f1000-7f7b-4c42-a6be-6f5b4b7e0001".
Definition openBioUnlockControlCharacteristic : Guid := dart "8c4f1001-7f7b-4c42-a6be-6f5b4b7e0001".

Record BluetoothService : Type := mkService { service_uuid : Guid; characteristics : list Guid }.

(** [String.contains] *)
Fixpoint contains (text part : DartString) : bool :=
  bool_decide (part `prefix_of` text) || match text with [] => false | _ :: text => contains text part end.

(** [connected]: what [device.connect] throws, if anything. *)
Definition connect (isConnected : bool) (connected : option Exn) : Exn + unit :=
  if isConnected then inr tt
  else match connected with
       | None => inr tt
       | Some error =>
           if negb (contains (exn_toString error) (dart "already_connected")) then inl error else inr tt
       end.

(** [found]: what [device.discoverServices] answers. *)
Definition connectAndDiscover (isConnected : bool) (connected : option Exn) (found : Exn + list BluetoothService)
    : Exn + list BluetoothService :=
  match connect isConnected connected with
  | inl error => inl error
  | inr _ =>
      match found with
      | inl error => inl error
      | inr services =>
          let hasOpenBioUnlock := existsb (λ service, bool_decide (service_uuid service = openBioUnlockService) &&
            existsb (λ characteristic, bool_decide (characteristic = openBioUnlockControlCharacteristic))
              (characteristics service)) services in
          if negb hasOpenBioUnlock
          then inl (StateError (dart "device does not expose the OpenBioUnlock GATT service"))
          else inr services
      end
  end.

(** [connectAndDiscover] returns services only of a device that is connected, or says so, and
    that exposes the control characteristic in the service of the project. *)
Lemma connectAndDiscover_exposes isConnected connected found services :
  connectAndDiscover isConnected connected found = inr services →
  found = inr services ∧
  (∀ error, isConnected = false → connected = Some error →
     contains (exn_toString error) (dart "already_connected") = true) ∧
  ∃ service, service ∈ services ∧ service_uuid service = openBioUnlockService ∧
    openBioUnlockControlCharacteristic ∈ characteristics service.
Proof.
  unfold connectAndDiscover, connect. intros H.
  assert (∀ error, isConnected = false → connected = Some error →
    contains (exn_toString error) (dart "already_connected") = true) as Hc.
  { intros error -> ->. destruct (contains _ _); [done|discriminate]. }
  destruct (if isConnected then _ else _) as [e|]; [done|]. destruct found as [e|found]; [done|].
  destruct (existsb _ _) eqn:E; [|done]. injection H as <-. split_and!; [done..|].
  apply existsb_exists in E as (service & Hin & [Hu Hx]%andb_true_iff). apply bool_decide_eq_true in Hu.
  apply existsb_exists in Hx as (characteristic & Hin2 & Hx). apply bool_decide_eq_true in Hx as ->.
  exists service. split_and!; [by apply list_elem_of_In|done|by apply list_elem_of_In].
Qed.
